(** * Hyperion ORM core: identity map, change tracker, unit of work,
      transaction manager and connection-pool reconnection

    A shallow embedding of the TypeScript sources
      - [src/core/identity-map.ts]: class [IdentityMap], and the classes
        [ConnectionPool] and [PooledConnection] that follow it there
        (reconnection, queries and their metrics, pool transactions);
      - [src/core/unit-of-work.ts]: class [UnitOfWork], and the class
        [ChangeTracker] with its proxy handlers that follows it there;
      - the transaction manager (class [TransactionManager], in
        [src/unnamed/part_004]);
      - [src/utils/index.ts]: [isObject], [deepClone];
    followed by the properties established about them.

    Conventions of the embedding.
    - JavaScript objects live in an explicit heap of cells addressed by
      locations; a reference is a location, so reference identity ([===] on
      objects) is equality of locations.  Proxies are heap cells of their own.
    - Numbers are integers ([Z]); NaN, infinities, negative zero and
      fractions are outside the model.
    - Methods that can throw return a [result] together with the state in
      which the exception left the object (JavaScript does not undo writes).
    - [async] methods run sequentially; an awaited promise that rejects is a
      thrown error.  The database connection is an oracle deciding, from the
      statements already sent and the next one, whether the statement fails.
    - [async] callbacks handed to the transaction manager are sequential
      computations on the manager; they may call back into it.
    - The key objects of the identity map are held by weak references only,
      so the garbage collector may reclaim any of them between two calls:
      a collection is a step of the environment ([collect_garbage]), after
      which the entries stored under the reclaimed key objects are gone and
      the weak references to them are dead.  No collection runs inside a
      call.
    - Wall-clock readings ([Date.now()]) and the derived [duration] fields
      are left out, except in the query metrics of the pool, where the
      driver supplies them. *)

From Stdlib Require Import ZArith List String Ascii Bool Lia.
From stdpp Require Import base gmap strings list pretty sorting.

Open Scope string_scope.
Open Scope list_scope.
Open Scope Z_scope.

(* ================================================================== *)
(** * Part I: the program                                              *)
(* ================================================================== *)

(** ** Thrown values *)

(** What the modelled code throws.  [DriverError] stands for any error
    object raised by the database driver or by a user callback; [code] is
    its optional [.code] property. *)
Inductive error : Type :=
| InvalidKey (entity : string)
| NotTracked (entity : string)
| NotLoaded (entity : string)
| UnregisteredEntityKind (entity : string)
| NoMetadata (entity : string)
| NoConnection
| UnitOfWorkClosed
| NoActiveTransaction (transactionId : string)
| SavepointNotFound (savepointName : string)
| TransactionTimeout (ms : Z)
| DriverError (code : option string) (message : string)
| TypeError (message : string)
| RangeError (message : string)
| ThrownUndefined.

#[global] Instance error_eq_dec : EqDecision error.
Proof. solve_decision. Defined.

Inductive result (A : Type) : Type :=
| Ok (a : A)
| Throw (e : error).
Arguments Ok {A} a.
Arguments Throw {A} e.

(** ** A state-and-exception monad *)

Definition M (S A : Type) : Type := S -> result A * S.

Definition ret {S A} (a : A) : M S A := fun s => (Ok a, s).
Definition throw {S A} (e : error) : M S A := fun s => (Throw e, s).
Definition bind {S A B} (c : M S A) (k : A -> M S B) : M S B :=
  fun s => match c s with
           | (Ok a, s') => k a s'
           | (Throw e, s') => (Throw e, s')
           end.
Definition get_state {S} : M S S := fun s => (Ok s, s).
Definition gets {S A} (f : S -> A) : M S A := fun s => (Ok (f s), s).
Definition modify {S} (f : S -> S) : M S unit := fun s => (Ok tt, f s).

(** [try { c } catch (e) { h e }] *)
Definition try_catch {S A} (c : M S A) (h : error -> M S A) : M S A :=
  fun s => match c s with
           | (Ok a, s') => (Ok a, s')
           | (Throw e, s') => h e s'
           end.

(** [try { c } finally { f }] where [f] itself does not throw. *)
Definition try_finally {S A} (c : M S A) (f : S -> S) : M S A :=
  fun s => let '(r, s') := c s in (r, f s').

Declare Scope js_scope.
Delimit Scope js_scope with js.
Notation "x <- c ;; k" := (bind c (fun x => k))
  (at level 100, c at next level, right associativity) : js_scope.
Notation "c ;;; k" := (bind c (fun _ => k))
  (at level 100, right associativity) : js_scope.
Open Scope js_scope.

(** [for (const x of xs) { await body x }] *)
Fixpoint for_each {S A} (xs : list A) (body : A -> M S unit) : M S unit :=
  match xs with
  | [] => ret tt
  | x :: rest => body x ;;; for_each rest body
  end.

(** ** JavaScript [Map] with string keys

    A [Map] iterates in insertion order and [set] on a present key keeps
    its position, so it is an association list without duplicate keys. *)

Module JsMap.

Definition t (V : Type) : Type := list (string * V).

Fixpoint get {V} (m : t V) (k : string) : option V :=
  match m with
  | [] => None
  | (k', v) :: rest => if String.eqb k' k then Some v else get rest k
  end.

Fixpoint set {V} (m : t V) (k : string) (v : V) : t V :=
  match m with
  | [] => [(k, v)]
  | (k', v') :: rest =>
      if String.eqb k' k then (k', v) :: rest else (k', v') :: set rest k v
  end.

Fixpoint delete {V} (m : t V) (k : string) : t V :=
  match m with
  | [] => []
  | (k', v') :: rest =>
      if String.eqb k' k then rest else (k', v') :: delete rest k
  end.

Definition size {V} (m : t V) : nat := length m.
Definition keys {V} (m : t V) : list string := map fst m.
Definition values {V} (m : t V) : list V := map snd m.

End JsMap.

(* ------------------------------------------------------------------ *)
(** ** Connection pool: reconnection after a pool-level error          *)
(* ------------------------------------------------------------------ *)

Module ConnectionPool.

(** [config.reconnection], with its numeric fields resolved. *)
Record ReconnectionConfig : Type := {
  enabled : bool;
  maxRetries : Z;
  retryDelay : Z;
  exponentialBackoff : bool
}.

Inductive notification : Type :=
| reconnectionFailed (retries : nat)
| reconnectionAttempt (attempt : nat) (delay : Z)
| reconnectionSuccess (attempts : nat).

(** What a reconnection run does, in order. *)
Inductive action : Type :=
| Emit (n : notification)
| Sleep (ms : Z)
| HealthCheck.

Section Reconnection.

Variable config : ReconnectionConfig.
(** [healthy k]: the outcome of the health check performed after [k]
    earlier failed attempts ([healthCheck] catches its own errors). *)
Variable healthy : nat -> bool.

Definition delay_of (retryCount : nat) : Z :=
  if exponentialBackoff config
  then retryDelay config * 2 ^ Z.of_nat retryCount
  else retryDelay config.

(** The body of [attemptReconnection(retryCount)].  [budget] counts the
    attempts still allowed, [maxRetries - retryCount]: the guard
    [retryCount >= maxRetries] of the source is [budget = 0]. *)
Fixpoint attemptReconnection_from (budget retryCount : nat) : list action :=
  match budget with
  | O => [Emit (reconnectionFailed retryCount)]
  | S budget' =>
      let delay := delay_of retryCount in
      Emit (reconnectionAttempt (retryCount + 1) delay)
      :: Sleep delay
      :: HealthCheck
      :: (if healthy retryCount
          then [Emit (reconnectionSuccess (retryCount + 1))]
          else attemptReconnection_from budget' (S retryCount))
  end.

Definition attemptReconnection (retryCount : nat) : list action :=
  attemptReconnection_from
    (Z.to_nat (maxRetries config - Z.of_nat retryCount)) retryCount.

End Reconnection.

Definition notifications (tr : list action) : list notification :=
  flat_map (fun a => match a with Emit n => [n] | _ => [] end) tr.

Definition sleeps (tr : list action) : list Z :=
  flat_map (fun a => match a with Sleep d => [d] | _ => [] end) tr.

(** *** Query metrics, pooled connections and pool transactions

    The part of the pool that runs statements and keeps the metrics.
    Statement text is ASCII, so that [substring] counts characters as
    JavaScript does. *)

(** [config.monitoring], its flags by truthiness.  An absent threshold
    is [None]: [duration > undefined] is false. *)
Record MonitoringConfig : Type := {
  monitoring_enabled : bool;
  slowQueryThreshold : option Z;
  logQueries : bool
}.

Record QueryMetrics : Type := {
  qm_query : string;
  qm_duration : Z;
  qm_timestamp : Z;
  qm_success : bool;
  qm_error : option string
}.

Inductive pool_event : Type :=
| slowQuery (query : string) (duration : Z)
| queryComplete (metrics : QueryMetrics)
| poolError (e : error).

(** A [PooledConnection]: its [released] flag, and how many times its
    client has been handed back with [client.release()]. *)
Record PooledConnection : Type := {
  released : bool;
  clientReleases : nat
}.

(** The pool: its monitoring configuration, the counters of [stats]
    that the modelled methods write, the stored metrics, the events
    emitted, the statements handed to the driver, and the pooled
    connections created so far (a connection is its index here). *)
Record t : Type := {
  monitoring : MonitoringConfig;
  isShuttingDown : bool;
  totalQueries : nat;
  slowQueries : nat;
  errors : nat;
  queryMetrics : list QueryMetrics;
  emitted : list pool_event;
  sent : list string;
  connections : list PooledConnection
}.

(** [new Error(message)]: an error object with a message and no code. *)
Definition plain_error (message : string) : error := DriverError None message.

Definition with_metrics (total slow : nat) (metrics : list QueryMetrics)
    (events : list pool_event) (p : t) : t :=
  {| monitoring := monitoring p; isShuttingDown := isShuttingDown p;
     totalQueries := total; slowQueries := slow; errors := errors p;
     queryMetrics := metrics; emitted := events; sent := sent p;
     connections := connections p |}.

Definition count_error (p : t) : t :=
  {| monitoring := monitoring p; isShuttingDown := isShuttingDown p;
     totalQueries := totalQueries p; slowQueries := slowQueries p;
     errors := S (errors p);
     queryMetrics := queryMetrics p; emitted := emitted p; sent := sent p;
     connections := connections p |}.

Definition hand_to_driver (sql : string) (p : t) : t :=
  {| monitoring := monitoring p; isShuttingDown := isShuttingDown p;
     totalQueries := totalQueries p; slowQueries := slowQueries p;
     errors := errors p;
     queryMetrics := queryMetrics p; emitted := emitted p; sent := sent p ++ [sql];
     connections := connections p |}.

Definition with_connections (cs : list PooledConnection) (p : t) : t :=
  {| monitoring := monitoring p; isShuttingDown := isShuttingDown p;
     totalQueries := totalQueries p; slowQueries := slowQueries p;
     errors := errors p;
     queryMetrics := queryMetrics p; emitted := emitted p; sent := sent p;
     connections := cs |}.

(** [array.slice(start)] *)
Definition slice_from {A} (start : Z) (l : list A) : list A :=
  if start <? 0
  then drop (Z.to_nat (Z.max (Z.of_nat (length l) + start) 0)) l
  else drop (Z.to_nat start) l.

(** [recordQueryMetrics(query, duration, success, error)], with the
    reading [now] of the clock. *)
Definition recordQueryMetrics (query : string) (duration : Z) (success : bool)
    (error_ : option string) (now : Z) (p : t) : t :=
  if negb (monitoring_enabled (monitoring p)) then p
  else
    let slow := match slowQueryThreshold (monitoring p) with
                | Some threshold => threshold <? duration
                | None => false
                end in
    let metrics :=
      {| qm_query := if logQueries (monitoring p) then query
                     else String.substring 0 100 query +:+ "...";
         qm_duration := duration; qm_timestamp := now;
         qm_success := success; qm_error := error_ |} in
    let pushed := queryMetrics p ++ [metrics] in
    with_metrics
      (S (totalQueries p))
      (if slow then S (slowQueries p) else slowQueries p)
      (if (1000 <? length pushed)%nat then slice_from (-1000) pushed else pushed)
      (emitted p ++ (if slow then [slowQuery query duration] else [])
                 ++ [queryComplete metrics])
      p.

(** [getQueryMetrics(limit = 100)] *)
Definition getQueryMetrics (limit : option Z) (p : t) : list QueryMetrics :=
  slice_from (- default 100 limit) (queryMetrics p).

Definition clearMetrics (p : t) : t :=
  with_metrics (totalQueries p) (slowQueries p) [] (emitted p) p.

Section Driver.

(** The driver: whether a statement fails, given the statements it has
    received before, and with which code and message; how long the
    statement takes; what the clock reads when it is over; and whether
    [pool.connect()] fails, given the number of connections handed out
    before. *)
Variable respond : list string -> string -> option (option string * string).
Variable took : list string -> string -> Z.
Variable clock : list string -> Z.
Variable connects : nat -> option (option string * string).

Definition driver_error (failure : option string * string) : error :=
  DriverError (fst failure) (snd failure).

(** [ConnectionPool.query(sql)]; the rows are left out. *)
Definition query (sql : string) : M t unit :=
  fun p =>
    let duration := took (sent p) sql in
    let now := clock (sent p ++ [sql]) in
    match respond (sent p) sql with
    | None =>
        (Ok tt, recordQueryMetrics sql duration true None now (hand_to_driver sql p))
    | Some failure =>
        (Throw (driver_error failure),
         recordQueryMetrics sql duration false (Some (snd failure)) now
           (count_error (hand_to_driver sql p)))
    end.

Definition healthCheck : M t bool :=
  try_catch (query "SELECT 1" ;;; ret true) (fun _ => ret false).

(** [updateStats] writes gauges and an average that are left out. *)
Definition getConnection : M t nat :=
  fun p =>
    if isShuttingDown p then (Throw (plain_error "Connection pool is shutting down"), p)
    else
      match connects (length (connections p)) with
      | None =>
          (Ok (length (connections p)),
           with_connections
             (connections p ++ [{| released := false; clientReleases := 0 |}]) p)
      | Some failure =>
          (Throw (driver_error failure),
           let p1 := count_error p in
           {| monitoring := monitoring p1; isShuttingDown := isShuttingDown p1;
              totalQueries := totalQueries p1; slowQueries := slowQueries p1;
              errors := errors p1; queryMetrics := queryMetrics p1;
              emitted := emitted p1 ++ [poolError (driver_error failure)];
              sent := sent p1; connections := connections p1 |})
      end.

(** [PooledConnection.query(sql)] on the connection [c]. *)
Definition connection_query (c : nat) (sql : string) : M t unit :=
  fun p =>
    match connections p !! c with
    | None => (Throw (TypeError "no such connection: outside the model"), p)
    | Some connection =>
        if released connection
        then (Throw (plain_error "Connection has been released back to the pool"), p)
        else
          let duration := took (sent p) sql in
          let now := clock (sent p ++ [sql]) in
          (match respond (sent p) sql with
           | None => Ok tt
           | Some failure => Throw (driver_error failure)
           end,
           recordQueryMetrics sql duration true None now (hand_to_driver sql p))
    end.

(** [PooledConnection.release()] *)
Definition release (c : nat) (p : t) : t :=
  match connections p !! c with
  | Some connection =>
      if released connection then p
      else with_connections
             (<[c := {| released := true;
                        clientReleases := S (clientReleases connection) |}]>
                (connections p)) p
  | None => p
  end.

(** [ConnectionPool.transaction(callback, isolationLevel)].  The
    callback is any computation on the pool, given the connection. *)
Definition transaction {T} (callback : nat -> M t T) (isolationLevel : option string)
    : M t T :=
  connection <- getConnection ;;
  try_finally
    (try_catch
       (connection_query connection "BEGIN" ;;;
        (match isolationLevel with
         | Some level =>
             if String.eqb level EmptyString then ret tt
             else connection_query connection
                    ("SET TRANSACTION ISOLATION LEVEL " +:+ level)
         | None => ret tt
         end) ;;;
        result <- callback connection ;;
        connection_query connection "COMMIT" ;;;
        ret result)
       (fun e => connection_query connection "ROLLBACK" ;;; throw e))
    (release connection).

End Driver.

End ConnectionPool.

(* ------------------------------------------------------------------ *)
(** ** Transaction manager                                             *)
(* ------------------------------------------------------------------ *)

Module TransactionManager.

Inductive IsolationLevel : Type :=
| READ_UNCOMMITTED | READ_COMMITTED | REPEATABLE_READ | SERIALIZABLE.

Definition isolation_sql (l : IsolationLevel) : string :=
  match l with
  | READ_UNCOMMITTED => "READ UNCOMMITTED"
  | READ_COMMITTED => "READ COMMITTED"
  | REPEATABLE_READ => "REPEATABLE READ"
  | SERIALIZABLE => "SERIALIZABLE"
  end.

(** An absent field is [None]. *)
Record TransactionOptions : Type := {
  isolationLevel : option IsolationLevel;
  timeout : option Z;
  retryOnDeadlock : option bool;
  maxRetries : option Z;
  retryDelay : option Z;
  readOnly : option bool;
  deferrable : option bool
}.

Definition truthy_bool (b : option bool) : bool := default false b.
(** A number is truthy unless it is [0]. *)
Definition truthy_num (n : option Z) : bool :=
  match n with Some z => negb (z =? 0) | None => false end.

Record TransactionContext : Type := {
  id : string;
  level : nat;
  tx_isolationLevel : option IsolationLevel;
  savepoints : list string;
  tx_readOnly : bool;
  isActive : bool
}.

Definition with_savepoints (sps : list string) (t : TransactionContext) :=
  {| id := id t; level := level t; tx_isolationLevel := tx_isolationLevel t;
     savepoints := sps; tx_readOnly := tx_readOnly t; isActive := isActive t |}.

Definition with_isActive (b : bool) (t : TransactionContext) :=
  {| id := id t; level := level t; tx_isolationLevel := tx_isolationLevel t;
     savepoints := savepoints t; tx_readOnly := tx_readOnly t; isActive := b |}.

Record TransactionResult (T : Type) : Type := {
  tr_result : T;
  retries : nat;
  tr_savepoints : nat
}.
Arguments tr_result {T} _.
Arguments retries {T} _.
Arguments tr_savepoints {T} _.

Inductive event : Type :=
| deadlockRetry (e : error) (attempt : nat) (maxRetries : Z) (delay : Z)
| savepointCreated (transactionId savepoint : string)
| savepointRollback (transactionId savepoint : string)
| savepointReleased (transactionId savepoint : string)
| savepointError (transactionId savepoint : string) (e : error)
| rollbackError (transactionId : string) (e : error)
| transactionStarted (transactionId : string) (level attempt : nat)
| transactionCommitted (transactionId : string) (savepoints : nat)
| transactionRolledBack (transactionId : string) (e : error) (attempt : nat).

(** What the manager does to the outside, in order: statements sent to
    the connection, events emitted, timers awaited. *)
Inductive action : Type :=
| Query (sql : string)
| Emit (ev : event)
| Sleep (ms : Z).

Definition queries (tr : list action) : list string :=
  flat_map (fun a => match a with Query q => [q] | _ => [] end) tr.

Definition sleeps (tr : list action) : list Z :=
  flat_map (fun a => match a with Sleep d => [d] | _ => [] end) tr.

(** The connection: given the statements sent so far and the next one,
    [None] if it succeeds and [Some e] if it rejects with [e]. *)
Definition Connection : Type := list string -> string -> option error.

Record TransactionManager : Type := {
  connection : Connection;
  activeTransactions : JsMap.t TransactionContext;
  nextTransactionId : nat;
  nextSavepointId : nat;
  trace : list action;
  (** number of times the user callback has been invoked *)
  invocations : nat
}.

Definition new (c : Connection) : TransactionManager :=
  {| connection := c; activeTransactions := []; nextTransactionId := 1;
     nextSavepointId := 1; trace := []; invocations := 0 |}.

Definition set_transactions (f : JsMap.t TransactionContext -> JsMap.t TransactionContext)
    (m : TransactionManager) : TransactionManager :=
  {| connection := connection m; activeTransactions := f (activeTransactions m);
     nextTransactionId := nextTransactionId m; nextSavepointId := nextSavepointId m;
     trace := trace m; invocations := invocations m |}.

Definition log (a : action) (m : TransactionManager) : TransactionManager :=
  {| connection := connection m; activeTransactions := activeTransactions m;
     nextTransactionId := nextTransactionId m; nextSavepointId := nextSavepointId m;
     trace := trace m ++ [a]; invocations := invocations m |}.

Definition emit (ev : event) : M TransactionManager unit := modify (log (Emit ev)).
Definition sleep (ms : Z) : M TransactionManager unit := modify (log (Sleep ms)).

(** [await this.connection.query(sql)] *)
Definition query (sql : string) : M TransactionManager unit :=
  fun m =>
    match connection m (queries (trace m)) sql with
    | None => (Ok tt, log (Query sql) m)
    | Some e => (Throw e, log (Query sql) m)
    end.

(** In-place update of a transaction object held in the map. *)
Definition update_transaction (txid : string) (f : TransactionContext -> TransactionContext)
    : M TransactionManager unit :=
  modify (set_transactions (fun txs =>
    match JsMap.get txs txid with
    | Some t => JsMap.set txs txid (f t)
    | None => txs
    end)).

(** [indexOf]: the first index holding [x]. *)
Fixpoint indexOf (l : list string) (x : string) : option nat :=
  match l with
  | [] => None
  | y :: rest => if String.eqb y x then Some O else S <$> indexOf rest x
  end.

(** The guard shared by the savepoint operations and [commitTransaction]. *)
Definition active_transaction (txid : string) : M TransactionManager TransactionContext :=
  fun m =>
    match JsMap.get (activeTransactions m) txid with
    | Some t => if isActive t then (Ok t, m) else (Throw (NoActiveTransaction txid), m)
    | None => (Throw (NoActiveTransaction txid), m)
    end.

Definition fresh_savepoint_name : M TransactionManager string :=
  fun m =>
    (Ok ("sp_" +:+ pretty (nextSavepointId m)),
     {| connection := connection m; activeTransactions := activeTransactions m;
        nextTransactionId := nextTransactionId m;
        nextSavepointId := S (nextSavepointId m);
        trace := trace m; invocations := invocations m |}).

Definition createSavepoint (transactionId : string) (name : option string)
    : M TransactionManager string :=
  transaction <- active_transaction transactionId ;;
  savepointName <-
    (match name with
     | Some n => if String.eqb n EmptyString then fresh_savepoint_name else ret n
     | None => fresh_savepoint_name
     end) ;;
  try_catch
    (query ("SAVEPOINT " +:+ savepointName) ;;;
     update_transaction transactionId
       (fun t => with_savepoints (savepoints t ++ [savepointName]) t) ;;;
     emit (savepointCreated transactionId savepointName) ;;;
     ret savepointName)
    (fun e =>
     emit (savepointError transactionId savepointName e) ;;;
     throw e).

Definition rollbackToSavepoint (transactionId savepointName : string)
    : M TransactionManager unit :=
  transaction <- active_transaction transactionId ;;
  match indexOf (savepoints transaction) savepointName with
  | None => throw (SavepointNotFound savepointName)
  | Some savepointIndex =>
      try_catch
        (query ("ROLLBACK TO SAVEPOINT " +:+ savepointName) ;;;
         (* savepoints.splice(savepointIndex + 1) *)
         update_transaction transactionId
           (fun t => with_savepoints (take (S savepointIndex) (savepoints t)) t) ;;;
         emit (savepointRollback transactionId savepointName))
        (fun e =>
         emit (savepointError transactionId savepointName e) ;;;
         throw e)
  end.

Definition releaseSavepoint (transactionId savepointName : string)
    : M TransactionManager unit :=
  transaction <- active_transaction transactionId ;;
  match indexOf (savepoints transaction) savepointName with
  | None => throw (SavepointNotFound savepointName)
  | Some savepointIndex =>
      try_catch
        (query ("RELEASE SAVEPOINT " +:+ savepointName) ;;;
         (* savepoints.splice(savepointIndex, 1) *)
         update_transaction transactionId
           (fun t => with_savepoints
              (take savepointIndex (savepoints t) ++ drop (S savepointIndex) (savepoints t)) t) ;;;
         emit (savepointReleased transactionId savepointName))
        (fun e =>
         emit (savepointError transactionId savepointName e) ;;;
         throw e)
  end.

Definition getTransaction (m : TransactionManager) (transactionId : string) :=
  JsMap.get (activeTransactions m) transactionId.
Definition getActiveTransactions (m : TransactionManager) :=
  JsMap.values (activeTransactions m).
Definition hasActiveTransactions (m : TransactionManager) : bool :=
  negb (Nat.eqb (JsMap.size (activeTransactions m)) 0).
Definition getNestedLevel (m : TransactionManager) : nat :=
  JsMap.size (activeTransactions m).

Definition isDeadlock (e : error) : bool :=
  match e with
  | DriverError (Some c) _ => bool_decide (c ∈ ["40P01"; "40001"])
  | _ => false
  end.

Definition beginTransaction (transaction : TransactionContext) (options : TransactionOptions)
    : M TransactionManager unit :=
  statements <-
    (if Nat.eqb (level transaction) 0 then
       ret (["BEGIN"]
            ++ match isolationLevel options with
               | Some l => ["SET TRANSACTION ISOLATION LEVEL " +:+ isolation_sql l]
               | None => []
               end
            ++ (if truthy_bool (readOnly options)
                then ["SET TRANSACTION READ ONLY"] else [])
            ++ (if truthy_bool (deferrable options) && truthy_bool (readOnly options)
                then ["SET TRANSACTION DEFERRABLE"] else []))
     else
       let savepointName := "sp_level_" +:+ pretty (level transaction) in
       update_transaction (id transaction)
         (fun t => with_savepoints (savepoints t ++ [savepointName]) t) ;;;
       ret ["SAVEPOINT " +:+ savepointName]) ;;
  for_each statements query.

Definition commitTransaction (transactionId : string) : M TransactionManager unit :=
  transaction <- active_transaction transactionId ;;
  (if Nat.eqb (level transaction) 0 then query "COMMIT"
   else match last (savepoints transaction) with
        | Some savepointName =>
            if String.eqb savepointName EmptyString then ret tt
            else query ("RELEASE SAVEPOINT " +:+ savepointName)
        | None => ret tt
        end) ;;;
  update_transaction transactionId (with_isActive false).

Definition rollbackTransaction (transactionId : string) : M TransactionManager unit :=
  txs <- gets activeTransactions ;;
  match JsMap.get txs transactionId with
  | None => ret tt
  | Some transaction =>
      try_catch
        (if Nat.eqb (level transaction) 0 then query "ROLLBACK"
         else match last (savepoints transaction) with
              | Some savepointName =>
                  if String.eqb savepointName EmptyString then ret tt
                  else query ("ROLLBACK TO SAVEPOINT " +:+ savepointName)
              | None => ret tt
              end)
        (fun e => emit (rollbackError transactionId e)) ;;;
      update_transaction transactionId (with_isActive false)
  end.

Definition forceRollback (transactionId : string) : M TransactionManager unit :=
  rollbackTransaction transactionId ;;;
  modify (set_transactions (fun txs => JsMap.delete txs transactionId)).

Definition rollbackAll : M TransactionManager unit :=
  txs <- gets activeTransactions ;;
  for_each (JsMap.keys txs)
    (fun transactionId =>
       try_catch (forceRollback transactionId)
                 (fun e => emit (rollbackError transactionId e))).

(** A callback that settles, with a result or with an error, without
    using the manager. *)
Definition settles {T : Type} (outcome : T + error) : M TransactionManager T :=
  fun m =>
    match outcome with
    | inl r => (Ok r, m)
    | inr e => (Throw e, m)
    end.

Section WithCallback.

Context {T : Type}.
(** The user callback: [callback n tx] is what its invocation number [n]
    (counted from [0]) does when handed the context [tx].  It runs on
    the manager, so it may use the savepoint operations above and start
    further transactions with [withTransaction], and it settles with a
    result or an error. *)
Variable callback : nat -> TransactionContext -> M TransactionManager T.
(** [timer_first n]: in invocation [n], the timeout timer fires before the
    callback settles (consulted only when [options.timeout] is set);
    [interrupted n tx] is what the callback has done to the manager by
    then.  What it does afterwards happens outside the transaction. *)
Variable timer_first : nat -> bool.
Variable interrupted : nat -> TransactionContext -> TransactionManager -> TransactionManager.

Definition run_callback (options : TransactionOptions) (txid : string)
    : M TransactionManager T :=
  fun m =>
    let n := invocations m in
    let m' := {| connection := connection m; activeTransactions := activeTransactions m;
                 nextTransactionId := nextTransactionId m;
                 nextSavepointId := nextSavepointId m;
                 trace := trace m; invocations := S n |} in
    match JsMap.get (activeTransactions m) txid with
    | None => (Throw (NoActiveTransaction txid), m')
    | Some transaction =>
        if truthy_num (timeout options) && timer_first n
        then (Throw (TransactionTimeout (default 0 (timeout options))),
              interrupted n transaction m')
        else callback n transaction m'
    end.

Definition executeTransaction (options : TransactionOptions) (attempt : nat)
    : M TransactionManager (TransactionResult T) :=
  fun m =>
    let transactionId := "tx_" +:+ pretty (nextTransactionId m) in
    let transaction :=
      {| id := transactionId; level := getNestedLevel m;
         tx_isolationLevel := isolationLevel options; savepoints := [];
         tx_readOnly := truthy_bool (readOnly options); isActive := true |} in
    let m1 :=
      {| connection := connection m;
         activeTransactions := JsMap.set (activeTransactions m) transactionId transaction;
         nextTransactionId := S (nextTransactionId m);
         nextSavepointId := nextSavepointId m;
         trace := trace m; invocations := invocations m |} in
    try_finally
      (try_catch
         (beginTransaction transaction options ;;;
          emit (transactionStarted transactionId (level transaction) (attempt + 1)) ;;;
          result <- run_callback options transactionId ;;
          commitTransaction transactionId ;;;
          txs <- gets activeTransactions ;;
          let n := match JsMap.get txs transactionId with
                   | Some t => length (savepoints t) | None => O end in
          emit (transactionCommitted transactionId n) ;;;
          ret {| tr_result := result; retries := attempt; tr_savepoints := n |})
         (fun e =>
          rollbackTransaction transactionId ;;;
          emit (transactionRolledBack transactionId e (attempt + 1)) ;;;
          throw e))
      (set_transactions (fun txs => JsMap.delete txs transactionId))
      m1.

Definition effective_maxRetries (options : TransactionOptions) : Z :=
  match maxRetries options with
  | Some n => n
  | None => if truthy_bool (retryOnDeadlock options) then 3 else 0
  end.

(** [options.retryDelay || 100] *)
Definition base_retryDelay (options : TransactionOptions) : Z :=
  if truthy_num (retryDelay options) then default 0 (retryDelay options) else 100.

(** The [while (retries <= maxRetries)] loop of [withTransaction].
    [budget] is the number of iterations still allowed,
    [maxRetries - retries + 1]; the loop test is [budget <> 0]. *)
Fixpoint withTransaction_from (options : TransactionOptions)
    (budget retries : nat) (lastError : option error)
    : M TransactionManager (TransactionResult T) :=
  match budget with
  | O => throw (default ThrownUndefined lastError)
  | S budget' =>
      try_catch
        (executeTransaction options retries)
        (fun e =>
           if isDeadlock e && truthy_bool (retryOnDeadlock options)
              && (Z.of_nat retries <? effective_maxRetries options)
           then
             let retries' := S retries in
             emit (deadlockRetry e retries' (effective_maxRetries options)
                     (base_retryDelay options)) ;;;
             sleep (base_retryDelay options * 2 ^ (Z.of_nat retries' - 1)) ;;;
             withTransaction_from options budget' retries' (Some e)
           else throw e)
  end.

Definition withTransaction (options : TransactionOptions)
    : M TransactionManager (TransactionResult T) :=
  withTransaction_from options
    (Z.to_nat (effective_maxRetries options + 1)) 0 None.

End WithCallback.

End TransactionManager.


(* ------------------------------------------------------------------ *)
(** ** JavaScript values, identities and the heap                      *)
(* ------------------------------------------------------------------ *)

(** Scalars. *)
Inductive prim : Type :=
| PUndefined
| PNull
| PBool (b : bool)
| PNum (n : Z)
| PStr (s : string).

#[global] Instance prim_eq_dec : EqDecision prim.
Proof. solve_decision. Defined.

(** An entity id: a scalar, or a composite key, an object of named
    scalars (in property order, names distinct). *)
Inductive ident : Type :=
| IdPrim (p : prim)
| IdComposite (fields : JsMap.t prim).

#[global] Instance ident_eq_dec : EqDecision ident.
Proof. solve_decision. Defined.

Abbreviation loc := nat.

(** A value: a scalar, a reference to a heap cell (object, array, proxy or
    function object), or one of the methods of [Array.prototype]. *)
Inductive value : Type :=
| VPrim (p : prim)
| VRef (l : loc)
| VBuiltin (name : string).

#[global] Instance value_eq_dec : EqDecision value.
Proof. solve_decision. Defined.

Abbreviation VUndefined := (VPrim PUndefined).
Abbreviation VNull := (VPrim PNull).
Abbreviation VBool b := (VPrim (PBool b)).
Abbreviation VNum n := (VPrim (PNum n)).
Abbreviation VStr s := (VPrim (PStr s)).

(** [a === b].  Without NaN in the model, strict equality is equality of
    scalars and identity of references. *)
Definition strict_eq (a b : value) : bool := bool_decide (a = b).

(** Property keys: a string, an array index, or a symbol.  A [KStr] is
    taken not to spell an array index. *)
Inductive key : Type :=
| KStr (s : string)
| KIdx (i : nat)
| KSym (n : nat).

#[global] Instance key_eq_dec : EqDecision key.
Proof. solve_decision. Defined.

(** [typeof prop === 'symbol'] *)
Definition is_symbol (k : key) : bool :=
  match k with KSym _ => true | _ => false end.

(** [String(prop)] *)
Definition key_string (k : key) : string :=
  match k with
  | KStr s => s
  | KIdx i => pretty i
  | KSym _ => "Symbol()"
  end.

(** *** Strings built from scalars *)

(** [typeof p] *)
Definition typeof_prim (p : prim) : string :=
  match p with
  | PUndefined => "undefined"
  | PNull => "object"
  | PBool _ => "boolean"
  | PNum _ => "number"
  | PStr _ => "string"
  end.

(** [String(p)] *)
Definition string_of_prim (p : prim) : string :=
  match p with
  | PUndefined => "undefined"
  | PNull => "null"
  | PBool true => "true"
  | PBool false => "false"
  | PNum n => pretty n
  | PStr s => s
  end.

Fixpoint join (sep : string) (l : list string) : string :=
  match l with
  | [] => EmptyString
  | [x] => x
  | x :: rest => x +:+ sep +:+ join sep rest
  end.

Definition dquote : ascii := ascii_of_nat 34.
Definition backslash : ascii := ascii_of_nat 92.
Definition newline : string := String (ascii_of_nat 10) EmptyString.

Definition hex_digit (n : nat) : ascii :=
  nth n (list_ascii_of_string "0123456789abcdef") "0"%char.

(** The JSON escape of one character. *)
Definition json_escape (c : ascii) : string :=
  let n := nat_of_ascii c in
  if (n =? 34)%nat then String backslash (String dquote EmptyString)
  else if (n =? 92)%nat then String backslash (String backslash EmptyString)
  else if (n =? 8)%nat then String backslash "b"
  else if (n =? 9)%nat then String backslash "t"
  else if (n =? 10)%nat then String backslash "n"
  else if (n =? 12)%nat then String backslash "f"
  else if (n =? 13)%nat then String backslash "r"
  else if (n <? 32)%nat then
    String backslash
      ("u00" +:+ String (hex_digit (n / 16))
                   (String (hex_digit (n mod 16)) EmptyString))
  else String c EmptyString.

Fixpoint json_escape_string (s : string) : string :=
  match s with
  | EmptyString => EmptyString
  | String c rest => json_escape c +:+ json_escape_string rest
  end.

Definition json_quote (s : string) : string :=
  String dquote (json_escape_string s +:+ String dquote EmptyString).

(** [JSON.stringify(p)]; [None] is the [undefined] it returns for
    [undefined]. *)
Definition json_of_prim (p : prim) : option string :=
  match p with
  | PUndefined => None
  | PNull => Some "null"
  | PBool true => Some "true"
  | PBool false => Some "false"
  | PNum n => Some (pretty n)
  | PStr s => Some (json_quote s)
  end.

(** [JSON.stringify] of an object of scalars: properties whose value is
    [undefined] are left out. *)
Definition json_of_fields (fields : JsMap.t prim) : string :=
  "{" +:+ join ","
            (flat_map (fun '(k, p) =>
                         match json_of_prim p with
                         | Some j => [json_quote k +:+ ":" +:+ j]
                         | None => []
                         end) fields)
      +:+ "}".

(** [JSON.stringify(id)] inside a template literal. *)
Definition json_of_ident (id : ident) : string :=
  match id with
  | IdPrim p => default "undefined" (json_of_prim p)
  | IdComposite fields => json_of_fields fields
  end.

(** [Object.keys(obj).sort()] followed by rebuilding the object: the
    fields in ascending order of their names. *)
Fixpoint insert_sorted (f : string * prim) (l : JsMap.t prim) : JsMap.t prim :=
  match l with
  | [] => [f]
  | g :: rest =>
      if String.leb (fst f) (fst g) then f :: g :: rest
      else g :: insert_sorted f rest
  end.

Definition sortObjectKeys (fields : JsMap.t prim) : JsMap.t prim :=
  fold_right insert_sorted [] fields.

(** [id[key]] on a composite id; a scalar id has no such property. *)
Definition ident_field (id : ident) (k : string) : result prim :=
  match id with
  | IdComposite fields => Ok (default PUndefined (JsMap.get fields k))
  | IdPrim PNull | IdPrim PUndefined =>
      Throw (TypeError "Cannot read properties of null or undefined")
  | IdPrim _ => Ok PUndefined
  end.

(** *** Heap cells *)

(** The closure of a proxy handler: what [createProxy] and
    [createNestedProxy] capture. *)
Inductive handler : Type :=
| RootHandler (changedFields : nat) (entity : string) (id : ident)
| NestedHandler (changedFields : nat) (path : string) (entity : string) (id : ident).

Inductive cell : Type :=
| Obj (props : list (key * value))
| Arr (elems : list value)
| Proxy (target : loc) (h : handler)
(** the function a nested proxy hands out for a mutating array method:
    it captures the set, the path, the method [value] and the array [obj] *)
| Wrapper (changedFields : nat) (path : string) (value_ : value) (obj : loc).

(** The JavaScript world shared by all components: the object heap and
    the [Set<string>] objects holding changed field paths (a [Set]
    iterates in insertion order). *)
Record World : Type := {
  heap : list cell;
  sets : list (list string)
}.

Definition empty_world : World := {| heap := []; sets := [] |}.

(** Own properties of a plain object. *)
Fixpoint props_get (props : list (key * value)) (k : key) : option value :=
  match props with
  | [] => None
  | (k', v) :: rest => if bool_decide (k' = k) then Some v else props_get rest k
  end.

Fixpoint props_set (props : list (key * value)) (k : key) (v : value)
    : list (key * value) :=
  match props with
  | [] => [(k, v)]
  | (k', v') :: rest =>
      if bool_decide (k' = k) then (k', v) :: rest
      else (k', v') :: props_set rest k v
  end.

Fixpoint props_delete (props : list (key * value)) (k : key)
    : list (key * value) :=
  match props with
  | [] => []
  | (k', v') :: rest =>
      if bool_decide (k' = k) then rest else (k', v') :: props_delete rest k
  end.

Definition mutatingMethods : list string :=
  ["push"; "pop"; "shift"; "unshift"; "splice"; "sort"; "reverse"].

(** Methods every array inherits; the ones outside [mutatingMethods] are
    known by name only. *)
Definition arrayPrototype : list string :=
  mutatingMethods
  ++ ["slice"; "concat"; "indexOf"; "includes"; "join"; "map"; "filter"; "forEach"].

(** Reading a property of an array. *)
Definition arr_get (elems : list value) (k : key) : value :=
  match k with
  | KIdx i => default VUndefined (elems !! i)
  | KStr s =>
      if String.eqb s "length" then VNum (Z.of_nat (length elems))
      else if bool_decide (s ∈ arrayPrototype) then VBuiltin s
      else VUndefined
  | KSym _ => VUndefined
  end.

(** Writing a property of an array: an index at or past the end extends
    the array with [undefined]; [length] truncates or extends; other
    properties of arrays are not kept. *)
Definition arr_set (elems : list value) (k : key) (v : value) : result (list value) :=
  match k with
  | KIdx i =>
      if (i <? length elems)%nat then Ok (<[i := v]> elems)
      else Ok (elems ++ replicate (i - length elems) VUndefined ++ [v])
  | KStr s =>
      if String.eqb s "length" then
        match v with
        | VNum n =>
            if n <? 0 then Throw (RangeError "Invalid array length")
            else Ok (take (Z.to_nat n) elems
                     ++ replicate (Z.to_nat n - length elems) VUndefined)
        | _ => Throw (RangeError "Invalid array length")
        end
      else Ok elems
  | KSym _ => Ok elems
  end.

Definition arr_delete (elems : list value) (k : key) : list value :=
  match k with
  | KIdx i => if (i <? length elems)%nat then <[i := VUndefined]> elems else elems
  | _ => elems
  end.

(** Operations on the world. *)
Definition alloc (c : cell) : M World loc :=
  fun w => (Ok (length (heap w)), {| heap := heap w ++ [c]; sets := sets w |}).

Definition store (l : loc) (c : cell) : M World unit :=
  fun w => (Ok tt, {| heap := <[l := c]> (heap w); sets := sets w |}).

Definition new_set : M World nat :=
  fun w => (Ok (length (sets w)), {| heap := heap w; sets := sets w ++ [[]] |}).

Definition set_elements (w : World) (s : nat) : list string :=
  default [] (sets w !! s).

(** [changedFields.add(x)] *)
Definition set_add (s : nat) (x : string) : M World unit :=
  fun w =>
    (Ok tt,
     {| heap := heap w;
        sets := if bool_decide (x ∈ set_elements w s) then sets w
                else <[s := set_elements w s ++ [x]]> (sets w) |}).

(** [changedFields.clear()] *)
Definition set_clear (s : nat) : M World unit :=
  fun w => (Ok tt, {| heap := heap w; sets := <[s := []]> (sets w) |}).

(** The cell behind a chain of proxies ([Array.isArray] and [typeof] see
    through proxies). *)
Fixpoint resolve (fuel : nat) (h : list cell) (l : loc) : option cell :=
  match h !! l with
  | Some (Proxy target _) =>
      match fuel with
      | O => None
      | S fuel' => resolve fuel' h target
      end
  | c => c
  end.

(** [Array.isArray(x)] for a reference [x]. *)
Definition isArray (w : World) (l : loc) : bool :=
  match resolve (length (heap w)) (heap w) l with
  | Some (Arr _) => true
  | _ => false
  end.

(** [typeof v === 'function'] *)
Definition is_function (w : World) (v : value) : bool :=
  match v with
  | VBuiltin _ => true
  | VRef l => match heap w !! l with Some (Wrapper _ _ _ _) => true | _ => false end
  | VPrim _ => false
  end.

(** [isObject(v) || Array.isArray(v)]: a reference to an object, an array
    or a proxy of one. *)
Definition is_object_or_array (w : World) (v : value) : bool :=
  match v with
  | VRef l =>
      match heap w !! l with
      | Some (Obj _) | Some (Arr _) | Some (Proxy _ _) => true
      | _ => false
      end
  | _ => false
  end.

(* ------------------------------------------------------------------ *)
(** ** Identity map                                                    *)
(* ------------------------------------------------------------------ *)

Module IdentityMap.

(** [maps] sends an entity kind to its [WeakMap] from key objects to
    instances; [keyRegistry] sends a composite key string to the
    [WeakRef] of its key object.  Key objects are numbered in creation
    order, and a [WeakRef] is the number of its target.  Nothing else
    refers to a key object, so the garbage collector may reclaim it:
    [collected] holds the key objects it has reclaimed. *)
Record t : Type := {
  maps : gmap string (gmap nat loc);
  keyRegistry : gmap string nat;
  enableWeakRefs : bool;
  nextKeyObject : nat;
  collected : gset nat
}.

(** [new IdentityMap(options)]; [enableWeakRefs] defaults to [true]. *)
Definition new (enableWeakRefs_option : option bool) : t :=
  {| maps := ∅; keyRegistry := ∅;
     enableWeakRefs := default true enableWeakRefs_option;
     nextKeyObject := 0; collected := ∅ |}.

Definition with_maps (f : gmap string (gmap nat loc) -> gmap string (gmap nat loc))
    (im : t) : t :=
  {| maps := f (maps im); keyRegistry := keyRegistry im;
     enableWeakRefs := enableWeakRefs im; nextKeyObject := nextKeyObject im;
     collected := collected im |}.

Definition with_keyRegistry (f : gmap string nat -> gmap string nat) (im : t) : t :=
  {| maps := maps im; keyRegistry := f (keyRegistry im);
     enableWeakRefs := enableWeakRefs im; nextKeyObject := nextKeyObject im;
     collected := collected im |}.

(** [weakRef.deref()]: the key object, or [undefined] once the collector
    has reclaimed it. *)
Definition deref (im : t) (weakRef : nat) : option nat :=
  if bool_decide (weakRef ∈ collected im) then None else Some weakRef.

(** A garbage collection, between two jobs of the event loop: of the key
    objects [ks], those made so far are reclaimed.  Their weak
    references are dead from then on, and their [WeakMap] entries are
    gone. *)
Definition collect_garbage (ks : gset nat) : M t unit :=
  modify (fun im =>
    let gone : gset nat := filter (fun k => (k < nextKeyObject im)%nat) ks in
    {| maps := filter (fun kv : nat * loc => fst kv ∉ gone) <$> maps im;
       keyRegistry := keyRegistry im;
       enableWeakRefs := enableWeakRefs im; nextKeyObject := nextKeyObject im;
       collected := collected im ∪ gone |}).

Definition createCompositeKey (entity : string) (id : ident) : result string :=
  match id with
  | IdPrim PNull | IdPrim PUndefined => Throw (InvalidKey entity)
  | IdComposite fields =>
      Ok (entity +:+ ":obj:" +:+ json_of_fields (sortObjectKeys fields))
  | IdPrim p =>
      Ok (entity +:+ ":" +:+ typeof_prim p +:+ ":" +:+ string_of_prim p)
  end.

Definition compositeKey (entity : string) (id : ident) : M t string :=
  fun im => (createCompositeKey entity id, im).

Definition getKeyObject (entity : string) (id : ident) : M t (option nat) :=
  compositeKey_ <- compositeKey entity id ;;
  weakRef <- gets (fun im => keyRegistry im !! compositeKey_) ;;
  match weakRef with
  | None => ret None
  | Some weakRef =>
      keyObj <- gets (fun im => deref im weakRef) ;;
      match keyObj with
      | None =>
          (* clean up the dead reference *)
          modify (with_keyRegistry (fun r => base.delete compositeKey_ r)) ;;;
          ret None
      | Some keyObj => ret (Some keyObj)
      end
  end.

Definition getOrCreateKeyObject (entity : string) (id : ident) : M t nat :=
  existing <- getKeyObject entity id ;;
  match existing with
  | Some keyObj => ret keyObj
  | None =>
      keyObj <- (fun im =>
                   (Ok (nextKeyObject im),
                    {| maps := maps im; keyRegistry := keyRegistry im;
                       enableWeakRefs := enableWeakRefs im;
                       nextKeyObject := S (nextKeyObject im);
                       collected := collected im |})) ;;
      compositeKey_ <- compositeKey entity id ;;
      weak <- gets enableWeakRefs ;;
      (if weak
       then modify (with_keyRegistry (fun r => <[compositeKey_ := keyObj]> r))
       else ret tt) ;;;
      ret keyObj
  end.

Definition get (entity : string) (id : ident) : M t (option loc) :=
  map_ <- gets (fun im => maps im !! entity) ;;
  match map_ with
  | None => ret None
  | Some map_ =>
      keyObj <- getKeyObject entity id ;;
      match keyObj with
      | None => ret None
      | Some keyObj => ret (map_ !! keyObj)
      end
  end.

Definition set (entity : string) (id : ident) (instance : loc) : M t loc :=
  map_ <- gets (fun im => maps im !! entity) ;;
  (match map_ with
   | None => modify (with_maps (fun ms => <[entity := ∅]> ms))
   | Some _ => ret tt
   end) ;;;
  keyObj <- getOrCreateKeyObject entity id ;;
  map_ <- gets (fun im => default ∅ (maps im !! entity)) ;;
  match map_ !! keyObj with
  | Some existing => ret existing
  | None =>
      modify (with_maps (fun ms => <[entity := <[keyObj := instance]> map_]> ms)) ;;;
      ret instance
  end.

Definition delete (entity : string) (id : ident) : M t bool :=
  map_ <- gets (fun im => maps im !! entity) ;;
  match map_ with
  | None => ret false
  | Some map_ =>
      keyObj <- getKeyObject entity id ;;
      match keyObj with
      | None => ret false
      | Some keyObj =>
          let result_ := bool_decide (is_Some (map_ !! keyObj)) in
          modify (with_maps (fun ms => <[entity := base.delete keyObj map_]> ms)) ;;;
          compositeKey_ <- compositeKey entity id ;;
          modify (with_keyRegistry (fun r => base.delete compositeKey_ r)) ;;;
          ret result_
      end
  end.

Definition has (entity : string) (id : ident) : M t bool :=
  map_ <- gets (fun im => maps im !! entity) ;;
  match map_ with
  | None => ret false
  | Some map_ =>
      keyObj <- getKeyObject entity id ;;
      match keyObj with
      | None => ret false
      | Some keyObj => ret (bool_decide (is_Some (map_ !! keyObj)))
      end
  end.

Definition clearEntity (entity : string) : M t unit :=
  modify (with_maps (fun ms => base.delete entity ms)) ;;;
  modify (with_keyRegistry
            (filter (fun kv => negb (String.prefix (entity +:+ ":") (fst kv)) = true))).

Definition clear : M t unit :=
  modify (fun im =>
            {| maps := ∅; keyRegistry := ∅;
               enableWeakRefs := enableWeakRefs im;
               nextKeyObject := nextKeyObject im;
               collected := collected im |}).

Record Stats : Type := { entities : nat; totalKeys : nat }.

(** The registry entries whose weak reference is live. *)
Definition live_refs (im : t) : gmap string nat :=
  filter (fun kv : string * nat => snd kv ∉ collected im) (keyRegistry im).

Definition cleanupDeadRefs : M t unit :=
  weak <- gets enableWeakRefs ;;
  if weak then modify (fun im => with_keyRegistry (fun _ => live_refs im) im)
  else ret tt.

Definition getStats : M t Stats :=
  totalKeys_ <- gets (fun im => size (live_refs im)) ;;
  cleanupDeadRefs ;;;
  entities_ <- gets (fun im => size (maps im)) ;;
  ret {| entities := entities_; totalKeys := totalKeys_ |}.

(** *** Vocabulary for the properties *)

(** A null or undefined id has no composite key; any other id has one. *)
Definition null_id (id : ident) : Prop :=
  id = IdPrim PNull \/ id = IdPrim PUndefined.

(** The instance registered under a composite key, if any: the one the
    kind's [WeakMap] holds for the key object, when the registry has a
    live reference to it. *)
Definition lookup_instance (im : t) (entity ck : string) : option loc :=
  match maps im !! entity, keyRegistry im !! ck with
  | Some m, Some k => if bool_decide (k ∈ collected im) then None else m !! k
  | _, _ => None
  end.

(** The map after a garbage collection that reclaims the key objects
    [ks]. *)
Definition reclaimed (ks : gset nat) (im : t) : t := snd (collect_garbage ks im).

(** The key object the registry holds for an id, live or dead. *)
Definition key_object (im : t) (entity : string) (id : ident) : option nat :=
  match createCompositeKey entity id with
  | Ok ck => keyRegistry im !! ck
  | Throw _ => None
  end.

(** The map after a look-up of the composite key [ck] of kind [entity]:
    a dead reference met on the way has left the registry. *)
Definition swept (im : t) (entity ck : string) : t :=
  match maps im !! entity, keyRegistry im !! ck with
  | Some _, Some k =>
      if bool_decide (k ∈ collected im)
      then with_keyRegistry (fun r => base.delete ck r) im
      else im
  | _, _ => im
  end.

(** *** Well-formed maps

    Key objects are numbered below [nextKeyObject]: a freshly created key
    object is in no [WeakMap] yet, and it has not been reclaimed. *)
Definition wf (im : t) : Prop :=
  (forall entity m k, maps im !! entity = Some m -> is_Some (m !! k) ->
                      (k < nextKeyObject im)%nat) /\
  (forall ck k, keyRegistry im !! ck = Some k -> (k < nextKeyObject im)%nat) /\
  (forall k, k ∈ collected im -> (k < nextKeyObject im)%nat).

(** Distinct composite keys have distinct key objects. *)
Definition distinct_keys (im : t) : Prop :=
  forall ck ck' k, keyRegistry im !! ck = Some k -> keyRegistry im !! ck' = Some k ->
                   ck = ck'.

End IdentityMap.

(* ------------------------------------------------------------------ *)
(** ** Deep copies ([deepClone])                                       *)
(* ------------------------------------------------------------------ *)

Fixpoint seen_get (seen : list (loc * loc)) (l : loc) : option loc :=
  match seen with
  | [] => None
  | (l', copy) :: rest => if Nat.eqb l' l then Some copy else seen_get rest l
  end.

(** [deepClone(obj, seen)].  [Date], [Set] and [Map] instances are not
    among the modelled values; [for ... in] skips symbol keys; a proxy met
    while copying is read as its target.  [fuel] bounds the nesting depth
    of the recursion; every cell is copied at most once thanks to [seen]. *)
Fixpoint deepClone_ (fuel : nat) (obj : value) (seen : list (loc * loc))
    (h : list cell) {struct fuel} : value * list (loc * loc) * list cell :=
  match obj with
  | VRef l =>
      match seen_get seen l with
      | Some copy => (VRef copy, seen, h)
      | None =>
          match fuel with
          | O => (obj, seen, h)
          | S fuel' =>
              match resolve (length h) h l with
              | Some (Arr elems) =>
                  let copy := length h in
                  let '(cloned, seen', h') :=
                    fold_left
                      (fun acc x =>
                         let '(cloned, seen0, h0) := acc in
                         let '(x', seen1, h1) := deepClone_ fuel' x seen0 h0 in
                         (cloned ++ [x'], seen1, h1))
                      elems ([], (l, copy) :: seen, h ++ [Arr []]) in
                  (VRef copy, seen', <[copy := Arr cloned]> h')
              | Some (Obj props) =>
                  let copy := length h in
                  let '(cloned, seen', h') :=
                    fold_left
                      (fun acc kv =>
                         let '(cloned, seen0, h0) := acc in
                         if is_symbol (fst kv) then acc
                         else
                           let '(x', seen1, h1) := deepClone_ fuel' (snd kv) seen0 h0 in
                           (props_set cloned (fst kv) x', seen1, h1))
                      props ([], (l, copy) :: seen, h ++ [Obj []]) in
                  (VRef copy, seen', <[copy := Obj cloned]> h')
              | _ => (obj, seen, h)
              end
          end
      end
  | _ => (obj, seen, h)
  end.

Definition deepClone (obj : value) : M World value :=
  fun w =>
    let '(copy, _, h) := deepClone_ (S (length (heap w))) obj [] (heap w) in
    (Ok copy, {| heap := h; sets := sets w |}).

(* ------------------------------------------------------------------ *)
(** ** Change tracker                                                  *)
(* ------------------------------------------------------------------ *)

Module ChangeTracker.

Inductive ChangeType : Type := created | updated | deleted.

#[global] Instance ChangeType_eq_dec : EqDecision ChangeType.
Proof. solve_decision. Defined.

Record EntityChange : Type := {
  entity : string;
  id : ident;
  type : ChangeType;
  originalData : option value;
  currentData : option loc;
  changedFields : option (list string)
}.

Record TrackedEntity : Type := {
  te_entity : string;
  te_id : ident;
  te_data : loc;
  te_proxy : loc;
  te_originalData : value;
  te_isNew : bool;
  te_isDeleted : bool;
  (** the [Set] object shared with the entity's proxy handlers *)
  te_changedFields : nat
}.

(** [entityProxies] lists the keys of the [WeakMap] of issued root
    proxies. *)
Record t : Type := {
  trackedEntities : JsMap.t TrackedEntity;
  entityProxies : list loc
}.

Definition new : t := {| trackedEntities := []; entityProxies := [] |}.

(** A tracker together with the world its proxies live in. *)
Record State : Type := {
  world : World;
  tracker : t
}.

Definition in_world {A} (c : M World A) : M State A :=
  fun s => let '(r, w) := c (world s) in (r, {| world := w; tracker := tracker s |}).

Definition with_tracked (f : JsMap.t TrackedEntity -> JsMap.t TrackedEntity)
    : M State unit :=
  modify (fun s =>
            {| world := world s;
               tracker := {| trackedEntities := f (trackedEntities (tracker s));
                             entityProxies := entityProxies (tracker s) |} |}).

Definition with_proxies (f : list loc -> list loc) : M State unit :=
  modify (fun s =>
            {| world := world s;
               tracker := {| trackedEntities := trackedEntities (tracker s);
                             entityProxies := f (entityProxies (tracker s)) |} |}).

Definition createKey (entity : string) (id : ident) : string :=
  entity +:+ ":" +:+ json_of_ident id.

(** *** The interception layer

    [js_get], [js_set], [js_delete] are property access on any
    reference: plain cells are read and written directly
    ([Reflect.get] and friends), a proxy cell runs the trap of its
    handler.  [fuel] bounds the depth of proxies wrapping proxies. *)

Definition createNestedProxy (target : loc) (changedFields : nat) (path : string)
    (entity : string) (id : ident) : M State value :=
  l <- in_world (alloc (Proxy target (NestedHandler changedFields path entity id))) ;;
  ret (VRef l).

Fixpoint js_get (fuel : nat) (l : loc) (prop : key) {struct fuel} : M State value :=
  fun s =>
    match heap (world s) !! l with
    | None => (Throw (TypeError "not an object"), s)
    | Some (Obj props) => (Ok (default VUndefined (props_get props prop)), s)
    | Some (Arr elems) => (Ok (arr_get elems prop), s)
    | Some (Wrapper _ _ _ _) => (Ok VUndefined, s)
    | Some (Proxy obj h) =>
        match fuel with
        | O => (Throw (RangeError "Maximum call stack size exceeded"), s)
        | S fuel' =>
            (value <- js_get fuel' obj prop ;;
             match h with
             | RootHandler changedFields entity id =>
                 (* get trap of createProxy *)
                 if is_symbol prop then ret value
                 else
                   nest <- gets (fun s =>
                             is_object_or_array (world s) value
                             && negb (bool_decide
                                        (value ∈ VRef <$> entityProxies (tracker s)))) ;;
                   match value with
                   | VRef target =>
                       if nest
                       then createNestedProxy target changedFields
                              (key_string prop) entity id
                       else ret value
                   | _ => ret value
                   end
             | NestedHandler changedFields path entity id =>
                 (* get trap of createNestedProxy *)
                 wrap <- gets (fun s =>
                           isArray (world s) obj
                           && is_function (world s) value
                           && bool_decide (key_string prop ∈ mutatingMethods)) ;;
                 if wrap then
                   w <- in_world (alloc (Wrapper changedFields path value obj)) ;;
                   ret (VRef w)
                 else
                   nest <- gets (fun s =>
                             negb (is_symbol prop)
                             && is_object_or_array (world s) value) ;;
                   match value with
                   | VRef target =>
                       if nest
                       then createNestedProxy target changedFields
                              (path +:+ "." +:+ key_string prop) entity id
                       else ret value
                   | _ => ret value
                   end
             end) s
        end
    end.

(** [Reflect.set] on a plain cell. *)
Definition raw_set (l : loc) (c : cell) (prop : key) (v : value) : M State bool :=
  match c with
  | Obj props => in_world (store l (Obj (props_set props prop v))) ;;; ret true
  | Arr elems =>
      match arr_set elems prop v with
      | Ok elems' => in_world (store l (Arr elems')) ;;; ret true
      | Throw e => throw e
      end
  | _ => ret true
  end.

Fixpoint js_set (fuel : nat) (l : loc) (prop : key) (v : value) {struct fuel}
    : M State bool :=
  fun s =>
    match heap (world s) !! l with
    | None => (Throw (TypeError "not an object"), s)
    | Some (Proxy obj h) =>
        match fuel with
        | O => (Throw (RangeError "Maximum call stack size exceeded"), s)
        | S fuel' =>
            match h with
            | RootHandler changedFields entity id =>
                (* set trap of createProxy *)
                (if is_symbol prop then js_set fuel' obj prop v
                 else
                   oldValue <- js_get fuel' obj prop ;;
                   (if negb (strict_eq oldValue v)
                    then in_world (set_add changedFields (key_string prop))
                    else ret tt) ;;;
                   js_set fuel' obj prop v) s
            | NestedHandler changedFields path entity id =>
                (* set trap of createNestedProxy *)
                ((if negb (is_symbol prop)
                  then in_world (set_add changedFields path)
                  else ret tt) ;;;
                 js_set fuel' obj prop v) s
            end
        end
    | Some c => raw_set l c prop v s
    end.

(** [Reflect.deleteProperty] on a plain cell. *)
Definition raw_delete (l : loc) (c : cell) (prop : key) : M State bool :=
  match c with
  | Obj props => in_world (store l (Obj (props_delete props prop))) ;;; ret true
  | Arr elems =>
      match prop with
      | KStr s =>
          if String.eqb s "length" then ret false else ret true
      | _ => in_world (store l (Arr (arr_delete elems prop))) ;;; ret true
      end
  | _ => ret true
  end.

Fixpoint js_delete (fuel : nat) (l : loc) (prop : key) {struct fuel} : M State bool :=
  fun s =>
    match heap (world s) !! l with
    | None => (Throw (TypeError "not an object"), s)
    | Some (Proxy obj h) =>
        match fuel with
        | O => (Throw (RangeError "Maximum call stack size exceeded"), s)
        | S fuel' =>
            match h with
            | RootHandler changedFields entity id =>
                ((if negb (is_symbol prop)
                  then in_world (set_add changedFields (key_string prop))
                  else ret tt) ;;;
                 js_delete fuel' obj prop) s
            | NestedHandler changedFields path entity id =>
                ((if negb (is_symbol prop)
                  then in_world (set_add changedFields path)
                  else ret tt) ;;;
                 js_delete fuel' obj prop) s
            end
        end
    | Some c => raw_delete l c prop s
    end.

(** [prop in obj] (no [has] trap is installed, so proxies defer to their
    target). *)
Fixpoint js_has (fuel : nat) (h : list cell) (l : loc) (prop : key) : bool :=
  match h !! l with
  | Some (Obj props) => bool_decide (is_Some (props_get props prop))
  | Some (Arr elems) =>
      match prop with
      | KIdx i => (i <? length elems)%nat
      | KStr s => String.eqb s "length" || bool_decide (s ∈ arrayPrototype)
      | KSym _ => false
      end
  | Some (Proxy obj _) =>
      match fuel with
      | O => false
      | S fuel' => js_has fuel' h obj prop
      end
  | _ => false
  end.

(** *** The in-place methods of [Array.prototype] *)

Definition sort_image (v : value) : string :=
  match v with
  | VPrim p => string_of_prim p
  | VRef _ => "[object Object]"
  | VBuiltin _ => "function () { [native code] }"
  end.

Fixpoint sort_insert (x : value) (l : list value) : list value :=
  match l with
  | [] => [x]
  | y :: rest =>
      if String.ltb (sort_image y) (sort_image x) || String.eqb (sort_image y) (sort_image x)
      then y :: sort_insert x rest
      else x :: y :: rest
  end.

(** [sort()] with the default comparator: by string image, [undefined]
    last, stable. *)
Definition array_sort (elems : list value) : list value :=
  fold_left (fun acc x => sort_insert x acc)
            (filter (fun v => v <> VUndefined) elems) []
  ++ filter (fun v => v = VUndefined) elems.

Definition to_integer (v : option value) : Z :=
  match v with Some (VNum n) => n | _ => 0 end.

(** [Array.prototype[name].apply(this_, args)] for an array [this_]. *)
Definition array_builtin (name : string) (this_ : loc) (args : list value)
    : M State value :=
  fun s =>
    match heap (world s) !! this_ with
    | Some (Arr elems) =>
        let put (elems' : list value) (r : value) : M State value :=
          in_world (store this_ (Arr elems')) ;;; ret r in
        if String.eqb name "push" then
          put (elems ++ args) (VNum (Z.of_nat (length (elems ++ args)))) s
        else if String.eqb name "pop" then
          put (removelast elems) (default VUndefined (last elems)) s
        else if String.eqb name "shift" then
          put (tail elems) (default VUndefined (head elems)) s
        else if String.eqb name "unshift" then
          put (args ++ elems) (VNum (Z.of_nat (length (args ++ elems)))) s
        else if String.eqb name "reverse" then
          put (rev elems) (VRef this_) s
        else if String.eqb name "sort" then
          put (array_sort elems) (VRef this_) s
        else if String.eqb name "splice" then
          let len := Z.of_nat (length elems) in
          let start := to_integer (args !! 0%nat) in
          let start := if start <? 0 then Z.max (len + start) 0 else Z.min start len in
          let deleteCount :=
            match args with
            | [] => 0
            | [_] => len - start
            | _ :: d :: _ => Z.max 0 (Z.min (to_integer (Some d)) (len - start))
            end in
          let removed := take (Z.to_nat deleteCount) (drop (Z.to_nat start) elems) in
          (in_world (store this_
                       (Arr (take (Z.to_nat start) elems
                             ++ drop 2 args
                             ++ drop (Z.to_nat (start + deleteCount)) elems))) ;;;
           r <- in_world (alloc (Arr removed)) ;;
           ret (VRef r)) s
        else (Throw (TypeError "array method outside the model"), s)
    | _ => (Throw (TypeError "array method on a receiver outside the model"), s)
    end.

(** Calling a function value with a receiver. *)
Fixpoint call_function (fuel : nat) (fn : value) (this_ : loc) (args : list value)
    {struct fuel} : M State value :=
  match fn with
  | VBuiltin name => array_builtin name this_ args
  | VRef w =>
      fun s =>
        match heap (world s) !! w with
        | Some (Wrapper changedFields path value obj) =>
            match fuel with
            | O => (Throw (RangeError "Maximum call stack size exceeded"), s)
            | S fuel' =>
                (* function(...args) { changedFields.add(path);
                                       return value.apply(obj, args); } *)
                (in_world (set_add changedFields path) ;;;
                 call_function fuel' value obj args) s
            end
        | _ => (Throw (TypeError "not a function"), s)
        end
  | VPrim _ => throw (TypeError "not a function")
  end.

(** What user code does with a reference. *)
Definition fuel_of (s : State) : nat := length (heap (world s)).

(** [ref[prop]] *)
Definition get_property (ref : loc) (prop : key) : M State value :=
  fun s => js_get (fuel_of s) ref prop s.

(** [ref[prop] = v] *)
Definition set_property (ref : loc) (prop : key) (v : value) : M State bool :=
  fun s => js_set (fuel_of s) ref prop v s.

(** [delete ref[prop]] *)
Definition delete_property (ref : loc) (prop : key) : M State bool :=
  fun s => js_delete (fuel_of s) ref prop s.

(** [ref[name](...args)] *)
Definition call_method (ref : loc) (name : key) (args : list value) : M State value :=
  fn <- get_property ref name ;;
  fun s => call_function (fuel_of s) fn ref args s.

(** [ref.k1.k2. ... .kn]: the object reached from [ref] through a chain
    of property reads. *)
Fixpoint get_path (ref : loc) (chain : list key) : M State loc :=
  match chain with
  | [] => ret ref
  | k :: rest =>
      v <- get_property ref k ;;
      match v with
      | VRef l => get_path l rest
      | _ => throw (TypeError "Cannot read properties of undefined")
      end
  end.

(** [ref.k1. ... .kn.prop = v] *)
Definition set_at (ref : loc) (chain : list key) (prop : key) (v : value)
    : M State bool :=
  owner <- get_path ref chain ;;
  set_property owner prop v.

(** [delete ref.k1. ... .kn.prop] *)
Definition delete_at (ref : loc) (chain : list key) (prop : key) : M State bool :=
  owner <- get_path ref chain ;;
  delete_property owner prop.

(** [ref.k1. ... .kn.name(...args)] *)
Definition call_at (ref : loc) (chain : list key) (name : string) (args : list value)
    : M State value :=
  owner <- get_path ref chain ;;
  call_method owner (KStr name) args.

(** *** The tracker's methods *)

(** [new Proxy(target, {get, set, deleteProperty})] of [createProxy] *)
Definition createProxy (target : loc) (changedFields : nat) (entity : string)
    (id : ident) : M State loc :=
  in_world (alloc (Proxy target (RootHandler changedFields entity id))).

Definition track (entity : string) (id : ident) (data : loc) (isNew : bool)
    : M State loc :=
  let key := createKey entity id in
  existing <- gets (fun s => JsMap.get (trackedEntities (tracker s)) key) ;;
  match existing with
  | Some existing => ret (te_proxy existing)
  | None =>
      originalData <- in_world (deepClone (VRef data)) ;;
      changedFields <- in_world new_set ;;
      proxy <- createProxy data changedFields entity id ;;
      let tracked :=
        {| te_entity := entity; te_id := id; te_data := data; te_proxy := proxy;
           te_originalData := originalData; te_isNew := isNew;
           te_isDeleted := false; te_changedFields := changedFields |} in
      with_tracked (fun m => JsMap.set m key tracked) ;;;
      with_proxies (fun ps => ps ++ [proxy]) ;;;
      ret proxy
  end.

Definition markDeleted (entity : string) (id : ident) : M State unit :=
  let key := createKey entity id in
  tracked <- gets (fun s => JsMap.get (trackedEntities (tracker s)) key) ;;
  match tracked with
  | None => throw (NotTracked entity)
  | Some tracked =>
      with_tracked (fun m =>
        JsMap.set m key
          {| te_entity := te_entity tracked; te_id := te_id tracked;
             te_data := te_data tracked; te_proxy := te_proxy tracked;
             te_originalData := te_originalData tracked;
             te_isNew := te_isNew tracked; te_isDeleted := true;
             te_changedFields := te_changedFields tracked |})
  end.

Definition change_of (w : World) (tracked : TrackedEntity) : list EntityChange :=
  if te_isDeleted tracked then
    [{| entity := te_entity tracked; id := te_id tracked; type := deleted;
        originalData := Some (te_originalData tracked);
        currentData := None; changedFields := None |}]
  else if te_isNew tracked then
    [{| entity := te_entity tracked; id := te_id tracked; type := created;
        originalData := None;
        currentData := Some (te_data tracked); changedFields := None |}]
  else if (0 <? length (set_elements w (te_changedFields tracked)))%nat then
    [{| entity := te_entity tracked; id := te_id tracked; type := updated;
        originalData := Some (te_originalData tracked);
        currentData := Some (te_data tracked);
        changedFields := Some (set_elements w (te_changedFields tracked)) |}]
  else [].

Definition getChanges (s : State) : list EntityChange :=
  flat_map (change_of (world s)) (JsMap.values (trackedEntities (tracker s))).

Definition hasChanges (s : State) (entity : string) (id : ident) : bool :=
  match JsMap.get (trackedEntities (tracker s)) (createKey entity id) with
  | None => false
  | Some tracked =>
      te_isNew tracked || te_isDeleted tracked
      || (0 <? length (set_elements (world s) (te_changedFields tracked)))%nat
  end.

Definition getChangedFields (s : State) (entity : string) (id : ident) : list string :=
  match JsMap.get (trackedEntities (tracker s)) (createKey entity id) with
  | None => []
  | Some tracked => set_elements (world s) (te_changedFields tracked)
  end.

Definition resetChanges (entity : string) (id : ident) : M State unit :=
  let key := createKey entity id in
  tracked <- gets (fun s => JsMap.get (trackedEntities (tracker s)) key) ;;
  match tracked with
  | None => ret tt
  | Some tracked =>
      originalData <- in_world (deepClone (VRef (te_data tracked))) ;;
      in_world (set_clear (te_changedFields tracked)) ;;;
      with_tracked (fun m =>
        JsMap.set m key
          {| te_entity := te_entity tracked; te_id := te_id tracked;
             te_data := te_data tracked; te_proxy := te_proxy tracked;
             te_originalData := originalData;
             te_isNew := false; te_isDeleted := te_isDeleted tracked;
             te_changedFields := te_changedFields tracked |}) ;;;
      (if te_isDeleted tracked
       then with_tracked (fun m => JsMap.delete m key)
       else ret tt)
  end.

Definition untrack (entity : string) (id : ident) : M State unit :=
  let key := createKey entity id in
  tracked <- gets (fun s => JsMap.get (trackedEntities (tracker s)) key) ;;
  match tracked with
  | None => ret tt
  | Some tracked =>
      with_proxies (filter (fun p => p <> te_proxy tracked)) ;;;
      with_tracked (fun m => JsMap.delete m key)
  end.

Definition clear : M State unit := with_tracked (fun _ => []).

Record Stats : Type := {
  total : nat;
  stat_created : nat;
  stat_updated : nat;
  stat_deleted : nat;
  unchanged : nat
}.

Definition getStats (s : State) : Stats :=
  let all := JsMap.values (trackedEntities (tracker s)) in
  let changed (t : TrackedEntity) :=
    (0 <? length (set_elements (world s) (te_changedFields t)))%nat in
  {| total := JsMap.size (trackedEntities (tracker s));
     stat_deleted := length (filter (fun t => te_isDeleted t = true) all);
     stat_created :=
       length (filter (fun t => te_isDeleted t = false /\ te_isNew t = true) all);
     stat_updated :=
       length (filter (fun t => te_isDeleted t = false /\ te_isNew t = false
                                /\ changed t = true) all);
     unchanged :=
       length (filter (fun t => te_isDeleted t = false /\ te_isNew t = false
                                /\ changed t = false) all) |}.

End ChangeTracker.

(* ------------------------------------------------------------------ *)
(** ** Unit of work                                                    *)
(* ------------------------------------------------------------------ *)

Module UnitOfWork.

Record CommitResult : Type := {
  created : nat;
  updated : nat;
  deleted : nat
}.

Record UnitOfWorkOptions : Type := {
  autoFlush : bool;
  flushThreshold : nat;
  enableChangeTracking : bool
}.

(** The defaults of the constructor. *)
Definition default_options : UnitOfWorkOptions :=
  {| autoFlush := false; flushThreshold := 1000; enableChangeTracking := true |}.

Inductive PrimaryKey : Type :=
| Single (field : string)
| Composite (fields : list string).

Record EntityMetadata : Type := {
  entity : string;
  table : string;
  primaryKey : PrimaryKey;
  columns : JsMap.t string
}.

(** A statement parameter: a value, or a composite id object passed
    whole. *)
Inductive param : Type :=
| Val (v : value)
| IdObject (fields : JsMap.t prim).

(** The statements sent to the connection, with the text pieces the
    source assembles and the positional parameters. *)
Inductive statement : Type :=
| BEGIN
| COMMIT
| ROLLBACK
| INSERT (table : string) (columns placeholders : list string) (values : list param)
| UPDATE (table : string) (setClauses : list string) (whereClause : string)
         (values : list param)
| DELETE (table : string) (whereClause : string) (values : list param).

(** The SQL text of a statement, as the template literals build it. *)
Definition sql (st : statement) : string :=
  match st with
  | BEGIN => "BEGIN"
  | COMMIT => "COMMIT"
  | ROLLBACK => "ROLLBACK"
  | INSERT table columns placeholders _ =>
      newline +:+ "      INSERT INTO " +:+ table +:+ " (" +:+ join ", " columns +:+ ")"
      +:+ newline +:+ "      VALUES (" +:+ join ", " placeholders +:+ ")"
      +:+ newline +:+ "      RETURNING *"
      +:+ newline +:+ "    "
  | UPDATE table setClauses whereClause _ =>
      newline +:+ "      UPDATE " +:+ table
      +:+ newline +:+ "      SET " +:+ join ", " setClauses
      +:+ newline +:+ "      WHERE " +:+ whereClause
      +:+ newline +:+ "    "
  | DELETE table whereClause _ =>
      "DELETE FROM " +:+ table +:+ " WHERE " +:+ whereClause
  end.

Definition is_insert (st : statement) : bool :=
  match st with INSERT _ _ _ _ => true | _ => false end.
Definition is_update (st : statement) : bool :=
  match st with UPDATE _ _ _ _ => true | _ => false end.
Definition is_delete (st : statement) : bool :=
  match st with DELETE _ _ _ => true | _ => false end.

(** The connection: given the statements sent so far and the next one,
    [None] if it succeeds and [Some e] if it rejects with [e]. *)
Definition Connection : Type := list statement -> statement -> option error.

(** The unit of work, the world its entities live in, and what it has
    sent to the connection and written to the console. *)
Record State : Type := {
  identityMap : IdentityMap.t;
  changeTracker : ChangeTracker.t;
  options : UnitOfWorkOptions;
  entityMetadata : gmap string EntityMetadata;
  connection : option Connection;
  isActive : bool;
  world : World;
  issued : list statement;
  console : list string
}.

(** [new UnitOfWork(options)] in a given world. *)
Definition new (opts : UnitOfWorkOptions) (w : World) : State :=
  {| identityMap := IdentityMap.new None; changeTracker := ChangeTracker.new;
     options := opts; entityMetadata := ∅; connection := None; isActive := true;
     world := w; issued := []; console := [] |}.

Definition tracker_state (s : State) : ChangeTracker.State :=
  {| ChangeTracker.world := world s; ChangeTracker.tracker := changeTracker s |}.

Definition with_identityMap (im : IdentityMap.t) (s : State) : State :=
  {| identityMap := im; changeTracker := changeTracker s;
     options := options s; entityMetadata := entityMetadata s;
     connection := connection s; isActive := isActive s;
     world := world s; issued := issued s; console := console s |}.

Definition with_tracker_state (ts : ChangeTracker.State) (s : State) : State :=
  {| identityMap := identityMap s;
     changeTracker := ChangeTracker.tracker ts;
     options := options s; entityMetadata := entityMetadata s;
     connection := connection s; isActive := isActive s;
     world := ChangeTracker.world ts;
     issued := issued s; console := console s |}.

Definition with_issued (sent : list statement) (s : State) : State :=
  {| identityMap := identityMap s; changeTracker := changeTracker s;
     options := options s; entityMetadata := entityMetadata s;
     connection := connection s; isActive := isActive s;
     world := world s; issued := sent; console := console s |}.

(** Running a method of the change tracker (or user code acting on a
    tracked instance). *)
Definition in_tracker {A} (c : M ChangeTracker.State A) : M State A :=
  fun s => let '(r, ts) := c (tracker_state s) in (r, with_tracker_state ts s).

(** Running a method of the identity map. *)
Definition in_identityMap {A} (c : M IdentityMap.t A) : M State A :=
  fun s => let '(r, im) := c (identityMap s) in (r, with_identityMap im s).

Definition registerEntity (metadata : EntityMetadata) : M State unit :=
  modify (fun s =>
    {| identityMap := identityMap s; changeTracker := changeTracker s;
       options := options s;
       entityMetadata := <[entity metadata := metadata]> (entityMetadata s);
       connection := connection s; isActive := isActive s;
       world := world s; issued := issued s; console := console s |}).

Definition setConnection (c : Connection) : M State unit :=
  modify (fun s =>
    {| identityMap := identityMap s; changeTracker := changeTracker s;
       options := options s; entityMetadata := entityMetadata s;
       connection := Some c; isActive := isActive s;
       world := world s; issued := issued s; console := console s |}).

Definition ensureActive : M State unit :=
  active <- gets isActive ;;
  if active then ret tt else throw UnitOfWorkClosed.

Definition getChanges (s : State) : list ChangeTracker.EntityChange :=
  ChangeTracker.getChanges (tracker_state s).

Definition hasChanges (s : State) : bool :=
  (0 <? length (getChanges s))%nat.

Definition checkAutoFlush : M State unit :=
  s <- get_state ;;
  if autoFlush (options s) then
    let changes := length (getChanges s) in
    if (flushThreshold (options s) <=? changes)%nat then
      modify (fun s =>
        {| identityMap := identityMap s; changeTracker := changeTracker s;
           options := options s; entityMetadata := entityMetadata s;
           connection := connection s; isActive := isActive s;
           world := world s; issued := issued s;
           console := console s
                      ++ ["Auto-flush threshold reached: " +:+ pretty changes
                          +:+ " changes pending"] |})
    else ret tt
  else ret tt.

(** A key field read from entity data: ids are scalars or objects of
    scalars, so a key field holding a reference is outside the model. *)
Definition key_field (data : loc) (field : string) : M State prim :=
  v <- in_tracker (ChangeTracker.get_property data (KStr field)) ;;
  match v with
  | VPrim p => ret p
  | _ => throw (TypeError "key field holding an object: outside the model")
  end.

Fixpoint extract_fields (data : loc) (fields : list string) (id : JsMap.t prim)
    : M State (JsMap.t prim) :=
  match fields with
  | [] => ret id
  | key :: rest =>
      p <- key_field data key ;;
      extract_fields data rest (JsMap.set id key p)
  end.

Definition extractId (data : loc) (metadata : EntityMetadata) : M State ident :=
  match primaryKey metadata with
  | Composite fields =>
      id <- extract_fields data fields [] ;;
      ret (IdComposite id)
  | Single field =>
      p <- key_field data field ;;
      ret (IdPrim p)
  end.

Definition get (entity_ : string) (id : ident) (data : option loc)
    : M State (option loc) :=
  ensureActive ;;;
  instance <- in_identityMap (IdentityMap.get entity_ id) ;;
  match instance, data with
  | None, Some data =>
      instance <- in_identityMap (IdentityMap.set entity_ id data) ;;
      tracking <- gets (fun s => enableChangeTracking (options s)) ;;
      if tracking then
        instance <- in_tracker (ChangeTracker.track entity_ id instance false) ;;
        in_identityMap (IdentityMap.delete entity_ id) ;;;
        in_identityMap (IdentityMap.set entity_ id instance) ;;;
        ret (Some instance)
      else ret (Some instance)
  | _, _ => ret instance
  end.

Definition create (entity_ : string) (data : loc) : M State loc :=
  ensureActive ;;;
  metadata <- gets (fun s => entityMetadata s !! entity_) ;;
  match metadata with
  | None => throw (UnregisteredEntityKind entity_)
  | Some metadata =>
      id <- extractId data metadata ;;
      existing <- in_identityMap (IdentityMap.get entity_ id) ;;
      match existing with
      | Some existing => ret existing
      | None =>
          instance <- in_identityMap (IdentityMap.set entity_ id data) ;;
          tracking <- gets (fun s => enableChangeTracking (options s)) ;;
          if tracking then
            tracked <- in_tracker (ChangeTracker.track entity_ id instance true) ;;
            in_identityMap (IdentityMap.delete entity_ id) ;;;
            in_identityMap (IdentityMap.set entity_ id tracked) ;;;
            ret tracked
          else ret instance
      end
  end.

Definition delete (entity_ : string) (id : ident) : M State unit :=
  ensureActive ;;;
  loaded <- in_identityMap (IdentityMap.has entity_ id) ;;
  if loaded then
    in_tracker (ChangeTracker.markDeleted entity_ id) ;;;
    checkAutoFlush
  else throw (NotLoaded entity_).

Definition persist (entity_ : string) (instance : loc) : M State loc :=
  ensureActive ;;;
  metadata <- gets (fun s => entityMetadata s !! entity_) ;;
  match metadata with
  | None => throw (UnregisteredEntityKind entity_)
  | Some metadata =>
      id <- extractId instance metadata ;;
      managed <- in_identityMap (IdentityMap.set entity_ id instance) ;;
      tracking <- gets (fun s => enableChangeTracking (options s)) ;;
      if tracking
      then in_tracker (ChangeTracker.track entity_ id managed true)
      else ret managed
  end.

(** [await this.connection.query(sql, values)] *)
Definition query (conn : Connection) (st : statement) : M State unit :=
  fun s =>
    match conn (issued s) st with
    | None => (Ok tt, with_issued (issued s ++ [st]) s)
    | Some e => (Throw e, with_issued (issued s ++ [st]) s)
    end.

Definition placeholder (paramIndex : nat) : string := "$" +:+ pretty paramIndex.

Definition id_param (id : ident) : param :=
  match id with
  | IdPrim p => Val (VPrim p)
  | IdComposite fields => IdObject fields
  end.

(** [buildWhereClause(id, metadata, values, startIndex)]: the clause and
    the extended parameter array. *)
Fixpoint where_conditions (id : ident) (cols : JsMap.t string) (keys : list string)
    (conditions : list string) (values : list param) (paramIndex : nat)
    : result (list string * list param) :=
  match keys with
  | [] => Ok (conditions, values)
  | key :: rest =>
      match JsMap.get cols key with
      | Some column =>
          if String.eqb column EmptyString
          then where_conditions id cols rest conditions values paramIndex
          else
            match ident_field id key with
            | Ok p =>
                where_conditions id cols rest
                  (conditions ++ [column +:+ " = " +:+ placeholder paramIndex])
                  (values ++ [Val (VPrim p)]) (S paramIndex)
            | Throw e => Throw e
            end
      | None => where_conditions id cols rest conditions values paramIndex
      end
  end.

Definition buildWhereClause (id : ident) (metadata : EntityMetadata)
    (values : list param) (startIndex : nat) : result (string * list param) :=
  match primaryKey metadata with
  | Composite keys =>
      match where_conditions id (columns metadata) keys [] values startIndex with
      | Ok (conditions, values') => Ok (join " AND " conditions, values')
      | Throw e => Throw e
      end
  | Single key =>
      let column := default "undefined" (JsMap.get (columns metadata) key) in
      Ok (column +:+ " = " +:+ placeholder startIndex, values ++ [id_param id])
  end.

Definition metadata_of (change : ChangeTracker.EntityChange) : M State EntityMetadata :=
  metadata <- gets (fun s => entityMetadata s !! ChangeTracker.entity change) ;;
  match metadata with
  | Some metadata => ret metadata
  | None => throw (NoMetadata (ChangeTracker.entity change))
  end.

(** [change.currentData[prop]]; reading a property of [undefined] is a
    [TypeError]. *)
Definition current_field (change : ChangeTracker.EntityChange) (prop : string)
    : M State value :=
  match ChangeTracker.currentData change with
  | Some data => in_tracker (ChangeTracker.get_property data (KStr prop))
  | None => throw (TypeError "Cannot read properties of undefined")
  end.

(** [prop in change.currentData] *)
Definition current_has (change : ChangeTracker.EntityChange) (prop : string)
    : M State bool :=
  match ChangeTracker.currentData change with
  | Some data =>
      gets (fun s => ChangeTracker.js_has (length (heap (world s))) (heap (world s))
                       data (KStr prop))
  | None => throw (TypeError "Cannot use 'in' operator in undefined")
  end.

(** The loop of [executeCreate] over [metadata.columns]. *)
Fixpoint insert_parts (change : ChangeTracker.EntityChange) (cols : JsMap.t string)
    (columns_ : list string) (values : list param) (placeholders : list string)
    (paramIndex : nat) : M State (list string * list param * list string) :=
  match cols with
  | [] => ret (columns_, values, placeholders)
  | (prop, column) :: rest =>
      present <- current_has change prop ;;
      if present then
        v <- current_field change prop ;;
        insert_parts change rest (columns_ ++ [column]) (values ++ [Val v])
          (placeholders ++ [placeholder paramIndex]) (S paramIndex)
      else insert_parts change rest columns_ values placeholders paramIndex
  end.

Definition executeCreate (conn : Connection) (change : ChangeTracker.EntityChange)
    : M State unit :=
  metadata <- metadata_of change ;;
  parts <- insert_parts change (columns metadata) [] [] [] 1 ;;
  let '(columns_, values, placeholders) := parts in
  query conn (INSERT (table metadata) columns_ placeholders values).

(** The loop of [executeUpdate] over [change.changedFields]. *)
Fixpoint update_parts (change : ChangeTracker.EntityChange) (cols : JsMap.t string)
    (fields : list string) (setClauses : list string) (values : list param)
    (paramIndex : nat) : M State (list string * list param * nat) :=
  match fields with
  | [] => ret (setClauses, values, paramIndex)
  | field :: rest =>
      match JsMap.get cols field with
      | Some column =>
          if String.eqb column EmptyString
          then update_parts change cols rest setClauses values paramIndex
          else
            v <- current_field change field ;;
            update_parts change cols rest
              (setClauses ++ [column +:+ " = " +:+ placeholder paramIndex])
              (values ++ [Val v]) (S paramIndex)
      | None => update_parts change cols rest setClauses values paramIndex
      end
  end.

Definition executeUpdate (conn : Connection) (change : ChangeTracker.EntityChange)
    : M State unit :=
  metadata <- metadata_of change ;;
  parts <- update_parts change (columns metadata)
             (default [] (ChangeTracker.changedFields change)) [] [] 1 ;;
  let '(setClauses, values, paramIndex) := parts in
  match setClauses with
  | [] => ret tt
  | _ =>
      match buildWhereClause (ChangeTracker.id change) metadata values paramIndex with
      | Ok (whereClause, values') =>
          query conn (UPDATE (table metadata) setClauses whereClause values')
      | Throw e => throw e
      end
  end.

Definition executeDelete (conn : Connection) (change : ChangeTracker.EntityChange)
    : M State unit :=
  metadata <- metadata_of change ;;
  match buildWhereClause (ChangeTracker.id change) metadata [] 1 with
  | Ok (whereClause, values) =>
      query conn (DELETE (table metadata) whereClause values)
  | Throw e => throw e
  end.

Definition of_type (ty : ChangeTracker.ChangeType)
    (changes : list ChangeTracker.EntityChange) : list ChangeTracker.EntityChange :=
  filter (fun c => ChangeTracker.type c = ty) changes.

(** The loop after [COMMIT]: re-baseline every committed entity and evict
    the deleted ones. *)
Definition reset_committed (change : ChangeTracker.EntityChange) : M State unit :=
  in_tracker (ChangeTracker.resetChanges (ChangeTracker.entity change)
                (ChangeTracker.id change)) ;;;
  if bool_decide (ChangeTracker.type change = ChangeTracker.deleted)
  then
    in_identityMap (IdentityMap.delete (ChangeTracker.entity change)
                      (ChangeTracker.id change)) ;;;
    ret tt
  else ret tt.

(** The statements of the [try] block of [commit]: [BEGIN], the deletes,
    the updates, the creates, [COMMIT]. *)
Definition send_batch (conn : Connection) (changes : list ChangeTracker.EntityChange)
    : M State unit :=
  query conn BEGIN ;;;
  let creates := of_type ChangeTracker.created changes in
  let updates := of_type ChangeTracker.updated changes in
  let deletes := of_type ChangeTracker.deleted changes in
  for_each deletes (executeDelete conn) ;;;
  for_each updates (executeUpdate conn) ;;;
  for_each creates (executeCreate conn) ;;;
  query conn COMMIT.

(** The [try] block of [commit]: the statements, then the bookkeeping for
    the committed entities, then the counts. *)
Definition commit_batch (conn : Connection) (changes : list ChangeTracker.EntityChange)
    : M State CommitResult :=
  send_batch conn changes ;;;
  for_each changes reset_committed ;;;
  ret {| created := length (of_type ChangeTracker.created changes);
         updated := length (of_type ChangeTracker.updated changes);
         deleted := length (of_type ChangeTracker.deleted changes) |}.

Definition commit : M State CommitResult :=
  ensureActive ;;;
  conn <- gets connection ;;
  match conn with
  | None => throw NoConnection
  | Some conn =>
      changes <- gets getChanges ;;
      match changes with
      | [] => ret {| created := 0; updated := 0; deleted := 0 |}
      | _ =>
          try_catch (commit_batch conn changes)
                    (fun e => query conn ROLLBACK ;;; throw e)
      end
  end.

Definition clear : M State unit :=
  in_identityMap IdentityMap.clear ;;;
  in_tracker ChangeTracker.clear.

Definition close : M State unit :=
  clear ;;;
  modify (fun s =>
    {| identityMap := identityMap s; changeTracker := changeTracker s;
       options := options s; entityMetadata := entityMetadata s;
       connection := connection s; isActive := false;
       world := world s; issued := issued s; console := console s |}).

Definition getStats : M State (IdentityMap.Stats * ChangeTracker.Stats) :=
  identityMap_ <- in_identityMap IdentityMap.getStats ;;
  changeTracker_ <- gets (fun s => ChangeTracker.getStats (tracker_state s)) ;;
  ret (identityMap_, changeTracker_).

(** A garbage collection between two calls on the unit of work: the key
    objects of its identity map are all the collector can reclaim that
    the unit of work can tell. *)
Definition collect_garbage (ks : gset nat) : M State unit :=
  in_identityMap (IdentityMap.collect_garbage ks).

End UnitOfWork.
(* ------------------------------------------------------------------ *)
(** ** Vocabulary of the properties                                    *)
(* ------------------------------------------------------------------ *)

Section InvariantVocabulary.

(** The computation [c] keeps the invariant [P], however it ends. *)
Definition keeps {S A} (P : S -> Prop) (c : M S A) : Prop :=
  forall s r s', c s = (r, s') -> P s -> P s'.

End InvariantVocabulary.

Section PoolVocabulary.

Import ConnectionPool.

(** The notification announcing attempt number [a] (counted from 1). *)
Definition attempt_notification (config : ReconnectionConfig) (a : nat) : notification :=
  reconnectionAttempt a (delay_of config (Nat.pred a)).

(** The bookkeeping of the query metrics: at most 1000 are stored, every
    stored one was counted, and no more queries are counted slow than
    were counted. *)
Definition metrics_ok (p : t) : Prop :=
  (length (queryMetrics p) <= 1000)%nat /\
  (length (queryMetrics p) <= totalQueries p)%nat /\
  (slowQueries p <= totalQueries p)%nat.

(** The connection [c] has been handed out and not released. *)
Definition open_connection (c : nat) (p : t) : Prop :=
  connections p !! c = Some {| released := false; clientReleases := 0 |}.

End PoolVocabulary.

Section ManagerVocabulary.

Import TransactionManager.

(** The connection accepts every statement. *)
Definition accepting (m : TransactionManager) : Prop :=
  forall sent sql, connection m sent sql = None.



(** Transaction ids are handed out in sequence: none of the ids still
    to come is in use. *)
Definition fresh_ids (m : TransactionManager) : Prop :=
  forall k, (nextTransactionId m <= k)%nat ->
            JsMap.get (activeTransactions m) ("tx_" +:+ pretty k) = None.

(** While the transaction [txid] runs: the ids from [n] on are still to
    come, and the map of transactions is [found], the one found at its
    start, plus the transaction's own entry. *)
Definition running (found : JsMap.t TransactionContext) (n : nat) (txid : string)
    (m : TransactionManager) : Prop :=
  (n <= nextTransactionId m)%nat /\
  fresh_ids m /\
  exists t, id t = txid /\ activeTransactions m = JsMap.set found txid t.

End ManagerVocabulary.

Section KeyVocabulary.

(** The order in which [sortObjectKeys] puts the fields of a composite
    id: by name. *)
Definition key_le (f g : string * prim) : Prop := String.le (fst f) (fst g).

End KeyVocabulary.

Section HeapVocabulary.

(** [h'] keeps every cell of [h] in place. *)
Definition preserves (h h' : list cell) : Prop :=
  (length h <= length h')%nat /\
  forall l, (l < length h)%nat -> h' !! l = h !! l.

End HeapVocabulary.

Section TrackerVocabulary.

Import ChangeTracker.

(** [s'] differs from [s] by freshly allocated cells only. *)
Definition allocates (s s' : State) : Prop :=
  tracker s' = tracker s /\
  sets (world s') = sets (world s) /\
  heap (world s) `prefix_of` heap (world s').

(** [s'] differs from [s] by writes to plain cells, by allocations, and
    by paths added to the sets of changed fields: no set loses a path. *)
Definition marks (s s' : State) : Prop :=
  tracker s' = tracker s /\
  (length (sets (world s)) <= length (sets (world s')))%nat /\
  forall c x, x ∈ set_elements (world s) c -> x ∈ set_elements (world s') c.

(** A cell that is an object or an array proper (not a proxy). *)
Definition plain (h : list cell) (l : loc) : Prop :=
  match h !! l with
  | Some (Obj _) | Some (Arr _) => True
  | _ => False
  end.

(** [Reflect.get] on a plain cell. *)
Definition raw_read (h : list cell) (l : loc) (k : key) : option value :=
  match h !! l with
  | Some (Obj props) => Some (default VUndefined (props_get props k))
  | Some (Arr elems) => Some (arr_get elems k)
  | _ => None
  end.

(** [raw_path h t chain owner]: following the non-symbol keys of [chain]
    from the plain cell [t] leads, through plain cells, to [owner]. *)
Fixpoint raw_path (h : list cell) (t : loc) (chain : list key) (owner : loc) : Prop :=
  match chain with
  | [] => t = owner
  | k :: rest =>
      is_symbol k = false /\
      exists t', raw_read h t k = Some (VRef t') /\ plain h t' /\
                 raw_path h t' rest owner
  end.

(** The dotted string of an access chain: [profile.bio], [items.0.name]. *)
Definition dotted (chain : list key) : string :=
  join "." (map key_string chain).

(** The keys of the [WeakMap] of root proxies are proxies. *)
Definition proxies_are_proxies (s : State) : Prop :=
  forall l, l ∈ entityProxies (tracker s) ->
            exists t h, heap (world s) !! l = Some (Proxy t h).

(** [s'] has the tracker and the sets of changed fields of [s]. *)
Definition keeps_sets (s s' : State) : Prop :=
  tracker s' = tracker s /\ sets (world s') = sets (world s).

(** [s'] has the tracker of [s], and its sets of changed fields are
    those of [s] after [changedFields.add(x)] on the set [cf]. *)
Definition set_added (cf : nat) (x : string) (s s' : State) : Prop :=
  tracker s' = tracker s /\ sets (world s') = sets (snd (set_add cf x (world s))).

(** [elems] after [add(x)]. *)
Definition add_path (elems : list string) (x : string) : list string :=
  if bool_decide (x ∈ elems) then elems else elems ++ [x].

(** Following [chain] from the plain cell [t] through plain cells by
    non-symbol keys. *)
Fixpoint raw_walk (h : list cell) (t : loc) (chain : list key) : option loc :=
  match chain with
  | [] => Some t
  | k :: rest =>
      if is_symbol k then None
      else
        match raw_read h t k with
        | Some (VRef t') =>
            match h !! t' with
            | Some (Obj _) | Some (Arr _) => raw_walk h t' rest
            | _ => None
            end
        | _ => None
        end
  end.

Definition is_proxy (h : list cell) (l : loc) : bool :=
  match h !! l with Some (Proxy _ _) => true | _ => false end.

(** The entity [entity]/[id] is tracked, its wrapped instance is the
    root proxy [p] of [t], and its set of changed fields is [cf]. *)
Definition wrapped (s : State) (entity : string) (id : ident) (p t : loc) (cf : nat)
    : Prop :=
  (exists tracked,
     JsMap.get (trackedEntities (tracker s)) (createKey entity id) = Some tracked /\
     te_changedFields tracked = cf) /\
  heap (world s) !! p = Some (Proxy t (RootHandler cf entity id)) /\
  (cf < length (sets (world s)))%nat /\
  forallb (is_proxy (heap (world s))) (entityProxies (tracker s)) = true.

(** Every tracked entity is filed once, under the key of its own kind
    and id. *)
Definition filed (m : JsMap.t TrackedEntity) : Prop :=
  NoDup (JsMap.keys m) /\
  forall k tracked, (k, tracked) ∈ m ->
                    k = createKey (te_entity tracked) (te_id tracked).

(** Nothing is pending for a tracked entity: it is neither new nor
    marked deleted, and no field of it has changed. *)
Definition settled (w : World) (tracked : TrackedEntity) : Prop :=
  te_isNew tracked = false /\ te_isDeleted tracked = false /\
  set_elements w (te_changedFields tracked) = [].

(** Two records of one tracked entity: the same kind, id, instance,
    proxy, deletion mark and set of changed fields. *)
Definition same_subject (a b : TrackedEntity) : Prop :=
  te_entity b = te_entity a /\ te_id b = te_id a /\ te_data b = te_data a /\
  te_proxy b = te_proxy a /\ te_isDeleted b = te_isDeleted a /\
  te_changedFields b = te_changedFields a.

(** [s'] comes from [s] by re-baselining only: no cell is overwritten,
    a set of changed fields is as before or empty, no entity becomes
    tracked or new, and only entities marked deleted stop being
    tracked. *)
Definition rebaselined (s s' : State) : Prop :=
  preserves (heap (world s)) (heap (world s')) /\
  (forall cf, set_elements (world s') cf = []
              \/ set_elements (world s') cf = set_elements (world s) cf) /\
  forall k,
    match JsMap.get (trackedEntities (tracker s)) k,
          JsMap.get (trackedEntities (tracker s')) k with
    | Some a, Some b => same_subject a b /\ (te_isNew b = true -> te_isNew a = true)
    | Some a, None => te_isDeleted a = true
    | None, Some _ => False
    | None, None => True
    end.

End TrackerVocabulary.

Section UnitOfWorkVocabulary.

Import UnitOfWork.

(** The instance the unit of work holds under a kind and id. *)
Definition registered_instance (s : State) (entity_ : string) (id : ident)
    : option loc :=
  match IdentityMap.createCompositeKey entity_ id with
  | Ok ck => IdentityMap.lookup_instance (identityMap s) entity_ ck
  | Throw _ => None
  end.

(** The key object under which the identity map holds the entry of a
    kind and id. *)
Definition entry_key (s : State) (entity_ : string) (id : ident) : option nat :=
  IdentityMap.key_object (identityMap s) entity_ id.

(** The unit of work after a garbage collection that reclaims the key
    objects [ks]. *)
Definition after_collection (ks : gset nat) (s : State) : State :=
  snd (collect_garbage ks s).

(** The unit of work after a look-up of a kind and id in its identity
    map: a dead weak reference met on the way has left the registry,
    and nothing else differs. *)
Definition after_lookup (s : State) (entity_ : string) (id : ident) : State :=
  match IdentityMap.createCompositeKey entity_ id with
  | Ok ck => with_identityMap (IdentityMap.swept (identityMap s) entity_ ck) s
  | Throw _ => s
  end.

(** The tracker tracks the entity, and [p] is its wrapped instance. *)
Definition tracked_as (s : State) (entity_ : string) (id : ident) (p : loc) : Prop :=
  exists tracked,
    JsMap.get (ChangeTracker.trackedEntities (changeTracker s))
      (ChangeTracker.createKey entity_ id) = Some tracked /\
    ChangeTracker.te_proxy tracked = p.

(** The identity map of the unit of work is well-formed and registers
    its key objects (the constructor leaves [enableWeakRefs] on). *)
Definition identity_ok (s : State) : Prop :=
  IdentityMap.wf (identityMap s) /\ IdentityMap.enableWeakRefs (identityMap s) = true.

(** The key is free: nothing is registered or tracked under it. *)
Definition free_key (s : State) (entity_ : string) (id : ident) : Prop :=
  ~ IdentityMap.null_id id /\
  registered_instance s entity_ id = None /\
  JsMap.get (ChangeTracker.trackedEntities (changeTracker s))
    (ChangeTracker.createKey entity_ id) = None.

(** [s'] holds the same entities as [s]: the same identity map, tracker
    and sets of changed fields; the heap has only grown. *)
Definition same_entities (s s' : State) : Prop :=
  identityMap s' = identityMap s /\
  changeTracker s' = changeTracker s /\
  options s' = options s /\
  entityMetadata s' = entityMetadata s /\
  connection s' = connection s /\
  isActive s' = isActive s /\
  console s' = console s /\
  sets (world s') = sets (world s) /\
  heap (world s) `prefix_of` heap (world s').

(** The connection accepts the statements [sent] one after the other,
    after [base]. *)
Fixpoint accepted (conn : Connection) (base sent : list statement) : Prop :=
  match sent with
  | [] => True
  | st :: rest => conn base st = None /\ accepted conn (base ++ [st]) rest
  end.

(** How a run that sent [sent] after [base] can end: normally only if
    every statement was accepted; with [e] if every statement was
    accepted or if the last one was rejected with [e]. *)
Definition verdict {A} (conn : Connection) (base sent : list statement)
    (r : result A) : Prop :=
  match r with
  | Ok _ => accepted conn base sent
  | Throw e =>
      accepted conn base sent \/
      exists pre st, sent = pre ++ [st] /\ accepted conn base pre /\
                     conn (base ++ pre) st = Some e
  end.

(** A run from [s] to [s'] that sent [sent] and touched nothing else. *)
Definition sends {A} (conn : Connection) (s : State) (sent : list statement)
    (r : result A) (s' : State) : Prop :=
  same_entities s s' /\ issued s' = issued s ++ sent /\
  verdict conn (issued s) sent r.

Definition is_ok {A} (r : result A) : Prop :=
  match r with Ok _ => True | Throw _ => False end.

Definition deletes_of (changes : list ChangeTracker.EntityChange) : nat :=
  length (of_type ChangeTracker.deleted changes).

Definition updates_of (changes : list ChangeTracker.EntityChange) : nat :=
  length (of_type ChangeTracker.updated changes).

Definition creates_of (changes : list ChangeTracker.EntityChange) : nat :=
  length (of_type ChangeTracker.created changes).

(** The properties an object has among those with a column, with their
    columns, in the order of the metadata. *)
Definition present_columns (props : list (key * value)) (cols : JsMap.t string)
    : JsMap.t string :=
  List.filter (fun pc => bool_decide (is_Some (props_get props (KStr (fst pc))))) cols.

(** The changed fields that have a column (a non-empty one), with their
    columns, in the order of the changed fields. *)
Definition mapped_fields (cols : JsMap.t string) (fields : list string)
    : list (string * string) :=
  flat_map (fun field =>
              match JsMap.get cols field with
              | Some column =>
                  if String.eqb column EmptyString then [] else [(field, column)]
              | None => []
              end) fields.

(** [obj[prop]] as a statement parameter. *)
Definition field_value (props : list (key * value)) (prop : string) : param :=
  Val (default VUndefined (props_get props (KStr prop))).

(** [column = $i] for each field, numbered from [start]. *)
Definition set_clauses (start : nat) (fields : list (string * string)) : list string :=
  zip_with (fun fc i => snd fc +:+ " = " +:+ placeholder i) fields
    (seq start (length fields)).

(** Whether a pending update has a changed field with a column: these
    are the updates that [commit] sends an [UPDATE] for. *)
Definition sends_update (mds : gmap string EntityMetadata)
    (change : ChangeTracker.EntityChange) : Prop :=
  exists md, mds !! ChangeTracker.entity change = Some md /\
             mapped_fields (columns md)
               (default [] (ChangeTracker.changedFields change)) <> [].

#[global] Instance sends_update_dec mds change : Decision (sends_update mds change).
Proof.
  unfold sends_update. destruct (mds !! ChangeTracker.entity change) as [md |].
  - destruct (decide (mapped_fields (columns md)
                        (default [] (ChangeTracker.changedFields change)) = []))
      as [Hnone | Hsome].
    + right. intros (md' & [= <-] & H). contradiction.
    + left. eauto.
  - right. intros (md' & [=] & _).
Defined.

(** The table a statement addresses. *)
Definition statement_table (st : statement) : option string :=
  match st with
  | INSERT table _ _ _ | UPDATE table _ _ _ | DELETE table _ _ => Some table
  | _ => None
  end.

(** The statement [st] is the one sent for the pending change
    [change]: a statement of the kind [kind] on the table of the kind
    of the entity. *)
Definition sent_for (mds : gmap string EntityMetadata) (kind : statement -> bool)
    (change : ChangeTracker.EntityChange) (st : statement) : Prop :=
  kind st = true /\
  exists md, mds !! ChangeTracker.entity change = Some md /\
             statement_table st = Some (table md).

End UnitOfWorkVocabulary.

(* ------------------------------------------------------------------ *)
(** ** Sample states and inputs                                        *)
(* ------------------------------------------------------------------ *)

(** A manager whose only transaction [tx_1] is active with savepoints
    [sps], over a connection that accepts everything. *)
Definition manager_with_savepoints (sps : list string)
    : TransactionManager.TransactionManager :=
  {| TransactionManager.connection := fun _ _ => None;
     TransactionManager.activeTransactions :=
       [("tx_1",
         {| TransactionManager.id := "tx_1"; TransactionManager.level := 0;
            TransactionManager.tx_isolationLevel := None;
            TransactionManager.savepoints := sps;
            TransactionManager.tx_readOnly := false;
            TransactionManager.isActive := true |})];
     TransactionManager.nextTransactionId := 2;
     TransactionManager.nextSavepointId := 4;
     TransactionManager.trace := [];
     TransactionManager.invocations := 0 |}.




(** [withTransaction(callback)] with no options. *)
Definition no_options : TransactionManager.TransactionOptions :=
  {| TransactionManager.isolationLevel := None;
     TransactionManager.timeout := None;
     TransactionManager.retryOnDeadlock := None;
     TransactionManager.maxRetries := None;
     TransactionManager.retryDelay := None;
     TransactionManager.readOnly := None;
     TransactionManager.deferrable := None |}.

(** The callbacks of the repository's test of nested transactions: the
    outer one returns [manager.withTransaction(innerCallback)], the inner
    one resolves with ['inner success']. *)
Definition inner_callback (n : nat) (tx : TransactionManager.TransactionContext)
    : M TransactionManager.TransactionManager string :=
  TransactionManager.settles (inl "inner success").

Definition outer_callback (n : nat) (tx : TransactionManager.TransactionContext)
    : M TransactionManager.TransactionManager (TransactionManager.TransactionResult string) :=
  TransactionManager.withTransaction inner_callback (fun _ => false) (fun _ _ m => m)
    no_options.

(** The [User] kind of the repository's tests. *)
Definition user_metadata : UnitOfWork.EntityMetadata :=
  {| UnitOfWork.entity := "User"; UnitOfWork.table := "users";
     UnitOfWork.primaryKey := UnitOfWork.Single "id";
     UnitOfWork.columns := [("id", "id"); ("name", "name"); ("email", "email")] |}.

Definition user_object (id : Z) (name email : string) : cell :=
  Obj [(KStr "id", VNum id); (KStr "name", VStr name); (KStr "email", VStr email)].

(** A fresh unit of work with [User] registered, over a heap holding the
    given cells. *)
Definition unit_of_work_over (cells : list cell) : UnitOfWork.State :=
  {| UnitOfWork.identityMap := IdentityMap.new None;
     UnitOfWork.changeTracker := ChangeTracker.new;
     UnitOfWork.options := UnitOfWork.default_options;
     UnitOfWork.entityMetadata := {["User" := user_metadata]};
     UnitOfWork.connection := None;
     UnitOfWork.isActive := true;
     UnitOfWork.world := {| heap := cells; sets := [] |};
     UnitOfWork.issued := [];
     UnitOfWork.console := [] |}.

(** A connection that accepts everything. *)
Definition accepting_connection : UnitOfWork.Connection := fun _ _ => None.

(** A connection that accepts [BEGIN], rejects every other statement as
    a duplicate key, and fails on [ROLLBACK]. *)
Definition dying_connection : UnitOfWork.Connection :=
  fun _ st =>
    match st with
    | UnitOfWork.BEGIN => None
    | UnitOfWork.ROLLBACK => Some (DriverError (Some "08006") "connection terminated")
    | _ => Some (DriverError (Some "23505") "duplicate key value")
    end.

Definition three_users : list cell :=
  [user_object 1 "Ada" "ada@example.com";
   user_object 2 "Alan" "alan@example.com";
   user_object 3 "Kurt" "kurt@example.com"].

(** User 1 created, user 2 loaded and renamed, user 3 loaded and
    deleted: one pending change of each type. *)
Definition one_of_each (conn : UnitOfWork.Connection) : UnitOfWork.State :=
  snd ((UnitOfWork.setConnection conn ;;;
        UnitOfWork.create "User" 0%nat ;;;
        loaded <- UnitOfWork.get "User" (IdPrim (PNum 2)) (Some 1%nat) ;;
        match loaded with
        | Some wrapped =>
            UnitOfWork.in_tracker
              (ChangeTracker.set_property wrapped (KStr "name") (VStr "Grace")) ;;;
            ret tt
        | None => ret tt
        end ;;;
        UnitOfWork.get "User" (IdPrim (PNum 3)) (Some 2%nat) ;;;
        UnitOfWork.delete "User" (IdPrim (PNum 3)))
       (unit_of_work_over three_users)).

(** User 1 created and nothing else. *)
Definition one_created (conn : UnitOfWork.Connection) : UnitOfWork.State :=
  snd ((UnitOfWork.setConnection conn ;;; UnitOfWork.create "User" 0%nat)
       (unit_of_work_over three_users)).

(** A user with a nested profile and a list of tags, as plain cells:
    the user at 0, the profile at 1, the tags at 2. *)
Definition profile_cells : list cell :=
  [Obj [(KStr "id", VNum 1); (KStr "name", VStr "Ada");
        (KStr "profile", VRef 1); (KStr "tags", VRef 2)];
   Obj [(KStr "bio", VStr "hello")];
   Arr [VStr "b"; VStr "a"]].

Definition untracked_profile : ChangeTracker.State :=
  {| ChangeTracker.world := {| heap := profile_cells; sets := [] |};
     ChangeTracker.tracker := ChangeTracker.new |}.

(** [tracker.track('User', 1, user, false)]: the state after, and the
    wrapped instance it returns. *)
Definition tracked_profile : ChangeTracker.State :=
  snd (ChangeTracker.track "User" (IdPrim (PNum 1)) 0%nat false untracked_profile).

Definition wrapped_profile : loc :=
  match fst (ChangeTracker.track "User" (IdPrim (PNum 1)) 0%nat false untracked_profile) with
  | Ok p => p
  | Throw _ => 0%nat
  end.

(** A post whose [author] is a tracked user: the user is tracked, its
    wrapped instance is stored in the post ([post.author = author]), and
    the post is tracked in turn. *)
Definition post_cells : list cell :=
  [Obj [(KStr "id", VNum 1); (KStr "name", VStr "Ada")];
   Obj [(KStr "id", VNum 10); (KStr "title", VStr "Hello")]].

Definition track_post_with_author : M ChangeTracker.State (loc * loc) :=
  author <- ChangeTracker.track "User" (IdPrim (PNum 1)) 0%nat false ;;
  ChangeTracker.set_property 1%nat (KStr "author") (VRef author) ;;;
  post <- ChangeTracker.track "Post" (IdPrim (PNum 10)) 1%nat false ;;
  ret (author, post).

Definition untracked_post : ChangeTracker.State :=
  {| ChangeTracker.world := {| heap := post_cells; sets := [] |};
     ChangeTracker.tracker := ChangeTracker.new |}.

Definition post_with_author : ChangeTracker.State :=
  snd (track_post_with_author untracked_post).

(** The wrapped instances of the user and of the post. *)
Definition wrapped_author : loc :=
  match fst (track_post_with_author untracked_post) with
  | Ok (author, _) => author
  | Throw _ => 0%nat
  end.

Definition wrapped_post : loc :=
  match fst (track_post_with_author untracked_post) with
  | Ok (_, post) => post
  | Throw _ => 0%nat
  end.

(** The manager after [createSavepoint] under [tx_1] with the names
    [a], [b] and [a] again. *)
Definition twice_named_savepoints : TransactionManager.TransactionManager :=
  snd ((TransactionManager.createSavepoint "tx_1" (Some "a") ;;;
        TransactionManager.createSavepoint "tx_1" (Some "b") ;;;
        TransactionManager.createSavepoint "tx_1" (Some "a"))
       (manager_with_savepoints [])).

(** The [INSERT] that [commit] sends for the created user 1. *)
Definition insert_ada : UnitOfWork.statement :=
  UnitOfWork.INSERT "users" ["id"; "name"; "email"] ["$1"; "$2"; "$3"]
    [UnitOfWork.Val (VNum 1); UnitOfWork.Val (VStr "Ada");
     UnitOfWork.Val (VStr "ada@example.com")].

(** A unit of work constructed with [enableChangeTracking: false], with
    [User] registered, that has loaded user 1. *)
Definition loaded_untracked : UnitOfWork.State :=
  snd (UnitOfWork.get "User" (IdPrim (PNum 1)) (Some 0%nat)
         {| UnitOfWork.identityMap := IdentityMap.new None;
            UnitOfWork.changeTracker := ChangeTracker.new;
            UnitOfWork.options :=
              {| UnitOfWork.autoFlush := false; UnitOfWork.flushThreshold := 1000;
                 UnitOfWork.enableChangeTracking := false |};
            UnitOfWork.entityMetadata := {["User" := user_metadata]};
            UnitOfWork.connection := None;
            UnitOfWork.isActive := true;
            UnitOfWork.world := {| heap := three_users; sets := [] |};
            UnitOfWork.issued := [];
            UnitOfWork.console := [] |}).

(** A pool with monitoring on and nothing run yet, and the same pool
    after [getConnection] has handed out its first connection. *)
Definition monitored_pool : ConnectionPool.t :=
  {| ConnectionPool.monitoring :=
       {| ConnectionPool.monitoring_enabled := true;
          ConnectionPool.slowQueryThreshold := Some 1000;
          ConnectionPool.logQueries := false |};
     ConnectionPool.isShuttingDown := false;
     ConnectionPool.totalQueries := 0; ConnectionPool.slowQueries := 0;
     ConnectionPool.errors := 0;
     ConnectionPool.queryMetrics := []; ConnectionPool.emitted := [];
     ConnectionPool.sent := []; ConnectionPool.connections := [] |}.

Definition pool_with_connection : ConnectionPool.t :=
  snd (ConnectionPool.getConnection (fun _ => None) monitored_pool).

(** A driver that rejects [SELECT broken] as a syntax error and accepts
    every other statement. *)
Definition picky_driver : list string -> string -> option (option string * string) :=
  fun _ sql =>
    if String.eqb sql "SELECT broken" then Some (Some "42601", "syntax error")
    else None.

(** Two payloads that carry the same id. *)
Definition same_id_users : list cell :=
  [user_object 1 "Ada" "ada@example.com"; user_object 1 "Countess" "ada@example.org"].

(** A connection that rejects every [INSERT] as a duplicate key and
    accepts every other statement. *)
Definition rejecting_inserts : UnitOfWork.Connection :=
  fun _ st =>
    if UnitOfWork.is_insert st
    then Some (DriverError (Some "23505") "duplicate key value")
    else None.

(** An identity map holding user 1 (at location 3) and order 1 (at
    location 7). *)
Definition users_and_orders : IdentityMap.t :=
  snd ((IdentityMap.set "User" (IdPrim (PNum 1)) 3%nat ;;;
        IdentityMap.set "Order" (IdPrim (PNum 1)) 7%nat)
       (IdentityMap.new None)).

(** The tracked user after [wrapped.name = 'Grace']. *)
Definition renamed_profile : ChangeTracker.State :=
  snd (ChangeTracker.set_property wrapped_profile (KStr "name") (VStr "Grace")
         tracked_profile).

(** The pending change of [one_created]: user 1, created. *)
Definition created_ada : ChangeTracker.EntityChange :=
  {| ChangeTracker.entity := "User"; ChangeTracker.id := IdPrim (PNum 1);
     ChangeTracker.type := ChangeTracker.created;
     ChangeTracker.originalData := None;
     ChangeTracker.currentData := Some 0%nat;
     ChangeTracker.changedFields := None |}.

(** The pending update of [one_of_each]: user 2, renamed; its data is
    the cell 1, its snapshot the cell 3. *)
Definition updated_alan : ChangeTracker.EntityChange :=
  {| ChangeTracker.entity := "User"; ChangeTracker.id := IdPrim (PNum 2);
     ChangeTracker.type := ChangeTracker.updated;
     ChangeTracker.originalData := Some (VRef 5%nat);
     ChangeTracker.currentData := Some 1%nat;
     ChangeTracker.changedFields := Some ["name"] |}.

(** The pending delete of [one_of_each]: user 3. *)
Definition deleted_kurt : ChangeTracker.EntityChange :=
  {| ChangeTracker.entity := "User"; ChangeTracker.id := IdPrim (PNum 3);
     ChangeTracker.type := ChangeTracker.deleted;
     ChangeTracker.originalData := Some (VRef 7%nat);
     ChangeTracker.currentData := None;
     ChangeTracker.changedFields := None |}.

(** The [DELETE] and the [UPDATE] that [commit] sends for them. *)
Definition delete_kurt : UnitOfWork.statement :=
  UnitOfWork.DELETE "users" "id = $1" [UnitOfWork.Val (VNum 3)].

Definition update_alan : UnitOfWork.statement :=
  UnitOfWork.UPDATE "users" ["name = $1"] "id = $2"
    [UnitOfWork.Val (VStr "Grace"); UnitOfWork.Val (VNum 2)].
(* ================================================================== *)
(** * Part II: properties                                              *)
(* ================================================================== *)

(** ** Generic facts *)

Lemma bind_ok {S A B} (c : M S A) (k : A -> M S B) s a s' :
  c s = (Ok a, s') -> bind c k s = k a s'.
Proof. intros H. unfold bind. now rewrite H. Qed.





(* ------------------------------------------------------------------ *)
(** ** Reconnection schedule                                           *)
(* ------------------------------------------------------------------ *)

Section ReconnectionFacts.

Import ConnectionPool.

Variable config : ReconnectionConfig.
Variable healthy : nat -> bool.

(** The recursive equation of the source: the guard
    [retryCount >= maxRetries], then one attempt, then the recursive call. *)
Lemma attemptReconnection_eq (retryCount : nat) :
  attemptReconnection config healthy retryCount =
  if maxRetries config <=? Z.of_nat retryCount
  then [Emit (reconnectionFailed retryCount)]
  else Emit (reconnectionAttempt (retryCount + 1) (delay_of config retryCount))
       :: Sleep (delay_of config retryCount)
       :: HealthCheck
       :: (if healthy retryCount
           then [Emit (reconnectionSuccess (retryCount + 1))]
           else attemptReconnection config healthy (S retryCount)).
Proof.
  unfold attemptReconnection.
  destruct (Z.leb_spec (maxRetries config) (Z.of_nat retryCount)) as [Hle | Hlt].
  - replace (Z.to_nat _) with O by lia. reflexivity.
  - replace (Z.to_nat (maxRetries config - Z.of_nat retryCount))
      with (S (Z.to_nat (maxRetries config - Z.of_nat (S retryCount)))) by lia.
    reflexivity.
Qed.

Lemma attemptReconnection_from_shape (budget retryCount : nat) :
  exists (k : nat) (final : notification),
    (k <= budget)%nat /\
    notifications (attemptReconnection_from config healthy budget retryCount)
      = map (attempt_notification config) (seq (S retryCount) k) ++ [final] /\
    sleeps (attemptReconnection_from config healthy budget retryCount)
      = map (fun a => delay_of config (Nat.pred a)) (seq (S retryCount) k) /\
    (forall j, (S j < k)%nat -> healthy (retryCount + j) = false) /\
    ((final = reconnectionSuccess (retryCount + k) /\ (1 <= k)%nat
      /\ healthy (Nat.pred (retryCount + k)) = true)
     \/ (final = reconnectionFailed (retryCount + k) /\ k = budget
         /\ forall j, (j < k)%nat -> healthy (retryCount + j) = false)).
Proof.
  revert retryCount.
  induction budget as [| b IH]; intros rc.
  - exists O, (reconnectionFailed rc). cbn.
    split; [lia |]. split; [reflexivity |]. split; [reflexivity |].
    split; [intros; lia |].
    right. replace (rc + 0)%nat with rc by lia.
    split; [reflexivity |]. split; [reflexivity | intros; lia].
  - cbn [attemptReconnection_from].
    replace (rc + 1)%nat with (S rc) by lia.
    destruct (healthy rc) eqn:Hh.
    + exists 1%nat, (reconnectionSuccess (S rc)). cbn.
      unfold attempt_notification. cbn [Nat.pred].
      replace (rc + 1)%nat with (S rc) by lia.
      split; [lia |]. split; [reflexivity |]. split; [reflexivity |].
      split; [intros; lia |].
      left. split; [reflexivity |]. split; [lia | exact Hh].
    + destruct (IH (S rc)) as (k & final & Hk & Hn & Hs & Hmid & Hfin).
      exists (S k), final. unfold notifications, sleeps in *.
      cbn [flat_map app]. rewrite Hn, Hs. cbn [seq map app].
      unfold attempt_notification at 2. cbn [Nat.pred].
      split; [lia |]. split; [reflexivity |]. split; [reflexivity |].
      split.
      * intros j Hj. destruct j as [| j].
        -- replace (rc + 0)%nat with rc by lia. exact Hh.
        -- replace (rc + S j)%nat with (S rc + j)%nat by lia.
           apply Hmid. lia.
      * replace (rc + S k)%nat with (S rc + k)%nat by lia.
        destruct Hfin as [(Hf & Hk1 & Hh') | (Hf & Hkb & Hall)].
        -- left. split; [exact Hf | split; [lia | exact Hh']].
        -- right. split; [exact Hf | split; [lia |]].
           intros j Hj. destruct j as [| j].
           ++ replace (rc + 0)%nat with rc by lia. exact Hh.
           ++ replace (rc + S j)%nat with (S rc + j)%nat by lia.
              apply Hall. lia.
Qed.

End ReconnectionFacts.

(** Claim C8, as the code has it.  A reconnection run started by a pool
    error makes attempts numbered [1 .. k] with [k <= maxRetries];
    attempt [a] is announced by one [reconnectionAttempt] notification
    and waits [retryDelay * 2^(a-1)] under exponential backoff
    ([retryDelay] otherwise); the run ends with a single closing
    notification: [reconnectionSuccess k] as soon as a health check
    passes, or [reconnectionFailed maxRetries] when all [maxRetries]
    checks failed. *)
Theorem reconnection_backoff_schedule
    (config : ConnectionPool.ReconnectionConfig) (healthy : nat -> bool) :
  let delay (a : nat) :=
    if ConnectionPool.exponentialBackoff config
    then ConnectionPool.retryDelay config * 2 ^ (Z.of_nat a - 1)
    else ConnectionPool.retryDelay config in
  exists (k : nat) (final : ConnectionPool.notification),
    Z.of_nat k <= Z.max 0 (ConnectionPool.maxRetries config) /\
    ConnectionPool.notifications (ConnectionPool.attemptReconnection config healthy 0)
      = map (fun a => ConnectionPool.reconnectionAttempt a (delay a)) (seq 1 k) ++ [final] /\
    ConnectionPool.sleeps (ConnectionPool.attemptReconnection config healthy 0)
      = map delay (seq 1 k) /\
    (forall j, (S j < k)%nat -> healthy j = false) /\
    ((final = ConnectionPool.reconnectionSuccess k /\ (1 <= k)%nat
      /\ healthy (Nat.pred k) = true)
     \/ (final = ConnectionPool.reconnectionFailed k
         /\ k = Z.to_nat (ConnectionPool.maxRetries config)
         /\ forall j, (j < k)%nat -> healthy j = false)).
Proof.
  intros delay. unfold ConnectionPool.attemptReconnection.
  destruct (attemptReconnection_from_shape config healthy
              (Z.to_nat (ConnectionPool.maxRetries config - Z.of_nat 0)) 0)
    as (k & final & Hk & Hn & Hs & Hmid & Hfin).
  assert (Hdelay : forall a, In a (seq 1 k) ->
            ConnectionPool.delay_of config (Nat.pred a) = delay a).
  { intros a Ha. apply in_seq in Ha. unfold ConnectionPool.delay_of, delay.
    destruct (ConnectionPool.exponentialBackoff config); [| reflexivity].
    do 2 f_equal. lia. }
  exists k, final.
  split; [lia |]. split; [| split; [| split]].
  - rewrite Hn. f_equal. apply map_ext_in. intros a Ha.
    unfold attempt_notification. now rewrite Hdelay.
  - rewrite Hs. now apply map_ext_in.
  - exact Hmid.
  - destruct Hfin as [H | (Hf & Hkb & Hall)]; [left; exact H | right].
    split; [exact Hf | split; [lia | exact Hall]].
Qed.

(** Claim C8 as stated fails: with [retryDelay = 1000], [maxRetries = 2]
    and a pool that stays unhealthy, attempt 1 waits
    [1000 = retryDelay * 2^0] (not [retryDelay * 2^1 = 2000]), attempt 2
    waits [2000], and no notification separates the two attempts: one
    [reconnectionFailed] closes the run. *)
Lemma reconnection_delay_counterexample :
  ConnectionPool.notifications
    (ConnectionPool.attemptReconnection
       {| ConnectionPool.enabled := true; ConnectionPool.maxRetries := 2;
          ConnectionPool.retryDelay := 1000;
          ConnectionPool.exponentialBackoff := true |}
       (fun _ => false) 0)
  = [ConnectionPool.reconnectionAttempt 1 1000;
     ConnectionPool.reconnectionAttempt 2 2000;
     ConnectionPool.reconnectionFailed 2]
  /\ 1000 <> 1000 * 2 ^ 1.
Proof. split; [reflexivity | lia]. Qed.

(* ------------------------------------------------------------------ *)
(** ** Insertion-ordered maps                                          *)
(* ------------------------------------------------------------------ *)

Lemma JsMap_get_set_eq {V} (m : JsMap.t V) k v :
  JsMap.get (JsMap.set m k v) k = Some v.
Proof.
  induction m as [| [k' v'] m IH]; cbn.
  - now rewrite String.eqb_refl.
  - destruct (String.eqb k' k) eqn:E; cbn; rewrite E; [reflexivity | exact IH].
Qed.

Lemma JsMap_get_set_ne {V} (m : JsMap.t V) k k' v :
  k <> k' -> JsMap.get (JsMap.set m k v) k' = JsMap.get m k'.
Proof.
  intros Hne. induction m as [| [k0 v0] m IH]; cbn.
  - destruct (String.eqb_spec k k'); [contradiction | reflexivity].
  - destruct (String.eqb_spec k0 k) as [-> | Hk]; cbn.
    + destruct (String.eqb_spec k k'); [contradiction | reflexivity].
    + destruct (String.eqb_spec k0 k'); [reflexivity | exact IH].
Qed.

Lemma JsMap_set_same {V} (m : JsMap.t V) k v :
  JsMap.get m k = Some v -> JsMap.set m k v = m.
Proof.
  induction m as [| [k' v'] m IH]; cbn; [discriminate |].
  destruct (String.eqb_spec k' k) as [-> | Hk].
  - now intros [= ->].
  - intros H. now rewrite IH.
Qed.

Lemma JsMap_get_None {V} (m : JsMap.t V) k :
  k ∉ JsMap.keys m -> JsMap.get m k = None.
Proof.
  unfold JsMap.keys. induction m as [| [k' v'] m IH]; cbn; [reflexivity |].
  intros Hnotin. apply not_elem_of_cons in Hnotin as [Hne Hnotin].
  destruct (String.eqb_spec k' k); [congruence | now apply IH].
Qed.

Lemma JsMap_get_delete_eq {V} (m : JsMap.t V) k :
  NoDup (JsMap.keys m) -> JsMap.get (JsMap.delete m k) k = None.
Proof.
  unfold JsMap.keys. induction m as [| [k' v'] m IH]; cbn; [reflexivity |].
  intros Hnd. apply NoDup_cons in Hnd as [Hnotin Hnd].
  destruct (String.eqb_spec k' k) as [-> | Hk].
  - now apply JsMap_get_None.
  - cbn. destruct (String.eqb_spec k' k); [contradiction |]. now apply IH.
Qed.

Lemma JsMap_get_delete_ne {V} (m : JsMap.t V) k k' :
  k <> k' -> JsMap.get (JsMap.delete m k) k' = JsMap.get m k'.
Proof.
  intros Hne. induction m as [| [k0 v0] m IH]; cbn; [reflexivity |].
  destruct (String.eqb_spec k0 k) as [-> | Hk].
  - destruct (String.eqb_spec k k'); [contradiction | reflexivity].
  - cbn. destruct (String.eqb_spec k0 k'); [reflexivity | exact IH].
Qed.

(* ------------------------------------------------------------------ *)
(** ** Transaction manager: savepoints                                 *)
(* ------------------------------------------------------------------ *)

Section SavepointFacts.

Import TransactionManager.

Lemma queries_app (tr1 tr2 : list action) :
  queries (tr1 ++ tr2) = queries tr1 ++ queries tr2.
Proof. unfold queries. apply flat_map_app. Qed.


(** [indexOf] returns the first position holding the name. *)
Lemma indexOf_Some (l : list string) (x : string) (i : nat) :
  indexOf l x = Some i <->
  l !! i = Some x /\ forall j, (j < i)%nat -> l !! j <> Some x.
Proof.
  revert i. induction l as [| y l IH]; intros i; cbn.
  - split; [discriminate | intros [H _]; discriminate].
  - destruct (String.eqb_spec y x) as [-> | Hne].
    + split.
      * intros [= <-]. split; [reflexivity | intros; lia].
      * intros [Hi Hfirst]. destruct i as [| i]; [reflexivity |].
        exfalso. apply (Hfirst O); [lia | reflexivity].
    + destruct (indexOf l x) as [i' |]; cbn.
      * split.
        -- intros [= <-]. destruct (proj1 (IH i') eq_refl) as [Hi Hfirst].
           split; [exact Hi |].
           intros [| j] Hj; cbn; [congruence | apply Hfirst; lia].
        -- intros [Hi Hfirst]. destruct i as [| i]; cbn in Hi; [congruence |].
           f_equal. enough (Some i' = Some i) as [= ->]; [reflexivity |].
           apply IH. split; [exact Hi |].
           intros j Hj. apply (Hfirst (S j)). lia.
      * split; [discriminate |].
        intros [Hi Hfirst]. destruct i as [| i]; cbn in Hi; [congruence |].
        exfalso. enough (None = Some i) by discriminate.
        apply IH. split; [exact Hi |].
        intros j Hj. apply (Hfirst (S j)). lia.
Qed.

Lemma indexOf_None (l : list string) (x : string) :
  indexOf l x = None <-> x ∉ l.
Proof.
  induction l as [| y l IH]; cbn.
  - split; [intros _; apply not_elem_of_nil | reflexivity].
  - destruct (String.eqb_spec y x) as [-> | Hne].
    + split; [discriminate | intros H; exfalso; apply H; left].
    + destruct (indexOf l x); cbn.
      * split; [discriminate |]. intros H. exfalso.
        apply not_elem_of_cons in H as [_ H]. now apply IH in H.
      * split; [| reflexivity]. intros _. apply not_elem_of_cons.
        split; [congruence | now apply IH].
Qed.

Lemma rollbackToSavepoint_ok (m : TransactionManager) txid t s i :
  JsMap.get (activeTransactions m) txid = Some t ->
  isActive t = true ->
  indexOf (savepoints t) s = Some i ->
  connection m (queries (trace m)) ("ROLLBACK TO SAVEPOINT " +:+ s) = None ->
  exists m',
    rollbackToSavepoint txid s m = (Ok tt, m') /\
    queries (trace m') = queries (trace m) ++ ["ROLLBACK TO SAVEPOINT " +:+ s] /\
    JsMap.get (activeTransactions m') txid
      = Some (with_savepoints (take (S i) (savepoints t)) t).
Proof.
  intros Hget Hact Hidx Hconn.
  unfold rollbackToSavepoint, bind, active_transaction.
  rewrite Hget, Hact, Hidx.
  unfold try_catch, bind, query. rewrite Hconn.
  unfold update_transaction, emit, modify, set_transactions, log.
  cbn [activeTransactions trace]. rewrite Hget.
  eexists. split; [reflexivity |]. cbn [activeTransactions trace]. split.
  - rewrite !queries_app. cbn. now rewrite app_nil_r.
  - apply JsMap_get_set_eq.
Qed.

Lemma rollbackToSavepoint_rejected (m : TransactionManager) txid t s i e :
  JsMap.get (activeTransactions m) txid = Some t ->
  isActive t = true ->
  indexOf (savepoints t) s = Some i ->
  connection m (queries (trace m)) ("ROLLBACK TO SAVEPOINT " +:+ s) = Some e ->
  exists m',
    rollbackToSavepoint txid s m = (Throw e, m') /\
    queries (trace m') = queries (trace m) ++ ["ROLLBACK TO SAVEPOINT " +:+ s] /\
    activeTransactions m' = activeTransactions m.
Proof.
  intros Hget Hact Hidx Hconn.
  unfold rollbackToSavepoint, bind, active_transaction.
  rewrite Hget, Hact, Hidx.
  unfold try_catch, bind, query. rewrite Hconn.
  unfold emit, modify, log, throw. cbn [trace activeTransactions].
  eexists. split; [reflexivity |]. split; [| reflexivity].
  cbn [trace]. rewrite !queries_app. cbn. now rewrite app_nil_r.
Qed.

Lemma rollbackToSavepoint_no_transaction (m : TransactionManager) txid s :
  (forall t, JsMap.get (activeTransactions m) txid = Some t -> isActive t = false) ->
  rollbackToSavepoint txid s m = (Throw (NoActiveTransaction txid), m).
Proof.
  intros H. unfold rollbackToSavepoint, bind, active_transaction.
  destruct (JsMap.get (activeTransactions m) txid) as [t |]; [| reflexivity].
  now rewrite (H t eq_refl).
Qed.

Lemma rollbackToSavepoint_not_found (m : TransactionManager) txid t s :
  JsMap.get (activeTransactions m) txid = Some t ->
  isActive t = true ->
  s ∉ savepoints t ->
  rollbackToSavepoint txid s m = (Throw (SavepointNotFound s), m).
Proof.
  intros Hget Hact Hnotin. apply indexOf_None in Hnotin.
  unfold rollbackToSavepoint, bind, active_transaction.
  now rewrite Hget, Hact, Hnotin.
Qed.

End SavepointFacts.

(* ------------------------------------------------------------------ *)
(** ** Transaction manager: retry on deadlock                          *)
(* ------------------------------------------------------------------ *)

Section RetryFacts.

Import TransactionManager.

Context {T : Type}.
(** The callback of this section does not use the manager: it is given
    by what each invocation settles to. *)
Variable callback : nat -> TransactionContext -> T + error.
Variable timer_first : nat -> bool.
Variable interrupted : nat -> TransactionContext -> TransactionManager -> TransactionManager.















End RetryFacts.


(** Claim C9, as the code has it.  For an active transaction whose
    savepoint list holds its first occurrence of [s] at index [i],
    [rollbackToSavepoint] sends [ROLLBACK TO SAVEPOINT s]; if the
    connection accepts it the list is cut to its first [i+1] entries, if
    the connection rejects it the call fails with the connection's error
    and the list is as before.  With no active transaction under the id
    the call fails with [NoActiveTransaction], and with a name that is
    not in the list it fails with [SavepointNotFound], the manager being
    left as it was in both cases. *)
Theorem savepoint_rollback_pruning
    (m : TransactionManager.TransactionManager) (txid s : string) :
  (forall t i,
     JsMap.get (TransactionManager.activeTransactions m) txid = Some t ->
     TransactionManager.isActive t = true ->
     TransactionManager.savepoints t !! i = Some s ->
     (forall j, (j < i)%nat -> TransactionManager.savepoints t !! j <> Some s) ->
     exists r m',
       TransactionManager.rollbackToSavepoint txid s m = (r, m') /\
       TransactionManager.queries (TransactionManager.trace m')
       = TransactionManager.queries (TransactionManager.trace m)
         ++ ["ROLLBACK TO SAVEPOINT " +:+ s] /\
       match TransactionManager.connection m
               (TransactionManager.queries (TransactionManager.trace m))
               ("ROLLBACK TO SAVEPOINT " +:+ s) with
       | None =>
           r = Ok tt /\
           JsMap.get (TransactionManager.activeTransactions m') txid
           = Some (TransactionManager.with_savepoints
                     (take (S i) (TransactionManager.savepoints t)) t)
       | Some e =>
           r = Throw e /\
           TransactionManager.activeTransactions m'
           = TransactionManager.activeTransactions m
       end)
  /\
  ((forall t, JsMap.get (TransactionManager.activeTransactions m) txid = Some t ->
              TransactionManager.isActive t = false) ->
   TransactionManager.rollbackToSavepoint txid s m
   = (Throw (NoActiveTransaction txid), m))
  /\
  (forall t,
     JsMap.get (TransactionManager.activeTransactions m) txid = Some t ->
     TransactionManager.isActive t = true ->
     s ∉ TransactionManager.savepoints t ->
     TransactionManager.rollbackToSavepoint txid s m
     = (Throw (SavepointNotFound s), m)).
Proof.
  split; [| split].
  - intros t i Hget Hact Hi Hfirst.
    assert (TransactionManager.indexOf (TransactionManager.savepoints t) s = Some i)
      as Hidx by (apply indexOf_Some; now split).
    destruct (TransactionManager.connection m
                (TransactionManager.queries (TransactionManager.trace m))
                ("ROLLBACK TO SAVEPOINT " +:+ s)) as [e |] eqn:Hconn.
    + destruct (rollbackToSavepoint_rejected m txid t s i e Hget Hact Hidx Hconn)
        as (m' & Hrun & Hq & Hsame).
      exists (Throw e), m'. auto.
    + destruct (rollbackToSavepoint_ok m txid t s i Hget Hact Hidx Hconn)
        as (m' & Hrun & Hq & Hcut).
      exists (Ok tt), m'. auto.
  - apply rollbackToSavepoint_no_transaction.
  - intros t. apply rollbackToSavepoint_not_found.
Qed.

(** With savepoints [sp_1; sp_2; sp_3] under [tx_1]: rolling back to
    [sp_2] keeps [sp_1; sp_2]; an unknown transaction and an unknown
    name are rejected. *)
Lemma savepoint_rollback_pruning_witness :
  (exists m',
     TransactionManager.rollbackToSavepoint "tx_1" "sp_2"
       (manager_with_savepoints ["sp_1"; "sp_2"; "sp_3"]) = (Ok tt, m') /\
     TransactionManager.queries (TransactionManager.trace m')
     = ["ROLLBACK TO SAVEPOINT sp_2"] /\
     TransactionManager.savepoints
       <$> JsMap.get (TransactionManager.activeTransactions m') "tx_1"
     = Some ["sp_1"; "sp_2"])
  /\ TransactionManager.rollbackToSavepoint "tx_9" "sp_2"
       (manager_with_savepoints ["sp_1"; "sp_2"; "sp_3"])
     = (Throw (NoActiveTransaction "tx_9"),
        manager_with_savepoints ["sp_1"; "sp_2"; "sp_3"])
  /\ TransactionManager.rollbackToSavepoint "tx_1" "sp_7"
       (manager_with_savepoints ["sp_1"; "sp_2"; "sp_3"])
     = (Throw (SavepointNotFound "sp_7"),
        manager_with_savepoints ["sp_1"; "sp_2"; "sp_3"]).
Proof.
  split; [| split].
  - destruct (proj1 (savepoint_rollback_pruning
                       (manager_with_savepoints ["sp_1"; "sp_2"; "sp_3"])
                       "tx_1" "sp_2")
                _ 1%nat eq_refl eq_refl eq_refl)
      as (r & m' & Hrun & Hq & -> & Hget).
    + intros j Hj. assert (j = 0%nat) as -> by lia. discriminate.
    + exists m'. split; [exact Hrun |]. split; [exact Hq |].
      rewrite Hget. reflexivity.
  - apply (proj1 (proj2 (savepoint_rollback_pruning
                           (manager_with_savepoints ["sp_1"; "sp_2"; "sp_3"])
                           "tx_9" "sp_2"))).
    intros t Ht. discriminate Ht.
  - apply (proj2 (proj2 (savepoint_rollback_pruning
                           (manager_with_savepoints ["sp_1"; "sp_2"; "sp_3"])
                           "tx_1" "sp_7")) _ eq_refl eq_refl).
    intros Hin. repeat (apply elem_of_cons in Hin as [Hin | Hin]; [discriminate |]).
    now apply elem_of_nil in Hin.
Defined.

(** Claim C9 as stated fails when a name is used twice.  After
    [createSavepoint] with the names [a], [b], [a] the list holds [a] at
    index 2; rolling back to [a] cuts after the first [a] and leaves
    [[a]], not the first three entries. *)
Lemma savepoint_rollback_duplicate_counterexample :
  TransactionManager.savepoints
    <$> JsMap.get (TransactionManager.activeTransactions twice_named_savepoints) "tx_1"
  = Some ["a"; "b"; "a"] /\
  ["a"; "b"; "a"] !! 2%nat = Some "a" /\
  TransactionManager.savepoints
    <$> JsMap.get
          (TransactionManager.activeTransactions
             (snd (TransactionManager.rollbackToSavepoint "tx_1" "a"
                     twice_named_savepoints)))
          "tx_1"
  = Some ["a"] /\
  ["a"] <> take 3 ["a"; "b"; "a"].
Proof.
  split; [reflexivity |]. split; [reflexivity |]. split; [reflexivity | discriminate].
Qed.


(* ------------------------------------------------------------------ *)
(** ** Identity map                                                    *)
(* ------------------------------------------------------------------ *)

Ltac im_unfold :=
  unfold IdentityMap.set, IdentityMap.get, IdentityMap.has, IdentityMap.delete,
    bind, gets, IdentityMap.getOrCreateKeyObject, IdentityMap.getKeyObject,
    IdentityMap.compositeKey, bind, gets, modify, ret, IdentityMap.deref,
    IdentityMap.with_maps, IdentityMap.with_keyRegistry;
  cbn [IdentityMap.maps IdentityMap.keyRegistry IdentityMap.enableWeakRefs
       IdentityMap.nextKeyObject IdentityMap.collected].

Ltac im_simpl :=
  cbn [IdentityMap.maps IdentityMap.keyRegistry IdentityMap.enableWeakRefs
       IdentityMap.nextKeyObject IdentityMap.collected from_option id].

Section IdentityMapFacts.

Import IdentityMap.


Lemma createCompositeKey_null entity id :
  null_id id -> createCompositeKey entity id = Throw (InvalidKey entity).
Proof. intros [-> | ->]; reflexivity. Qed.

Lemma createCompositeKey_non_null entity id :
  ~ null_id id -> exists ck, createCompositeKey entity id = Ok ck.
Proof.
  unfold null_id. intros Hnn.
  destruct id as [[| | b | n | s] | fields]; cbn; eauto; exfalso; auto.
Qed.

(** [set] validates the id whatever the map holds. *)
Lemma set_null_id entity id instance im :
  null_id id ->
  exists im', set entity id instance im = (Throw (InvalidKey entity), im').
Proof.
  intros Hnull. unfold set, bind, gets, getOrCreateKeyObject, getKeyObject,
    compositeKey, bind.
  destruct (maps im !! entity); cbn [ret modify];
    rewrite (createCompositeKey_null entity id Hnull); eauto.
Qed.

(** [get], [has] and [delete] validate the id only once a map exists for
    the kind ... *)
Lemma get_null_id_known_kind entity id im m :
  null_id id -> maps im !! entity = Some m ->
  get entity id im = (Throw (InvalidKey entity), im).
Proof.
  intros Hnull Hm. unfold get, bind, gets, getKeyObject, compositeKey, bind.
  now rewrite Hm, (createCompositeKey_null _ _ Hnull).
Qed.

Lemma has_null_id_known_kind entity id im m :
  null_id id -> maps im !! entity = Some m ->
  has entity id im = (Throw (InvalidKey entity), im).
Proof.
  intros Hnull Hm. unfold has, bind, gets, getKeyObject, compositeKey, bind.
  now rewrite Hm, (createCompositeKey_null _ _ Hnull).
Qed.

Lemma delete_null_id_known_kind entity id im m :
  null_id id -> maps im !! entity = Some m ->
  delete entity id im = (Throw (InvalidKey entity), im).
Proof.
  intros Hnull Hm. unfold delete, bind, gets, getKeyObject, compositeKey, bind.
  now rewrite Hm, (createCompositeKey_null _ _ Hnull).
Qed.

(** ... and return early, without looking at the id, when none does. *)
Lemma get_unknown_kind entity id im :
  maps im !! entity = None -> get entity id im = (Ok None, im).
Proof. intros Hm. unfold get, bind, gets. now rewrite Hm. Qed.

Lemma has_unknown_kind entity id im :
  maps im !! entity = None -> has entity id im = (Ok false, im).
Proof. intros Hm. unfold has, bind, gets. now rewrite Hm. Qed.

Lemma delete_unknown_kind entity id im :
  maps im !! entity = None -> delete entity id im = (Ok false, im).
Proof. intros Hm. unfold delete, bind, gets. now rewrite Hm. Qed.


Lemma wf_new o : wf (new o).
Proof.
  split; [| split].
  - intros entity m k H. cbn in H. now rewrite lookup_empty in H.
  - intros ck k H. cbn in H. now rewrite lookup_empty in H.
  - intros k H. cbn in H. now apply not_elem_of_empty in H.
Qed.

(** A look-up that finds an instance leaves the map as it is. *)
Lemma swept_found im entity ck r :
  lookup_instance im entity ck = Some r -> swept im entity ck = im.
Proof.
  unfold lookup_instance, swept.
  destruct (maps im !! entity); [| discriminate].
  destruct (keyRegistry im !! ck); [| discriminate].
  now destruct (bool_decide _).
Qed.

(** Dropping a dead reference changes no look-up. *)
Lemma swept_lookup im entity ck e2 ck2 :
  lookup_instance (swept im entity ck) e2 ck2 = lookup_instance im e2 ck2.
Proof.
  unfold swept.
  destruct (maps im !! entity); [| reflexivity].
  destruct (keyRegistry im !! ck) as [k |] eqn:Hk; [| reflexivity].
  case_bool_decide as Hdead; [| reflexivity].
  unfold lookup_instance, with_keyRegistry. im_simpl.
  destruct (maps im !! e2); [| reflexivity].
  destruct (decide (ck = ck2)) as [<- | Hne].
  - rewrite lookup_delete_eq, Hk. now rewrite bool_decide_eq_true_2.
  - now rewrite lookup_delete_ne.
Qed.

Lemma swept_wf im entity ck : wf im -> wf (swept im entity ck).
Proof.
  intros (Hwf1 & Hwf2 & Hwf3). unfold swept.
  destruct (maps im !! entity); [| now repeat split].
  destruct (keyRegistry im !! ck) as [k |]; [| now repeat split].
  destruct (bool_decide _); [| now repeat split].
  split; [exact Hwf1 |]. split; [| exact Hwf3].
  intros ck' k'. unfold with_keyRegistry. im_simpl.
  intros H. apply lookup_delete_Some in H as [_ H]. now apply (Hwf2 ck').
Qed.

Lemma swept_fields im entity ck :
  maps (swept im entity ck) = maps im /\
  enableWeakRefs (swept im entity ck) = enableWeakRefs im /\
  nextKeyObject (swept im entity ck) = nextKeyObject im /\
  collected (swept im entity ck) = collected im.
Proof.
  unfold swept.
  destruct (maps im !! entity); [| now repeat split].
  destruct (keyRegistry im !! ck); [| now repeat split].
  destruct (bool_decide _); now repeat split.
Qed.

(** [get] reads, and drops the dead reference it meets. *)
Lemma get_eq entity id im ck :
  createCompositeKey entity id = Ok ck ->
  get entity id im = (Ok (lookup_instance im entity ck), swept im entity ck).
Proof.
  intros Hck. unfold lookup_instance, swept. im_unfold. rewrite Hck.
  destruct (maps im !! entity); [| reflexivity].
  destruct (keyRegistry im !! ck); [| reflexivity].
  destruct (bool_decide _); reflexivity.
Qed.

Lemma has_eq entity id im ck :
  createCompositeKey entity id = Ok ck ->
  has entity id im
  = (Ok (bool_decide (is_Some (lookup_instance im entity ck))), swept im entity ck).
Proof.
  intros Hck. unfold lookup_instance, swept. im_unfold. rewrite Hck.
  destruct (maps im !! entity); [| reflexivity].
  destruct (keyRegistry im !! ck); [| reflexivity].
  destruct (bool_decide _); reflexivity.
Qed.

Lemma get_found entity id im ck r :
  createCompositeKey entity id = Ok ck ->
  lookup_instance im entity ck = Some r ->
  get entity id im = (Ok (Some r), im) /\ has entity id im = (Ok true, im).
Proof.
  intros Hck Hlook.
  rewrite (get_eq _ _ _ _ Hck), (has_eq _ _ _ _ Hck), Hlook, (swept_found _ _ _ _ Hlook).
  split; reflexivity.
Qed.

(** [set] finds the registered instance and leaves the map alone. *)

Lemma set_existing entity id instance im ck existing :
  createCompositeKey entity id = Ok ck ->
  lookup_instance im entity ck = Some existing ->
  set entity id instance im = (Ok existing, im).
Proof.
  intros Hck. unfold lookup_instance. destruct im as [ms reg ewr nk col].
  im_unfold. rewrite !Hck.
  destruct (ms !! entity) as [m |] eqn:Hm; [| discriminate]. im_simpl.
  destruct (reg !! ck) as [k |] eqn:Hk; [| discriminate]. im_simpl.
  destruct (bool_decide (k ∈ col)); [discriminate |]. im_simpl.
  intros Hex. rewrite Hm. im_simpl. now rewrite Hex.
Qed.

Lemma wf_store ms reg ewr nk col entity m k instance :
  wf {| maps := ms; keyRegistry := reg; enableWeakRefs := ewr; nextKeyObject := nk;
        collected := col |} ->
  default ∅ (ms !! entity) = m ->
  (k < nk)%nat ->
  wf {| maps := <[entity := <[k := instance]> m]> ms; keyRegistry := reg;
        enableWeakRefs := ewr; nextKeyObject := nk; collected := col |}.
Proof.
  intros (Hwf1 & Hwf2 & Hwf3) Hm Hk. split; [| split; [exact Hwf2 | exact Hwf3]].
  cbn [maps keyRegistry enableWeakRefs nextKeyObject] in *.
  intros e m' k'. destruct (decide (entity = e)) as [<- | Hne].
  - rewrite lookup_insert_eq. intros [= <-].
    destruct (decide (k = k')) as [<- | Hk']; [intros _; exact Hk |].
    rewrite lookup_insert_ne by done. subst m.
    destruct (ms !! entity) as [m0 |] eqn:Hm0; cbn [from_option id].
    + intros H. eapply Hwf1; [exact Hm0 | exact H].
    + rewrite lookup_empty. now intros [? ?].
  - rewrite lookup_insert_ne by done. apply Hwf1.
Qed.

Lemma wf_register ms reg ewr nk col ck :
  wf {| maps := ms; keyRegistry := reg; enableWeakRefs := ewr; nextKeyObject := nk;
        collected := col |} ->
  wf {| maps := ms; keyRegistry := <[ck := nk]> reg; enableWeakRefs := ewr;
        nextKeyObject := S nk; collected := col |}.
Proof.
  intros (Hwf1 & Hwf2 & Hwf3). cbn [maps keyRegistry enableWeakRefs nextKeyObject collected] in *.
  split; [| split]; cbn [maps keyRegistry enableWeakRefs nextKeyObject collected].
  - intros e m k Hm Hk. specialize (Hwf1 e m k Hm Hk). lia.
  - intros ck' k. destruct (decide (ck = ck')) as [<- | Hne].
    + rewrite lookup_insert_eq. intros [= <-]. lia.
    + rewrite lookup_insert_ne by done. intros H. specialize (Hwf2 _ _ H). lia.
  - intros k H. specialize (Hwf3 _ H). lia.
Qed.

Lemma wf_skip ms reg ewr nk col :
  wf {| maps := ms; keyRegistry := reg; enableWeakRefs := ewr; nextKeyObject := nk;
        collected := col |} ->
  wf {| maps := ms; keyRegistry := reg; enableWeakRefs := ewr;
        nextKeyObject := S nk; collected := col |}.
Proof.
  intros (Hwf1 & Hwf2 & Hwf3). cbn [maps keyRegistry enableWeakRefs nextKeyObject collected] in *.
  split; [| split]; cbn [maps keyRegistry enableWeakRefs nextKeyObject collected].
  - intros e m k Hm Hk. specialize (Hwf1 e m k Hm Hk). lia.
  - intros ck' k H. specialize (Hwf2 _ _ H). lia.
  - intros k H. specialize (Hwf3 _ H). lia.
Qed.

Lemma wf_unregister ms reg ewr nk col ck :
  wf {| maps := ms; keyRegistry := reg; enableWeakRefs := ewr; nextKeyObject := nk;
        collected := col |} ->
  wf {| maps := ms; keyRegistry := base.delete ck reg; enableWeakRefs := ewr;
        nextKeyObject := nk; collected := col |}.
Proof.
  intros (Hwf1 & Hwf2 & Hwf3). split; [exact Hwf1 |]. split; [| exact Hwf3].
  cbn [maps keyRegistry enableWeakRefs nextKeyObject collected] in *.
  intros ck' k H. apply lookup_delete_Some in H as [_ H]. now apply (Hwf2 ck').
Qed.

(** What [getOrCreateKeyObject] does: it hands out the registered key
    object when its reference is live, and otherwise makes a new one,
    registered in place of any dead reference when weak references are
    enabled. *)
Lemma getOrCreateKeyObject_eq entity id im ck :
  createCompositeKey entity id = Ok ck ->
  getOrCreateKeyObject entity id im
  = match keyRegistry im !! ck with
    | Some k =>
        if bool_decide (k ∈ collected im)
        then (Ok (nextKeyObject im),
              {| maps := maps im;
                 keyRegistry := if enableWeakRefs im
                                then <[ck := nextKeyObject im]> (keyRegistry im)
                                else base.delete ck (keyRegistry im);
                 enableWeakRefs := enableWeakRefs im;
                 nextKeyObject := S (nextKeyObject im);
                 collected := collected im |})
        else (Ok k, im)
    | None =>
        (Ok (nextKeyObject im),
         {| maps := maps im;
            keyRegistry := if enableWeakRefs im
                           then <[ck := nextKeyObject im]> (keyRegistry im)
                           else keyRegistry im;
            enableWeakRefs := enableWeakRefs im;
            nextKeyObject := S (nextKeyObject im);
            collected := collected im |})
    end.
Proof.
  intros Hck. destruct im as [ms reg ewr nk col]. im_unfold. rewrite !Hck.
  destruct (reg !! ck) as [k |] eqn:Hk; im_simpl.
  - destruct (bool_decide (k ∈ col)); im_simpl; [| reflexivity].
    destruct ewr; im_simpl; [| reflexivity]. now rewrite insert_delete_eq.
  - destruct ewr; reflexivity.
Qed.

Lemma set_fresh entity id instance im ck :
  wf im ->
  createCompositeKey entity id = Ok ck ->
  lookup_instance im entity ck = None ->
  exists im',
    set entity id instance im = (Ok instance, im') /\
    wf im' /\
    enableWeakRefs im' = enableWeakRefs im /\
    (enableWeakRefs im = true -> lookup_instance im' entity ck = Some instance).
Proof.
  intros Hwf Hck. unfold lookup_instance. destruct im as [ms reg ewr nk col].
  cbn [maps keyRegistry enableWeakRefs nextKeyObject collected] in *.
  assert (Hfresh : forall m, ms !! entity = Some m -> m !! nk = None).
  { intros m Hm. destruct (m !! nk) eqn:E; [| reflexivity].
    destruct Hwf as [Hwf1 _]. specialize (Hwf1 entity m nk Hm (mk_is_Some _ _ E)).
    cbn in Hwf1. lia. }
  assert (Hlive : bool_decide (nk ∈ col) = false).
  { apply bool_decide_eq_false_2. intros Hin.
    destruct Hwf as (_ & _ & Hwf3). specialize (Hwf3 nk Hin). cbn in Hwf3. lia. }
  im_unfold. rewrite !Hck.
  destruct (ms !! entity) as [m |] eqn:Hm; im_simpl.
  - destruct (reg !! ck) as [k |] eqn:Hk; im_simpl.
    + destruct (bool_decide (k ∈ col)) eqn:Hdead; im_simpl.
      * intros _. destruct ewr; im_simpl; rewrite Hm; im_simpl;
          rewrite (Hfresh m eq_refl);
          (eexists; split; [reflexivity |]); im_simpl;
          (split; [| split; [reflexivity |]]).
        -- rewrite insert_delete_eq.
           apply wf_store; [now apply wf_register | rewrite Hm; reflexivity | lia].
        -- intros _. now rewrite !lookup_insert_eq, Hlive, ?lookup_insert_eq.
        -- apply wf_store; [now apply wf_skip, wf_unregister
                           | rewrite Hm; reflexivity | lia].
        -- discriminate.
      * intros Hfree. rewrite Hm. im_simpl. rewrite Hfree.
        eexists. split; [reflexivity |]. im_simpl. split; [| split; [reflexivity |]].
        -- apply wf_store; [exact Hwf | rewrite Hm; reflexivity |].
           destruct Hwf as (_ & Hwf2 & _). now apply (Hwf2 ck).
        -- intros _. rewrite lookup_insert_eq, Hk, Hdead. apply lookup_insert_eq.
    + intros _. destruct ewr; im_simpl; rewrite Hm; im_simpl;
        rewrite (Hfresh m eq_refl);
        (eexists; split; [reflexivity |]); im_simpl;
        (split; [| split; [reflexivity |]]).
      * apply wf_store; [now apply wf_register | rewrite Hm; reflexivity | lia].
      * intros _. now rewrite !lookup_insert_eq, Hlive, ?lookup_insert_eq.
      * apply wf_store; [now apply wf_skip | rewrite Hm; reflexivity | lia].
      * discriminate.
  - intros _. destruct (reg !! ck) as [k |] eqn:Hk; im_simpl.
    + destruct (bool_decide (k ∈ col)) eqn:Hdead; im_simpl.
      * destruct ewr; im_simpl; rewrite lookup_insert_eq; im_simpl;
          rewrite lookup_empty;
          (eexists; split; [reflexivity |]); im_simpl;
          (split; [| split; [reflexivity |]]).
        -- rewrite insert_insert_eq, insert_delete_eq.
           apply wf_store; [now apply wf_register | rewrite Hm; reflexivity | lia].
        -- intros _. now rewrite !lookup_insert_eq, Hlive, ?lookup_insert_eq.
        -- rewrite insert_insert_eq.
           apply wf_store; [now apply wf_skip, wf_unregister
                           | rewrite Hm; reflexivity | lia].
        -- discriminate.
      * rewrite lookup_insert_eq. im_simpl. rewrite lookup_empty.
        eexists. split; [reflexivity |]. im_simpl. split; [| split; [reflexivity |]].
        -- rewrite insert_insert_eq.
           apply wf_store; [exact Hwf | rewrite Hm; reflexivity |].
           destruct Hwf as (_ & Hwf2 & _). now apply (Hwf2 ck).
        -- intros _. rewrite lookup_insert_eq, Hk, Hdead. apply lookup_insert_eq.
    + destruct ewr; im_simpl; rewrite lookup_insert_eq; im_simpl;
        rewrite lookup_empty;
        (eexists; split; [reflexivity |]); im_simpl;
        (split; [| split; [reflexivity |]]).
      * rewrite insert_insert_eq.
        apply wf_store; [now apply wf_register | rewrite Hm; reflexivity | lia].
      * intros _. now rewrite !lookup_insert_eq, Hlive, ?lookup_insert_eq.
      * rewrite insert_insert_eq.
        apply wf_store; [now apply wf_skip | rewrite Hm; reflexivity | lia].
      * discriminate.
Qed.

Lemma set_ok_non_null entity id instance im r im' :
  set entity id instance im = (Ok r, im') ->
  exists ck, createCompositeKey entity id = Ok ck.
Proof.
  intros Hset.
  destruct (createCompositeKey entity id) as [ck | e] eqn:Hck; [eauto |].
  exfalso. assert (Hnull : null_id id).
  { unfold null_id. destruct id as [[| | b | n | s] | fields]; cbn in Hck;
      auto; discriminate. }
  destruct (set_null_id entity id instance im Hnull) as (im0 & H).
  congruence.
Qed.

(** With weak references enabled, whatever [set] returns is what the map
    holds under the key afterwards. *)
Lemma set_registers entity id instance im ck r im' :
  wf im ->
  enableWeakRefs im = true ->
  createCompositeKey entity id = Ok ck ->
  set entity id instance im = (Ok r, im') ->
  lookup_instance im' entity ck = Some r /\ enableWeakRefs im' = true /\ wf im'.
Proof.
  intros Hwf Hweak Hck Hset.
  destruct (lookup_instance im entity ck) as [existing |] eqn:Hlook.
  - rewrite (set_existing entity id instance im ck existing Hck Hlook) in Hset.
    injection Hset as <- <-. auto.
  - destruct (set_fresh entity id instance im ck Hwf Hck Hlook)
      as (im0 & H0 & Hwf0 & Hweak0 & Hlook0).
    rewrite H0 in Hset. injection Hset as <- <-.
    split; [now apply Hlook0 |]. split; [congruence | exact Hwf0].
Qed.

(** Two registrations under one key with nothing in between, weak
    references enabled: the second call returns the instance the first
    one returned and changes nothing. *)
Lemma set_twice_same_instance entity id a b im r im1 :
  wf im ->
  enableWeakRefs im = true ->
  set entity id a im = (Ok r, im1) ->
  set entity id b im1 = (Ok r, im1).
Proof.
  intros Hwf Hweak Hset.
  destruct (set_ok_non_null _ _ _ _ _ _ Hset) as (ck & Hck).
  destruct (set_registers _ _ _ _ _ _ _ Hwf Hweak Hck Hset) as [Hlook _].
  now apply (set_existing entity id b im1 ck r).
Qed.

Lemma delete_spec entity id im ck :
  wf im ->
  createCompositeKey entity id = Ok ck ->
  exists b im',
    delete entity id im = (Ok b, im') /\
    wf im' /\
    enableWeakRefs im' = enableWeakRefs im /\
    lookup_instance im' entity ck = None.
Proof.
  intros Hwf Hck. unfold lookup_instance. destruct im as [ms reg ewr nk col].
  im_unfold. rewrite !Hck.
  destruct (ms !! entity) as [m |] eqn:Hm; im_simpl.
  - destruct (reg !! ck) as [k |] eqn:Hk; im_simpl.
    + destruct (bool_decide (k ∈ col)) eqn:Hdead; im_simpl.
      { exists false. eexists. split; [reflexivity |]. im_simpl.
        split; [now apply wf_unregister | split; [reflexivity |]].
        now rewrite Hm, lookup_delete_eq. }
      eexists _, _. split; [reflexivity |]. im_simpl.
      split; [| split; [reflexivity |]].
      * destruct Hwf as (Hwf1 & Hwf2 & Hwf3).
        cbn [maps keyRegistry enableWeakRefs nextKeyObject collected] in *.
        split; [| split]; cbn [maps keyRegistry enableWeakRefs nextKeyObject collected].
        -- intros e m' k'. destruct (decide (entity = e)) as [<- | Hne].
           ++ rewrite lookup_insert_eq. intros [= <-].
              destruct (decide (k = k')) as [<- | Hk'].
              ** rewrite lookup_delete_eq. now intros [? ?].
              ** rewrite lookup_delete_ne by done. intros H.
                 eapply Hwf1; [exact Hm | exact H].
           ++ rewrite lookup_insert_ne by done. apply Hwf1.
        -- intros ck' k'. destruct (decide (ck = ck')) as [<- | Hne].
           ++ now rewrite lookup_delete_eq.
           ++ rewrite lookup_delete_ne by done. apply Hwf2.
        -- exact Hwf3.
      * now rewrite lookup_insert_eq, lookup_delete_eq.
    + exists false. eexists. split; [reflexivity |]. im_simpl.
      split; [exact Hwf | split; [reflexivity |]]. now rewrite Hm, Hk.
  - exists false. eexists. split; [reflexivity |]. im_simpl.
    split; [exact Hwf | split; [reflexivity |]]. now rewrite Hm.
Qed.

(** *** Garbage collection *)

Lemma collect_garbage_eq ks im :
  collect_garbage ks im = (Ok tt, snd (collect_garbage ks im)).
Proof. reflexivity. Qed.

Lemma collect_garbage_fields ks im :
  keyRegistry (snd (collect_garbage ks im)) = keyRegistry im /\
  enableWeakRefs (snd (collect_garbage ks im)) = enableWeakRefs im /\
  nextKeyObject (snd (collect_garbage ks im)) = nextKeyObject im.
Proof. repeat split. Qed.

Lemma collect_garbage_wf ks im : wf im -> wf (snd (collect_garbage ks im)).
Proof.
  intros (Hwf1 & Hwf2 & Hwf3). unfold collect_garbage, modify. cbn [snd].
  split; [| split]; cbn [maps keyRegistry nextKeyObject collected].
  - intros e m k. rewrite lookup_fmap. destruct (maps im !! e) as [m0 |] eqn:Hm0;
      cbn [fmap option_fmap option_map]; [| discriminate].
    intros [= <-] [v Hv]. apply map_lookup_filter_Some_1_1 in Hv.
    now apply (Hwf1 e m0 k).
  - exact Hwf2.
  - intros k Hk. apply elem_of_union in Hk as [Hk | Hk]; [now apply Hwf3 |].
    now apply elem_of_filter in Hk as [Hk _].
Qed.

(** What a collection does to a look-up: the instance is lost when the
    key object is among those reclaimed, and is as before otherwise. *)
Lemma collect_garbage_lookup ks im entity ck k :
  wf im ->
  keyRegistry im !! ck = Some k ->
  lookup_instance (snd (collect_garbage ks im)) entity ck
  = if bool_decide (k ∈ ks) then None else lookup_instance im entity ck.
Proof.
  intros (_ & Hwf2 & _) Hk. pose proof (Hwf2 _ _ Hk) as Hlt.
  unfold lookup_instance, collect_garbage, modify. cbn [snd maps keyRegistry collected].
  rewrite Hk, lookup_fmap.
  destruct (maps im !! entity) as [m |]; cbn [fmap option_fmap option_map];
    [| now destruct (bool_decide (k ∈ ks))].
  destruct (decide (k ∈ ks)) as [Hks | Hks].
  - rewrite (bool_decide_eq_true_2 (k ∈ ks) Hks).
    rewrite bool_decide_eq_true_2; [reflexivity |].
    apply elem_of_union. right. now apply elem_of_filter.
  - rewrite (bool_decide_eq_false_2 (k ∈ ks) Hks).
    destruct (decide (k ∈ collected im)) as [Hcol | Hcol].
    + rewrite (bool_decide_eq_true_2 (k ∈ collected im) Hcol).
      rewrite bool_decide_eq_true_2; [reflexivity |]. apply elem_of_union. now left.
    + rewrite (bool_decide_eq_false_2 (k ∈ collected im) Hcol).
      rewrite bool_decide_eq_false_2.
      2:{ intros Hin. apply elem_of_union in Hin as [Hin | Hin]; [contradiction |].
          apply elem_of_filter in Hin as [_ Hin]. contradiction. }
      destruct (m !! k) as [v |] eqn:Hv.
      * apply map_lookup_filter_Some_2; [exact Hv |]. cbn [fst].
        intros Hin. apply elem_of_filter in Hin as [_ Hin]. contradiction.
      * apply map_lookup_filter_None_2. now left.
Qed.

(** A collection loses instances and never makes one appear. *)
Lemma collect_garbage_lookup_None ks im entity ck :
  lookup_instance im entity ck = None ->
  lookup_instance (snd (collect_garbage ks im)) entity ck = None.
Proof.
  unfold lookup_instance, collect_garbage, modify. cbn [snd maps keyRegistry collected].
  rewrite lookup_fmap.
  destruct (maps im !! entity) as [m |]; cbn [fmap option_fmap option_map];
    [| reflexivity].
  destruct (keyRegistry im !! ck) as [k |]; [| reflexivity].
  destruct (decide (k ∈ collected im)) as [Hcol | Hcol].
  - intros _. rewrite bool_decide_eq_true_2; [reflexivity |]. apply elem_of_union. now left.
  - rewrite (bool_decide_eq_false_2 (k ∈ collected im) Hcol).
    intros Hnone. destruct (bool_decide _); [reflexivity |].
    apply map_lookup_filter_None_2. now left.
Qed.

End IdentityMapFacts.

(** Claim C7, at inputs where the code departs from it.  On a map that
    has never stored an entity of the kind, [get], [has] and [delete]
    return early and accept a [null] or [undefined] id ([undefined],
    [false], [false]) instead of failing with InvalidKey; only [set]
    rejects it. *)
Theorem null_id_accepted_on_unseen_kind :
  IdentityMap.get "User" (IdPrim PNull) (IdentityMap.new None)
    = (Ok None, IdentityMap.new None) /\
  IdentityMap.has "User" (IdPrim PNull) (IdentityMap.new None)
    = (Ok false, IdentityMap.new None) /\
  IdentityMap.delete "User" (IdPrim PNull) (IdentityMap.new None)
    = (Ok false, IdentityMap.new None) /\
  IdentityMap.get "User" (IdPrim PUndefined) (IdentityMap.new None)
    = (Ok None, IdentityMap.new None) /\
  IdentityMap.has "User" (IdPrim PUndefined) (IdentityMap.new None)
    = (Ok false, IdentityMap.new None) /\
  IdentityMap.delete "User" (IdPrim PUndefined) (IdentityMap.new None)
    = (Ok false, IdentityMap.new None) /\
  fst (IdentityMap.set "User" (IdPrim PNull) 0%nat (IdentityMap.new None))
    = Throw (InvalidKey "User").
Proof. repeat split. Qed.

(** Claim C1, at an input where the code departs from it.  With
    [enableWeakRefs: false] no key object is ever registered: the second
    [set] under the same kind and id stores and returns the second
    instance, and [get] finds neither. *)
Theorem identity_lost_without_weak_refs :
  fst ((first <- IdentityMap.set "User" (IdPrim (PNum 1)) 0%nat ;;
        second <- IdentityMap.set "User" (IdPrim (PNum 1)) 1%nat ;;
        found <- IdentityMap.get "User" (IdPrim (PNum 1)) ;;
        ret (first, second, found))
         (IdentityMap.new (Some false)))
  = Ok (0%nat, 1%nat, None).
Proof. vm_compute. reflexivity. Qed.
Section CloneFacts.

Lemma preserves_refl h : preserves h h.
Proof. split; [lia | auto]. Qed.

Lemma preserves_trans h1 h2 h3 : preserves h1 h2 -> preserves h2 h3 -> preserves h1 h3.
Proof.
  intros [Hl1 Hp1] [Hl2 Hp2]. split; [lia |].
  intros l Hl. rewrite Hp2 by lia. now apply Hp1.
Qed.

Lemma preserves_app h c : preserves h (h ++ [c]).
Proof.
  split; [rewrite length_app; lia |].
  intros l Hl. now apply lookup_app_l.
Qed.

Lemma preserves_insert h h' c :
  preserves (h ++ [c]) h' -> forall c', preserves h (<[length h := c']> h').
Proof.
  intros [Hlen Hp] c'. rewrite length_app in Hlen. cbn in Hlen.
  split; [rewrite length_insert; lia |].
  intros l Hl. rewrite list_lookup_insert_ne by lia.
  rewrite Hp by (rewrite length_app; lia). now apply lookup_app_l.
Qed.

(** A deep copy only adds cells. *)
Lemma deepClone_preserves fuel : forall obj seen h v seen' h',
  deepClone_ fuel obj seen h = (v, seen', h') -> preserves h h'.
Proof.
  induction fuel as [| fuel IH]; intros obj seen h v seen' h'; cbn [deepClone_];
    destruct obj as [p | l | name]; try (intros [= <- <- <-]; apply preserves_refl);
    destruct (seen_get seen l); try (intros [= <- <- <-]; apply preserves_refl).
  destruct (resolve (length h) h l) as [[props | elems | obj hd | cf path fn o] |];
    try (intros [= <- <- <-]; apply preserves_refl).
  - (* object *)
    match goal with
    | |- context [fold_left ?f props ?acc0] =>
        assert (Hfold : forall ps acc, preserves (h ++ [Obj []]) (snd acc) ->
                          preserves (h ++ [Obj []]) (snd (fold_left f ps acc)))
    end.
    { induction ps as [| kv ps IHps]; intros [[cloned seen0] h0] Hacc; cbn [fold_left];
        [exact Hacc |].
      apply IHps. destruct (is_symbol (fst kv)); [exact Hacc |].
      destruct (deepClone_ fuel (snd kv) seen0 h0) as [[x' seen1] h1] eqn:Hrec.
      cbn [snd] in *. eapply preserves_trans; [exact Hacc |]. eapply IH. exact Hrec. }
    match goal with
    | |- context [fold_left ?f props ?acc0] =>
        specialize (Hfold props acc0 (preserves_refl _));
        destruct (fold_left f props acc0) as [[cloned seen1] h1]
    end.
    intros [= <- <- <-]. eapply preserves_insert. exact Hfold.
  - (* array *)
    match goal with
    | |- context [fold_left ?f elems ?acc0] =>
        assert (Hfold : forall xs acc, preserves (h ++ [Arr []]) (snd acc) ->
                          preserves (h ++ [Arr []]) (snd (fold_left f xs acc)))
    end.
    { induction xs as [| x xs IHxs]; intros [[cloned seen0] h0] Hacc; cbn [fold_left];
        [exact Hacc |].
      apply IHxs.
      destruct (deepClone_ fuel x seen0 h0) as [[x' seen1] h1] eqn:Hrec.
      cbn [snd] in *. eapply preserves_trans; [exact Hacc |]. eapply IH. exact Hrec. }
    match goal with
    | |- context [fold_left ?f elems ?acc0] =>
        specialize (Hfold elems acc0 (preserves_refl _));
        destruct (fold_left f elems acc0) as [[cloned seen1] h1]
    end.
    intros [= <- <- <-]. eapply preserves_insert. exact Hfold.
Qed.

Lemma deepClone_spec obj w :
  exists copy w',
    deepClone obj w = (Ok copy, w') /\
    sets w' = sets w /\
    preserves (heap w) (heap w').
Proof.
  unfold deepClone.
  destruct (deepClone_ (S (length (heap w))) obj [] (heap w)) as [[copy seen] h] eqn:E.
  exists copy. eexists. split; [reflexivity |]. split; [reflexivity |].
  cbn [heap]. eapply deepClone_preserves. exact E.
Qed.

End CloneFacts.
(* ------------------------------------------------------------------ *)
(** ** Change tracker: the interception layer                          *)
(* ------------------------------------------------------------------ *)

Section InterceptionFacts.

Import ChangeTracker.

Lemma allocates_refl s : allocates s s.
Proof. split; [reflexivity |]. split; reflexivity. Qed.

Lemma allocates_trans s1 s2 s3 : allocates s1 s2 -> allocates s2 s3 -> allocates s1 s3.
Proof.
  intros (Ht1 & Hs1 & Hh1) (Ht2 & Hs2 & Hh2).
  split; [congruence |]. split; [congruence |]. now transitivity (heap (world s2)).
Qed.

Lemma allocates_lookup s s' l c :
  allocates s s' -> heap (world s) !! l = Some c -> heap (world s') !! l = Some c.
Proof. intros (_ & _ & Hh) Hl. eapply prefix_lookup_Some; eassumption. Qed.

Lemma alloc_allocates c s :
  exists s', in_world (alloc c) s = (Ok (length (heap (world s))), s') /\
             allocates s s' /\
             heap (world s') !! length (heap (world s)) = Some c.
Proof.
  eexists. split; [reflexivity |]. split.
  - split; [reflexivity |]. split; [reflexivity |]. cbn. now apply prefix_app_r.
  - cbn. now rewrite lookup_app_r, Nat.sub_diag by lia.
Qed.

Lemma createNestedProxy_allocates target cf path entity id s :
  exists q s',
    createNestedProxy target cf path entity id s = (Ok (VRef q), s') /\
    allocates s s' /\
    heap (world s') !! q = Some (Proxy target (NestedHandler cf path entity id)).
Proof.
  unfold createNestedProxy.
  destruct (alloc_allocates (Proxy target (NestedHandler cf path entity id)) s)
    as (s' & Halloc & Hframe & Hcell).
  exists (length (heap (world s))), s'.
  split; [| split; assumption].
  now rewrite (bind_ok _ _ _ _ _ Halloc).
Qed.

(** Reading never marks a field: it only allocates proxies and wrappers. *)
Lemma js_get_allocates fuel : forall l prop s r s',
  js_get fuel l prop s = (r, s') -> allocates s s'.
Proof.
  induction fuel as [| fuel IH]; intros l prop s r s'; cbn [js_get];
    destruct (heap (world s) !! l) as [[props | elems | obj h | cf path v o] |];
    try (intros [= <- <-]; apply allocates_refl).
  unfold bind at 1.
  destruct (js_get fuel obj prop s) as [[value | e] s1] eqn:Hget;
    [| intros [= <- <-]; now apply (IH _ _ _ _ _ Hget)].
  apply IH in Hget.
  destruct h as [cf entity id | cf path entity id].
  - destruct (is_symbol prop); [intros [= <- <-]; exact Hget |].
    unfold bind, gets.
    destruct value as [p | target | name]; try (intros [= <- <-]; exact Hget).
    match goal with |- context [if ?b then _ else _] => destruct b end;
      [| intros [= <- <-]; exact Hget].
    destruct (createNestedProxy_allocates target cf (key_string prop) entity id s1)
      as (q & s2 & Hcreate & Hframe & _).
    rewrite Hcreate. intros [= <- <-]. eapply allocates_trans; eassumption.
  - unfold bind at 1. unfold gets at 1.
    match goal with |- context [if ?b then _ else _] => destruct b end.
    + destruct (alloc_allocates (Wrapper cf path value obj) s1)
        as (s2 & Halloc & Hframe & _).
      rewrite (bind_ok _ _ _ _ _ Halloc). intros [= <- <-].
      eapply allocates_trans; eassumption.
    + unfold bind, gets.
      destruct value as [p | target | name]; try (intros [= <- <-]; exact Hget).
      match goal with |- context [if ?b then _ else _] => destruct b end;
        [| intros [= <- <-]; exact Hget].
      destruct (createNestedProxy_allocates target cf
                  (path +:+ "." +:+ key_string prop) entity id s1)
        as (q & s2 & Hcreate & Hframe & _).
      rewrite Hcreate. intros [= <- <-]. eapply allocates_trans; eassumption.
Qed.

Lemma marks_refl s : marks s s.
Proof. split; [reflexivity |]. split; [reflexivity | auto]. Qed.

Lemma marks_trans s1 s2 s3 : marks s1 s2 -> marks s2 s3 -> marks s1 s3.
Proof.
  intros (Ht1 & Hl1 & Hm1) (Ht2 & Hl2 & Hm2).
  split; [congruence |]. split; [lia | auto].
Qed.

Lemma allocates_marks s s' : allocates s s' -> marks s s'.
Proof.
  intros (Ht & Hs & _). split; [exact Ht |]. unfold set_elements.
  rewrite Hs. split; [reflexivity | auto].
Qed.

(** [changedFields.add(x)] on an allocated set. *)
Lemma set_add_elements cf x w :
  (cf < length (sets w))%nat ->
  set_elements (snd (set_add cf x w)) cf
  = if bool_decide (x ∈ set_elements w cf) then set_elements w cf
    else set_elements w cf ++ [x].
Proof.
  intros Hlt. unfold set_add, set_elements. cbn [snd sets].
  destruct (bool_decide (x ∈ default [] (sets w !! cf))); [reflexivity |].
  now rewrite list_lookup_insert_eq.
Qed.

Lemma set_add_elem cf x w :
  (cf < length (sets w))%nat -> x ∈ set_elements (snd (set_add cf x w)) cf.
Proof.
  intros Hlt. rewrite set_add_elements by exact Hlt.
  destruct (bool_decide (x ∈ set_elements w cf)) eqn:E.
  - now apply bool_decide_eq_true in E.
  - apply elem_of_app. right. apply list_elem_of_singleton. reflexivity.
Qed.

Lemma set_add_marks cf x s :
  exists s', in_world (set_add cf x) s = (Ok tt, s') /\ marks s s' /\
             heap (world s') = heap (world s) /\
             world s' = snd (set_add cf x (world s)).
Proof.
  eexists. split; [reflexivity |]. split; [| split; reflexivity].
  split; [reflexivity |]. cbn [world sets]. unfold set_elements.
  destruct (bool_decide (x ∈ default [] (sets (world s) !! cf)));
    [split; [reflexivity | auto] |].
  cbn [sets world]. split; [now rewrite length_insert |].
  intros c y. destruct (decide (c = cf)) as [-> | Hne].
  - destruct (sets (world s) !! cf) as [elems |] eqn:Hcf.
    + rewrite list_lookup_insert_eq by (eapply lookup_lt_Some; eassumption).
      cbn. intros Hy. apply elem_of_app. now left.
    + cbn. intros Hy. now apply elem_of_nil in Hy.
  - now rewrite list_lookup_insert_ne by done.
Qed.

Lemma store_marks l c s :
  exists s', in_world (store l c) s = (Ok tt, s') /\ marks s s' /\
             heap (world s') = <[l := c]> (heap (world s)) /\
             sets (world s') = sets (world s).
Proof.
  eexists. split; [reflexivity |]. split; [| split; reflexivity].
  split; [reflexivity |]. split; [reflexivity | auto].
Qed.

Lemma raw_set_marks l c prop v s r s' :
  raw_set l c prop v s = (r, s') -> marks s s'.
Proof.
  destruct c as [props | elems | obj h | cf path fn o]; cbn [raw_set].
  - intros [= <- <-]. split; [reflexivity |]. split; [reflexivity | auto].
  - destruct (arr_set elems prop v) as [elems' | e]; intros [= <- <-].
    + split; [reflexivity |]. split; [reflexivity | auto].
    + apply marks_refl.
  - intros [= <- <-]. apply marks_refl.
  - intros [= <- <-]. apply marks_refl.
Qed.

Lemma raw_delete_marks l c prop s r s' :
  raw_delete l c prop s = (r, s') -> marks s s'.
Proof.
  destruct c as [props | elems | obj h | cf path fn o]; cbn [raw_delete].
  - intros [= <- <-]. split; [reflexivity |]. split; [reflexivity | auto].
  - destruct prop as [name | i | n].
    + destruct (String.eqb name "length"); intros [= <- <-]; apply marks_refl.
    + intros [= <- <-]. split; [reflexivity |]. split; [reflexivity | auto].
    + intros [= <- <-]. split; [reflexivity |]. split; [reflexivity | auto].
  - intros [= <- <-]. apply marks_refl.
  - intros [= <- <-]. apply marks_refl.
Qed.

(** The optional [changedFields.add] that opens the write traps. *)
Lemma maybe_add_marks (b : bool) cf x s :
  exists s', (if b then in_world (set_add cf x) else ret tt) s = (Ok tt, s') /\
             marks s s' /\ heap (world s') = heap (world s).
Proof.
  destruct b.
  - destruct (set_add_marks cf x s) as (s' & Hrun & Hm & Hh & _). eauto.
  - exists s. split; [reflexivity |]. split; [apply marks_refl | reflexivity].
Qed.

(** No write removes a path from a set of changed fields. *)
Lemma js_set_marks fuel : forall l prop v s r s',
  js_set fuel l prop v s = (r, s') -> marks s s'.
Proof.
  induction fuel as [| fuel IH]; intros l prop v s r s'; cbn [js_set];
    destruct (heap (world s) !! l) as [[props | elems | obj h | cf path fn o] |];
    try (intros [= <- <-]; apply marks_refl);
    try (apply raw_set_marks).
  destruct h as [cf entity id | cf path entity id].
  - destruct (is_symbol prop); [apply IH |].
    unfold bind at 1.
    destruct (js_get fuel obj prop s) as [[oldValue | e] s1] eqn:Hget;
      apply js_get_allocates, allocates_marks in Hget;
      [| intros [= <- <-]; exact Hget].
    destruct (maybe_add_marks (negb (strict_eq oldValue v)) cf (key_string prop) s1)
      as (s2 & Hadd & Hm2 & _).
    rewrite (bind_ok _ _ _ _ _ Hadd). intros Hset. apply IH in Hset.
    eauto using marks_trans.
  - destruct (maybe_add_marks (negb (is_symbol prop)) cf path s)
      as (s2 & Hadd & Hm2 & _).
    rewrite (bind_ok _ _ _ _ _ Hadd). intros Hset. apply IH in Hset.
    eauto using marks_trans.
Qed.

Lemma js_delete_marks fuel : forall l prop s r s',
  js_delete fuel l prop s = (r, s') -> marks s s'.
Proof.
  induction fuel as [| fuel IH]; intros l prop s r s'; cbn [js_delete];
    destruct (heap (world s) !! l) as [[props | elems | obj h | cf path fn o] |];
    try (intros [= <- <-]; apply marks_refl);
    try (apply raw_delete_marks).
  destruct h as [cf entity id | cf path entity id].
  - destruct (maybe_add_marks (negb (is_symbol prop)) cf (key_string prop) s)
      as (s2 & Hadd & Hm2 & _).
    rewrite (bind_ok _ _ _ _ _ Hadd). intros Hdel. apply IH in Hdel.
    eauto using marks_trans.
  - destruct (maybe_add_marks (negb (is_symbol prop)) cf path s)
      as (s2 & Hadd & Hm2 & _).
    rewrite (bind_ok _ _ _ _ _ Hadd). intros Hdel. apply IH in Hdel.
    eauto using marks_trans.
Qed.

Lemma array_builtin_marks name this_ args s r s' :
  array_builtin name this_ args s = (r, s') -> marks s s'.
Proof.
  unfold array_builtin.
  destruct (heap (world s) !! this_) as [[props | elems | obj h | cf path fn o] |];
    try (intros [= <- <-]; apply marks_refl).
  repeat match goal with
         | |- context [if String.eqb name ?m then _ else _] =>
             destruct (String.eqb name m)
         end;
    intros [= <- <-];
    try apply marks_refl;
    (split; [reflexivity |]; split; [reflexivity | auto]).
Qed.

Lemma call_function_marks fuel : forall fn this_ args s r s',
  call_function fuel fn this_ args s = (r, s') -> marks s s'.
Proof.
  induction fuel as [| fuel IH]; intros fn this_ args s r s';
    destruct fn as [p | w | name]; cbn [call_function];
    try (intros [= <- <-]; apply marks_refl);
    try (apply array_builtin_marks).
  - destruct (heap (world s) !! w) as [[props | elems | obj h | cf path fn o] |];
      intros [= <- <-]; apply marks_refl.
  - destruct (heap (world s) !! w) as [[props | elems | obj h | cf path fn o] |];
      try (intros [= <- <-]; apply marks_refl).
    destruct (set_add_marks cf path s) as (s2 & Hadd & Hm2 & _).
    rewrite (bind_ok _ _ _ _ _ Hadd). intros Hcall. apply IH in Hcall.
    eauto using marks_trans.
Qed.

(** *** Navigating plain object graphs through the proxies *)

Lemma string_app_assoc (a b c : string) : (a +:+ b) +:+ c = a +:+ (b +:+ c).
Proof.
  induction a as [| x a IH]; [reflexivity |].
  change (String x ((a +:+ b) +:+ c) = String x (a +:+ (b +:+ c))).
  now f_equal.
Qed.

Lemma join_snoc (sep : string) (l : list string) (x y : string) :
  join sep ((x :: l) ++ [y]) = join sep (x :: l) +:+ sep +:+ y.
Proof.
  revert x. induction l as [| z l IH]; intros x.
  - reflexivity.
  - change (join sep ((x :: z :: l) ++ [y]))
      with (x +:+ sep +:+ join sep ((z :: l) ++ [y])).
    rewrite IH.
    change (join sep (x :: z :: l)) with (x +:+ sep +:+ join sep (z :: l)).
    now rewrite !string_app_assoc.
Qed.

Lemma dotted_snoc (k : key) (chain : list key) (k' : key) :
  dotted ((k :: chain) ++ [k']) = dotted (k :: chain) +:+ "." +:+ key_string k'.
Proof. unfold dotted. rewrite map_app. cbn [map]. apply join_snoc. Qed.

Lemma plain_allocates s s' l :
  allocates s s' -> plain (heap (world s)) l -> plain (heap (world s')) l.
Proof.
  intros Hal Hp. unfold plain in *.
  destruct (heap (world s) !! l) as [c |] eqn:Hl; [| contradiction].
  now rewrite (allocates_lookup _ _ _ _ Hal Hl).
Qed.

Lemma raw_read_allocates s s' l k v :
  allocates s s' -> raw_read (heap (world s)) l k = Some v ->
  raw_read (heap (world s')) l k = Some v.
Proof.
  intros Hal Hr. unfold raw_read in *.
  destruct (heap (world s) !! l) as [c |] eqn:Hl; [| discriminate].
  now rewrite (allocates_lookup _ _ _ _ Hal Hl).
Qed.

Lemma raw_path_allocates s s' chain : forall t owner,
  allocates s s' -> raw_path (heap (world s)) t chain owner ->
  raw_path (heap (world s')) t chain owner.
Proof.
  induction chain as [| k rest IH]; intros t owner Hal; cbn [raw_path]; [auto |].
  intros (Hsym & t' & Hread & Hplain & Hrest).
  split; [exact Hsym |]. exists t'.
  split; [eapply raw_read_allocates; eassumption |].
  split; [eapply plain_allocates; eassumption | now apply IH].
Qed.

(** Reading a plain cell needs no fuel and changes nothing. *)
Lemma js_get_plain fuel l k s v :
  raw_read (heap (world s)) l k = Some v -> js_get fuel l k s = (Ok v, s).
Proof.
  unfold raw_read. intros Hread.
  destruct fuel; cbn [js_get];
    destruct (heap (world s) !! l) as [[props | elems | obj h | cf path fn o] |];
    congruence.
Qed.

Lemma plain_not_function w l : plain (heap w) l -> is_function w (VRef l) = false.
Proof.
  unfold plain, is_function.
  destruct (heap w !! l) as [[props | elems | obj hd | cf path fn o] |]; tauto.
Qed.

Lemma plain_is_object w l : plain (heap w) l -> is_object_or_array w (VRef l) = true.
Proof.
  unfold plain, is_object_or_array.
  destruct (heap w !! l) as [[props | elems | obj hd | cf path fn o] |]; tauto.
Qed.

Lemma fuel_positive s l c :
  heap (world s) !! l = Some c -> exists f, fuel_of s = S f.
Proof.
  intros Hl. apply lookup_lt_Some in Hl. unfold fuel_of.
  destruct (length (heap (world s))); [lia | eauto].
Qed.

(** Reading an object-valued property through a nested proxy hands out a
    nested proxy whose path is extended by the property name. *)
Lemma nested_get_object s q t cf path e i k t' :
  heap (world s) !! q = Some (Proxy t (NestedHandler cf path e i)) ->
  is_symbol k = false ->
  raw_read (heap (world s)) t k = Some (VRef t') ->
  plain (heap (world s)) t' ->
  exists q' s',
    get_property q k s = (Ok (VRef q'), s') /\
    allocates s s' /\
    heap (world s') !! q'
    = Some (Proxy t' (NestedHandler cf (path +:+ "." +:+ key_string k) e i)).
Proof.
  intros Hq Hsym Hread Hplain.
  destruct (fuel_positive _ _ _ Hq) as (f & Hf).
  unfold get_property. rewrite Hf. cbn [js_get]. rewrite Hq.
  rewrite (bind_ok _ _ _ _ _ (js_get_plain f t k s _ Hread)).
  unfold bind at 1. unfold gets at 1.
  rewrite (plain_not_function _ _ Hplain), andb_false_r. cbn [andb].
  unfold bind at 1. unfold gets at 1.
  rewrite Hsym, (plain_is_object _ _ Hplain). cbn [negb andb].
  apply createNestedProxy_allocates.
Qed.

(** Reading an object-valued property through the root proxy hands out
    a nested proxy whose path is the property name. *)
Lemma root_get_object s p t cf e i k t' :
  proxies_are_proxies s ->
  heap (world s) !! p = Some (Proxy t (RootHandler cf e i)) ->
  is_symbol k = false ->
  raw_read (heap (world s)) t k = Some (VRef t') ->
  plain (heap (world s)) t' ->
  exists q' s',
    get_property p k s = (Ok (VRef q'), s') /\
    allocates s s' /\
    heap (world s') !! q' = Some (Proxy t' (NestedHandler cf (key_string k) e i)).
Proof.
  intros Hwf Hp Hsym Hread Hplain.
  destruct (fuel_positive _ _ _ Hp) as (f & Hf).
  unfold get_property. rewrite Hf. cbn [js_get]. rewrite Hp.
  rewrite (bind_ok _ _ _ _ _ (js_get_plain f t k s _ Hread)).
  rewrite Hsym. unfold bind at 1. unfold gets at 1.
  rewrite (plain_is_object _ _ Hplain).
  rewrite bool_decide_eq_false_2.
  - cbn [negb andb]. apply createNestedProxy_allocates.
  - intros Hin. apply list_elem_of_fmap in Hin as (l & [= <-] & Hl).
    destruct (Hwf _ Hl) as (t0 & h0 & Hcell).
    unfold plain in Hplain. now rewrite Hcell in Hplain.
Qed.

(** Following a chain of object-valued properties from a nested proxy. *)
Lemma get_path_nested cf e i chain : forall s q t path owner,
  heap (world s) !! q = Some (Proxy t (NestedHandler cf path e i)) ->
  raw_path (heap (world s)) t chain owner ->
  exists q' s',
    get_path q chain s = (Ok q', s') /\
    allocates s s' /\
    heap (world s') !! q'
    = Some (Proxy owner
              (NestedHandler cf
                 (fold_left (fun p k => p +:+ "." +:+ key_string k) chain path) e i)).
Proof.
  induction chain as [| k rest IH]; intros s q t path owner Hq; cbn [raw_path get_path].
  - intros <-. exists q, s. split; [reflexivity |].
    split; [apply allocates_refl | exact Hq].
  - intros (Hsym & t' & Hread & Hplain & Hrest).
    destruct (nested_get_object s q t cf path e i k t' Hq Hsym Hread Hplain)
      as (q1 & s1 & Hget & Hal1 & Hq1).
    destruct (IH s1 q1 t' _ owner Hq1 (raw_path_allocates _ _ _ _ _ Hal1 Hrest))
      as (q' & s' & Hpath & Hal2 & Hq').
    exists q', s'. split; [| split; [eapply allocates_trans; eassumption | exact Hq']].
    now rewrite (bind_ok _ _ _ _ _ Hget).
Qed.

Lemma fold_left_dotted (k : key) (chain : list key) :
  fold_left (fun p k' => p +:+ "." +:+ key_string k') chain (key_string k)
  = dotted (k :: chain).
Proof.
  induction chain as [| k' chain IH] using rev_ind; [reflexivity |].
  rewrite fold_left_app. cbn [fold_left]. rewrite IH.
  symmetry. apply (dotted_snoc k chain k').
Qed.

(** Following a non-empty chain of object-valued properties from the
    wrapped instance ends on a nested proxy of the owner whose path is
    the dotted chain. *)
Lemma get_path_root s p t cf e i k chain owner :
  proxies_are_proxies s ->
  heap (world s) !! p = Some (Proxy t (RootHandler cf e i)) ->
  raw_path (heap (world s)) t (k :: chain) owner ->
  exists q s',
    get_path p (k :: chain) s = (Ok q, s') /\
    allocates s s' /\
    heap (world s') !! q
    = Some (Proxy owner (NestedHandler cf (dotted (k :: chain)) e i)).
Proof.
  intros Hwf Hp. cbn [raw_path get_path].
  intros (Hsym & t' & Hread & Hplain & Hrest).
  destruct (root_get_object s p t cf e i k t' Hwf Hp Hsym Hread Hplain)
    as (q1 & s1 & Hget & Hal1 & Hq1).
  destruct (get_path_nested cf e i chain s1 q1 t' _ owner Hq1
              (raw_path_allocates _ _ _ _ _ Hal1 Hrest))
    as (q & s' & Hpath & Hal2 & Hq).
  exists q, s'. rewrite <- fold_left_dotted.
  split; [| split; [eapply allocates_trans; eassumption | exact Hq]].
  now rewrite (bind_ok _ _ _ _ _ Hget).
Qed.

(** *** What a write, a deletion and an in-place array method record *)

(** Writing through the wrapped instance itself: the field name is added
    exactly when the new value is not strictly equal to the old one. *)
Lemma root_set_spec s p t cf e i props k v :
  heap (world s) !! p = Some (Proxy t (RootHandler cf e i)) ->
  heap (world s) !! t = Some (Obj props) ->
  is_symbol k = false ->
  let oldValue := default VUndefined (props_get props k) in
  set_property p k v s
  = (Ok true,
     {| world :=
          {| heap := <[t := Obj (props_set props k v)]> (heap (world s));
             sets := if strict_eq oldValue v then sets (world s)
                     else sets (snd (set_add cf (key_string k) (world s))) |};
        tracker := tracker s |}).
Proof.
  intros Hp Ht Hsym oldValue.
  destruct (fuel_positive _ _ _ Hp) as (f & Hf).
  assert (Hread : raw_read (heap (world s)) t k = Some oldValue).
  { unfold raw_read. now rewrite Ht. }
  unfold set_property. rewrite Hf. cbn [js_set]. rewrite Hp, Hsym.
  rewrite (bind_ok _ _ _ _ _ (js_get_plain f t k s _ Hread)).
  destruct (strict_eq oldValue v); cbn [negb].
  - unfold bind, ret. destruct f; cbn [js_set]; rewrite Ht; cbn [raw_set];
      unfold bind, in_world, store, ret; cbn; destruct s as [[h ss] tr]; reflexivity.
  - unfold bind at 1. cbn [in_world set_add world heap sets].
    destruct f; cbn [js_set world heap]; rewrite Ht; cbn [raw_set];
      unfold bind, in_world, store, ret; cbn; reflexivity.
Qed.

Lemma js_set_total fuel l prop v s : exists r s', js_set fuel l prop v s = (r, s').
Proof. destruct (js_set fuel l prop v s) as [r s']. eauto. Qed.

Lemma js_delete_total fuel l prop s : exists r s', js_delete fuel l prop s = (r, s').
Proof. destruct (js_delete fuel l prop s) as [r s']. eauto. Qed.

(** Deleting through a proxy adds the field name (root) or the proxy's
    path (nested). *)
Lemma proxy_delete_adds_path s q target h cf path prop :
  heap (world s) !! q = Some (Proxy target h) ->
  match h with
  | RootHandler cf' _ _ => cf' = cf /\ path = key_string prop
  | NestedHandler cf' path' _ _ => cf' = cf /\ path' = path
  end ->
  (cf < length (sets (world s)))%nat ->
  is_symbol prop = false ->
  exists r s',
    delete_property q prop s = (r, s') /\
    path ∈ set_elements (world s') cf /\
    marks s s'.
Proof.
  intros Hq Hh Hcf Hsym.
  destruct (fuel_positive _ _ _ Hq) as (f & Hf).
  unfold delete_property. rewrite Hf. cbn [js_delete]. rewrite Hq.
  destruct (set_add_marks cf path s) as (s1 & Hadd & Hm1 & Hh1 & Hw1).
  destruct (js_delete_total f target prop s1) as (r & s' & Hdel).
  exists r, s'.
  pose proof (js_delete_marks _ _ _ _ _ _ Hdel) as Hm2.
  split; [| split; [| eapply marks_trans; eassumption]].
  - destruct h as [cf' e i | cf' path' e i]; destruct Hh as [-> ->];
      rewrite Hsym; cbn [negb]; now rewrite (bind_ok _ _ _ _ _ Hadd).
  - apply Hm2. rewrite Hw1. now apply set_add_elem.
Qed.

End InterceptionFacts.
(* ------------------------------------------------------------------ *)
(** ** Change tracker: its methods                                     *)
(* ------------------------------------------------------------------ *)

Section TrackerFacts.

Import ChangeTracker.

(** [track] on a key already tracked hands out the proxy issued before. *)
Lemma track_existing entity id data isNew s existing :
  JsMap.get (trackedEntities (tracker s)) (createKey entity id) = Some existing ->
  track entity id data isNew s = (Ok (te_proxy existing), s).
Proof. intros H. unfold track, bind, gets. now rewrite H. Qed.

(** [track] on a new key allocates a snapshot, an empty set and the root
    proxy. *)
Lemma track_fresh entity id data isNew s :
  JsMap.get (trackedEntities (tracker s)) (createKey entity id) = None ->
  exists p s' original,
    track entity id data isNew s = (Ok p, s') /\
    preserves (heap (world s)) (heap (world s')) /\
    (length (heap (world s)) <= p)%nat /\
    heap (world s') !! p
    = Some (Proxy data (RootHandler (length (sets (world s))) entity id)) /\
    sets (world s') = sets (world s) ++ [[]] /\
    trackedEntities (tracker s')
    = JsMap.set (trackedEntities (tracker s)) (createKey entity id)
        {| te_entity := entity; te_id := id; te_data := data; te_proxy := p;
           te_originalData := original; te_isNew := isNew; te_isDeleted := false;
           te_changedFields := length (sets (world s)) |} /\
    entityProxies (tracker s') = entityProxies (tracker s) ++ [p].
Proof.
  intros Hfresh. unfold track, bind at 1, gets. rewrite Hfresh.
  destruct (deepClone_spec (VRef data) (world s)) as (copy & w1 & Hclone & Hsets & Hpres).
  unfold bind at 1, in_world at 1. rewrite Hclone.
  unfold bind, in_world, new_set, createProxy, in_world, alloc, with_tracked,
    with_proxies, modify, ret.
  cbn [world tracker heap sets trackedEntities entityProxies].
  exists (length (heap w1)). eexists. exists copy.
  split; [reflexivity |]. cbn [world tracker heap sets trackedEntities entityProxies].
  split; [| split; [| split; [| split; [| split]]]].
  - eapply preserves_trans; [exact Hpres | apply preserves_app].
  - apply Hpres.
  - rewrite Hsets. now rewrite lookup_app_r, Nat.sub_diag by lia.
  - now rewrite Hsets.
  - now rewrite Hsets.
  - reflexivity.
Qed.

Lemma track_total entity id data isNew s :
  exists p s', track entity id data isNew s = (Ok p, s').
Proof.
  destruct (JsMap.get (trackedEntities (tracker s)) (createKey entity id))
    as [existing |] eqn:Hget.
  - rewrite (track_existing _ _ _ _ _ _ Hget). eauto.
  - destruct (track_fresh entity id data isNew s Hget) as (p & s' & o & H & _). eauto.
Qed.

(** [resetChanges] empties the entity's set of changed fields. *)
Lemma resetChanges_clears entity id s tracked :
  JsMap.get (trackedEntities (tracker s)) (createKey entity id) = Some tracked ->
  (te_changedFields tracked < length (sets (world s)))%nat ->
  exists s',
    resetChanges entity id s = (Ok tt, s') /\
    set_elements (world s') (te_changedFields tracked) = [].
Proof.
  intros Hget Hcf. unfold resetChanges, bind at 1, gets. rewrite Hget.
  destruct (deepClone_spec (VRef (te_data tracked)) (world s))
    as (copy & w1 & Hclone & Hsets & Hpres).
  unfold bind at 1, in_world at 1. rewrite Hclone.
  unfold bind, in_world, set_clear, with_tracked, modify, ret.
  cbn [world tracker heap sets trackedEntities entityProxies].
  destruct (te_isDeleted tracked);
    (eexists; split; [reflexivity |]);
    unfold set_elements; cbn [world sets];
    rewrite list_lookup_insert_eq by (rewrite Hsets; exact Hcf); reflexivity.
Qed.

End TrackerFacts.
(* ------------------------------------------------------------------ *)
(** ** Change tracker: which path a nested access records              *)
(* ------------------------------------------------------------------ *)

Section PathFacts.

Import ChangeTracker.

Lemma keeps_sets_refl s : keeps_sets s s.
Proof. split; reflexivity. Qed.

Lemma allocates_keeps s s' : allocates s s' -> keeps_sets s s'.
Proof. intros (Ht & Hs & _). now split. Qed.

Lemma raw_walk_path h chain : forall t owner,
  raw_walk h t chain = Some owner -> raw_path h t chain owner.
Proof.
  induction chain as [| k rest IH]; intros t owner; cbn [raw_walk raw_path].
  - now intros [= ->].
  - destruct (is_symbol k); [discriminate |].
    destruct (raw_read h t k) as [[p | t' | name] |]; try discriminate.
    destruct (h !! t') as [[props | elems | obj hd | cf path fn o] |] eqn:Ht';
      try discriminate; intros Hrest; (split; [reflexivity |]); exists t';
      (split; [reflexivity |]); (split; [unfold plain; now rewrite Ht' | now apply IH]).
Qed.

Lemma raw_path_plain h chain : forall t owner,
  plain h t -> raw_path h t chain owner -> plain h owner.
Proof.
  induction chain as [| k rest IH]; intros t owner Ht; cbn [raw_path].
  - now intros <-.
  - intros (_ & t' & _ & Ht' & Hrest). eapply IH; eassumption.
Qed.

Lemma is_proxy_proxies s :
  forallb (is_proxy (heap (world s))) (entityProxies (tracker s)) = true ->
  proxies_are_proxies s.
Proof.
  intros H l Hl. rewrite forallb_forall in H. apply list_elem_of_In in Hl.
  specialize (H l Hl). unfold is_proxy in H.
  destruct (heap (world s) !! l) as [[props | elems | obj hd | cf path fn o] |];
    try discriminate. eauto.
Qed.

Lemma set_add_sets cf x w w' :
  sets w' = sets w -> sets (snd (set_add cf x w')) = sets (snd (set_add cf x w)).
Proof. intros H. unfold set_add, set_elements. cbn [snd sets]. now rewrite H. Qed.

Lemma set_added_after cf x s s1 s2 s3 :
  keeps_sets s s1 -> set_added cf x s1 s2 -> keeps_sets s2 s3 -> set_added cf x s s3.
Proof.
  intros [Ht1 Hs1] [Ht2 Hs2] [Ht3 Hs3]. split; [congruence |].
  rewrite Hs3, Hs2. now apply set_add_sets.
Qed.

Lemma set_add_added cf x s :
  exists s', in_world (set_add cf x) s = (Ok tt, s') /\ set_added cf x s s' /\
             heap (world s') = heap (world s).
Proof. eexists. split; [reflexivity |]. split; [split; reflexivity | reflexivity]. Qed.

Lemma raw_set_keeps l c prop v s r s' :
  raw_set l c prop v s = (r, s') -> keeps_sets s s'.
Proof.
  destruct c as [props | elems | obj h | cf path fn o]; cbn [raw_set].
  - intros [= <- <-]. split; reflexivity.
  - destruct (arr_set elems prop v) as [elems' | e]; intros [= <- <-]; split; reflexivity.
  - intros [= <- <-]. split; reflexivity.
  - intros [= <- <-]. split; reflexivity.
Qed.

Lemma raw_delete_keeps l c prop s r s' :
  raw_delete l c prop s = (r, s') -> keeps_sets s s'.
Proof.
  destruct c as [props | elems | obj h | cf path fn o]; cbn [raw_delete].
  - intros [= <- <-]. split; reflexivity.
  - destruct prop as [name | i | n].
    + destruct (String.eqb name "length"); intros [= <- <-]; split; reflexivity.
    + intros [= <- <-]. split; reflexivity.
    + intros [= <- <-]. split; reflexivity.
  - intros [= <- <-]. split; reflexivity.
  - intros [= <- <-]. split; reflexivity.
Qed.

Lemma array_builtin_keeps name this_ args s r s' :
  array_builtin name this_ args s = (r, s') -> keeps_sets s s'.
Proof.
  unfold array_builtin.
  destruct (heap (world s) !! this_) as [[props | elems | obj h | cf path fn o] |];
    try (intros [= <- <-]; apply keeps_sets_refl).
  repeat match goal with
         | |- context [if String.eqb name ?m then _ else _] =>
             destruct (String.eqb name m)
         end;
    intros [= <- <-]; split; reflexivity.
Qed.

(** Writes and deletions on a plain cell leave the sets alone. *)
Lemma js_set_plain_keeps fuel l prop v s r s' :
  plain (heap (world s)) l -> js_set fuel l prop v s = (r, s') -> keeps_sets s s'.
Proof.
  unfold plain. destruct fuel; cbn [js_set];
    destruct (heap (world s) !! l) as [[props | elems | obj h | cf path fn o] |];
    try contradiction; intros _; apply raw_set_keeps.
Qed.

Lemma js_delete_plain_keeps fuel l prop s r s' :
  plain (heap (world s)) l -> js_delete fuel l prop s = (r, s') -> keeps_sets s s'.
Proof.
  unfold plain. destruct fuel; cbn [js_delete];
    destruct (heap (world s) !! l) as [[props | elems | obj h | cf path fn o] |];
    try contradiction; intros _; apply raw_delete_keeps.
Qed.

Lemma raw_path_plain_owner h k chain t owner :
  raw_path h t (k :: chain) owner -> plain h owner.
Proof. intros (_ & t' & _ & Ht' & Hrest). eapply raw_path_plain; eassumption. Qed.

(** A write through a nested proxy of a plain cell adds the proxy's
    path, whatever the value, and nothing else. *)
Lemma nested_set_exact s q owner cf path e i prop v :
  heap (world s) !! q = Some (Proxy owner (NestedHandler cf path e i)) ->
  plain (heap (world s)) owner ->
  is_symbol prop = false ->
  exists r s',
    set_property q prop v s = (r, s') /\
    set_added cf path s s' /\
    forall props, heap (world s) !! owner = Some (Obj props) ->
                  r = Ok true /\
                  heap (world s') !! owner = Some (Obj (props_set props prop v)).
Proof.
  intros Hq Hplain Hsym.
  destruct (fuel_positive _ _ _ Hq) as (f & Hf).
  unfold set_property. rewrite Hf. cbn [js_set]. rewrite Hq, Hsym. cbn [negb].
  destruct (set_add_added cf path s) as (s1 & Hadd & Hadded & Hh1).
  rewrite (bind_ok _ _ _ _ _ Hadd).
  destruct (js_set_total f owner prop v s1) as (r & s' & Hset).
  exists r, s'. split; [exact Hset |]. split.
  - rewrite <- Hh1 in Hplain.
    exact (set_added_after cf path s s s1 s' (keeps_sets_refl s) Hadded
             (js_set_plain_keeps _ _ _ _ _ _ _ Hplain Hset)).
  - intros props Howner. rewrite <- Hh1 in Howner.
    destruct f; cbn [js_set] in Hset; rewrite Howner in Hset;
      cbn [raw_set] in Hset; unfold bind, in_world, store, ret in Hset;
      cbn in Hset; injection Hset as <- <-; cbn;
      (split; [reflexivity |]);
      apply list_lookup_insert_eq; eapply lookup_lt_Some; eassumption.
Qed.

(** A deletion through a nested proxy of a plain cell: likewise. *)
Lemma nested_delete_exact s q owner cf path e i prop :
  heap (world s) !! q = Some (Proxy owner (NestedHandler cf path e i)) ->
  plain (heap (world s)) owner ->
  is_symbol prop = false ->
  exists r s',
    delete_property q prop s = (r, s') /\ set_added cf path s s'.
Proof.
  intros Hq Hplain Hsym.
  destruct (fuel_positive _ _ _ Hq) as (f & Hf).
  unfold delete_property. rewrite Hf. cbn [js_delete]. rewrite Hq, Hsym. cbn [negb].
  destruct (set_add_added cf path s) as (s1 & Hadd & Hadded & Hh1).
  rewrite (bind_ok _ _ _ _ _ Hadd).
  destruct (js_delete_total f owner prop s1) as (r & s' & Hdel).
  exists r, s'. split; [exact Hdel |].
  rewrite <- Hh1 in Hplain.
  exact (set_added_after cf path s s s1 s' (keeps_sets_refl s) Hadded
           (js_delete_plain_keeps _ _ _ _ _ _ Hplain Hdel)).
Qed.

(** An in-place array method called through a nested proxy of an array
    runs on the array after the proxy's path is added. *)
Lemma nested_call_exact s q owner cf path e i name args elems :
  heap (world s) !! q = Some (Proxy owner (NestedHandler cf path e i)) ->
  heap (world s) !! owner = Some (Arr elems) ->
  name ∈ mutatingMethods ->
  exists r s',
    call_method q (KStr name) args s = (Ok r, s') /\ set_added cf path s s'.
Proof.
  intros Hq Howner Hname.
  destruct (fuel_positive _ _ _ Hq) as (f & Hf).
  assert (Hbuiltin : arr_get elems (KStr name) = VBuiltin name).
  { unfold mutatingMethods in Hname.
    repeat (apply elem_of_cons in Hname as [-> | Hname]; [reflexivity |]).
    now apply elem_of_nil in Hname. }
  assert (Hread : raw_read (heap (world s)) owner (KStr name) = Some (VBuiltin name)).
  { unfold raw_read. now rewrite Howner, Hbuiltin. }
  assert (HisArr : isArray (world s) owner = true).
  { unfold isArray. destruct (length (heap (world s))); cbn [resolve];
      now rewrite Howner. }
  assert (Hget : exists s1,
    get_property q (KStr name) s = (Ok (VRef (length (heap (world s)))), s1) /\
    allocates s s1 /\
    heap (world s1) !! length (heap (world s))
    = Some (Wrapper cf path (VBuiltin name) owner)).
  { unfold get_property. rewrite Hf. cbn [js_get]. rewrite Hq.
    rewrite (bind_ok _ _ _ _ _ (js_get_plain f owner (KStr name) s _ Hread)).
    unfold bind at 1. unfold gets at 1. rewrite HisArr. cbn [is_function andb key_string].
    rewrite bool_decide_eq_true_2 by exact Hname.
    destruct (alloc_allocates (Wrapper cf path (VBuiltin name) owner) s)
      as (s1 & Halloc & Hal & Hcell).
    exists s1. rewrite (bind_ok _ _ _ _ _ Halloc). auto. }
  destruct Hget as (s1 & Hget & Hal1 & Hw).
  unfold call_method. rewrite (bind_ok _ _ _ _ _ Hget).
  destruct (fuel_positive _ _ _ Hw) as (f1 & Hf1). rewrite Hf1.
  cbn [call_function]. rewrite Hw.
  destruct (set_add_added cf path s1) as (s2 & Hadd & Hadded & Hh2).
  rewrite (bind_ok _ _ _ _ _ Hadd).
  assert (Howner2 : heap (world s2) !! owner = Some (Arr elems)).
  { rewrite Hh2. eapply allocates_lookup; eassumption. }
  assert (Hcall : exists r s', call_function f1 (VBuiltin name) owner args s2 = (Ok r, s')).
  { destruct f1; cbn [call_function]; unfold array_builtin; rewrite Howner2;
      unfold mutatingMethods in Hname;
      repeat (apply elem_of_cons in Hname as [-> | Hname];
              [cbn; eauto |]);
      now apply elem_of_nil in Hname. }
  destruct Hcall as (r & s' & Hcall).
  exists r, s'. split; [exact Hcall |].
  apply (set_added_after cf path s s1 s2 s' (allocates_keeps _ _ Hal1) Hadded).
  destruct f1; cbn [call_function] in Hcall; eapply array_builtin_keeps; exact Hcall.
Qed.

(** What [getChangedFields] reports after an [add]. *)
Lemma getChangedFields_added s s' entity id p t cf x :
  wrapped s entity id p t cf -> set_added cf x s s' ->
  getChangedFields s' entity id = add_path (getChangedFields s entity id) x.
Proof.
  intros ((tracked & Htracked & Hcf) & _ & Hlt & _) [Ht Hs].
  unfold getChangedFields. rewrite Ht, Htracked, Hcf. unfold add_path.
  rewrite <- (set_add_elements cf x (world s) Hlt).
  unfold set_elements. now rewrite Hs.
Qed.

Lemma getChangedFields_kept s s' entity id :
  keeps_sets s s' -> getChangedFields s' entity id = getChangedFields s entity id.
Proof.
  intros [Ht Hs]. unfold getChangedFields, set_elements. now rewrite Ht, Hs.
Qed.

(** Reaching the owner of a nested property from the wrapped instance. *)
Lemma get_path_wrapped s entity id p t cf k chain owner :
  wrapped s entity id p t cf ->
  raw_walk (heap (world s)) t (k :: chain) = Some owner ->
  exists q s1,
    get_path p (k :: chain) s = (Ok q, s1) /\
    allocates s s1 /\
    heap (world s1) !! q
    = Some (Proxy owner (NestedHandler cf (dotted (k :: chain)) entity id)) /\
    plain (heap (world s1)) owner.
Proof.
  intros (_ & Hp & _ & Hproxies) Hwalk. apply raw_walk_path in Hwalk.
  destruct (get_path_root s p t cf entity id k chain owner
              (is_proxy_proxies s Hproxies) Hp Hwalk) as (q & s1 & Hget & Hal & Hq).
  exists q, s1. split; [exact Hget |]. split; [exact Hal |]. split; [exact Hq |].
  eapply plain_allocates; [exact Hal |]. eapply raw_path_plain_owner; exact Hwalk.
Qed.

(** [wrapped.k.chain.prop = v] adds the dotted chain [k.chain]. *)
Lemma set_at_wrapped s entity id p t cf k chain owner prop v :
  wrapped s entity id p t cf ->
  raw_walk (heap (world s)) t (k :: chain) = Some owner ->
  is_symbol prop = false ->
  exists r s',
    set_at p (k :: chain) prop v s = (r, s') /\
    getChangedFields s' entity id
    = add_path (getChangedFields s entity id) (dotted (k :: chain)).
Proof.
  intros Hwrapped Hwalk Hsym.
  destruct (get_path_wrapped s entity id p t cf k chain owner Hwrapped Hwalk)
    as (q & s1 & Hget & Hal & Hq & Hplain).
  destruct (nested_set_exact s1 q owner cf _ entity id prop v Hq Hplain Hsym)
    as (r & s' & Hset & Hadded & _).
  exists r, s'. unfold set_at. rewrite (bind_ok _ _ _ _ _ Hget).
  split; [exact Hset |]. eapply getChangedFields_added; [exact Hwrapped |].
  exact (set_added_after _ _ s s1 s' s' (allocates_keeps _ _ Hal) Hadded
           (keeps_sets_refl s')).
Qed.

(** [delete wrapped.k.chain.prop] adds the dotted chain [k.chain]. *)
Lemma delete_at_wrapped s entity id p t cf k chain owner prop :
  wrapped s entity id p t cf ->
  raw_walk (heap (world s)) t (k :: chain) = Some owner ->
  is_symbol prop = false ->
  exists r s',
    delete_at p (k :: chain) prop s = (r, s') /\
    getChangedFields s' entity id
    = add_path (getChangedFields s entity id) (dotted (k :: chain)).
Proof.
  intros Hwrapped Hwalk Hsym.
  destruct (get_path_wrapped s entity id p t cf k chain owner Hwrapped Hwalk)
    as (q & s1 & Hget & Hal & Hq & Hplain).
  destruct (nested_delete_exact s1 q owner cf _ entity id prop Hq Hplain Hsym)
    as (r & s' & Hdel & Hadded).
  exists r, s'. unfold delete_at. rewrite (bind_ok _ _ _ _ _ Hget).
  split; [exact Hdel |]. eapply getChangedFields_added; [exact Hwrapped |].
  exact (set_added_after _ _ s s1 s' s' (allocates_keeps _ _ Hal) Hadded
           (keeps_sets_refl s')).
Qed.

(** [wrapped.k.chain.push(...)] and the like add the dotted chain
    [k.chain] of the array. *)
Lemma call_at_wrapped s entity id p t cf k chain owner name args elems :
  wrapped s entity id p t cf ->
  raw_walk (heap (world s)) t (k :: chain) = Some owner ->
  heap (world s) !! owner = Some (Arr elems) ->
  name ∈ mutatingMethods ->
  exists r s',
    call_at p (k :: chain) name args s = (Ok r, s') /\
    getChangedFields s' entity id
    = add_path (getChangedFields s entity id) (dotted (k :: chain)).
Proof.
  intros Hwrapped Hwalk Howner Hname.
  destruct (get_path_wrapped s entity id p t cf k chain owner Hwrapped Hwalk)
    as (q & s1 & Hget & Hal & Hq & Hplain).
  assert (heap (world s1) !! owner = Some (Arr elems)) as Howner1
    by (eapply allocates_lookup; eassumption).
  destruct (nested_call_exact s1 q owner cf _ entity id name args elems Hq Howner1 Hname)
    as (r & s' & Hcall & Hadded).
  exists r, s'. unfold call_at. rewrite (bind_ok _ _ _ _ _ Hget).
  split; [exact Hcall |]. eapply getChangedFields_added; [exact Hwrapped |].
  exact (set_added_after _ _ s s1 s' s' (allocates_keeps _ _ Hal) Hadded
           (keeps_sets_refl s')).
Qed.

(** *** No access removes a recorded path *)

Lemma get_path_allocates chain : forall ref s r s',
  get_path ref chain s = (r, s') -> allocates s s'.
Proof.
  induction chain as [| k rest IH]; intros ref s r s'; cbn [get_path].
  - intros [= <- <-]. apply allocates_refl.
  - unfold bind at 1, get_property at 1.
    destruct (js_get (fuel_of s) ref k s) as [[v | e] s1] eqn:Hget;
      apply js_get_allocates in Hget; [| intros [= <- <-]; exact Hget].
    destruct v as [pr | l | name]; try (intros [= <- <-]; exact Hget).
    intros Hrest. apply IH in Hrest. eapply allocates_trans; eassumption.
Qed.

Lemma marks_reported s s' entity id x :
  marks s s' -> x ∈ getChangedFields s entity id -> x ∈ getChangedFields s' entity id.
Proof.
  intros (Ht & _ & Hm). unfold getChangedFields. rewrite Ht.
  destruct (JsMap.get _ _) as [tracked |]; [apply Hm | auto].
Qed.

Lemma set_at_marks ref chain prop v s r s' :
  set_at ref chain prop v s = (r, s') -> marks s s'.
Proof.
  unfold set_at. unfold bind at 1.
  destruct (get_path ref chain s) as [[owner | e] s1] eqn:Hget;
    apply get_path_allocates, allocates_marks in Hget;
    [| intros [= <- <-]; exact Hget].
  unfold set_property. intros Hset. apply js_set_marks in Hset.
  eapply marks_trans; eassumption.
Qed.

Lemma delete_at_marks ref chain prop s r s' :
  delete_at ref chain prop s = (r, s') -> marks s s'.
Proof.
  unfold delete_at. unfold bind at 1.
  destruct (get_path ref chain s) as [[owner | e] s1] eqn:Hget;
    apply get_path_allocates, allocates_marks in Hget;
    [| intros [= <- <-]; exact Hget].
  unfold delete_property. intros Hdel. apply js_delete_marks in Hdel.
  eapply marks_trans; eassumption.
Qed.

Lemma call_at_marks ref chain name args s r s' :
  call_at ref chain name args s = (r, s') -> marks s s'.
Proof.
  unfold call_at. unfold bind at 1.
  destruct (get_path ref chain s) as [[owner | e] s1] eqn:Hget;
    apply get_path_allocates, allocates_marks in Hget;
    [| intros [= <- <-]; exact Hget].
  unfold call_method. unfold bind at 1, get_property at 1.
  destruct (js_get (fuel_of s1) owner (KStr name) s1) as [[fn | e] s2] eqn:Hfn;
    apply js_get_allocates, allocates_marks in Hfn;
    [| intros [= <- <-]; eapply marks_trans; eassumption].
  intros Hcall. apply call_function_marks in Hcall.
  eapply marks_trans; [eassumption |]. eapply marks_trans; eassumption.
Qed.

(** *** Writes to a field of the wrapped instance itself *)

Lemma root_set_reported s entity id p t cf props k v :
  wrapped s entity id p t cf ->
  heap (world s) !! t = Some (Obj props) ->
  is_symbol k = false ->
  exists s',
    set_property p k v s = (Ok true, s') /\
    heap (world s') !! t = Some (Obj (props_set props k v)) /\
    getChangedFields s' entity id
    = if strict_eq (default VUndefined (props_get props k)) v
      then getChangedFields s entity id
      else add_path (getChangedFields s entity id) (key_string k).
Proof.
  intros Hwrapped Ht Hsym.
  pose proof Hwrapped as (_ & Hp & Hlt & _).
  eexists. split; [exact (root_set_spec s p t cf entity id props k v Hp Ht Hsym) |].
  split.
  - cbn [world heap]. apply list_lookup_insert_eq. eapply lookup_lt_Some; exact Ht.
  - destruct (strict_eq _ v).
    + apply getChangedFields_kept. split; reflexivity.
    + eapply getChangedFields_added; [exact Hwrapped |]. split; reflexivity.
Qed.

(** Deleting a field through the wrapped instance of an object. *)
Lemma root_delete_spec s p t cf e i props k :
  heap (world s) !! p = Some (Proxy t (RootHandler cf e i)) ->
  heap (world s) !! t = Some (Obj props) ->
  is_symbol k = false ->
  delete_property p k s
  = (Ok true,
     {| world :=
          {| heap := <[t := Obj (props_delete props k)]> (heap (world s));
             sets := sets (snd (set_add cf (key_string k) (world s))) |};
        tracker := tracker s |}).
Proof.
  intros Hp Ht Hsym.
  destruct (fuel_positive _ _ _ Hp) as (f & Hf).
  unfold delete_property. rewrite Hf. cbn [js_delete]. rewrite Hp, Hsym. cbn [negb].
  unfold bind at 1. cbn [in_world set_add world heap sets].
  destruct f; cbn [js_delete world heap]; rewrite Ht; cbn [raw_delete];
    unfold bind, in_world, store, ret; cbn; reflexivity.
Qed.


Lemma root_delete_reported s entity id p t cf props k :
  wrapped s entity id p t cf ->
  heap (world s) !! t = Some (Obj props) ->
  is_symbol k = false ->
  exists s',
    delete_property p k s = (Ok true, s') /\
    set_added cf (key_string k) s s'.
Proof.
  intros Hwrapped Ht Hsym. pose proof Hwrapped as (_ & Hp & _ & _).
  eexists. split; [exact (root_delete_spec s p t cf entity id props k Hp Ht Hsym) |].
  split; reflexivity.
Qed.

(** *** A field that holds the wrapped instance of a tracked entity *)

Lemma set_add_elements_other cf cf' x w :
  cf <> cf' -> set_elements (snd (set_add cf' x w)) cf = set_elements w cf.
Proof.
  intros Hne. unfold set_add, set_elements. cbn [snd sets].
  destruct (bool_decide (x ∈ default [] (sets w !! cf'))); [reflexivity |].
  rewrite list_lookup_insert_ne by congruence. reflexivity.
Qed.

(** An [add] to the set of another entity is not reported for this one. *)
Lemma getChangedFields_added_other s s' entity id p t cf cf' x :
  wrapped s entity id p t cf -> cf <> cf' -> set_added cf' x s s' ->
  getChangedFields s' entity id = getChangedFields s entity id.
Proof.
  intros ((tracked & Htracked & Hcf) & _) Hne [Ht Hs].
  unfold getChangedFields. rewrite Ht, Htracked, Hcf.
  rewrite <- (set_add_elements_other cf cf' x (world s) Hne).
  unfold set_elements. now rewrite Hs.
Qed.

(** The get trap of the wrapped instance hands out a value that is a
    root proxy as it is: no nested proxy is made for it. *)
Lemma get_path_foreign s p t cf entity id k q :
  heap (world s) !! p = Some (Proxy t (RootHandler cf entity id)) ->
  is_symbol k = false ->
  raw_read (heap (world s)) t k = Some (VRef q) ->
  q ∈ entityProxies (tracker s) ->
  get_path p [k] s = (Ok q, s).
Proof.
  intros Hp Hsym Hread Hq.
  destruct (fuel_positive _ _ _ Hp) as (f & Hf).
  cbn [get_path]. unfold bind at 1, get_property. rewrite Hf. cbn [js_get]. rewrite Hp.
  rewrite (bind_ok _ _ _ _ _ (js_get_plain f t k s _ Hread)). rewrite Hsym.
  unfold bind, gets, ret.
  rewrite (bool_decide_eq_true_2 (VRef q ∈ VRef <$> entityProxies (tracker s)))
    by (apply list_elem_of_fmap; eauto).
  cbn [negb]. now rewrite andb_false_r.
Qed.

(** [wrapped.k.prop = v] where the field [k] holds the wrapped instance
    [q] of another tracked entity is the write [q.prop = v]: recorded for
    that entity as a write to its field [prop], and not for the owner of
    [k]. *)
Lemma set_at_foreign s entity id p t cf k q e2 i2 t2 cf2 props2 prop v :
  wrapped s entity id p t cf ->
  is_symbol k = false ->
  raw_read (heap (world s)) t k = Some (VRef q) ->
  q ∈ entityProxies (tracker s) ->
  wrapped s e2 i2 q t2 cf2 ->
  cf2 <> cf ->
  heap (world s) !! t2 = Some (Obj props2) ->
  is_symbol prop = false ->
  exists s',
    set_at p [k] prop v s = (Ok true, s') /\
    getChangedFields s' entity id = getChangedFields s entity id /\
    getChangedFields s' e2 i2
    = if strict_eq (default VUndefined (props_get props2 prop)) v
      then getChangedFields s e2 i2
      else add_path (getChangedFields s e2 i2) (key_string prop).
Proof.
  intros Hwrapped Hk Hread Hq Hwrapped2 Hne Ht2 Hsym.
  pose proof Hwrapped as (_ & Hp & _ & _). pose proof Hwrapped2 as (_ & Hq2 & _ & _).
  unfold set_at.
  rewrite (bind_ok _ _ _ _ _ (get_path_foreign s p t cf entity id k q Hp Hk Hread Hq)).
  eexists. split; [exact (root_set_spec s q t2 cf2 e2 i2 props2 prop v Hq2 Ht2 Hsym) |].
  destruct (strict_eq _ v).
  - split; apply getChangedFields_kept; split; reflexivity.
  - split.
    + eapply getChangedFields_added_other; [exact Hwrapped | | split; reflexivity].
      congruence.
    + eapply getChangedFields_added; [exact Hwrapped2 |]. split; reflexivity.
Qed.

(** [delete wrapped.k.prop] where the field [k] holds the wrapped
    instance of another tracked entity: likewise. *)
Lemma delete_at_foreign s entity id p t cf k q e2 i2 t2 cf2 props2 prop :
  wrapped s entity id p t cf ->
  is_symbol k = false ->
  raw_read (heap (world s)) t k = Some (VRef q) ->
  q ∈ entityProxies (tracker s) ->
  wrapped s e2 i2 q t2 cf2 ->
  cf2 <> cf ->
  heap (world s) !! t2 = Some (Obj props2) ->
  is_symbol prop = false ->
  exists s',
    delete_at p [k] prop s = (Ok true, s') /\
    getChangedFields s' entity id = getChangedFields s entity id /\
    getChangedFields s' e2 i2 = add_path (getChangedFields s e2 i2) (key_string prop).
Proof.
  intros Hwrapped Hk Hread Hq Hwrapped2 Hne Ht2 Hsym.
  pose proof Hwrapped as (_ & Hp & _ & _). pose proof Hwrapped2 as (_ & Hq2 & _ & _).
  unfold delete_at.
  rewrite (bind_ok _ _ _ _ _ (get_path_foreign s p t cf entity id k q Hp Hk Hread Hq)).
  eexists. split; [exact (root_delete_spec s q t2 cf2 e2 i2 props2 prop Hq2 Ht2 Hsym) |].
  split.
  - eapply getChangedFields_added_other; [exact Hwrapped | | split; reflexivity].
    congruence.
  - eapply getChangedFields_added; [exact Hwrapped2 |]. split; reflexivity.
Qed.

(** *** The tracker's own methods *)

(** [track] removes no recorded path, of any entity. *)
Lemma track_keeps_paths e2 i2 data isNew s r s' entity id x :
  track e2 i2 data isNew s = (r, s') ->
  x ∈ getChangedFields s entity id -> x ∈ getChangedFields s' entity id.
Proof.
  intros Htrack.
  destruct (JsMap.get (trackedEntities (tracker s)) (createKey e2 i2))
    as [existing |] eqn:Hget.
  - rewrite (track_existing _ _ _ _ _ _ Hget) in Htrack. now injection Htrack as <- <-.
  - destruct (track_fresh e2 i2 data isNew s Hget)
      as (p & s1 & original & Hrun & _ & _ & _ & Hsets & Htracked & _).
    rewrite Hrun in Htrack. injection Htrack as <- <-.
    unfold getChangedFields. rewrite Htracked.
    destruct (JsMap.get (trackedEntities (tracker s)) (createKey entity id))
      as [tracked |] eqn:Hmine; [| intros Hin; now apply elem_of_nil in Hin].
    rewrite JsMap_get_set_ne, Hmine by congruence.
    unfold set_elements. rewrite Hsets.
    destruct (sets (world s) !! te_changedFields tracked) as [elems |] eqn:Helems;
      [| intros Hin; now apply elem_of_nil in Hin].
    now rewrite (lookup_app_l_Some _ _ _ _ Helems).
Qed.

(** [markDeleted] leaves every report of changed fields as it is. *)
Lemma markDeleted_keeps_paths e2 i2 s r s' entity id :
  markDeleted e2 i2 s = (r, s') ->
  getChangedFields s' entity id = getChangedFields s entity id.
Proof.
  unfold markDeleted, bind, gets.
  destruct (JsMap.get (trackedEntities (tracker s)) (createKey e2 i2))
    as [tracked |] eqn:Hget; intros [= <- <-]; [| reflexivity].
  unfold getChangedFields. cbn [world tracker trackedEntities].
  destruct (String.eqb_spec (createKey e2 i2) (createKey entity id)) as [Heq | Hne].
  - rewrite <- Heq, JsMap_get_set_eq, Hget. reflexivity.
  - now rewrite JsMap_get_set_ne.
Qed.

Lemma JsMap_get_delete_set {V} (m : JsMap.t V) k v :
  NoDup (JsMap.keys m) -> JsMap.get (JsMap.delete (JsMap.set m k v) k) k = None.
Proof.
  unfold JsMap.keys. induction m as [| [k' v'] m IH]; cbn.
  - now rewrite String.eqb_refl.
  - intros Hnd. apply NoDup_cons in Hnd as [Hnotin Hnd].
    destruct (String.eqb_spec k' k) as [-> | Hk]; cbn.
    + rewrite String.eqb_refl. now apply JsMap_get_None.
    + destruct (String.eqb_spec k' k); [contradiction |]. cbn.
      destruct (String.eqb_spec k' k); [contradiction |]. now apply IH.
Qed.

(** After [resetChanges] the entity is reported with no changed field. *)
Lemma resetChanges_reports_none entity id s tracked :
  JsMap.get (trackedEntities (tracker s)) (createKey entity id) = Some tracked ->
  (te_changedFields tracked < length (sets (world s)))%nat ->
  NoDup (JsMap.keys (trackedEntities (tracker s))) ->
  exists s',
    resetChanges entity id s = (Ok tt, s') /\ getChangedFields s' entity id = [].
Proof.
  intros Hget Hcf Hnd. unfold resetChanges, bind at 1, gets. rewrite Hget.
  destruct (deepClone_spec (VRef (te_data tracked)) (world s))
    as (copy & w1 & Hclone & Hsets & Hpres).
  unfold bind at 1, in_world at 1. rewrite Hclone.
  unfold bind, in_world, set_clear, with_tracked, modify, ret.
  cbn [world tracker heap sets trackedEntities entityProxies].
  destruct (te_isDeleted tracked);
    (eexists; split; [reflexivity |]);
    unfold getChangedFields; cbn [world tracker trackedEntities].
  - now rewrite JsMap_get_delete_set.
  - rewrite JsMap_get_set_eq. cbn [te_changedFields]. unfold set_elements. cbn [sets].
    rewrite list_lookup_insert_eq by (rewrite Hsets; exact Hcf). reflexivity.
Qed.

(** After [untrack] the entity is reported with no changed field. *)
Lemma untrack_reports_none entity id s :
  NoDup (JsMap.keys (trackedEntities (tracker s))) ->
  exists s', untrack entity id s = (Ok tt, s') /\ getChangedFields s' entity id = [].
Proof.
  intros Hnd. unfold untrack, bind, gets.
  destruct (JsMap.get (trackedEntities (tracker s)) (createKey entity id))
    as [tracked |] eqn:Hget.
  - eexists. split; [reflexivity |].
    unfold getChangedFields. cbn [world tracker trackedEntities].
    now rewrite JsMap_get_delete_eq.
  - eexists. split; [reflexivity |]. unfold getChangedFields. now rewrite Hget.
Qed.

(** Claim C6, as the code has it.  For a tracked entity whose wrapped
    instance is [p]:

    - a write, a deletion or an in-place array method on a nested object
      or array of the entity's data, reached from the wrapped instance
      through the chain [k.chain] of fields that hold objects and arrays
      proper (no proxies), adds exactly one path to [changedFields]: the
      dotted chain to the object or array that owns the property,
      [k.chain] itself, without the name of the property written or
      deleted;

    - a field [k] of the wrapped instance that holds the wrapped
      instance [q] of another tracked entity is read as [q] itself; a
      write or a deletion of a property through it adds nothing to the
      owner's [changedFields] and is recorded for the other entity,
      under the name of the property, as a write or deletion on [q]
      is. *)
Theorem nested_access_records_owner_path s entity id p t cf :
  wrapped s entity id p t cf ->
  (forall k chain owner prop,
     raw_walk (heap (world s)) t (k :: chain) = Some owner ->
     is_symbol prop = false ->
     (forall v, exists r s',
        set_at p (k :: chain) prop v s = (r, s') /\
        getChangedFields s' entity id
        = add_path (getChangedFields s entity id) (dotted (k :: chain))) /\
     (exists r s',
        delete_at p (k :: chain) prop s = (r, s') /\
        getChangedFields s' entity id
        = add_path (getChangedFields s entity id) (dotted (k :: chain))) /\
     (forall name args elems,
        heap (world s) !! owner = Some (Arr elems) ->
        name ∈ mutatingMethods ->
        exists r s',
          call_at p (k :: chain) name args s = (Ok r, s') /\
          getChangedFields s' entity id
          = add_path (getChangedFields s entity id) (dotted (k :: chain)))) /\
  (forall k q e2 i2 t2 cf2 props2 prop,
     is_symbol k = false ->
     raw_read (heap (world s)) t k = Some (VRef q) ->
     q ∈ entityProxies (tracker s) ->
     wrapped s e2 i2 q t2 cf2 ->
     cf2 <> cf ->
     heap (world s) !! t2 = Some (Obj props2) ->
     is_symbol prop = false ->
     get_path p [k] s = (Ok q, s) /\
     (forall v, exists s',
        set_at p [k] prop v s = (Ok true, s') /\
        getChangedFields s' entity id = getChangedFields s entity id /\
        getChangedFields s' e2 i2
        = if strict_eq (default VUndefined (props_get props2 prop)) v
          then getChangedFields s e2 i2
          else add_path (getChangedFields s e2 i2) (key_string prop)) /\
     (exists s',
        delete_at p [k] prop s = (Ok true, s') /\
        getChangedFields s' entity id = getChangedFields s entity id /\
        getChangedFields s' e2 i2
        = add_path (getChangedFields s e2 i2) (key_string prop))).
Proof.
  intros Hwrapped. split.
  - intros k chain owner prop Hwalk Hsym. split; [| split].
    + intros v. now apply (set_at_wrapped s entity id p t cf k chain owner).
    + now apply (delete_at_wrapped s entity id p t cf k chain owner).
    + intros name args elems Howner Hname.
      now apply (call_at_wrapped s entity id p t cf k chain owner name args elems).
  - intros k q e2 i2 t2 cf2 props2 prop Hk Hread Hq Hwrapped2 Hne Ht2 Hsym.
    pose proof Hwrapped as (_ & Hp & _ & _).
    split; [exact (get_path_foreign s p t cf entity id k q Hp Hk Hread Hq) |].
    split.
    + intros v. exact (set_at_foreign s entity id p t cf k q e2 i2 t2 cf2 props2 prop v
                         Hwrapped Hk Hread Hq Hwrapped2 Hne Ht2 Hsym).
    + exact (delete_at_foreign s entity id p t cf k q e2 i2 t2 cf2 props2 prop
               Hwrapped Hk Hread Hq Hwrapped2 Hne Ht2 Hsym).
Qed.

(** Claim C4, as the code has it.  For a tracked entity whose wrapped
    instance is [p]:

    - writing a field [k] of the wrapped instance itself adds [k] to
      [changedFields] when the value differs ([!==]) from the current
      one and leaves [changedFields] as it is when it does not;

    - writing any value, different or not, to a property of a nested
      object or array of the entity's data, reached through fields that
      hold objects and arrays proper, adds the dotted chain to that
      nested object or array;

    - writing through a field that holds the wrapped instance of
      another tracked entity adds nothing for this entity: the write is
      recorded for the other one, as a write to its field;

    - no read, write, deletion or method call through any reference,
      and no [track] or [markDeleted], removes a path;

    - [resetChanges] empties the set, and after [resetChanges],
      [untrack] or [clear] no changed field is reported for the
      entity. *)
Theorem change_detection_monotonic s entity id p t cf props :
  wrapped s entity id p t cf ->
  heap (world s) !! t = Some (Obj props) ->
  (forall k v, is_symbol k = false ->
     exists s',
       set_property p k v s = (Ok true, s') /\
       getChangedFields s' entity id
       = if strict_eq (default VUndefined (props_get props k)) v
         then getChangedFields s entity id
         else add_path (getChangedFields s entity id) (key_string k)) /\
  (forall k chain owner prop v,
     raw_walk (heap (world s)) t (k :: chain) = Some owner ->
     is_symbol prop = false ->
     exists r s',
       set_at p (k :: chain) prop v s = (r, s') /\
       getChangedFields s' entity id
       = add_path (getChangedFields s entity id) (dotted (k :: chain))) /\
  (forall k q e2 i2 t2 cf2 props2 prop v,
     is_symbol k = false ->
     raw_read (heap (world s)) t k = Some (VRef q) ->
     q ∈ entityProxies (tracker s) ->
     wrapped s e2 i2 q t2 cf2 ->
     cf2 <> cf ->
     heap (world s) !! t2 = Some (Obj props2) ->
     is_symbol prop = false ->
     exists s',
       set_at p [k] prop v s = (Ok true, s') /\
       getChangedFields s' entity id = getChangedFields s entity id /\
       getChangedFields s' e2 i2
       = if strict_eq (default VUndefined (props_get props2 prop)) v
         then getChangedFields s e2 i2
         else add_path (getChangedFields s e2 i2) (key_string prop)) /\
  (forall ref chain prop v r s' x,
     set_at ref chain prop v s = (r, s') ->
     x ∈ getChangedFields s entity id -> x ∈ getChangedFields s' entity id) /\
  (forall ref chain prop r s' x,
     delete_at ref chain prop s = (r, s') ->
     x ∈ getChangedFields s entity id -> x ∈ getChangedFields s' entity id) /\
  (forall ref chain name args r s' x,
     call_at ref chain name args s = (r, s') ->
     x ∈ getChangedFields s entity id -> x ∈ getChangedFields s' entity id) /\
  (forall ref chain r s' x,
     get_path ref chain s = (r, s') ->
     x ∈ getChangedFields s entity id -> x ∈ getChangedFields s' entity id) /\
  (forall e2 i2 data isNew r s' x,
     track e2 i2 data isNew s = (r, s') ->
     x ∈ getChangedFields s entity id -> x ∈ getChangedFields s' entity id) /\
  (forall e2 i2 r s' x,
     markDeleted e2 i2 s = (r, s') ->
     x ∈ getChangedFields s entity id -> x ∈ getChangedFields s' entity id) /\
  (exists s',
     resetChanges entity id s = (Ok tt, s') /\ set_elements (world s') cf = []) /\
  (NoDup (JsMap.keys (trackedEntities (tracker s))) ->
   (exists s',
      resetChanges entity id s = (Ok tt, s') /\ getChangedFields s' entity id = []) /\
   (exists s',
      untrack entity id s = (Ok tt, s') /\ getChangedFields s' entity id = [])) /\
  (exists s', clear s = (Ok tt, s') /\ getChangedFields s' entity id = []).
Proof.
  intros Hwrapped Ht.
  repeat match goal with |- _ /\ _ => split end.
  - intros k v Hsym.
    destruct (root_set_reported s entity id p t cf props k v Hwrapped Ht Hsym)
      as (s' & Hset & _ & Hrep).
    exists s'. now split.
  - intros k chain owner prop v Hwalk Hsym.
    now apply (set_at_wrapped s entity id p t cf k chain owner).
  - intros k q e2 i2 t2 cf2 props2 prop v Hk Hread Hq Hwrapped2 Hne Ht2 Hsym.
    exact (set_at_foreign s entity id p t cf k q e2 i2 t2 cf2 props2 prop v
             Hwrapped Hk Hread Hq Hwrapped2 Hne Ht2 Hsym).
  - intros ref chain prop v r s' x Hset. apply marks_reported.
    eapply set_at_marks; exact Hset.
  - intros ref chain prop r s' x Hdel. apply marks_reported.
    eapply delete_at_marks; exact Hdel.
  - intros ref chain name args r s' x Hcall. apply marks_reported.
    eapply call_at_marks; exact Hcall.
  - intros ref chain r s' x Hget. apply marks_reported.
    eapply allocates_marks, get_path_allocates; exact Hget.
  - intros e2 i2 data isNew r s' x Htrack.
    eapply track_keeps_paths; exact Htrack.
  - intros e2 i2 r s' x Hmark Hin.
    now rewrite (markDeleted_keeps_paths e2 i2 s r s' entity id Hmark).
  - destruct Hwrapped as ((tracked & Htracked & <-) & _ & Hlt & _).
    exact (resetChanges_clears entity id s tracked Htracked Hlt).
  - intros Hnd. split.
    + destruct Hwrapped as ((tracked & Htracked & <-) & _ & Hlt & _).
      exact (resetChanges_reports_none entity id s tracked Htracked Hlt Hnd).
    + exact (untrack_reports_none entity id s Hnd).
  - eexists. split; [reflexivity |]. reflexivity.
Qed.

End PathFacts.

(** [wrapped.profile.bio = 'changed'] on a freshly tracked user records
    [profile]; [post.author.name = 'Grace'] on a tracked post whose
    author is a tracked user records nothing for the post and [name] for
    the user. *)
Lemma nested_access_records_owner_path_witness :
  (exists r s',
     ChangeTracker.set_at wrapped_profile [KStr "profile"] (KStr "bio") (VStr "changed")
       tracked_profile = (r, s') /\
     ChangeTracker.getChangedFields s' "User" (IdPrim (PNum 1)) = ["profile"]) /\
  ChangeTracker.get_path wrapped_post [KStr "author"] post_with_author
  = (Ok wrapped_author, post_with_author) /\
  (exists s',
     ChangeTracker.set_at wrapped_post [KStr "author"] (KStr "name") (VStr "Grace")
       post_with_author = (Ok true, s') /\
     ChangeTracker.getChangedFields s' "Post" (IdPrim (PNum 10)) = [] /\
     ChangeTracker.getChangedFields s' "User" (IdPrim (PNum 1)) = ["name"]).
Proof.
  destruct (nested_access_records_owner_path tracked_profile "User" (IdPrim (PNum 1))
              wrapped_profile 0%nat 0%nat) as [Hnested _].
  { split; [eexists; split; reflexivity |].
    split; [reflexivity |]. split; [vm_compute; lia | reflexivity]. }
  destruct (nested_access_records_owner_path post_with_author "Post" (IdPrim (PNum 10))
              wrapped_post 1%nat 1%nat) as [_ Hforeign].
  { split; [eexists; split; reflexivity |].
    split; [reflexivity |]. split; [vm_compute; lia | reflexivity]. }
  split.
  - destruct (Hnested (KStr "profile") [] 1%nat (KStr "bio") eq_refl eq_refl)
      as [Hset _].
    exact (Hset (VStr "changed")).
  - destruct (Hforeign (KStr "author") wrapped_author "User" (IdPrim (PNum 1)) 0%nat 0%nat
                [(KStr "id", VNum 1); (KStr "name", VStr "Ada")] (KStr "name"))
      as (Hget & Hset & _).
    + reflexivity.
    + reflexivity.
    + vm_compute. apply list_elem_of_here.
    + split; [eexists; split; reflexivity |].
      split; [reflexivity |]. split; [vm_compute; lia | reflexivity].
    + discriminate.
    + reflexivity.
    + reflexivity.
    + split; [exact Hget |]. exact (Hset (VStr "Grace")).
Defined.

(** Claim C6 as stated fails: after [wrapped.profile.bio = 'changed']
    the changed fields are [profile] alone; [profile.bio] is not among
    them. *)
Lemma nested_write_full_path_counterexample :
  ChangeTracker.getChangedFields
    (snd (ChangeTracker.set_at wrapped_profile [KStr "profile"] (KStr "bio")
            (VStr "changed") tracked_profile))
    "User" (IdPrim (PNum 1)) = ["profile"] /\
  ~ "profile.bio" ∈
      ChangeTracker.getChangedFields
        (snd (ChangeTracker.set_at wrapped_profile [KStr "profile"] (KStr "bio")
                (VStr "changed") tracked_profile))
        "User" (IdPrim (PNum 1)).
Proof.
  assert (ChangeTracker.getChangedFields
            (snd (ChangeTracker.set_at wrapped_profile [KStr "profile"] (KStr "bio")
                    (VStr "changed") tracked_profile))
            "User" (IdPrim (PNum 1)) = ["profile"]) as H by (vm_compute; reflexivity).
  split; [exact H |]. rewrite H. intros Hin.
  apply list_elem_of_singleton in Hin. discriminate Hin.
Qed.

(** [wrapped.name = 'Grace'] on a freshly tracked user named Ada records
    [name]; [post.author.name = 'Grace'] on a tracked post whose author
    is a tracked user records nothing for the post; after [untrack] no
    changed field is reported. *)
Lemma change_detection_monotonic_witness :
  (exists s',
     ChangeTracker.set_property wrapped_profile (KStr "name") (VStr "Grace")
       tracked_profile = (Ok true, s') /\
     ChangeTracker.getChangedFields s' "User" (IdPrim (PNum 1)) = ["name"]) /\
  (exists s',
     ChangeTracker.set_at wrapped_post [KStr "author"] (KStr "name") (VStr "Grace")
       post_with_author = (Ok true, s') /\
     ChangeTracker.getChangedFields s' "Post" (IdPrim (PNum 10)) = [] /\
     ChangeTracker.getChangedFields s' "User" (IdPrim (PNum 1)) = ["name"]) /\
  (exists s',
     ChangeTracker.untrack "User" (IdPrim (PNum 1)) renamed_profile = (Ok tt, s') /\
     ChangeTracker.getChangedFields renamed_profile "User" (IdPrim (PNum 1)) = ["name"] /\
     ChangeTracker.getChangedFields s' "User" (IdPrim (PNum 1)) = []).
Proof.
  destruct (change_detection_monotonic tracked_profile "User" (IdPrim (PNum 1))
              wrapped_profile 0%nat 0%nat
              [(KStr "id", VNum 1); (KStr "name", VStr "Ada");
               (KStr "profile", VRef 1%nat); (KStr "tags", VRef 2%nat)])
    as [Hset _].
  { split; [eexists; split; reflexivity |].
    split; [reflexivity |]. split; [vm_compute; lia | reflexivity]. }
  { reflexivity. }
  destruct (change_detection_monotonic post_with_author "Post" (IdPrim (PNum 10))
              wrapped_post 1%nat 1%nat
              [(KStr "id", VNum 10); (KStr "title", VStr "Hello");
               (KStr "author", VRef wrapped_author)])
    as (_ & _ & Hforeign & _).
  { split; [eexists; split; reflexivity |].
    split; [reflexivity |]. split; [vm_compute; lia | reflexivity]. }
  { reflexivity. }
  destruct (change_detection_monotonic renamed_profile "User" (IdPrim (PNum 1))
              wrapped_profile 0%nat 0%nat
              [(KStr "id", VNum 1); (KStr "name", VStr "Grace");
               (KStr "profile", VRef 1%nat); (KStr "tags", VRef 2%nat)])
    as (_ & _ & _ & _ & _ & _ & _ & _ & _ & _ & Hgone & _).
  { split; [eexists; split; reflexivity |].
    split; [reflexivity |]. split; [vm_compute; lia | reflexivity]. }
  { reflexivity. }
  split; [exact (Hset (KStr "name") (VStr "Grace") eq_refl) |]. split.
  - apply (Hforeign (KStr "author") wrapped_author "User" (IdPrim (PNum 1)) 0%nat 0%nat
             [(KStr "id", VNum 1); (KStr "name", VStr "Ada")] (KStr "name") (VStr "Grace")).
    + reflexivity.
    + reflexivity.
    + vm_compute. apply list_elem_of_here.
    + split; [eexists; split; reflexivity |].
      split; [reflexivity |]. split; [vm_compute; lia | reflexivity].
    + discriminate.
    + reflexivity.
    + reflexivity.
  - destruct Hgone as [_ (s' & Huntrack & Hnone)].
    { vm_compute. apply NoDup_cons. split; [apply not_elem_of_nil | apply NoDup_nil_2]. }
    exists s'. split; [exact Huntrack |]. split; [reflexivity | exact Hnone].
Defined.

(** Claim C4 as stated fails for a nested path: [wrapped.tags[0] = 'z']
    replaces ['b'] by a different value, yet the path [tags.0] is not
    added to the changed fields; [tags] is.  (Writing ['b'] back over
    ['b'] adds [tags] as well: the nested handler does not compare.) *)
Lemma nested_write_of_new_value_counterexample :
  raw_read (heap (ChangeTracker.world tracked_profile)) 2%nat (KIdx 0) = Some (VStr "b") /\
  ChangeTracker.getChangedFields
    (snd (ChangeTracker.set_at wrapped_profile [KStr "tags"] (KIdx 0) (VStr "z")
            tracked_profile))
    "User" (IdPrim (PNum 1)) = ["tags"] /\
  ~ "tags.0" ∈
      ChangeTracker.getChangedFields
        (snd (ChangeTracker.set_at wrapped_profile [KStr "tags"] (KIdx 0) (VStr "z")
                tracked_profile))
        "User" (IdPrim (PNum 1)) /\
  ChangeTracker.getChangedFields
    (snd (ChangeTracker.set_at wrapped_profile [KStr "tags"] (KIdx 0) (VStr "b")
            tracked_profile))
    "User" (IdPrim (PNum 1)) = ["tags"].
Proof.
  assert (ChangeTracker.getChangedFields
            (snd (ChangeTracker.set_at wrapped_profile [KStr "tags"] (KIdx 0) (VStr "z")
                    tracked_profile))
            "User" (IdPrim (PNum 1)) = ["tags"]) as H by (vm_compute; reflexivity).
  split; [reflexivity |]. split; [exact H |]. split.
  - rewrite H. intros Hin. apply list_elem_of_singleton in Hin. discriminate Hin.
  - vm_compute. reflexivity.
Qed.
(* ------------------------------------------------------------------ *)
(** ** Unit of work: registering instances                             *)
(* ------------------------------------------------------------------ *)

Section RegistrationFacts.

Import UnitOfWork.

Lemma in_identityMap_eq {A} (c : M IdentityMap.t A) s r im' :
  c (identityMap s) = (r, im') -> in_identityMap c s = (r, with_identityMap im' s).
Proof. intros H. unfold in_identityMap. now rewrite H. Qed.

Lemma in_tracker_eq {A} (c : M ChangeTracker.State A) s r ts :
  c (tracker_state s) = (r, ts) -> in_tracker c s = (r, with_tracker_state ts s).
Proof. intros H. unfold in_tracker. now rewrite H. Qed.

Lemma with_identityMap_same s : with_identityMap (identityMap s) s = s.
Proof. now destruct s. Qed.

Lemma ensureActive_ok s : isActive s = true -> ensureActive s = (Ok tt, s).
Proof. intros H. unfold ensureActive, bind, gets. now rewrite H. Qed.

Lemma ensureActive_inv s r s' :
  ensureActive s = (Ok r, s') -> isActive s = true /\ s' = s.
Proof.
  unfold ensureActive, bind, gets. destruct (isActive s); [| discriminate].
  now intros [= <- <-].
Qed.

Lemma identity_ok_new opts w : identity_ok (new opts w).
Proof. split; [apply wf_new | reflexivity]. Qed.

Lemma non_null_key entity_ id :
  ~ IdentityMap.null_id id -> exists ck, IdentityMap.createCompositeKey entity_ id = Ok ck.
Proof. apply createCompositeKey_non_null. Qed.

(** A registered instance sits under a key object of the registry. *)
Lemma registered_entry_key s entity_ id r :
  registered_instance s entity_ id = Some r -> exists k, entry_key s entity_ id = Some k.
Proof.
  unfold registered_instance, entry_key, IdentityMap.key_object,
    IdentityMap.lookup_instance.
  destruct (IdentityMap.createCompositeKey entity_ id) as [ck |]; [| discriminate].
  destruct (IdentityMap.maps (identityMap s) !! entity_); [| discriminate].
  destruct (IdentityMap.keyRegistry (identityMap s) !! ck) as [k |]; [eauto | discriminate].
Qed.

(** *** Garbage collections *)

Lemma after_collection_ok ks s : identity_ok s -> identity_ok (after_collection ks s).
Proof.
  intros [Hwf Hweak]. split; [now apply collect_garbage_wf | exact Hweak].
Qed.

(** A collection loses the instances whose key objects it reclaims and
    no other. *)
Lemma after_collection_registered ks s entity_ id k :
  identity_ok s ->
  entry_key s entity_ id = Some k ->
  registered_instance (after_collection ks s) entity_ id
  = if bool_decide (k ∈ ks) then None else registered_instance s entity_ id.
Proof.
  intros [Hwf _]. unfold entry_key, IdentityMap.key_object, registered_instance.
  destruct (IdentityMap.createCompositeKey entity_ id) as [ck |]; [| discriminate].
  intros Hk. exact (collect_garbage_lookup ks (identityMap s) entity_ ck k Hwf Hk).
Qed.

(** *** [get] without data *)

(** [get] without data reads the identity map, dropping the dead
    reference it meets. *)
Lemma get_lookup s entity_ id ck :
  isActive s = true ->
  IdentityMap.createCompositeKey entity_ id = Ok ck ->
  get entity_ id None s
  = (Ok (IdentityMap.lookup_instance (identityMap s) entity_ ck),
     with_identityMap (IdentityMap.swept (identityMap s) entity_ ck) s).
Proof.
  intros Hact Hck. unfold get.
  rewrite (bind_ok _ _ _ _ _ (ensureActive_ok s Hact)).
  rewrite (bind_ok _ _ _ _ _
             (in_identityMap_eq _ _ _ _ (get_eq entity_ id (identityMap s) ck Hck))).
  destruct (IdentityMap.lookup_instance (identityMap s) entity_ ck); reflexivity.
Qed.

(** What a later [get] returns is the registered instance. *)
Lemma get_registered s entity_ id r :
  isActive s = true ->
  registered_instance s entity_ id = Some r ->
  get entity_ id None s = (Ok (Some r), s).
Proof.
  intros Hact. unfold registered_instance.
  destruct (IdentityMap.createCompositeKey entity_ id) as [ck |] eqn:Hck;
    [| discriminate].
  intros Hreg. rewrite (get_lookup s entity_ id ck Hact Hck), Hreg.
  now rewrite (swept_found _ _ _ _ Hreg), with_identityMap_same.
Qed.

(** [get] of a key that has one never fails. *)
Lemma get_answer s entity_ id :
  isActive s = true ->
  ~ IdentityMap.null_id id ->
  fst (get entity_ id None s) = Ok (registered_instance s entity_ id).
Proof.
  intros Hact Hnn. destruct (non_null_key entity_ id Hnn) as (ck & Hck).
  unfold registered_instance. now rewrite (get_lookup s entity_ id ck Hact Hck), Hck.
Qed.

(** *** [create] *)

(** [create] with a payload whose key is already registered returns the
    registered instance and changes nothing. *)
Lemma create_existing s entity_ metadata data id existing :
  isActive s = true ->
  entityMetadata s !! entity_ = Some metadata ->
  extractId data metadata s = (Ok id, s) ->
  registered_instance s entity_ id = Some existing ->
  create entity_ data s = (Ok existing, s).
Proof.
  intros Hact Hmeta Hid. unfold registered_instance.
  destruct (IdentityMap.createCompositeKey entity_ id) as [ck |] eqn:Hck;
    [| discriminate].
  intros Hreg. unfold create.
  rewrite (bind_ok _ _ _ _ _ (ensureActive_ok s Hact)).
  unfold bind at 1, gets at 1. rewrite Hmeta.
  rewrite (bind_ok _ _ _ _ _ Hid).
  rewrite (bind_ok _ _ _ _ _
             (in_identityMap_eq _ _ _ _ (get_eq entity_ id (identityMap s) ck Hck))).
  rewrite Hreg, (swept_found _ _ _ _ Hreg). unfold ret. now rewrite with_identityMap_same.
Qed.

(** [create] with a payload whose key is not registered: the payload
    is registered; with change tracking, the wrapped instance takes its
    place, the one the tracker already has for the key if there is
    one. *)
Lemma create_unregistered s entity_ metadata data id :
  identity_ok s ->
  isActive s = true ->
  entityMetadata s !! entity_ = Some metadata ->
  extractId data metadata s = (Ok id, s) ->
  ~ IdentityMap.null_id id ->
  registered_instance s entity_ id = None ->
  exists p s1,
    create entity_ data s = (Ok p, s1) /\
    registered_instance s1 entity_ id = Some p /\
    identity_ok s1 /\
    isActive s1 = true /\
    entityMetadata s1 = entityMetadata s /\
    options s1 = options s /\
    if enableChangeTracking (options s)
    then match JsMap.get (ChangeTracker.trackedEntities (changeTracker s))
                 (ChangeTracker.createKey entity_ id) with
         | Some existing => p = ChangeTracker.te_proxy existing
         | None =>
             heap (world s1) !! p
             = Some (Proxy data (RootHandler (length (sets (world s))) entity_ id)) /\
             tracked_as s1 entity_ id p
         end
    else p = data.
Proof.
  intros [Hwf Hweak] Hact Hmeta Hid Hnn.
  destruct (non_null_key entity_ id Hnn) as (ck & Hck).
  unfold registered_instance. rewrite Hck. intros Hfree.
  unfold create.
  rewrite (bind_ok _ _ _ _ _ (ensureActive_ok s Hact)).
  unfold bind at 1, gets at 1. rewrite Hmeta.
  rewrite (bind_ok _ _ _ _ _ Hid).
  rewrite (bind_ok _ _ _ _ _
             (in_identityMap_eq _ _ _ _ (get_eq entity_ id (identityMap s) ck Hck))).
  rewrite Hfree.
  set (im0 := IdentityMap.swept (identityMap s) entity_ ck).
  assert (Hwf0 : IdentityMap.wf im0) by now apply swept_wf.
  assert (Hfree0 : IdentityMap.lookup_instance im0 entity_ ck = None)
    by (unfold im0; now rewrite swept_lookup).
  assert (Hweak0 : IdentityMap.enableWeakRefs im0 = true).
  { unfold im0. destruct (swept_fields (identityMap s) entity_ ck) as (_ & -> & _).
    exact Hweak. }
  destruct (set_fresh entity_ id data im0 ck Hwf0 Hck Hfree0)
    as (im1 & Hset1 & Hwf1 & Hweak1 & Hlook1).
  rewrite (bind_ok _ _ _ _ _ (in_identityMap_eq _ (with_identityMap im0 s) _ _ Hset1)).
  unfold bind at 1, gets at 1. cbn [options with_identityMap].
  destruct (enableChangeTracking (options s)).
  - destruct (delete_spec entity_ id im1 ck Hwf1 Hck)
      as (b & im2 & Hdel & Hwf2 & Hweak2 & Hlook2).
    destruct (JsMap.get (ChangeTracker.trackedEntities (changeTracker s))
                (ChangeTracker.createKey entity_ id)) as [existing |] eqn:Htracked.
    + pose proof (track_existing entity_ id data true
                    (tracker_state (with_identityMap im1 (with_identityMap im0 s)))
                    existing Htracked) as Htrack.
      rewrite (bind_ok _ _ _ _ _ (in_tracker_eq _ _ _ _ Htrack)).
      rewrite (bind_ok _ _ _ _ _ (in_identityMap_eq _
                 (with_tracker_state _ (with_identityMap im1 (with_identityMap im0 s)))
                 _ _ Hdel)).
      destruct (set_fresh entity_ id (ChangeTracker.te_proxy existing) im2 ck Hwf2 Hck Hlook2)
        as (im3 & Hset3 & Hwf3 & Hweak3 & Hlook3).
      rewrite (bind_ok _ _ _ _ _ (in_identityMap_eq _
                 (with_identityMap im2
                    (with_tracker_state _ (with_identityMap im1 (with_identityMap im0 s))))
                 _ _ Hset3)).
      eexists _, _. split; [reflexivity |].
      cbn [identityMap with_identityMap with_tracker_state isActive entityMetadata options].
      split; [apply Hlook3; congruence |].
      split; [split; [exact Hwf3 | cbn [identityMap with_identityMap]; congruence] |].
      split; [exact Hact |]. split; [reflexivity |]. split; reflexivity.
    + destruct (track_fresh entity_ id data true
                  (tracker_state (with_identityMap im1 (with_identityMap im0 s))))
        as (p & ts & original & Htrack & Hpres & Hnew & Hcell & _ & Htrackeds & _);
        [exact Htracked |].
      rewrite (bind_ok _ _ _ _ _ (in_tracker_eq _ _ _ _ Htrack)).
      rewrite (bind_ok _ _ _ _ _ (in_identityMap_eq _
                 (with_tracker_state ts (with_identityMap im1 (with_identityMap im0 s)))
                 _ _ Hdel)).
      destruct (set_fresh entity_ id p im2 ck Hwf2 Hck Hlook2)
        as (im3 & Hset3 & Hwf3 & Hweak3 & Hlook3).
      rewrite (bind_ok _ _ _ _ _ (in_identityMap_eq _
                 (with_identityMap im2
                    (with_tracker_state ts (with_identityMap im1 (with_identityMap im0 s))))
                 _ _ Hset3)).
      eexists _, _. split; [reflexivity |].
      cbn [identityMap with_identityMap with_tracker_state isActive entityMetadata options
           tracker_state ChangeTracker.world ChangeTracker.tracker world changeTracker] in *.
      split; [apply Hlook3; congruence |].
      split; [split; [exact Hwf3 | cbn [identityMap with_identityMap]; congruence] |].
      split; [exact Hact |]. split; [reflexivity |]. split; [reflexivity |].
      split; [exact Hcell |].
      unfold tracked_as. cbn [changeTracker with_identityMap with_tracker_state].
      eexists. split; [rewrite Htrackeds; apply JsMap_get_set_eq | reflexivity].
  - eexists _, _. split; [reflexivity |].
    cbn [identityMap with_identityMap with_tracker_state isActive entityMetadata options].
    split; [now apply Hlook1 |].
    split; [split; [exact Hwf1 | cbn [identityMap with_identityMap]; congruence] |].
    split; [exact Hact |]. split; [reflexivity |]. split; reflexivity.
Qed.

(** After a successful [create], the returned instance is the one
    registered under the payload's key. *)
Lemma create_registers s entity_ metadata data id r s1 :
  identity_ok s ->
  entityMetadata s !! entity_ = Some metadata ->
  extractId data metadata s = (Ok id, s) ->
  create entity_ data s = (Ok r, s1) ->
  registered_instance s1 entity_ id = Some r /\
  identity_ok s1 /\
  isActive s1 = true /\
  entityMetadata s1 = entityMetadata s /\
  options s1 = options s.
Proof.
  intros Hok Hmeta Hid Hrun.
  assert (Hact : isActive s = true).
  { revert Hrun. unfold create. unfold bind at 1.
    destruct (ensureActive s) as [[[] | e] s0] eqn:Hens; [| discriminate].
    now apply ensureActive_inv in Hens as [Hact _]. }
  destruct (registered_instance s entity_ id) as [existing |] eqn:Hreg.
  - rewrite (create_existing s entity_ metadata data id existing Hact Hmeta Hid Hreg) in Hrun.
    injection Hrun as <- <-. auto.
  - assert (Hnn : ~ IdentityMap.null_id id).
    { intros Hnull. revert Hrun. unfold create.
      rewrite (bind_ok _ _ _ _ _ (ensureActive_ok s Hact)).
      unfold bind at 1, gets at 1. rewrite Hmeta.
      rewrite (bind_ok _ _ _ _ _ Hid).
      unfold bind at 1, in_identityMap at 1.
      destruct (IdentityMap.maps (identityMap s) !! entity_) as [m |] eqn:Hm.
      - now rewrite (get_null_id_known_kind _ _ _ _ Hnull Hm).
      - rewrite (get_unknown_kind _ _ _ Hm).
        unfold bind at 1, in_identityMap at 1. cbn [identityMap with_identityMap].
        destruct (set_null_id entity_ id data (identityMap s) Hnull) as (im' & ->).
        discriminate. }
    destruct (create_unregistered s entity_ metadata data id Hok Hact Hmeta Hid Hnn Hreg)
      as (p & s2 & Hrun2 & Hreg2 & Hok2 & Hact2 & Hmeta2 & Hopts2 & _).
    rewrite Hrun2 in Hrun. injection Hrun as <- <-. auto.
Qed.

(** Property X18.  Two [create] calls whose payloads carry the same
    key.  With nothing in between, the second returns the instance the
    first returned and leaves the unit of work as it was; so it does
    after a garbage collection that spares the key object of the entry.
    After one that reclaims it, the identity map has lost the entry:
    for a key that was free before the first call, the second call
    returns the first instance again when change tracking is enabled,
    as the tracker still holds its wrapped instance, and it returns the
    second payload when change tracking is disabled. *)
Lemma create_twice_same_instance s entity_ metadata data1 data2 id r s1 :
  identity_ok s ->
  entityMetadata s !! entity_ = Some metadata ->
  extractId data1 metadata s = (Ok id, s) ->
  create entity_ data1 s = (Ok r, s1) ->
  (extractId data2 metadata s1 = (Ok id, s1) ->
   create entity_ data2 s1 = (Ok r, s1)) /\
  exists k,
    entry_key s1 entity_ id = Some k /\
    forall ks,
      extractId data2 metadata (after_collection ks s1)
      = (Ok id, after_collection ks s1) ->
      (k ∉ ks ->
       create entity_ data2 (after_collection ks s1) = (Ok r, after_collection ks s1)) /\
      (k ∈ ks ->
       free_key s entity_ id ->
       fst (create entity_ data2 (after_collection ks s1))
       = Ok (if enableChangeTracking (options s) then r else data2)).
Proof.
  intros Hok Hmeta Hid1 Hcreate.
  destruct (create_registers _ _ _ _ _ _ _ Hok Hmeta Hid1 Hcreate)
    as (Hreg & Hok1 & Hact1 & Hmeta1 & Hopts1).
  split.
  { intros Hid2. eapply create_existing; try eassumption. now rewrite Hmeta1. }
  destruct (registered_entry_key _ _ _ _ Hreg) as (k & Hk).
  exists k. split; [exact Hk |]. intros ks Hid2.
  pose proof (after_collection_registered ks s1 entity_ id k Hok1 Hk) as Hreg2.
  split.
  - intros Hspared. rewrite bool_decide_eq_false_2 in Hreg2 by exact Hspared.
    rewrite Hreg in Hreg2.
    apply (create_existing _ entity_ metadata data2 id r);
      [exact Hact1
      | change (entityMetadata s1 !! entity_ = Some metadata); now rewrite Hmeta1
      | exact Hid2 | exact Hreg2].
  - intros Hgone (Hnn & Hfree & Huntracked).
    rewrite bool_decide_eq_true_2 in Hreg2 by exact Hgone.
    assert (Hact : isActive s = true).
    { revert Hcreate. unfold create. unfold bind at 1.
      destruct (ensureActive s) as [[[] | e] s0] eqn:Hens; [| discriminate].
      now apply ensureActive_inv in Hens as [Hact _]. }
    destruct (create_unregistered s entity_ metadata data1 id Hok Hact Hmeta Hid1 Hnn Hfree)
      as (p & s1' & Hrun & _ & _ & _ & _ & _ & Hfirst).
    rewrite Hrun in Hcreate. injection Hcreate as -> ->.
    destruct (create_unregistered (after_collection ks s1) entity_ metadata data2 id
                (after_collection_ok ks s1 Hok1) Hact1)
      as (q & s3 & Hrun2 & _ & _ & _ & _ & _ & Hsecond);
      [change (entityMetadata s1 !! entity_ = Some metadata); now rewrite Hmeta1
      | exact Hid2 | exact Hnn | exact Hreg2 |].
    rewrite Hrun2. cbn [fst]. f_equal.
    change (options (after_collection ks s1)) with (options s1) in Hsecond.
    change (changeTracker (after_collection ks s1)) with (changeTracker s1) in Hsecond.
    rewrite Hopts1 in Hsecond.
    destruct (enableChangeTracking (options s)); [| exact Hsecond].
    rewrite Huntracked in Hfirst. destruct Hfirst as (_ & tracked & Hget & Hproxy).
    rewrite Hget in Hsecond. congruence.
Qed.

(** *** [persist] and [get] with data *)

(** [persist] on a free key: the identity map keeps the raw instance,
    the caller gets the proxy. *)
Lemma persist_fresh s entity_ metadata instance id :
  identity_ok s ->
  isActive s = true ->
  enableChangeTracking (options s) = true ->
  entityMetadata s !! entity_ = Some metadata ->
  extractId instance metadata s = (Ok id, s) ->
  free_key s entity_ id ->
  (instance < length (heap (world s)))%nat ->
  exists p s1,
    persist entity_ instance s = (Ok p, s1) /\
    p <> instance /\
    heap (world s1) !! p
    = Some (Proxy instance (RootHandler (length (sets (world s))) entity_ id)) /\
    registered_instance s1 entity_ id = Some instance /\
    isActive s1 = true /\
    identity_ok s1.
Proof.
  intros [Hwf Hweak] Hact Htracking Hmeta Hid (Hnn & Hfree & Huntracked) Halloc.
  destruct (non_null_key entity_ id Hnn) as (ck & Hck).
  unfold registered_instance in *. rewrite Hck in *.
  unfold persist.
  rewrite (bind_ok _ _ _ _ _ (ensureActive_ok s Hact)).
  unfold bind at 1, gets at 1. rewrite Hmeta.
  rewrite (bind_ok _ _ _ _ _ Hid).
  destruct (set_fresh entity_ id instance (identityMap s) ck Hwf Hck Hfree)
    as (im1 & Hset1 & Hwf1 & Hweak1 & Hlook1).
  rewrite (bind_ok _ _ _ _ _ (in_identityMap_eq _ _ _ _ Hset1)).
  unfold bind at 1, gets at 1. cbn [options with_identityMap]. rewrite Htracking.
  destruct (track_fresh entity_ id instance true (tracker_state (with_identityMap im1 s)))
    as (p & ts & original & Htrack & Hpres & Hnew & Hcell & _); [exact Huntracked |].
  exists p. eexists. split; [exact (in_tracker_eq _ _ _ _ Htrack) |].
  cbn [tracker_state with_identityMap ChangeTracker.world world] in *.
  split; [lia |]. split; [exact Hcell |].
  cbn [identityMap with_tracker_state with_identityMap isActive].
  split; [now apply Hlook1 |]. split; [exact Hact |].
  split; [exact Hwf1 | cbn [identityMap with_tracker_state with_identityMap]; congruence].
Qed.

(** [persist] on a key that is registered and tracked with the
    registered instance as its wrapped instance, as [create] and [get]
    with data leave it: nothing is stored, and the caller gets the
    registered instance. *)
Lemma persist_registered s entity_ metadata instance id p :
  isActive s = true ->
  enableChangeTracking (options s) = true ->
  entityMetadata s !! entity_ = Some metadata ->
  extractId instance metadata s = (Ok id, s) ->
  registered_instance s entity_ id = Some p ->
  tracked_as s entity_ id p ->
  persist entity_ instance s = (Ok p, s).
Proof.
  intros Hact Htracking Hmeta Hid Hreg (tracked & Htracked & Hproxy).
  unfold registered_instance in Hreg.
  destruct (IdentityMap.createCompositeKey entity_ id) as [ck |] eqn:Hck;
    [| discriminate].
  unfold persist.
  rewrite (bind_ok _ _ _ _ _ (ensureActive_ok s Hact)).
  unfold bind at 1, gets at 1. rewrite Hmeta.
  rewrite (bind_ok _ _ _ _ _ Hid).
  rewrite (bind_ok _ _ _ _ _
             (in_identityMap_eq _ _ _ _
                (set_existing entity_ id instance (identityMap s) ck p Hck Hreg))).
  unfold bind at 1, gets at 1. cbn [options with_identityMap]. rewrite Htracking.
  rewrite (in_tracker_eq _ _ _ _
             (track_existing entity_ id p true
                (tracker_state (with_identityMap (identityMap s) s)) tracked Htracked)).
  rewrite Hproxy. now destruct s.
Qed.

(** [create] on a free key: the identity map holds the proxy the caller
    gets. *)
Lemma create_fresh s entity_ metadata data id :
  identity_ok s ->
  isActive s = true ->
  enableChangeTracking (options s) = true ->
  entityMetadata s !! entity_ = Some metadata ->
  extractId data metadata s = (Ok id, s) ->
  free_key s entity_ id ->
  exists p s1,
    create entity_ data s = (Ok p, s1) /\
    heap (world s1) !! p
    = Some (Proxy data (RootHandler (length (sets (world s))) entity_ id)) /\
    registered_instance s1 entity_ id = Some p /\
    isActive s1 = true /\
    tracked_as s1 entity_ id p.
Proof.
  intros Hok Hact Htracking Hmeta Hid (Hnn & Hfree & Huntracked).
  destruct (create_unregistered s entity_ metadata data id Hok Hact Hmeta Hid Hnn Hfree)
    as (p & s1 & Hrun & Hreg & _ & Hact1 & _ & _ & Hp).
  rewrite Htracking, Huntracked in Hp. destruct Hp as [Hcell Htracked].
  exists p, s1. auto.
Qed.

(** [get] with data on a free key: likewise. *)
Lemma get_data_fresh s entity_ data id :
  identity_ok s ->
  isActive s = true ->
  enableChangeTracking (options s) = true ->
  free_key s entity_ id ->
  exists p s1,
    get entity_ id (Some data) s = (Ok (Some p), s1) /\
    heap (world s1) !! p
    = Some (Proxy data (RootHandler (length (sets (world s))) entity_ id)) /\
    registered_instance s1 entity_ id = Some p /\
    isActive s1 = true.
Proof.
  intros [Hwf Hweak] Hact Htracking (Hnn & Hfree & Huntracked).
  destruct (non_null_key entity_ id Hnn) as (ck & Hck).
  unfold registered_instance in *. rewrite Hck in *.
  unfold get.
  rewrite (bind_ok _ _ _ _ _ (ensureActive_ok s Hact)).
  rewrite (bind_ok _ _ _ _ _
             (in_identityMap_eq _ _ _ _ (get_eq entity_ id (identityMap s) ck Hck))).
  rewrite Hfree.
  set (im0 := IdentityMap.swept (identityMap s) entity_ ck).
  assert (Hwf0 : IdentityMap.wf im0) by now apply swept_wf.
  assert (Hfree0 : IdentityMap.lookup_instance im0 entity_ ck = None)
    by (unfold im0; now rewrite swept_lookup).
  assert (Hweak0 : IdentityMap.enableWeakRefs im0 = true).
  { unfold im0. destruct (swept_fields (identityMap s) entity_ ck) as (_ & -> & _).
    exact Hweak. }
  destruct (set_fresh entity_ id data im0 ck Hwf0 Hck Hfree0)
    as (im1 & Hset1 & Hwf1 & Hweak1 & Hlook1).
  rewrite (bind_ok _ _ _ _ _ (in_identityMap_eq _ (with_identityMap im0 s) _ _ Hset1)).
  unfold bind at 1, gets at 1. cbn [options with_identityMap]. rewrite Htracking.
  destruct (track_fresh entity_ id data false
              (tracker_state (with_identityMap im1 (with_identityMap im0 s))))
    as (p & ts & original & Htrack & Hpres & Hnew & Hcell & _); [exact Huntracked |].
  rewrite (bind_ok _ _ _ _ _ (in_tracker_eq _ _ _ _ Htrack)).
  destruct (delete_spec entity_ id im1 ck Hwf1 Hck)
    as (b & im2 & Hdel & Hwf2 & Hweak2 & Hlook2).
  rewrite (bind_ok _ _ _ _ _ (in_identityMap_eq _
             (with_tracker_state ts (with_identityMap im1 (with_identityMap im0 s)))
             _ _ Hdel)).
  destruct (set_fresh entity_ id p im2 ck Hwf2 Hck Hlook2)
    as (im3 & Hset3 & Hwf3 & Hweak3 & Hlook3).
  rewrite (bind_ok _ _ _ _ _ (in_identityMap_eq _
             (with_identityMap im2
                (with_tracker_state ts (with_identityMap im1 (with_identityMap im0 s))))
             _ _ Hset3)).
  exists p. eexists. split; [reflexivity |].
  cbn [tracker_state with_identityMap with_tracker_state ChangeTracker.world world
       identityMap isActive] in *.
  split; [exact Hcell |]. split; [apply Hlook3; congruence | exact Hact].
Qed.

(** Claim C10.  With change tracking enabled, what [persist] leaves in
    the identity map depends on the key.  On a key that is neither
    registered nor tracked it leaves the raw instance there and returns
    the tracker's proxy of it: a later [get] of the same kind and id
    returns the raw instance, a reference other than the one [persist]
    returned, for as long as the garbage collector spares the key
    object of the entry, and it returns nothing once the collector has
    reclaimed it.  [create] and [get] with data, from the same state,
    return the proxy and leave that same proxy to be returned by a
    later [get].  On a key that is registered and tracked with the
    registered instance as its wrapped instance, as [create] leaves it,
    [persist] stores nothing and returns the registered instance, the
    one a later [get] returns too. *)
Theorem persist_keeps_raw_instance s entity_ metadata instance id :
  identity_ok s ->
  isActive s = true ->
  enableChangeTracking (options s) = true ->
  entityMetadata s !! entity_ = Some metadata ->
  extractId instance metadata s = (Ok id, s) ->
  (instance < length (heap (world s)))%nat ->
  (free_key s entity_ id ->
   (exists p s1 k,
      persist entity_ instance s = (Ok p, s1) /\
      heap (world s1) !! p
      = Some (Proxy instance (RootHandler (length (sets (world s))) entity_ id)) /\
      get entity_ id None s1 = (Ok (Some instance), s1) /\
      p <> instance /\
      entry_key s1 entity_ id = Some k /\
      forall ks,
        fst (get entity_ id None (after_collection ks s1))
        = Ok (if bool_decide (k ∈ ks) then None else Some instance)) /\
   (exists p s1,
      create entity_ instance s = (Ok p, s1) /\
      heap (world s1) !! p
      = Some (Proxy instance (RootHandler (length (sets (world s))) entity_ id)) /\
      get entity_ id None s1 = (Ok (Some p), s1)) /\
   (exists p s1,
      get entity_ id (Some instance) s = (Ok (Some p), s1) /\
      heap (world s1) !! p
      = Some (Proxy instance (RootHandler (length (sets (world s))) entity_ id)) /\
      get entity_ id None s1 = (Ok (Some p), s1))) /\
  (forall p,
     registered_instance s entity_ id = Some p ->
     tracked_as s entity_ id p ->
     persist entity_ instance s = (Ok p, s) /\
     get entity_ id None s = (Ok (Some p), s)).
Proof.
  intros Hok Hact Htrack Hmeta Hid Hinst. split.
  - intros Hfree. split; [| split].
    + destruct (persist_fresh s entity_ metadata instance id Hok Hact Htrack Hmeta Hid
                  Hfree Hinst) as (p & s1 & Hrun & Hne & Hcell & Hreg & Hact1 & Hok1).
      destruct (registered_entry_key _ _ _ _ Hreg) as (k & Hk).
      exists p, s1, k. split; [exact Hrun |]. split; [exact Hcell |].
      split; [now apply get_registered |]. split; [exact Hne |].
      split; [exact Hk |]. intros ks.
      rewrite (get_answer (after_collection ks s1) entity_ id Hact1 (proj1 Hfree)).
      rewrite (after_collection_registered ks s1 entity_ id k Hok1 Hk), Hreg.
      now destruct (bool_decide (k ∈ ks)).
    + destruct (create_fresh s entity_ metadata instance id Hok Hact Htrack Hmeta Hid
                  Hfree) as (p & s1 & Hrun & Hcell & Hreg & Hact1 & _).
      exists p, s1. split; [exact Hrun |]. split; [exact Hcell |].
      now apply get_registered.
    + destruct (get_data_fresh s entity_ instance id Hok Hact Htrack Hfree)
        as (p & s1 & Hrun & Hcell & Hreg & Hact1).
      exists p, s1. split; [exact Hrun |]. split; [exact Hcell |].
      now apply get_registered.
  - intros p Hreg Htracked. split.
    + now apply (persist_registered s entity_ metadata instance id p).
    + now apply get_registered.
Qed.

End RegistrationFacts.

(** A fresh unit of work adopting user 1: [persist] returns a proxy, a
    later [get] the object itself, and nothing once the key object of
    the entry has been reclaimed. *)
Lemma persist_keeps_raw_instance_witness :
  exists p s1,
    UnitOfWork.persist "User" 0%nat (unit_of_work_over [user_object 1 "Ada" "ada@example.com"])
    = (Ok p, s1) /\
    UnitOfWork.get "User" (IdPrim (PNum 1)) None s1 = (Ok (Some 0%nat), s1) /\
    p <> 0%nat /\
    fst (UnitOfWork.get "User" (IdPrim (PNum 1)) None (after_collection {[0%nat]} s1))
    = Ok None.
Proof.
  destruct (persist_keeps_raw_instance
              (unit_of_work_over [user_object 1 "Ada" "ada@example.com"])
              "User" user_metadata 0%nat (IdPrim (PNum 1)))
    as [Hfree _].
  - split; [apply wf_new | reflexivity].
  - reflexivity.
  - reflexivity.
  - reflexivity.
  - reflexivity.
  - cbn. lia.
  - destruct Hfree as [(p & s1 & k & Hrun & _ & Hget & Hne & Hk & Hlost) _].
    { split; [| split; reflexivity]. intros [H | H]; discriminate H. }
    exists p, s1. split; [exact Hrun |]. split; [exact Hget |]. split; [exact Hne |].
    assert (k = 0%nat) as ->.
    { vm_compute in Hrun. injection Hrun as _ <-. vm_compute in Hk. congruence. }
    exact (Hlost {[0%nat]}).
Defined.

(** Claim C10 as stated fails for an entity that is already managed.
    After [create] of user 1, [persist] of a payload with the same id
    returns the wrapped instance that [create] returned, and a later
    [get] returns that same reference: not the payload, and not a
    reference other than the one [persist] returned. *)
Lemma persist_after_create_counterexample :
  exists p s1,
    UnitOfWork.create "User" 0%nat (unit_of_work_over same_id_users) = (Ok p, s1) /\
    UnitOfWork.persist "User" 1%nat s1 = (Ok p, s1) /\
    UnitOfWork.get "User" (IdPrim (PNum 1)) None s1 = (Ok (Some p), s1) /\
    p <> 1%nat.
Proof.
  eexists _, _. split; [vm_compute; reflexivity |].
  split; [vm_compute; reflexivity |]. split; [vm_compute; reflexivity | discriminate].
Qed.

(** Two payloads with id 1.  The second [create] returns what the first
    returned, and changes nothing; so it does after a collection that
    reclaims the key object of the entry, as change tracking is on. *)
Lemma create_twice_same_instance_witness :
  exists r s1,
    UnitOfWork.create "User" 0%nat (unit_of_work_over same_id_users) = (Ok r, s1) /\
    UnitOfWork.create "User" 1%nat s1 = (Ok r, s1) /\
    entry_key s1 "User" (IdPrim (PNum 1)) = Some 1%nat /\
    fst (UnitOfWork.create "User" 1%nat (after_collection {[1%nat]} s1)) = Ok r.
Proof.
  destruct (UnitOfWork.create "User" 0%nat (unit_of_work_over same_id_users))
    as [r s1] eqn:Hrun.
  assert (exists p, r = Ok p) as [p ->] by (vm_compute in Hrun; injection Hrun as <- _; eauto).
  exists p, s1. split; [reflexivity |].
  destruct (create_twice_same_instance (unit_of_work_over same_id_users) "User" user_metadata
              0%nat 1%nat (IdPrim (PNum 1)) p s1)
    as (Hagain & k & Hk & Hlater).
  - split; [apply wf_new | reflexivity].
  - reflexivity.
  - vm_compute. reflexivity.
  - exact Hrun.
  - assert (Hs1 : s1 = snd (UnitOfWork.create "User" 0%nat (unit_of_work_over same_id_users)))
      by now rewrite Hrun.
    split; [apply Hagain; rewrite Hs1; vm_compute; reflexivity |].
    assert (k = 1%nat) as -> by (rewrite Hs1 in Hk; vm_compute in Hk; congruence).
    split; [exact Hk |].
    destruct (Hlater {[1%nat]}) as [_ Hlost].
    { rewrite Hs1. vm_compute. reflexivity. }
    apply Hlost.
    + now apply elem_of_singleton.
    + split; [| split; reflexivity]. intros [H | H]; discriminate H.
Defined.
(* ------------------------------------------------------------------ *)
(** ** Unit of work: commit                                            *)
(* ------------------------------------------------------------------ *)

Section CommitFacts.

Import UnitOfWork.

Lemma same_entities_refl s : same_entities s s.
Proof. repeat (split; [reflexivity |]). reflexivity. Qed.

Lemma same_entities_trans s1 s2 s3 :
  same_entities s1 s2 -> same_entities s2 s3 -> same_entities s1 s3.
Proof.
  intros (A1 & B1 & C1 & D1 & E1 & F1 & G1 & H1 & I1)
         (A2 & B2 & C2 & D2 & E2 & F2 & G2 & H2 & I2).
  repeat (split; [congruence |]). now transitivity (heap (world s2)).
Qed.

Lemma accepted_app conn base a b :
  accepted conn base (a ++ b) <-> accepted conn base a /\ accepted conn (base ++ a) b.
Proof.
  revert base. induction a as [| st a IH]; intros base; cbn [accepted app].
  - rewrite app_nil_r. tauto.
  - rewrite IH, <- app_assoc. cbn [app]. tauto.
Qed.

Lemma accepted_at conn base pre st post :
  accepted conn base (pre ++ st :: post) -> conn (base ++ pre) st = None.
Proof. rewrite accepted_app. cbn [accepted]. tauto. Qed.

Lemma sends_silent {A} conn s (r : result A) s' :
  same_entities s s' -> issued s' = issued s -> sends conn s [] r s'.
Proof.
  intros Hsame Hiss. split; [exact Hsame |]. split; [now rewrite app_nil_r |].
  destruct r; cbn; auto.
Qed.

Lemma sends_seq {A B} conn s sent1 (a : A) s1 sent2 (r : result B) s2 :
  sends conn s sent1 (Ok a) s1 -> sends conn s1 sent2 r s2 ->
  sends conn s (sent1 ++ sent2) r s2.
Proof.
  intros (Hsame1 & Hiss1 & Hv1) (Hsame2 & Hiss2 & Hv2).
  split; [eapply same_entities_trans; eassumption |].
  split; [now rewrite Hiss2, Hiss1, app_assoc |].
  cbn in Hv1. rewrite Hiss1 in Hv2. destruct r as [b | e]; cbn in *.
  - apply accepted_app. now split.
  - destruct Hv2 as [Hacc | (pre & st & -> & Hacc & Hrej)].
    + left. apply accepted_app. now split.
    + right. exists (sent1 ++ pre), st. split; [now rewrite app_assoc |].
      split; [apply accepted_app; now split | now rewrite app_assoc].
Qed.

Lemma sends_then_throw {A B} conn s sent (a : A) e s' :
  sends conn s sent (Ok a) s' -> sends conn s sent (Throw e : result B) s'.
Proof. intros (H1 & H2 & H3). split; [exact H1 |]. split; [exact H2 | now left]. Qed.

Lemma query_sends conn st s r s' :
  query conn st s = (r, s') -> sends conn s [st] r s'.
Proof.
  unfold query. destruct (conn (issued s) st) as [e |] eqn:Hc; intros [= <- <-].
  - split; [repeat (split; [reflexivity |]); reflexivity |]. split; [reflexivity |].
    right. exists [], st. rewrite app_nil_r. now cbn.
  - split; [repeat (split; [reflexivity |]); reflexivity |]. split; [reflexivity |].
    now cbn.
Qed.

(** The tracker's reads touch nothing but the heap. *)
Lemma get_property_sends conn data prop s r s' :
  in_tracker (ChangeTracker.get_property data prop) s = (r, s') ->
  sends conn s [] r s'.
Proof.
  unfold in_tracker, ChangeTracker.get_property.
  destruct (ChangeTracker.js_get _ data prop (tracker_state s)) as [r0 ts] eqn:Hget.
  intros [= <- <-]. apply js_get_allocates in Hget. destruct Hget as (Ht & Hs & Hh).
  apply sends_silent; [| reflexivity].
  cbn in Ht, Hs, Hh. repeat (split; [first [reflexivity | assumption] |]). exact Hh.
Qed.

Lemma metadata_of_sends conn change s r s' :
  metadata_of change s = (r, s') ->
  sends conn s [] r s' /\ s' = s /\
  (forall md, r = Ok md -> entityMetadata s !! ChangeTracker.entity change = Some md).
Proof.
  unfold metadata_of, bind, gets.
  destruct (entityMetadata s !! ChangeTracker.entity change) as [md |];
    intros [= <- <-]; (split; [apply sends_silent; [apply same_entities_refl | reflexivity] |]);
    (split; [reflexivity |]); intros md' [= <-]; reflexivity.
Qed.

Lemma current_field_sends conn change prop s r s' :
  current_field change prop s = (r, s') -> sends conn s [] r s'.
Proof.
  unfold current_field. destruct (ChangeTracker.currentData change) as [data |].
  - apply get_property_sends.
  - intros [= <- <-]. apply sends_silent; [apply same_entities_refl | reflexivity].
Qed.

Lemma current_has_sends conn change prop s r s' :
  current_has change prop s = (r, s') -> sends conn s [] r s'.
Proof.
  unfold current_has. destruct (ChangeTracker.currentData change) as [data |];
    intros [= <- <-]; apply sends_silent; first [apply same_entities_refl | reflexivity].
Qed.

Lemma insert_parts_sends conn change cols : forall columns_ values placeholders n s r s',
  insert_parts change cols columns_ values placeholders n s = (r, s') ->
  sends conn s [] r s'.
Proof.
  induction cols as [| [prop column] rest IH]; intros columns_ values placeholders n s r s';
    cbn [insert_parts].
  - intros [= <- <-]. apply sends_silent; [apply same_entities_refl | reflexivity].
  - unfold bind at 1.
    destruct (current_has change prop s) as [[present | e] s1] eqn:Hhas;
      pose proof (current_has_sends conn _ _ _ _ _ Hhas) as H1;
      [| intros [= <- <-]; exact H1].
    destruct present.
    + unfold bind at 1.
      destruct (current_field change prop s1) as [[v | e] s2] eqn:Hfield;
        pose proof (current_field_sends conn _ _ _ _ _ Hfield) as H2.
      * intros Hrest. apply IH in Hrest.
        exact (sends_seq conn s [] _ s1 [] r s' H1 (sends_seq conn s1 [] _ s2 [] r s' H2 Hrest)).
      * intros [= <- <-]. exact (sends_seq conn s [] _ s1 [] _ s2 H1 H2).
    + intros Hrest. apply IH in Hrest.
      exact (sends_seq conn s [] _ s1 [] r s' H1 Hrest).
Qed.

Lemma update_parts_sends conn change cols fields : forall setClauses values n s r s',
  update_parts change cols fields setClauses values n s = (r, s') ->
  sends conn s [] r s'.
Proof.
  induction fields as [| field rest IH]; intros setClauses values n s r s';
    cbn [update_parts].
  - intros [= <- <-]. apply sends_silent; [apply same_entities_refl | reflexivity].
  - destruct (JsMap.get cols field) as [column |]; [| apply IH].
    destruct (String.eqb column EmptyString); [apply IH |].
    unfold bind at 1.
    destruct (current_field change field s) as [[v | e] s1] eqn:Hfield;
      pose proof (current_field_sends conn _ _ _ _ _ Hfield) as H1.
    + intros Hrest. apply IH in Hrest.
      exact (sends_seq conn s [] _ s1 [] r s' H1 Hrest).
    + intros [= <- <-]. exact H1.
Qed.

Lemma filter_all {A} (l : list A) : filter (fun _ => True) l = l.
Proof. induction l as [| x l IH]; [reflexivity |]. rewrite filter_cons_True by exact I. now f_equal. Qed.

(** [executeDelete] sends one [DELETE] on the table of the kind, unless
    the kind has no metadata or the id lacks a key field. *)
Lemma executeDelete_sends conn change s r s' :
  executeDelete conn change s = (r, s') ->
  exists sent, sends conn s sent r s' /\ Forall (fun st => is_delete st = true) sent /\
               (length sent <= 1)%nat /\
               (is_ok r ->
                Forall2 (sent_for (entityMetadata s) is_delete)
                  (filter (fun _ => True) [change]) sent).
Proof.
  unfold executeDelete. unfold bind at 1.
  destruct (metadata_of change s) as [[md | e] s1] eqn:Hmd;
    destruct (metadata_of_sends conn _ _ _ _ Hmd) as (H1 & -> & Hreg).
  - destruct (buildWhereClause (ChangeTracker.id change) md [] 1)
      as [[whereClause values] | e].
    + intros Hq. apply query_sends in Hq. eexists. split; [exact Hq |].
      split; [now repeat constructor |]. cbn [length]. split; [lia |].
      intros _. rewrite filter_all. repeat constructor. exists md. split; [now apply Hreg | reflexivity].
    + intros [= <- <-]. exists [].
      split; [apply sends_silent; [apply same_entities_refl | reflexivity] |].
      split; [constructor |]. cbn. split; [lia | tauto].
  - intros [= <- <-]. exists []. split; [exact H1 |]. split; [constructor |].
    cbn. split; [lia | tauto].
Qed.

(** [executeCreate] sends one [INSERT] on the table of the kind, unless
    it fails before. *)
Lemma executeCreate_sends conn change s r s' :
  executeCreate conn change s = (r, s') ->
  exists sent, sends conn s sent r s' /\ Forall (fun st => is_insert st = true) sent /\
               (length sent <= 1)%nat /\
               (is_ok r ->
                Forall2 (sent_for (entityMetadata s) is_insert)
                  (filter (fun _ => True) [change]) sent).
Proof.
  unfold executeCreate. unfold bind at 1.
  destruct (metadata_of change s) as [[md | e] s1] eqn:Hmd;
    destruct (metadata_of_sends conn _ _ _ _ Hmd) as (H1 & -> & Hreg).
  - unfold bind at 1.
    destruct (insert_parts change (columns md) [] [] [] 1 s) as [[parts | e] s2] eqn:Hparts;
      pose proof (insert_parts_sends conn _ _ _ _ _ _ _ _ _ Hparts) as H2.
    + destruct parts as [[columns_ values] placeholders].
      intros Hq. apply query_sends in Hq. eexists. split.
      * exact (sends_seq conn s [] _ s2 _ r s' H2 Hq).
      * split; [now repeat constructor |]. cbn [app length]. split; [lia |].
        intros _. rewrite filter_all. repeat constructor.
        exists md. split; [now apply Hreg | reflexivity].
    + intros [= <- <-]. exists []. split; [exact H2 |]. split; [constructor |].
      cbn. split; [lia | tauto].
  - intros [= <- <-]. exists []. split; [exact H1 |]. split; [constructor |].
    cbn. split; [lia | tauto].
Qed.

(** The [SET] clauses that [executeUpdate] builds: one for each changed
    field that has a column, whatever the values are. *)
Lemma update_parts_clauses change cols fields : forall setClauses values n s parts s',
  update_parts change cols fields setClauses values n s = (Ok parts, s') ->
  fst (fst parts) = setClauses ++ set_clauses n (mapped_fields cols fields).
Proof.
  induction fields as [| field rest IH]; intros setClauses values n s parts s';
    cbn [update_parts mapped_fields flat_map].
  - intros [= <- <-]. cbn. now rewrite app_nil_r.
  - fold (mapped_fields cols rest).
    destruct (JsMap.get cols field) as [column |]; [| apply IH].
    destruct (String.eqb column EmptyString); [apply IH |].
    unfold bind at 1.
    destruct (current_field change field s) as [[v | e] s1]; [| discriminate].
    intros Hrest. rewrite (IH _ _ _ _ _ _ Hrest).
    cbn [app length]. unfold set_clauses. cbn [length seq zip_with snd].
    now rewrite <- app_assoc.
Qed.

Lemma set_clauses_nil start fields : set_clauses start fields = [] -> fields = [].
Proof. destruct fields; [reflexivity | discriminate]. Qed.

(** [executeUpdate] sends one [UPDATE] on the table of the kind when a
    changed field has a column, and nothing otherwise. *)
Lemma executeUpdate_sends conn change s r s' :
  executeUpdate conn change s = (r, s') ->
  exists sent, sends conn s sent r s' /\ Forall (fun st => is_update st = true) sent /\
               (length sent <= 1)%nat /\
               (is_ok r ->
                Forall2 (sent_for (entityMetadata s) is_update)
                  (filter (sends_update (entityMetadata s)) [change]) sent).
Proof.
  unfold executeUpdate. unfold bind at 1.
  destruct (metadata_of change s) as [[md | e] s1] eqn:Hmd;
    destruct (metadata_of_sends conn _ _ _ _ Hmd) as (H1 & -> & Hreg).
  - specialize (Hreg md eq_refl). unfold bind at 1.
    destruct (update_parts change (columns md) _ [] [] 1 s) as [[parts | e] s2] eqn:Hparts;
      pose proof (update_parts_sends conn _ _ _ _ _ _ _ _ _ Hparts) as H2.
    + pose proof (update_parts_clauses _ _ _ _ _ _ _ _ _ Hparts) as Hclauses.
      destruct parts as [[setClauses values] paramIndex]. cbn [fst app] in Hclauses.
      destruct setClauses as [| clause setClauses].
      { intros [= <- <-]. exists []. split; [exact H2 |]. split; [constructor |].
        cbn [length]. split; [lia |]. intros _.
        rewrite filter_cons_False; [constructor |].
        intros (md' & Hmd' & Hmapped). rewrite Hreg in Hmd'. injection Hmd' as <-.
        apply Hmapped. symmetry in Hclauses. now apply set_clauses_nil in Hclauses. }
      destruct (buildWhereClause (ChangeTracker.id change) md values paramIndex)
        as [[whereClause values'] | e].
      * intros Hq. apply query_sends in Hq. eexists. split.
        -- exact (sends_seq conn s [] _ s2 _ r s' H2 Hq).
        -- split; [now repeat constructor |]. cbn [app length]. split; [lia |].
           intros _. rewrite filter_cons_True.
           ++ repeat constructor. exists md. split; [exact Hreg | reflexivity].
           ++ exists md. split; [exact Hreg |]. intros Hnone.
              rewrite Hnone in Hclauses. discriminate Hclauses.
      * intros [= <- <-]. exists [].
        split; [exact (sends_then_throw conn _ _ _ _ _ H2) |]. split; [constructor |].
        cbn. split; [lia | tauto].
    + intros [= <- <-]. exists []. split; [exact H2 |]. split; [constructor |].
      cbn. split; [lia | tauto].
  - intros [= <- <-]. exists []. split; [exact H1 |]. split; [constructor |].
    cbn. split; [lia | tauto].
Qed.

(** A loop whose body sends at most one statement of a kind, and on
    success the statement of each selected element. *)
Lemma for_each_sends {A} conn (P : statement -> Prop)
    (R : gmap string EntityMetadata -> A -> statement -> Prop)
    (sel : gmap string EntityMetadata -> A -> Prop)
    `{!forall mds x, Decision (sel mds x)}
    (body : A -> M State unit) :
  (forall x s r s', body x s = (r, s') ->
     exists sent, sends conn s sent r s' /\ Forall P sent /\
                  (length sent <= 1)%nat /\
                  (is_ok r ->
                   Forall2 (R (entityMetadata s)) (filter (sel (entityMetadata s)) [x])
                     sent)) ->
  forall xs s r s', for_each xs body s = (r, s') ->
     exists sent, sends conn s sent r s' /\ Forall P sent /\
                  (length sent <= length xs)%nat /\
                  (is_ok r ->
                   Forall2 (R (entityMetadata s)) (filter (sel (entityMetadata s)) xs)
                     sent).
Proof.
  intros Hbody. induction xs as [| x xs IH]; intros s r s'; cbn [for_each].
  - intros [= <- <-]. exists []. split.
    + apply sends_silent; [apply same_entities_refl | reflexivity].
    + split; [constructor |]. cbn [length]. split; [lia |]. intros _. constructor.
  - unfold bind at 1. destruct (body x s) as [[[] | e] s1] eqn:Hx;
      destruct (Hbody _ _ _ _ Hx) as (sent1 & H1 & HP1 & Hlen1 & Hrel1).
    + intros Hrest. destruct (IH _ _ _ Hrest) as (sent2 & H2 & HP2 & Hlen2 & Hrel2).
      exists (sent1 ++ sent2). split; [eapply sends_seq; eassumption |].
      split; [now apply Forall_app |]. rewrite length_app. cbn [length]. split; [lia |].
      intros Hok.
      assert (Hmds : entityMetadata s1 = entityMetadata s)
        by (destruct H1 as ((_ & _ & _ & Hmds & _) & _); exact Hmds).
      rewrite Hmds in Hrel2.
      change (x :: xs) with ([x] ++ xs). rewrite filter_app.
      apply Forall2_app; [apply Hrel1; exact I | now apply Hrel2].
    + intros [= <- <-]. exists sent1. split; [exact H1 |]. split; [exact HP1 |].
      cbn [length]. split; [lia |]. intros [].
Qed.

(** The statements of a batch are [BEGIN], then [DELETE]s, then
    [UPDATE]s, then [INSERT]s, then [COMMIT] if all of them went
    through: then there is the [DELETE] of each pending delete, the
    [UPDATE] of each pending update that has a changed field with a
    column, and the [INSERT] of each pending create, in their order. *)
Lemma send_batch_sends conn changes s r s' :
  send_batch conn changes s = (r, s') ->
  exists D U I c,
    sends conn s (BEGIN :: D ++ U ++ I ++ c) r s' /\
    Forall (fun st => is_delete st = true) D /\
    Forall (fun st => is_update st = true) U /\
    Forall (fun st => is_insert st = true) I /\
    (length D <= deletes_of changes)%nat /\
    (length U <= updates_of changes)%nat /\
    (length I <= creates_of changes)%nat /\
    (c = [] \/ c = [COMMIT]) /\
    (is_ok r ->
     c = [COMMIT] /\
     Forall2 (sent_for (entityMetadata s) is_delete)
       (of_type ChangeTracker.deleted changes) D /\
     Forall2 (sent_for (entityMetadata s) is_update)
       (filter (sends_update (entityMetadata s)) (of_type ChangeTracker.updated changes))
       U /\
     Forall2 (sent_for (entityMetadata s) is_insert)
       (of_type ChangeTracker.created changes) I).
Proof.
  unfold send_batch, deletes_of, updates_of, creates_of. unfold bind at 1.
  destruct (query conn BEGIN s) as [[[] | e] s1] eqn:H0; apply query_sends in H0.
  2:{ intros [= <- <-]. exists [], [], [], []. cbn [app length].
      split; [exact H0 |]. repeat (split; [first [solve [constructor] | lia | now left] |]).
      intros []. }
  assert (Hmd1 : entityMetadata s1 = entityMetadata s)
    by (destruct H0 as ((_ & _ & _ & Hmds & _) & _); exact Hmds).
  unfold bind at 1.
  destruct (for_each (of_type ChangeTracker.deleted changes) (executeDelete conn) s1)
    as [[[] | e] s2] eqn:HD;
    apply (for_each_sends conn (fun st => is_delete st = true)
             (fun mds => sent_for mds is_delete) (fun _ _ => True)) in HD;
    try (intros x t r0 t' Hx; exact (executeDelete_sends conn x t r0 t' Hx));
    destruct HD as (D & HD & HPD & HlenD & HrelD).
  2:{ intros [= <- <-]. exists D, [], [], []. cbn [app length]. rewrite app_nil_r.
      split; [exact (sends_seq conn s [BEGIN] _ s1 D _ _ H0 HD) |].
      repeat (split; [first [assumption | solve [constructor] | lia | now left] |]).
      intros []. }
  assert (Hmd2 : entityMetadata s2 = entityMetadata s)
    by (destruct HD as ((_ & _ & _ & Hmds & _) & _); congruence).
  unfold bind at 1.
  destruct (for_each (of_type ChangeTracker.updated changes) (executeUpdate conn) s2)
    as [[[] | e] s3] eqn:HU;
    apply (for_each_sends conn (fun st => is_update st = true)
             (fun mds => sent_for mds is_update) sends_update) in HU;
    try (intros x t r0 t' Hx; exact (executeUpdate_sends conn x t r0 t' Hx));
    destruct HU as (U & HU & HPU & HlenU & HrelU).
  2:{ intros [= <- <-]. exists D, U, [], []. cbn [app length]. rewrite app_nil_r.
      split; [exact (sends_seq conn s [BEGIN] _ s1 _ _ _ H0
                       (sends_seq conn s1 D _ s2 U _ _ HD HU)) |].
      repeat (split; [first [assumption | solve [constructor] | lia | now left] |]).
      intros []. }
  assert (Hmd3 : entityMetadata s3 = entityMetadata s)
    by (destruct HU as ((_ & _ & _ & Hmds & _) & _); congruence).
  unfold bind at 1.
  destruct (for_each (of_type ChangeTracker.created changes) (executeCreate conn) s3)
    as [[[] | e] s4] eqn:HI;
    apply (for_each_sends conn (fun st => is_insert st = true)
             (fun mds => sent_for mds is_insert) (fun _ _ => True)) in HI;
    try (intros x t r0 t' Hx; exact (executeCreate_sends conn x t r0 t' Hx));
    destruct HI as (I & HI & HPI & HlenI & HrelI).
  2:{ intros [= <- <-]. exists D, U, I, []. cbn [app length]. rewrite app_nil_r.
      split; [exact (sends_seq conn s [BEGIN] _ s1 _ _ _ H0
                       (sends_seq conn s1 D _ s2 _ _ _ HD
                          (sends_seq conn s2 U _ s3 I _ _ HU HI))) |].
      repeat (split; [first [assumption | solve [constructor] | lia | now left] |]).
      intros []. }
  intros HC. apply query_sends in HC. exists D, U, I, [COMMIT].
  split; [exact (sends_seq conn s [BEGIN] _ s1 _ _ _ H0
                   (sends_seq conn s1 D _ s2 _ _ _ HD
                      (sends_seq conn s2 U _ s3 _ _ _ HU
                         (sends_seq conn s3 I _ s4 [COMMIT] _ _ HI HC)))) |].
  repeat (split; [first [assumption | now right] |]).
  intros _. specialize (HrelD Logic.I). specialize (HrelU Logic.I).
  specialize (HrelI Logic.I).
  rewrite filter_all, Hmd1 in HrelD. rewrite Hmd2 in HrelU.
  rewrite filter_all, Hmd3 in HrelI. auto.
Qed.

Lemma in_tracker_issued {A} (c : M ChangeTracker.State A) s r s' :
  in_tracker c s = (r, s') -> issued s' = issued s /\ connection s' = connection s.
Proof.
  unfold in_tracker. destruct (c (tracker_state s)) as [r0 ts].
  intros [= <- <-]. split; reflexivity.
Qed.

Lemma in_identityMap_issued {A} (c : M IdentityMap.t A) s r s' :
  in_identityMap c s = (r, s') -> issued s' = issued s /\ connection s' = connection s.
Proof.
  unfold in_identityMap. destruct (c (identityMap s)) as [r0 im].
  intros [= <- <-]. split; reflexivity.
Qed.

(** The bookkeeping after [COMMIT] sends nothing. *)
Lemma reset_committed_issued change s r s' :
  reset_committed change s = (r, s') -> issued s' = issued s.
Proof.
  unfold reset_committed. unfold bind at 1.
  destruct (in_tracker _ s) as [[[] | e] s1] eqn:H1;
    apply in_tracker_issued in H1; destruct H1 as [H1 _].
  - destruct (bool_decide _).
    + unfold bind at 1.
      destruct (in_identityMap _ s1) as [[b | e] s2] eqn:H2;
        apply in_identityMap_issued in H2; destruct H2 as [H2 _];
        intros [= <- <-]; congruence.
    + intros [= <- <-]. exact H1.
  - intros [= <- <-]. exact H1.
Qed.

Lemma reset_phase_issued changes : forall s r s',
  for_each changes reset_committed s = (r, s') -> issued s' = issued s.
Proof.
  induction changes as [| change rest IH]; intros s r s'; cbn [for_each].
  - now intros [= <- <-].
  - unfold bind at 1.
    destruct (reset_committed change s) as [[[] | e] s1] eqn:H1;
      apply reset_committed_issued in H1.
    + intros Hrest. apply IH in Hrest. congruence.
    + intros [= <- <-]. exact H1.
Qed.

(** [commit] with a connection and pending changes runs the batch and
    rolls back if it fails. *)
Lemma commit_eq s conn :
  isActive s = true -> connection s = Some conn -> getChanges s <> [] ->
  commit s = try_catch (commit_batch conn (getChanges s))
                       (fun e => query conn ROLLBACK ;;; throw e) s.
Proof.
  intros Hact Hconn Hchanges. unfold commit.
  rewrite (bind_ok _ _ _ _ _ (ensureActive_ok s Hact)).
  unfold bind at 1, gets at 1. rewrite Hconn. unfold bind at 1, gets at 1.
  destruct (getChanges s); [contradiction | reflexivity].
Qed.

(** [commit] without pending changes sends nothing. *)
Lemma commit_nothing s conn :
  isActive s = true -> connection s = Some conn -> getChanges s = [] ->
  commit s = (Ok {| created := 0; updated := 0; deleted := 0 |}, s).
Proof.
  intros Hact Hconn Hchanges. unfold commit.
  rewrite (bind_ok _ _ _ _ _ (ensureActive_ok s Hact)).
  unfold bind at 1, gets at 1. rewrite Hconn. unfold bind at 1, gets at 1.
  now rewrite Hchanges.
Qed.

(** The three ways a [commit] with pending changes can go: the batch
    and the bookkeeping succeed; the batch fails; the bookkeeping
    fails.  In the last two a [ROLLBACK] follows. *)
Lemma commit_cases s conn r s' :
  isActive s = true -> connection s = Some conn -> getChanges s <> [] ->
  commit s = (r, s') ->
  (exists s1, send_batch conn (getChanges s) s = (Ok tt, s1) /\
     issued s' = issued s1 /\
     r = Ok {| created := creates_of (getChanges s);
               updated := updates_of (getChanges s);
               deleted := deletes_of (getChanges s) |}) \/
  (exists e s1, send_batch conn (getChanges s) s = (Throw e, s1) /\
     s' = with_issued (issued s1 ++ [ROLLBACK]) s1 /\
     r = Throw (default e (conn (issued s1) ROLLBACK))) \/
  (exists e s1 s2, send_batch conn (getChanges s) s = (Ok tt, s1) /\
     for_each (getChanges s) reset_committed s1 = (Throw e, s2) /\
     s' = with_issued (issued s2 ++ [ROLLBACK]) s2 /\ issued s2 = issued s1 /\
     r = Throw (default e (conn (issued s2) ROLLBACK))).
Proof.
  intros Hact Hconn Hchanges. rewrite (commit_eq s conn Hact Hconn Hchanges).
  unfold try_catch, commit_batch. unfold bind at 1.
  destruct (send_batch conn (getChanges s) s) as [[[] | e] s1] eqn:Hbatch.
  - unfold bind at 1.
    destruct (for_each (getChanges s) reset_committed s1) as [[[] | e] s2] eqn:Hreset;
      pose proof (reset_phase_issued _ _ _ _ Hreset) as Hiss.
    + intros [= <- <-]. left. exists s1. split; [reflexivity |]. split; [exact Hiss |].
      reflexivity.
    + intros Hrun. right. right. exists e, s1, s2. split; [reflexivity |].
      split; [exact Hreset |]. revert Hrun. unfold bind, query, throw.
      destruct (conn (issued s2) ROLLBACK); intros [= <- <-]; auto.
  - intros Hrun. right. left. exists e, s1. split; [reflexivity |].
    revert Hrun. unfold bind, query, throw.
    destruct (conn (issued s1) ROLLBACK); intros [= <- <-]; auto.
Qed.

(** Claim C3.  A [commit] with pending changes sends [BEGIN], then only
    [DELETE]s, then only [UPDATE]s, then only [INSERT]s.  When it
    succeeds these are, in the order of the pending changes, the
    [DELETE] of each pending delete, the [UPDATE] of each pending
    update that has a changed field with a column, and the [INSERT] of
    each pending create, each on the table of its entity, and [COMMIT]
    closes the batch; when it fails [ROLLBACK] closes it. *)
Theorem commit_ordering s conn r s' :
  isActive s = true ->
  connection s = Some conn ->
  getChanges s <> [] ->
  commit s = (r, s') ->
  exists D U I tail,
    issued s' = issued s ++ BEGIN :: D ++ U ++ I ++ tail /\
    Forall (fun st => is_delete st = true) D /\
    Forall (fun st => is_update st = true) U /\
    Forall (fun st => is_insert st = true) I /\
    (length D <= deletes_of (getChanges s))%nat /\
    (length U <= updates_of (getChanges s))%nat /\
    (length I <= creates_of (getChanges s))%nat /\
    match r with
    | Ok counts =>
        tail = [COMMIT] /\
        length D = deletes_of (getChanges s) /\
        length I = creates_of (getChanges s) /\
        counts = {| created := creates_of (getChanges s);
                    updated := updates_of (getChanges s);
                    deleted := deletes_of (getChanges s) |} /\
        Forall2 (sent_for (entityMetadata s) is_delete)
          (of_type ChangeTracker.deleted (getChanges s)) D /\
        Forall2 (sent_for (entityMetadata s) is_update)
          (filter (sends_update (entityMetadata s))
             (of_type ChangeTracker.updated (getChanges s))) U /\
        Forall2 (sent_for (entityMetadata s) is_insert)
          (of_type ChangeTracker.created (getChanges s)) I /\
        length U
        = length (filter (sends_update (entityMetadata s))
                    (of_type ChangeTracker.updated (getChanges s)))
    | Throw _ => tail = [ROLLBACK] \/ tail = [COMMIT; ROLLBACK]
    end.
Proof.
  intros Hact Hconn Hchanges Hrun.
  destruct (commit_cases s conn r s' Hact Hconn Hchanges Hrun)
    as [(s1 & Hbatch & Hiss & ->) | [(e & s1 & Hbatch & -> & ->)
        | (e & s1 & s2 & Hbatch & _ & -> & Hiss & ->)]];
    destruct (send_batch_sends conn _ _ _ _ Hbatch)
      as (D & U & I & c & (_ & Hsent & _) & HD & HU & HI & HlD & HlU & HlI & Hc & Hok).
  - destruct (Hok Logic.I) as (-> & HrD & HrU & HrI).
    exists D, U, I, [COMMIT]. rewrite Hiss, Hsent.
    split; [reflexivity |]. repeat (split; [assumption |]).
    split; [reflexivity |].
    split; [symmetry; exact (Forall2_length _ _ _ HrD) |].
    split; [symmetry; exact (Forall2_length _ _ _ HrI) |].
    split; [reflexivity |]. repeat (split; [assumption |]).
    symmetry. exact (Forall2_length _ _ _ HrU).
  - exists D, U, I, (c ++ [ROLLBACK]). cbn [issued with_issued]. rewrite Hsent.
    split; [now repeat (rewrite <- app_assoc; cbn [app]) |]. repeat (split; [assumption |]).
    destruct (conn (issued s1) ROLLBACK); cbn; destruct Hc as [-> | ->]; auto.
  - destruct (Hok Logic.I) as (-> & _).
    exists D, U, I, [COMMIT; ROLLBACK]. cbn [issued with_issued]. rewrite Hiss, Hsent.
    split; [now repeat (rewrite <- app_assoc; cbn [app]) |]. repeat (split; [assumption |]).
    destruct (conn (issued s2) ROLLBACK); cbn; auto.
Qed.

Lemma change_of_sets w w' tracked :
  sets w' = sets w -> ChangeTracker.change_of w' tracked = ChangeTracker.change_of w tracked.
Proof. intros H. unfold ChangeTracker.change_of, set_elements. now rewrite H. Qed.

(** The pending changes depend on the tracker and the sets of changed
    fields only. *)
Lemma same_entities_changes s s' :
  same_entities s s' -> getChanges s' = getChanges s /\ hasChanges s' = hasChanges s.
Proof.
  intros (_ & Ht & _ & _ & _ & _ & _ & Hs & _).
  assert (getChanges s' = getChanges s) as H.
  { unfold getChanges, ChangeTracker.getChanges. cbn [tracker_state ChangeTracker.tracker
      ChangeTracker.world]. rewrite Ht. apply flat_map_ext. intros tracked.
    now apply change_of_sets. }
  split; [exact H |]. unfold hasChanges. now rewrite H.
Qed.

Lemma snoc_split {A} (pre : list A) st post sent x :
  pre ++ st :: post = sent ++ [x] -> st <> x ->
  exists post', sent = pre ++ st :: post' /\ post = post' ++ [x].
Proof.
  destruct post as [| y post _] using rev_ind; intros Heq Hne.
  - apply app_inj_tail in Heq. destruct Heq as [_ <-]. contradiction.
  - change (pre ++ st :: post ++ [y]) with (pre ++ (st :: post) ++ [y]) in Heq.
    rewrite app_assoc in Heq. apply app_inj_tail in Heq. destruct Heq as [<- ->].
    now exists post.
Qed.

(** A rejected statement ends the run it was sent in. *)
Lemma verdict_rejected {A} conn base pre st post (r : result A) e :
  verdict conn base (pre ++ st :: post) r -> conn (base ++ pre) st = Some e ->
  post = [] /\ r = Throw e.
Proof.
  intros Hv Hrej.
  assert (~ accepted conn base (pre ++ st :: post)) as Hnot.
  { intros Hacc. apply accepted_at in Hacc. congruence. }
  destruct r as [a | e']; cbn in Hv; [contradiction |].
  destruct Hv as [Hacc | (pre' & st' & Heq & Hacc & Hrej')]; [contradiction |].
  destruct post as [| y post _] using rev_ind.
  - apply app_inj_tail in Heq. destruct Heq as [<- <-]. split; [reflexivity | congruence].
  - change (pre ++ st :: post ++ [y]) with (pre ++ (st :: post) ++ [y]) in Heq.
    rewrite app_assoc in Heq. apply app_inj_tail in Heq. destruct Heq as [<- _].
    apply accepted_at in Hacc. congruence.
Qed.

(** Property X22.  When the connection rejects a
    statement of the batch with [e], a [ROLLBACK] follows it at once and
    ends the run, the unit of work holds the entities and the pending
    changes it held before, and [commit] rejects: with [e] if the
    connection accepts the [ROLLBACK], with the error of the [ROLLBACK]
    otherwise. *)
Lemma commit_rejected_statement s conn r s' pre st post e :
  isActive s = true ->
  connection s = Some conn ->
  commit s = (r, s') ->
  issued s' = issued s ++ pre ++ st :: post ->
  st <> ROLLBACK ->
  conn (issued s ++ pre) st = Some e ->
  post = [ROLLBACK] /\
  r = Throw (default e (conn (issued s ++ pre ++ [st]) ROLLBACK)) /\
  same_entities s s' /\
  getChanges s' = getChanges s /\ hasChanges s' = hasChanges s.
Proof.
  intros Hact Hconn Hrun Hiss Hne Hrej.
  destruct (decide (getChanges s = [])) as [Hnone | Hchanges].
  { rewrite (commit_nothing s conn Hact Hconn Hnone) in Hrun. injection Hrun as <- <-.
    apply (f_equal length) in Hiss. rewrite !length_app in Hiss. cbn in Hiss. lia. }
  destruct (commit_cases s conn r s' Hact Hconn Hchanges Hrun)
    as [(s1 & Hbatch & Hiss1 & ->) | [(e1 & s1 & Hbatch & -> & ->)
        | (e1 & s1 & s2 & Hbatch & _ & -> & Hiss2 & ->)]];
    destruct (send_batch_sends conn _ _ _ _ Hbatch)
      as (D & U & I & c & (Hsame & Hsent & Hv) & _).
  - rewrite Hiss1, Hsent in Hiss. apply app_inv_head in Hiss. rewrite Hiss in Hv.
    destruct (verdict_rejected conn _ _ _ _ _ _ Hv Hrej) as [_ [=]].
  - cbn [issued with_issued] in Hiss. rewrite Hsent, <- app_assoc in Hiss.
    apply app_inv_head in Hiss. symmetry in Hiss.
    destruct (snoc_split _ _ _ _ _ Hiss Hne) as (post' & Hsplit & ->).
    rewrite Hsplit in Hv.
    destruct (verdict_rejected conn _ _ _ _ _ _ Hv Hrej) as [-> [= ->]].
    split; [reflexivity |]. rewrite Hsent, Hsplit.
    split; [reflexivity |].
    assert (same_entities s (with_issued ((issued s ++ pre ++ [st]) ++ [ROLLBACK]) s1))
      as Hsame' by exact Hsame.
    split; [exact Hsame' |]. now apply same_entities_changes.
  - cbn [issued with_issued] in Hiss. rewrite Hiss2, Hsent, <- app_assoc in Hiss.
    apply app_inv_head in Hiss. symmetry in Hiss.
    destruct (snoc_split _ _ _ _ _ Hiss Hne) as (post' & Hsplit & ->).
    rewrite Hsplit in Hv.
    destruct (verdict_rejected conn _ _ _ _ _ _ Hv Hrej) as [_ [=]].
Qed.

End CommitFacts.

(** One pending change of each type, over a connection that accepts
    everything: the [DELETE] of user 3, then the [UPDATE] of user 2,
    then the [INSERT] of user 1, between [BEGIN] and [COMMIT]. *)
Lemma commit_ordering_witness :
  UnitOfWork.issued (snd (UnitOfWork.commit (one_of_each accepting_connection)))
  = [UnitOfWork.BEGIN; delete_kurt; update_alan; insert_ada; UnitOfWork.COMMIT] /\
  exists D U I,
    UnitOfWork.issued (snd (UnitOfWork.commit (one_of_each accepting_connection)))
    = UnitOfWork.BEGIN :: D ++ U ++ I ++ [UnitOfWork.COMMIT] /\
    Forall (fun st => UnitOfWork.is_delete st = true) D /\
    Forall (fun st => UnitOfWork.is_update st = true) U /\
    Forall (fun st => UnitOfWork.is_insert st = true) I /\
    length D = 1%nat /\ length U = 1%nat /\ length I = 1%nat.
Proof.
  split; [vm_compute; reflexivity |].
  destruct (commit_ordering (one_of_each accepting_connection) accepting_connection
              (fst (UnitOfWork.commit (one_of_each accepting_connection)))
              (snd (UnitOfWork.commit (one_of_each accepting_connection))))
    as (D & U & I & tail & Hiss & HD & HU & HI & _ & _ & _ & Hr).
  - vm_compute. reflexivity.
  - vm_compute. reflexivity.
  - intros H. vm_compute in H. discriminate H.
  - apply surjective_pairing.
  - assert (fst (UnitOfWork.commit (one_of_each accepting_connection))
            = Ok {| UnitOfWork.created := 1; UnitOfWork.updated := 1;
                    UnitOfWork.deleted := 1 |}) as Hok by (vm_compute; reflexivity).
    rewrite Hok in Hr. destruct Hr as (-> & HlD & HlI & _ & _ & HrU & _ & _).
    assert (UnitOfWork.issued (one_of_each accepting_connection) = []) as Hnone
      by (vm_compute; reflexivity).
    rewrite Hnone in Hiss. exists D, U, I. split; [exact Hiss |].
    split; [exact HD |]. split; [exact HU |]. split; [exact HI |].
    split; [exact HlD |]. split; [| exact HlI].
    assert (UnitOfWork.getChanges (one_of_each accepting_connection)
            = [created_ada; updated_alan; deleted_kurt]) as Hchanges
      by (vm_compute; reflexivity).
    rewrite Hchanges in HrU.
    assert (UnitOfWork.of_type ChangeTracker.updated [created_ada; updated_alan; deleted_kurt]
            = [updated_alan]) as Hupdated by (vm_compute; reflexivity).
    rewrite Hupdated in HrU. rewrite filter_cons_True in HrU.
    + now apply Forall2_length in HrU.
    + exists user_metadata. split; [reflexivity |]. vm_compute. discriminate.
Defined.

(** Claim C2, at an input where the code departs from it.  One created
    user is pending; the connection accepts [BEGIN], rejects the
    [INSERT] as a duplicate key and then fails on [ROLLBACK].  [commit]
    sends the [ROLLBACK] and keeps the pending change, but it rejects
    with the error of the [ROLLBACK], not with the error of the
    [INSERT]. *)
Theorem commit_rollback_failure_masks_error :
  UnitOfWork.issued (snd (UnitOfWork.commit (one_created dying_connection)))
  = [UnitOfWork.BEGIN; insert_ada; UnitOfWork.ROLLBACK] /\
  dying_connection [UnitOfWork.BEGIN] insert_ada
  = Some (DriverError (Some "23505") "duplicate key value") /\
  fst (UnitOfWork.commit (one_created dying_connection))
  = Throw (DriverError (Some "08006") "connection terminated") /\
  UnitOfWork.getChanges (snd (UnitOfWork.commit (one_created dying_connection)))
  = UnitOfWork.getChanges (one_created dying_connection) /\
  UnitOfWork.hasChanges (snd (UnitOfWork.commit (one_created dying_connection))) = true.
Proof. vm_compute. repeat split; reflexivity. Qed.

(** One created user over a connection that rejects the [INSERT] and
    accepts the [ROLLBACK]: [commit] rejects with the error of the
    [INSERT] and the creation is still pending. *)
Lemma commit_rejected_statement_witness :
  fst (UnitOfWork.commit (one_created rejecting_inserts))
  = Throw (DriverError (Some "23505") "duplicate key value") /\
  UnitOfWork.issued (snd (UnitOfWork.commit (one_created rejecting_inserts)))
  = [UnitOfWork.BEGIN; insert_ada; UnitOfWork.ROLLBACK] /\
  UnitOfWork.getChanges (snd (UnitOfWork.commit (one_created rejecting_inserts)))
  = UnitOfWork.getChanges (one_created rejecting_inserts).
Proof.
  assert (Hsent : UnitOfWork.issued (snd (UnitOfWork.commit (one_created rejecting_inserts)))
                  = UnitOfWork.issued (one_created rejecting_inserts)
                    ++ [UnitOfWork.BEGIN] ++ insert_ada :: [UnitOfWork.ROLLBACK])
    by (vm_compute; reflexivity).
  destruct (commit_rejected_statement (one_created rejecting_inserts) rejecting_inserts
              (fst (UnitOfWork.commit (one_created rejecting_inserts)))
              (snd (UnitOfWork.commit (one_created rejecting_inserts)))
              [UnitOfWork.BEGIN] insert_ada [UnitOfWork.ROLLBACK]
              (DriverError (Some "23505") "duplicate key value"))
    as (_ & Hr & _ & Hchanges & _).
  - vm_compute. reflexivity.
  - vm_compute. reflexivity.
  - apply surjective_pairing.
  - exact Hsent.
  - discriminate.
  - reflexivity.
  - split; [exact Hr |]. split; [| exact Hchanges].
    rewrite Hsent. vm_compute. reflexivity.
Defined.
(* ------------------------------------------------------------------ *)
(** ** Identity map: registering, finding and forgetting instances     *)
(* ------------------------------------------------------------------ *)

Section IdentityMapUse.

Import IdentityMap.

(** [set] keeps a map well-formed. *)
Lemma set_wf entity id instance im r im' :
  wf im -> set entity id instance im = (Ok r, im') -> wf im'.
Proof.
  intros Hwf Hset.
  destruct (set_ok_non_null _ _ _ _ _ _ Hset) as (ck & Hck).
  destruct (lookup_instance im entity ck) as [existing |] eqn:Hlook.
  - rewrite (set_existing entity id instance im ck existing Hck Hlook) in Hset.
    now injection Hset as <- <-.
  - destruct (set_fresh entity id instance im ck Hwf Hck Hlook) as (im0 & H0 & Hwf0 & _).
    rewrite H0 in Hset. now injection Hset as <- <-.
Qed.

(** [delete] answers whether an instance was registered, and leaves
    neither an instance nor a reference under the key. *)
Lemma delete_eq entity id im ck :
  createCompositeKey entity id = Ok ck ->
  exists im',
    delete entity id im
    = (Ok (bool_decide (is_Some (lookup_instance im entity ck))), im') /\
    lookup_instance im' entity ck = None /\
    swept im' entity ck = im'.
Proof.
  intros Hck. unfold lookup_instance, swept. destruct im as [ms reg ewr nk col].
  im_unfold. rewrite !Hck.
  destruct (ms !! entity) as [m |] eqn:Hm; im_simpl.
  - destruct (reg !! ck) as [k |] eqn:Hk; im_simpl.
    + destruct (bool_decide (k ∈ col)) eqn:Hdead; im_simpl.
      * eexists. split; [reflexivity |]. im_simpl.
        now rewrite Hm, lookup_delete_eq.
      * eexists. split; [reflexivity |]. im_simpl.
        now rewrite lookup_insert_eq, !lookup_delete_eq.
    + eexists. split; [reflexivity |]. im_simpl. now rewrite Hm, Hk.
  - eexists. split; [reflexivity |]. im_simpl. now rewrite Hm.
Qed.

(** A look-up that finds nothing and meets no reference leaves the map
    as it is. *)
Lemma get_gone entity id im ck :
  createCompositeKey entity id = Ok ck ->
  lookup_instance im entity ck = None ->
  swept im entity ck = im ->
  get entity id im = (Ok None, im) /\ has entity id im = (Ok false, im).
Proof.
  intros Hck Hnone Hswept.
  rewrite (get_eq _ _ _ _ Hck), (has_eq _ _ _ _ Hck), Hnone, Hswept.
  split; reflexivity.
Qed.

Lemma registered_key_object im entity id ck r :
  createCompositeKey entity id = Ok ck ->
  lookup_instance im entity ck = Some r ->
  exists k, key_object im entity id = Some k /\ keyRegistry im !! ck = Some k.
Proof.
  intros Hck. unfold lookup_instance, key_object. rewrite Hck.
  destruct (maps im !! entity); [| discriminate].
  destruct (keyRegistry im !! ck) as [k |]; [eauto | discriminate].
Qed.

(** Property X1.  With weak references enabled (the default), whatever
    a successful [set] returns is what the map holds for as long as the
    garbage collector spares the key object of the entry: [get]
    returns it, [has] answers [true], and any further [set] under the
    same kind and id returns it and leaves the map as it is, whatever
    instance is offered.  Once the collector has reclaimed the key
    object the entry is lost: [get] finds nothing, [has] answers
    [false], and a further [set] stores and returns the instance it is
    offered. *)
Theorem identity_map_set_then_get entity id instance im r im' :
  wf im ->
  enableWeakRefs im = true ->
  set entity id instance im = (Ok r, im') ->
  (get entity id im' = (Ok (Some r), im') /\
   has entity id im' = (Ok true, im') /\
   forall other, set entity id other im' = (Ok r, im')) /\
  exists k,
    key_object im' entity id = Some k /\
    forall ks,
      (k ∉ ks ->
       get entity id (reclaimed ks im') = (Ok (Some r), reclaimed ks im') /\
       has entity id (reclaimed ks im') = (Ok true, reclaimed ks im') /\
       forall other, set entity id other (reclaimed ks im') = (Ok r, reclaimed ks im')) /\
      (k ∈ ks ->
       fst (get entity id (reclaimed ks im')) = Ok None /\
       fst (has entity id (reclaimed ks im')) = Ok false /\
       forall other, fst (set entity id other (reclaimed ks im')) = Ok other).
Proof.
  intros Hwf Hweak Hset.
  destruct (set_ok_non_null _ _ _ _ _ _ Hset) as (ck & Hck).
  destruct (set_registers _ _ _ _ _ _ _ Hwf Hweak Hck Hset) as (Hlook & _ & Hwf').
  assert (Hheld : forall im0, lookup_instance im0 entity ck = Some r ->
            get entity id im0 = (Ok (Some r), im0) /\
            has entity id im0 = (Ok true, im0) /\
            forall other, set entity id other im0 = (Ok r, im0)).
  { intros im0 H0. destruct (get_found entity id im0 ck r Hck H0) as [Hget Hhas].
    split; [exact Hget |]. split; [exact Hhas |].
    intros other. now apply (set_existing entity id other im0 ck r). }
  split; [now apply Hheld |].
  destruct (registered_key_object im' entity id ck r Hck Hlook) as (k & Hkey & Hk).
  exists k. split; [exact Hkey |]. intros ks.
  pose proof (collect_garbage_lookup ks im' entity ck k Hwf' Hk) as Hlater.
  fold (reclaimed ks im') in Hlater. split.
  - intros Hspared. apply Hheld.
    now rewrite Hlater, bool_decide_eq_false_2, Hlook.
  - intros Hgone. rewrite bool_decide_eq_true_2 in Hlater by exact Hgone.
    rewrite (get_eq _ _ _ _ Hck), (has_eq _ _ _ _ Hck), Hlater.
    split; [reflexivity |]. split; [reflexivity |]. intros other.
    destruct (set_fresh entity id other (reclaimed ks im') ck
                (collect_garbage_wf ks im' Hwf') Hck Hlater) as (im3 & -> & _).
    reflexivity.
Qed.

(** Property X2.  On a well-formed map with weak references enabled,
    [delete] right after a successful [set] answers [true] and forgets
    the instance: [get] then finds nothing, [has] answers [false], a
    second [delete] answers [false], and a later [set] under the same
    kind and id stores and returns the instance it is given.  After a
    garbage collection, [delete] answers [true] only if the collector
    has spared the key object of the entry; it answers [false] if the
    entry has been lost, and either way nothing is found afterwards. *)
Theorem identity_map_delete_forgets entity id instance im r im1 :
  wf im ->
  enableWeakRefs im = true ->
  set entity id instance im = (Ok r, im1) ->
  (exists im2,
     delete entity id im1 = (Ok true, im2) /\
     get entity id im2 = (Ok None, im2) /\
     has entity id im2 = (Ok false, im2) /\
     (exists im3, delete entity id im2 = (Ok false, im3)) /\
     forall other, exists im3,
       set entity id other im2 = (Ok other, im3) /\
       get entity id im3 = (Ok (Some other), im3)) /\
  exists k,
    key_object im1 entity id = Some k /\
    forall ks, exists im2,
      delete entity id (reclaimed ks im1) = (Ok (negb (bool_decide (k ∈ ks))), im2) /\
      get entity id im2 = (Ok None, im2) /\
      has entity id im2 = (Ok false, im2).
Proof.
  intros Hwf Hweak Hset.
  destruct (set_ok_non_null _ _ _ _ _ _ Hset) as (ck & Hck).
  destruct (set_registers _ _ _ _ _ _ _ Hwf Hweak Hck Hset) as (Hlook & Hweak1 & Hwf1).
  split.
  - destruct (delete_eq entity id im1 ck Hck) as (im2 & Hdel & Hgone & Hswept).
    rewrite Hlook in Hdel.
    destruct (delete_spec entity id im1 ck Hwf1 Hck)
      as (b & im2' & Hdel' & Hwf2 & Hweak2 & _).
    rewrite Hdel in Hdel'. injection Hdel' as _ <-.
    destruct (get_gone entity id im2 ck Hck Hgone Hswept) as [Hget Hhas].
    exists im2. split; [exact Hdel |]. split; [exact Hget |]. split; [exact Hhas |]. split.
    + destruct (delete_eq entity id im2 ck Hck) as (im3 & Hdel3 & _).
      rewrite Hgone in Hdel3. now exists im3.
    + intros other.
      destruct (set_fresh entity id other im2 ck Hwf2 Hck Hgone)
        as (im3 & Hset3 & _ & _ & Hlook3).
      exists im3. split; [exact Hset3 |].
      apply (get_found entity id im3 ck other Hck). apply Hlook3. congruence.
  - destruct (registered_key_object im1 entity id ck r Hck Hlook) as (k & Hkey & Hk).
    exists k. split; [exact Hkey |]. intros ks.
    pose proof (collect_garbage_lookup ks im1 entity ck k Hwf1 Hk) as Hlater.
    fold (reclaimed ks im1) in Hlater.
    destruct (delete_eq entity id (reclaimed ks im1) ck Hck) as (im2 & Hdel & Hgone & Hswept).
    destruct (get_gone entity id im2 ck Hck Hgone Hswept) as [Hget Hhas].
    exists im2. split; [| split; [exact Hget | exact Hhas]].
    rewrite Hdel, Hlater, Hlook. now destruct (bool_decide (k ∈ ks)).
Qed.

(** Property X3.  [set] rejects a [null] or [undefined] id
    with InvalidKey, whatever the map holds; it has by then created the
    kind's map, so that [get], [has] and [delete] of that kind reject
    the id too from then on. *)
Theorem identity_map_null_id_after_set entity id instance im :
  null_id id ->
  exists im',
    set entity id instance im = (Throw (InvalidKey entity), im') /\
    get entity id im' = (Throw (InvalidKey entity), im') /\
    has entity id im' = (Throw (InvalidKey entity), im') /\
    delete entity id im' = (Throw (InvalidKey entity), im').
Proof.
  intros Hnull.
  assert (exists im', set entity id instance im = (Throw (InvalidKey entity), im') /\
                      is_Some (maps im' !! entity)) as (im' & Hset & [m Hm]).
  { pose proof (createCompositeKey_null entity id Hnull) as Hck.
    destruct im as [ms reg ewr nk]. im_unfold. rewrite !Hck.
    destruct (ms !! entity) as [m |] eqn:Hm; im_simpl.
    - eexists. split; [reflexivity |]. im_simpl. now rewrite Hm.
    - eexists. split; [reflexivity |]. im_simpl. now rewrite lookup_insert_eq. }
  exists im'. split; [exact Hset |].
  split; [now apply (get_null_id_known_kind entity id im' m) |].
  split; [now apply (has_null_id_known_kind entity id im' m) |].
  now apply (delete_null_id_known_kind entity id im' m).
Qed.

End IdentityMapUse.

(** A first [set] of instance 0 under [User]/1 on a new map, then a
    second one offering instance 1: right away, and after a collection
    that reclaims the key object. *)
Lemma identity_map_set_then_get_witness :
  exists im',
    IdentityMap.set "User" (IdPrim (PNum 1)) 0%nat (IdentityMap.new None) = (Ok 0%nat, im') /\
    IdentityMap.get "User" (IdPrim (PNum 1)) im' = (Ok (Some 0%nat), im') /\
    IdentityMap.set "User" (IdPrim (PNum 1)) 1%nat im' = (Ok 0%nat, im') /\
    IdentityMap.key_object im' "User" (IdPrim (PNum 1)) = Some 0%nat /\
    fst (IdentityMap.get "User" (IdPrim (PNum 1)) (IdentityMap.reclaimed {[0%nat]} im'))
    = Ok None /\
    fst (IdentityMap.set "User" (IdPrim (PNum 1)) 1%nat (IdentityMap.reclaimed {[0%nat]} im'))
    = Ok 1%nat.
Proof.
  destruct (IdentityMap.set "User" (IdPrim (PNum 1)) 0%nat (IdentityMap.new None))
    as [r im'] eqn:Hset.
  assert (r = Ok 0%nat) as -> by (vm_compute in Hset; congruence).
  destruct (identity_map_set_then_get "User" (IdPrim (PNum 1)) 0%nat
              (IdentityMap.new None) 0%nat im' (wf_new None) eq_refl Hset)
    as ((Hget & _ & Hagain) & k & Hk & Hlater).
  assert (Him : im' = snd (IdentityMap.set "User" (IdPrim (PNum 1)) 0%nat
                             (IdentityMap.new None))) by now rewrite Hset.
  assert (k = 0%nat) as -> by (rewrite Him in Hk; vm_compute in Hk; congruence).
  destruct (Hlater {[0%nat]}) as [_ Hlost].
  destruct Hlost as (Hget' & _ & Hset'); [now apply elem_of_singleton |].
  exists im'. split; [reflexivity |]. split; [exact Hget |].
  split; [exact (Hagain 1%nat) |]. split; [exact Hk |].
  split; [exact Hget' | exact (Hset' 1%nat)].
Defined.

(** [set], then [delete]: right away, and after a collection that
    reclaims the key object. *)
Lemma identity_map_delete_forgets_witness :
  exists im1 im2 im3,
    IdentityMap.set "User" (IdPrim (PNum 1)) 0%nat (IdentityMap.new None) = (Ok 0%nat, im1) /\
    IdentityMap.delete "User" (IdPrim (PNum 1)) im1 = (Ok true, im2) /\
    IdentityMap.get "User" (IdPrim (PNum 1)) im2 = (Ok None, im2) /\
    IdentityMap.delete "User" (IdPrim (PNum 1)) (IdentityMap.reclaimed {[0%nat]} im1)
    = (Ok false, im3).
Proof.
  destruct (IdentityMap.set "User" (IdPrim (PNum 1)) 0%nat (IdentityMap.new None))
    as [r im1] eqn:Hset.
  assert (r = Ok 0%nat) as -> by (vm_compute in Hset; congruence).
  destruct (identity_map_delete_forgets "User" (IdPrim (PNum 1)) 0%nat
              (IdentityMap.new None) 0%nat im1 (wf_new None) eq_refl Hset)
    as ((im2 & Hdel & Hget & _) & k & Hk & Hlater).
  assert (Him : im1 = snd (IdentityMap.set "User" (IdPrim (PNum 1)) 0%nat
                             (IdentityMap.new None))) by now rewrite Hset.
  assert (k = 0%nat) as -> by (rewrite Him in Hk; vm_compute in Hk; congruence).
  destruct (Hlater {[0%nat]}) as (im3 & Hdel3 & _).
  exists im1, im2, im3. split; [reflexivity |]. split; [exact Hdel |].
  split; [exact Hget | exact Hdel3].
Defined.

Lemma identity_map_null_id_after_set_witness :
  exists im',
    IdentityMap.set "User" (IdPrim PNull) 0%nat (IdentityMap.new None)
    = (Throw (InvalidKey "User"), im') /\
    IdentityMap.get "User" (IdPrim PNull) im' = (Throw (InvalidKey "User"), im').
Proof.
  destruct (identity_map_null_id_after_set "User" (IdPrim PNull) 0%nat
              (IdentityMap.new None) (or_introl eq_refl)) as (im' & Hset & Hget & _).
  exists im'. split; [exact Hset | exact Hget].
Defined.
Section IdentityMapFrame.

Import IdentityMap.

Lemma store_lookup_other (ms : gmap string (gmap nat loc)) (reg : gmap string nat)
    (col : gset nat) e1 k instance m e2 ck2 :
  (forall k2, reg !! ck2 = Some k2 -> k2 <> k) ->
  default ∅ (ms !! e1) = m ->
  match <[e1 := <[k := instance]> m]> ms !! e2, reg !! ck2 with
  | Some m2, Some k2 => if bool_decide (k2 ∈ col) then None else m2 !! k2
  | _, _ => None
  end
  = match ms !! e2, reg !! ck2 with
    | Some m2, Some k2 => if bool_decide (k2 ∈ col) then None else m2 !! k2
    | _, _ => None
    end.
Proof.
  intros Hk Hm. destruct (decide (e1 = e2)) as [<- | He].
  - rewrite lookup_insert_eq. destruct (reg !! ck2) as [k2 |] eqn:Hk2.
    + rewrite lookup_insert_ne by (intros ->; now apply (Hk k2)).
      subst m. destruct (ms !! e1); [reflexivity |].
      cbn [default]. rewrite lookup_empty. now destruct (bool_decide _).
    + now destruct (ms !! e1).
  - now rewrite lookup_insert_ne.
Qed.

(** What [set] does to the map: nothing when an instance is registered
    under the key; otherwise it stores the instance, under the
    registered key object when its reference is live, and under a new
    one, registered in place of any dead reference when weak references
    are enabled. *)
Lemma set_cases entity id instance im ck r im' :
  wf im ->
  createCompositeKey entity id = Ok ck ->
  set entity id instance im = (r, im') ->
  (exists existing,
     lookup_instance im entity ck = Some existing /\ r = Ok existing /\ im' = im) \/
  (lookup_instance im entity ck = None /\ r = Ok instance /\
   exists k reg' next',
     im' = {| maps := <[entity := <[k := instance]> (default ∅ (maps im !! entity))]>
                        (maps im);
              keyRegistry := reg'; enableWeakRefs := enableWeakRefs im;
              nextKeyObject := next'; collected := collected im |} /\
     ((keyRegistry im !! ck = Some k /\ reg' = keyRegistry im /\
       next' = nextKeyObject im) \/
      (k = nextKeyObject im /\ next' = S (nextKeyObject im) /\
       reg' = if enableWeakRefs im then <[ck := k]> (keyRegistry im)
              else base.delete ck (keyRegistry im)))).
Proof.
  intros Hwf Hck Hset.
  destruct (lookup_instance im entity ck) as [existing |] eqn:Hlook.
  { left. exists existing.
    rewrite (set_existing entity id instance im ck existing Hck Hlook) in Hset.
    injection Hset as <- <-. auto. }
  right. split; [reflexivity |].
  revert Hlook Hset. unfold lookup_instance. destruct im as [ms reg ewr nk col].
  cbn [maps keyRegistry enableWeakRefs nextKeyObject collected] in *.
  assert (Hfresh : forall m, ms !! entity = Some m -> m !! nk = None).
  { intros m Hm. destruct (m !! nk) eqn:E; [| reflexivity].
    destruct Hwf as [Hwf1 _]. specialize (Hwf1 entity m nk Hm (mk_is_Some _ _ E)).
    cbn in Hwf1. lia. }
  im_unfold. rewrite !Hck.
  destruct (ms !! entity) as [m |] eqn:Hm; im_simpl.
  - destruct (reg !! ck) as [k |] eqn:Hk; im_simpl.
    + destruct (bool_decide (k ∈ col)) eqn:Hdead; im_simpl.
      * intros _. destruct ewr; im_simpl; rewrite Hm; im_simpl;
          rewrite (Hfresh m eq_refl); intros [= <- <-];
          (split; [reflexivity |]); eexists _, _, _; (split; [reflexivity |]);
          right; rewrite ?insert_delete_eq; auto.
      * intros Hfree. rewrite Hm. im_simpl. rewrite Hfree. intros [= <- <-].
        split; [reflexivity |]. eexists _, _, _. split; [reflexivity |]. left. auto.
    + intros _. destruct ewr; im_simpl; rewrite Hm; im_simpl;
        rewrite (Hfresh m eq_refl); intros [= <- <-];
        (split; [reflexivity |]); eexists _, _, _; (split; [reflexivity |]);
        right; rewrite ?(delete_id reg ck Hk); auto.
  - intros _. destruct (reg !! ck) as [k |] eqn:Hk; im_simpl.
    + destruct (bool_decide (k ∈ col)) eqn:Hdead; im_simpl.
      * destruct ewr; im_simpl; rewrite lookup_insert_eq; im_simpl;
          rewrite lookup_empty; intros [= <- <-];
          (split; [reflexivity |]); eexists _, _, _;
          (split; [now rewrite insert_insert_eq |]);
          right; rewrite ?insert_delete_eq; auto.
      * rewrite lookup_insert_eq. im_simpl. rewrite lookup_empty. intros [= <- <-].
        split; [reflexivity |]. eexists _, _, _.
        split; [now rewrite insert_insert_eq |]. left. auto.
    + destruct ewr; im_simpl; rewrite lookup_insert_eq; im_simpl;
        rewrite lookup_empty; intros [= <- <-];
        (split; [reflexivity |]); eexists _, _, _;
        (split; [now rewrite insert_insert_eq |]);
        right; rewrite ?(delete_id reg ck Hk); auto.
Qed.

Lemma set_lookup_other e1 id1 instance im r im' ck1 e2 ck2 :
  wf im ->
  distinct_keys im ->
  createCompositeKey e1 id1 = Ok ck1 ->
  ck1 <> ck2 ->
  set e1 id1 instance im = (r, im') ->
  lookup_instance im' e2 ck2 = lookup_instance im e2 ck2.
Proof.
  intros Hwf Hinj Hck Hne Hset.
  destruct (set_cases _ _ _ _ _ _ _ Hwf Hck Hset)
    as [(existing & _ & _ & ->) | (_ & _ & k & reg' & next' & -> & Hhow)];
    [reflexivity |].
  unfold lookup_instance. cbn [maps keyRegistry collected].
  destruct Hwf as (_ & Hwf2 & _).
  destruct Hhow as [(Hk & -> & _) | (-> & _ & ->)].
  - apply store_lookup_other; [| reflexivity].
    intros k2 Hk2 ->. apply Hne. now apply (Hinj ck1 ck2 k).
  - assert (Hreg : (if enableWeakRefs im then <[ck1 := nextKeyObject im]> (keyRegistry im)
                    else base.delete ck1 (keyRegistry im)) !! ck2
                   = keyRegistry im !! ck2).
    { destruct (enableWeakRefs im);
        [now rewrite lookup_insert_ne | now rewrite lookup_delete_ne]. }
    rewrite Hreg. apply store_lookup_other; [| reflexivity].
    intros k2 Hk2. specialize (Hwf2 _ _ Hk2). lia.
Qed.

(** What [set] does to the registry: nothing, or a registration under
    the key of a new key object, or the removal of a dead reference. *)
Lemma set_registry entity id instance im ck r im' :
  wf im ->
  createCompositeKey entity id = Ok ck ->
  set entity id instance im = (r, im') ->
  (exists x, r = Ok x) /\
  (keyRegistry im' = keyRegistry im \/
   keyRegistry im' = <[ck := nextKeyObject im]> (keyRegistry im) \/
   keyRegistry im' = base.delete ck (keyRegistry im)).
Proof.
  intros Hwf Hck Hset.
  destruct (set_cases _ _ _ _ _ _ _ Hwf Hck Hset)
    as [(existing & _ & -> & ->) | (_ & -> & k & reg' & next' & -> & Hhow)];
    [eauto |].
  split; [eauto |]. cbn [keyRegistry].
  destruct Hhow as [(Hk & -> & _) | (-> & _ & ->)]; [auto |].
  destruct (enableWeakRefs im); auto.
Qed.

Lemma distinct_keys_new o : distinct_keys (new o).
Proof. intros ck ck' k H. cbn in H. now rewrite lookup_empty in H. Qed.

Lemma set_distinct_keys entity id instance im r im' :
  wf im -> distinct_keys im ->
  set entity id instance im = (Ok r, im') -> distinct_keys im'.
Proof.
  intros Hwf Hinj Hset. pose proof Hwf as (_ & Hwf2 & _).
  destruct (set_ok_non_null _ _ _ _ _ _ Hset) as (ck & Hck).
  destruct (set_registry _ _ _ _ _ _ _ Hwf Hck Hset) as [_ [Hreg | [Hreg | Hreg]]];
    unfold distinct_keys; rewrite Hreg; [exact Hinj | |].
  - intros c c' k. destruct (decide (ck = c)) as [<- | Hc];
      destruct (decide (ck = c')) as [<- | Hc'];
      rewrite ?lookup_insert_eq, ?lookup_insert_ne by done.
    + reflexivity.
    + intros [= <-] H. specialize (Hwf2 _ _ H). lia.
    + intros H [= <-]. specialize (Hwf2 _ _ H). lia.
    + apply Hinj.
  - intros c c' k H1 H2. apply lookup_delete_Some in H1 as [_ H1].
    apply lookup_delete_Some in H2 as [_ H2]. eapply Hinj; eassumption.
Qed.

(** Property X4.  On a well-formed map whose registry holds
    distinct key objects, a [set] under one composite key changes
    nothing for any other: [get] and [has] of a kind and id with a
    different composite key answer as before.  The map stays
    well-formed with distinct key objects. *)
Theorem identity_map_set_leaves_other_keys e1 id1 instance im r im' e2 id2 ck1 ck2 :
  wf im ->
  distinct_keys im ->
  createCompositeKey e1 id1 = Ok ck1 ->
  createCompositeKey e2 id2 = Ok ck2 ->
  ck1 <> ck2 ->
  set e1 id1 instance im = (r, im') ->
  fst (get e2 id2 im') = fst (get e2 id2 im) /\
  fst (has e2 id2 im') = fst (has e2 id2 im) /\
  wf im' /\ distinct_keys im'.
Proof.
  intros Hwf Hinj Hck1 Hck2 Hne Hset.
  pose proof (set_lookup_other _ _ _ _ _ _ _ e2 ck2 Hwf Hinj Hck1 Hne Hset) as Hlook.
  destruct (set_registry _ _ _ _ _ _ _ Hwf Hck1 Hset) as [[x ->] _].
  rewrite !(get_eq e2 id2 _ ck2 Hck2), !(has_eq e2 id2 _ ck2 Hck2). cbn [fst].
  rewrite Hlook.
  split; [reflexivity |]. split; [reflexivity |].
  split; [eapply set_wf | eapply set_distinct_keys]; eassumption.
Qed.

End IdentityMapFrame.

(** Registering user 2 on a map that holds user 1. *)
Lemma identity_map_set_leaves_other_keys_witness :
  fst (IdentityMap.get "User" (IdPrim (PNum 1))
         (snd (IdentityMap.set "User" (IdPrim (PNum 2)) 1%nat
                 (snd (IdentityMap.set "User" (IdPrim (PNum 1)) 0%nat
                         (IdentityMap.new None))))))
  = Ok (Some 0%nat).
Proof.
  assert (IdentityMap.wf
            (snd (IdentityMap.set "User" (IdPrim (PNum 1)) 0%nat (IdentityMap.new None)))
          /\ IdentityMap.distinct_keys
               (snd (IdentityMap.set "User" (IdPrim (PNum 1)) 0%nat (IdentityMap.new None))))
    as [Hwf Hinj].
  { destruct (IdentityMap.set "User" (IdPrim (PNum 1)) 0%nat (IdentityMap.new None))
      as [r im1] eqn:Hset.
    assert (r = Ok 0%nat) as -> by (vm_compute in Hset; congruence).
    split; [exact (set_wf _ _ _ _ _ _ (wf_new None) Hset) |].
    exact (set_distinct_keys _ _ _ _ _ _ (wf_new None) (distinct_keys_new None) Hset). }
  destruct (identity_map_set_leaves_other_keys "User" (IdPrim (PNum 2)) 1%nat
              (snd (IdentityMap.set "User" (IdPrim (PNum 1)) 0%nat (IdentityMap.new None)))
              (fst (IdentityMap.set "User" (IdPrim (PNum 2)) 1%nat
                      (snd (IdentityMap.set "User" (IdPrim (PNum 1)) 0%nat
                              (IdentityMap.new None)))))
              (snd (IdentityMap.set "User" (IdPrim (PNum 2)) 1%nat
                      (snd (IdentityMap.set "User" (IdPrim (PNum 1)) 0%nat
                              (IdentityMap.new None)))))
              "User" (IdPrim (PNum 1)) "User:number:2" "User:number:1"
              Hwf Hinj eq_refl eq_refl)
    as [Hget _].
  - discriminate.
  - apply surjective_pairing.
  - rewrite Hget. vm_compute. reflexivity.
Defined.
Section CompositeKeys.

Import IdentityMap.

(** Property X5.  Scalar ids of one kind have
    distinct composite keys: the key keeps the type of the id, so the
    number [1] and the string ["1"] do not meet. *)
Theorem scalar_ids_have_distinct_keys entity (p q : prim) ck :
  createCompositeKey entity (IdPrim p) = Ok ck ->
  createCompositeKey entity (IdPrim q) = Ok ck ->
  p = q.
Proof.
  intros Hp Hq.
  destruct p as [| | [|] | n | s], q as [| | [|] | m | t]; cbn in Hp, Hq;
    try discriminate; try reflexivity; rewrite <- Hq in Hp; injection Hp as Hp;
    apply String.app_inj in Hp; cbv [String.append typeof_prim string_of_prim] in Hp;
    try discriminate.
  - injection Hp as Hp. f_equal. now apply (inj pretty).
  - injection Hp as Hp. now f_equal.
Qed.

End CompositeKeys.

Lemma scalar_ids_have_distinct_keys_witness :
  IdentityMap.createCompositeKey "User" (IdPrim (PNum 1)) = Ok "User:number:1" /\
  IdentityMap.createCompositeKey "User" (IdPrim (PStr "1")) = Ok "User:string:1" /\
  PNum 1 = PNum 1.
Proof.
  split; [reflexivity |]. split; [reflexivity |].
  exact (scalar_ids_have_distinct_keys "User" (PNum 1) (PNum 1) "User:number:1"
           eq_refl eq_refl).
Defined.
Section CompositeKeyOrder.

Import IdentityMap.

Lemma insert_sorted_perm f l : insert_sorted f l ≡ₚ f :: l.
Proof.
  induction l as [| g rest IH]; cbn [insert_sorted]; [reflexivity |].
  destruct (String.leb (fst f) (fst g)); [reflexivity |].
  rewrite IH. apply Permutation_swap.
Qed.

Lemma sortObjectKeys_perm l : sortObjectKeys l ≡ₚ l.
Proof.
  unfold sortObjectKeys. induction l as [| f rest IH]; cbn [fold_right]; [reflexivity |].
  rewrite insert_sorted_perm. now rewrite IH.
Qed.

Lemma insert_sorted_sorted f l :
  StronglySorted key_le l -> StronglySorted key_le (insert_sorted f l).
Proof.
  induction l as [| g rest IH]; cbn [insert_sorted]; intros Hs.
  - repeat constructor.
  - apply StronglySorted_cons in Hs as [Hg Hrest].
    destruct (String.leb (fst f) (fst g)) eqn:Hle.
    + constructor; [constructor; assumption |].
      assert (key_le f g) as Hfg by (unfold key_le, String.le; now rewrite Hle).
      constructor; [exact Hfg |].
      eapply Forall_impl; [exact Hg |]. intros x Hx. unfold key_le in *.
      etransitivity; eassumption.
    + constructor; [now apply IH |].
      rewrite insert_sorted_perm. constructor; [| exact Hg].
      unfold key_le. destruct (total String.le (fst g) (fst f)) as [H | H]; [exact H |].
      unfold String.le in H. rewrite Hle in H. contradiction.
Qed.

Lemma sortObjectKeys_sorted l : StronglySorted key_le (sortObjectKeys l).
Proof.
  unfold sortObjectKeys. induction l as [| f rest IH]; cbn [fold_right];
    [constructor | now apply insert_sorted_sorted].
Qed.

Lemma distinct_names_same_field (l : JsMap.t prim) f g :
  NoDup (JsMap.keys l) -> f ∈ l -> g ∈ l -> fst f = fst g -> f = g.
Proof.
  unfold JsMap.keys. induction l as [| h rest IH]; cbn [map]; intros Hnd Hf Hg Hk.
  - now apply elem_of_nil in Hf.
  - apply NoDup_cons in Hnd as [Hh Hnd].
    apply elem_of_cons in Hf as [-> | Hf]; apply elem_of_cons in Hg as [-> | Hg].
    + reflexivity.
    + exfalso. apply Hh. rewrite Hk. apply list_elem_of_In, in_map, list_elem_of_In, Hg.
    + exfalso. apply Hh. rewrite <- Hk. apply list_elem_of_In, in_map, list_elem_of_In, Hf.
    + now apply IH.
Qed.

(** Property X6.  A composite id is read by its
    fields, not by their order: two ids listing the same fields (names
    distinct) in a different order have the same composite key, so every
    operation of the map treats them as one id. *)
Theorem composite_id_field_order entity (fields1 fields2 : JsMap.t prim) :
  NoDup (JsMap.keys fields1) ->
  fields1 ≡ₚ fields2 ->
  createCompositeKey entity (IdComposite fields1)
  = createCompositeKey entity (IdComposite fields2) /\
  forall im,
    get entity (IdComposite fields1) im = get entity (IdComposite fields2) im /\
    has entity (IdComposite fields1) im = has entity (IdComposite fields2) im /\
    delete entity (IdComposite fields1) im = delete entity (IdComposite fields2) im /\
    forall instance,
      set entity (IdComposite fields1) instance im
      = set entity (IdComposite fields2) instance im.
Proof.
  intros Hnd Hperm.
  assert (sortObjectKeys fields1 = sortObjectKeys fields2) as Hsort.
  { apply (StronglySorted_unique_strong key_le);
      [| apply sortObjectKeys_sorted | apply sortObjectKeys_sorted
       | now rewrite !sortObjectKeys_perm].
    intros x1 x2 H1 H2 H12 H21.
    rewrite sortObjectKeys_perm in H1. rewrite sortObjectKeys_perm, <- Hperm in H2.
    apply (distinct_names_same_field fields1); try assumption.
    unfold key_le in *. now apply (anti_symm String.le). }
  assert (createCompositeKey entity (IdComposite fields1)
          = createCompositeKey entity (IdComposite fields2)) as Hkey.
  { cbn [createCompositeKey]. now rewrite Hsort. }
  split; [exact Hkey |]. intros im.
  unfold get, has, delete, set, getOrCreateKeyObject, getKeyObject, compositeKey.
  rewrite Hkey. auto.
Qed.

End CompositeKeyOrder.

(** [{tenant: 7, user: 1}] and [{user: 1, tenant: 7}]. *)
Lemma composite_id_field_order_witness :
  IdentityMap.createCompositeKey "Membership"
    (IdComposite [("tenant", PNum 7); ("user", PNum 1)])
  = IdentityMap.createCompositeKey "Membership"
      (IdComposite [("user", PNum 1); ("tenant", PNum 7)]).
Proof.
  apply (composite_id_field_order "Membership"
           [("tenant", PNum 7); ("user", PNum 1)] [("user", PNum 1); ("tenant", PNum 7)]).
  - apply NoDup_cons. split; [| apply NoDup_singleton].
    intros H. apply list_elem_of_singleton in H. discriminate H.
  - apply Permutation_swap.
Defined.
(* ------------------------------------------------------------------ *)
(** ** Identity map: clearing                                          *)
(* ------------------------------------------------------------------ *)

Section Clearing.

Import IdentityMap.

(** A composite key starts with the kind and a colon. *)
Lemma createCompositeKey_shape entity id ck :
  createCompositeKey entity id = Ok ck -> exists rest, ck = entity +:+ ":" +:+ rest.
Proof.
  unfold createCompositeKey. destruct id as [[| | b | n | s] | fields]; cbn;
    intros H; try discriminate H; injection H as <-;
    first [ now eexists
          | exists ("obj:" +:+ json_of_fields (sortObjectKeys fields));
            induction entity as [| a entity IH]; cbn; [reflexivity | now f_equal] ].
Qed.

(** The keys of another kind do not start with [entity:], when neither
    name holds what the other one needs for that. *)
Lemma other_kind_not_prefixed (entity e2 rest : string) :
  (forall a b, entity <> a +:+ ":" +:+ b) ->
  String.prefix (entity +:+ ":") e2 = false ->
  e2 <> entity ->
  String.prefix (entity +:+ ":") (e2 +:+ ":" +:+ rest) = false.
Proof.
  revert e2. induction entity as [| a entity IH]; intros e2 Hcolon Hpre Hne.
  - change (EmptyString +:+ ":") with ":" in *.
    destruct e2 as [| c e2]; [congruence |].
    change (String c e2 +:+ ":" +:+ rest) with (String c (e2 +:+ ":" +:+ rest)).
    cbn [String.prefix] in *. destruct (ascii_dec ":" c); [| reflexivity].
    destruct e2; discriminate Hpre.
  - change (String a entity +:+ ":") with (String a (entity +:+ ":")) in *.
    destruct e2 as [| c e2].
    + change (EmptyString +:+ ":" +:+ rest) with (String ":" rest). cbn [String.prefix].
      destruct (ascii_dec a ":") as [-> | Hn]; [| reflexivity].
      exfalso. apply (Hcolon EmptyString entity). reflexivity.
    + change (String c e2 +:+ ":" +:+ rest) with (String c (e2 +:+ ":" +:+ rest)).
      cbn [String.prefix] in *. destruct (ascii_dec a c) as [<- | Hn]; [| reflexivity].
      apply IH; [| exact Hpre | congruence].
      intros x y ->. apply (Hcolon (String a x) y). reflexivity.
Qed.

(** Property X7.  [clearEntity] forgets every instance of
    the kind: afterwards [get] finds nothing and [has] and [delete]
    answer false for every id of that kind, the null ids included.
    Every key that does not start with the kind's name and a colon
    keeps its instance; so when the kind's name holds no colon, every
    other kind whose name does not start with it and a colon keeps all
    its instances.  [clear] forgets every instance of every kind. *)
Theorem clearEntity_forgets_one_kind (entity : string) (im : t) :
  exists im',
    clearEntity entity im = (Ok tt, im') /\
    (forall id, get entity id im' = (Ok None, im') /\
                has entity id im' = (Ok false, im') /\
                delete entity id im' = (Ok false, im')) /\
    (forall e2 ck2,
       e2 <> entity -> String.prefix (entity +:+ ":") ck2 = false ->
       lookup_instance im' e2 ck2 = lookup_instance im e2 ck2) /\
    (forall e2 id2 ck2,
       (forall a b, entity <> a +:+ ":" +:+ b) ->
       String.prefix (entity +:+ ":") e2 = false ->
       e2 <> entity ->
       createCompositeKey e2 id2 = Ok ck2 ->
       fst (get e2 id2 im') = fst (get e2 id2 im) /\
       fst (has e2 id2 im') = fst (has e2 id2 im)) /\
    (wf im -> wf im') /\
    (distinct_keys im -> distinct_keys im') /\
    forall e id, get e id (snd (clear im)) = (Ok None, snd (clear im)).
Proof.
  destruct im as [ms reg ewr nk col].
  set (im' := {| maps := base.delete entity ms;
                 keyRegistry :=
                   filter (fun kv => negb (String.prefix (entity +:+ ":") (fst kv)) = true)
                     reg;
                 enableWeakRefs := ewr; nextKeyObject := nk; collected := col |}).
  exists im'. split; [reflexivity |].
  assert (Hother : forall e2 ck2,
             e2 <> entity -> String.prefix (entity +:+ ":") ck2 = false ->
             lookup_instance im' e2 ck2
             = lookup_instance
                 {| maps := ms; keyRegistry := reg; enableWeakRefs := ewr;
                    nextKeyObject := nk; collected := col |} e2 ck2).
  { intros e2 ck2 Hne Hpre. unfold lookup_instance, im'. cbn [maps keyRegistry collected].
    rewrite lookup_delete_ne by congruence.
    destruct (ms !! e2) as [m2 |]; [| reflexivity].
    destruct (reg !! ck2) as [k2 |] eqn:Hk2.
    - rewrite (map_lookup_filter_Some_2 _ _ _ _ Hk2); [reflexivity |].
      cbn [fst]. now rewrite Hpre.
    - rewrite map_lookup_filter_None_2; [reflexivity | now left]. }
  split; [| split; [exact Hother | split; [| split; [| split]]]].
  - intros id. unfold im'. im_unfold. rewrite lookup_delete_eq. repeat split; reflexivity.
  - intros e2 id2 ck2 Hcolon Hpre Hne Hck.
    destruct (createCompositeKey_shape _ _ _ Hck) as (rest & Hshape).
    pose proof (other_kind_not_prefixed entity e2 rest Hcolon Hpre Hne) as Hnot.
    rewrite <- Hshape in Hnot.
    rewrite !(get_eq _ _ _ _ Hck), !(has_eq _ _ _ _ Hck). cbn [fst].
    now rewrite (Hother e2 ck2 Hne Hnot).
  - intros (Hwf1 & Hwf2 & Hwf3).
    split; [| split]; unfold im'; cbn [maps keyRegistry nextKeyObject collected] in *.
    + intros e m k Hm. apply lookup_delete_Some in Hm as [_ Hm]. now apply (Hwf1 e m k).
    + intros ck k Hk. apply map_lookup_filter_Some_1_1 in Hk. now apply (Hwf2 ck k).
    + exact Hwf3.
  - intros Hinj ck ck' k H1 H2. unfold im' in *. cbn [keyRegistry] in *.
    apply map_lookup_filter_Some_1_1 in H1, H2. eapply Hinj; eassumption.
  - intros e id. reflexivity.
Qed.

End Clearing.

(** A map holding user 1 and order 1: clearing the users forgets the
    user and keeps the order. *)
Lemma clearEntity_forgets_one_kind_witness :
  fst (IdentityMap.get "User" (IdPrim (PNum 1))
         (snd (IdentityMap.clearEntity "User" users_and_orders))) = Ok None /\
  fst (IdentityMap.get "Order" (IdPrim (PNum 1))
         (snd (IdentityMap.clearEntity "User" users_and_orders)))
  = fst (IdentityMap.get "Order" (IdPrim (PNum 1)) users_and_orders) /\
  fst (IdentityMap.get "Order" (IdPrim (PNum 1)) users_and_orders) = Ok (Some 7%nat).
Proof.
  destruct (clearEntity_forgets_one_kind "User" users_and_orders)
    as (im' & Hrun & Hgone & _ & Hkept & _).
  rewrite Hrun. cbn [snd]. split; [| split; [| reflexivity]].
  - now destruct (Hgone (IdPrim (PNum 1))) as (-> & _).
  - apply (Hkept "Order" (IdPrim (PNum 1)) "Order:number:1").
    + intros a b H. vm_compute in H.
      destruct a as [| c1 [| c2 [| c3 [| c4 [| c5 a]]]]]; cbn in H; try discriminate H;
        injection H; intros; subst; discriminate.
    + reflexivity.
    + discriminate.
    + reflexivity.
Defined.
(* ------------------------------------------------------------------ *)
(** ** Change tracker: what it reports                                 *)
(* ------------------------------------------------------------------ *)

Section TrackerReports.

Import ChangeTracker.

Lemma JsMap_get_values {V} (m : JsMap.t V) k v :
  JsMap.get m k = Some v -> v ∈ JsMap.values m.
Proof.
  unfold JsMap.values. induction m as [| [k' v'] m IH]; cbn; [discriminate |].
  destruct (String.eqb k' k).
  - intros [= ->]. apply elem_of_cons. now left.
  - intros H. apply elem_of_cons. right. now apply IH.
Qed.

(** Property X15.  The four counters of [getStats] split the
    tracked entities: they add up to [total], and the changes listed by
    [getChanges] are as many as the created, updated and deleted
    entities together. *)
Theorem tracker_stats_partition (s : State) :
  total (getStats s)
  = (stat_created (getStats s) + stat_updated (getStats s)
     + stat_deleted (getStats s) + unchanged (getStats s))%nat /\
  length (getChanges s)
  = (stat_created (getStats s) + stat_updated (getStats s)
     + stat_deleted (getStats s))%nat.
Proof.
  unfold getStats, getChanges, JsMap.size, JsMap.values.
  cbn [total stat_created stat_updated stat_deleted unchanged].
  induction (trackedEntities (tracker s)) as [| [k t] m [IH1 IH2]];
    [split; reflexivity |].
  cbn [map flat_map length snd]. rewrite length_app, IH1, IH2.
  rewrite !filter_cons. unfold change_of.
  destruct (te_isDeleted t) eqn:Hd, (te_isNew t) eqn:Hn,
    (0 <? length (set_elements (world s) (te_changedFields t)))%nat eqn:Hc;
    repeat case_decide; cbn [length snd] in *;
    try (split; lia); exfalso; intuition congruence.
Qed.

(** What the tracker reports depends on the world through the sets of
    changed fields alone. *)
Lemma keeps_sets_reports s s' :
  keeps_sets s s' ->
  getChanges s' = getChanges s /\
  getStats s' = getStats s /\
  forall entity id,
    getChangedFields s' entity id = getChangedFields s entity id /\
    hasChanges s' entity id = hasChanges s entity id.
Proof.
  intros [Ht Hs].
  assert (forall c, set_elements (world s') c = set_elements (world s) c) as Hel.
  { intros c. unfold set_elements. now rewrite Hs. }
  split; [| split].
  - unfold getChanges. rewrite Ht. apply flat_map_ext. intros tracked.
    unfold change_of. now rewrite Hel.
  - unfold getStats. rewrite Ht.
    f_equal; try reflexivity; f_equal; apply list_filter_iff; intros t; now rewrite Hel.
  - intros entity id. unfold getChangedFields, hasChanges. rewrite Ht.
    destruct (JsMap.get _ _) as [tracked |]; [| split; reflexivity].
    now rewrite Hel.
Qed.

(** Property X11.  Reading never records a change: following
    any chain of property reads from any reference, through proxies or
    not, whether it succeeds or throws, leaves [getChanges], [getStats],
    [getChangedFields] and [hasChanges] as they were. *)
Theorem reads_record_nothing ref chain (s : State) :
  getChanges (snd (get_path ref chain s)) = getChanges s /\
  getStats (snd (get_path ref chain s)) = getStats s /\
  forall entity id,
    getChangedFields (snd (get_path ref chain s)) entity id
    = getChangedFields s entity id /\
    hasChanges (snd (get_path ref chain s)) entity id = hasChanges s entity id.
Proof.
  apply keeps_sets_reports, allocates_keeps.
  destruct (get_path ref chain s) as [r s'] eqn:Hget.
  exact (get_path_allocates _ _ _ _ _ Hget).
Qed.

(** Writes and deletions under a symbol key leave the sets alone,
    whatever the reference. *)
Lemma js_set_symbol_keeps fuel : forall l prop v s r s',
  is_symbol prop = true -> js_set fuel l prop v s = (r, s') -> keeps_sets s s'.
Proof.
  induction fuel as [| fuel IH]; intros l prop v s r s' Hsym; cbn [js_set];
    destruct (heap (world s) !! l) as [[props | elems | obj h | cf path fn o] |];
    try (intros [= <- <-]; apply keeps_sets_refl);
    try (apply raw_set_keeps).
  destruct h as [cf entity id | cf path entity id]; rewrite Hsym.
  - now apply IH.
  - cbn [negb]. unfold bind at 1, ret at 1. now apply IH.
Qed.

Lemma js_delete_symbol_keeps fuel : forall l prop s r s',
  is_symbol prop = true -> js_delete fuel l prop s = (r, s') -> keeps_sets s s'.
Proof.
  induction fuel as [| fuel IH]; intros l prop s r s' Hsym; cbn [js_delete];
    destruct (heap (world s) !! l) as [[props | elems | obj h | cf path fn o] |];
    try (intros [= <- <-]; apply keeps_sets_refl);
    try (apply raw_delete_keeps).
  destruct h as [cf entity id | cf path entity id]; rewrite Hsym; cbn [negb];
    unfold bind at 1, ret at 1; now apply IH.
Qed.

(** Property X12.  Symbol-keyed properties are not
    tracked: writing or deleting one through any reference records
    nothing, and a write through the wrapped instance of an object still
    reaches the object. *)
Theorem symbol_properties_untracked ref n v (s : State) :
  (forall entity id,
     getChangedFields (snd (set_property ref (KSym n) v s)) entity id
     = getChangedFields s entity id /\
     getChangedFields (snd (delete_property ref (KSym n) s)) entity id
     = getChangedFields s entity id) /\
  getChanges (snd (set_property ref (KSym n) v s)) = getChanges s /\
  getChanges (snd (delete_property ref (KSym n) s)) = getChanges s /\
  forall t cf entity id props,
    heap (world s) !! ref = Some (Proxy t (RootHandler cf entity id)) ->
    heap (world s) !! t = Some (Obj props) ->
    fst (set_property ref (KSym n) v s) = Ok true /\
    heap (world (snd (set_property ref (KSym n) v s))) !! t
    = Some (Obj (props_set props (KSym n) v)).
Proof.
  destruct (set_property ref (KSym n) v s) as [r1 s1] eqn:Hset.
  destruct (delete_property ref (KSym n) s) as [r2 s2] eqn:Hdel.
  pose proof (js_set_symbol_keeps _ ref (KSym n) v s r1 s1 eq_refl Hset) as K1.
  pose proof (js_delete_symbol_keeps _ ref (KSym n) s r2 s2 eq_refl Hdel) as K2.
  destruct (keeps_sets_reports _ _ K1) as (C1 & _ & F1).
  destruct (keeps_sets_reports _ _ K2) as (C2 & _ & F2).
  cbn [fst snd]. split; [| split; [exact C1 | split; [exact C2 |]]].
  - intros entity id. split; [apply F1 | apply F2].
  - intros t cf entity id props Hp Ht.
    destruct (fuel_positive _ _ _ Hp) as (f & Hf).
    unfold set_property in Hset. rewrite Hf in Hset. cbn [js_set] in Hset.
    rewrite Hp in Hset. cbn [is_symbol] in Hset.
    destruct f; cbn [js_set] in Hset; rewrite Ht in Hset; cbn [raw_set] in Hset;
      unfold bind, in_world, store, ret in Hset; cbn in Hset;
      injection Hset as <- <-; (split; [reflexivity |]); cbn;
      apply list_lookup_insert_eq; eapply lookup_lt_Some; exact Ht.
Qed.

(** Property X8.  [track] of a key not yet tracked hands
    out a proxy of the data, and from then on every [track] under that
    key returns that same proxy and changes nothing, whatever data is
    offered.  The entity starts with no changed field, and has pending
    changes exactly if it was tracked as new. *)
Theorem track_hands_out_one_proxy entity id data isNew s :
  JsMap.get (trackedEntities (tracker s)) (createKey entity id) = None ->
  exists p s',
    track entity id data isNew s = (Ok p, s') /\
    heap (world s') !! p
    = Some (Proxy data (RootHandler (length (sets (world s))) entity id)) /\
    (forall data' isNew', track entity id data' isNew' s' = (Ok p, s')) /\
    getChangedFields s' entity id = [] /\
    hasChanges s' entity id = isNew.
Proof.
  intros Hfresh.
  destruct (track_fresh entity id data isNew s Hfresh)
    as (p & s' & original & Htrack & Hpres & Hp & Hcell & Hsets & Htracked & Hps).
  assert (JsMap.get (trackedEntities (tracker s')) (createKey entity id)
          = Some {| te_entity := entity; te_id := id; te_data := data; te_proxy := p;
                    te_originalData := original; te_isNew := isNew;
                    te_isDeleted := false;
                    te_changedFields := length (sets (world s)) |}) as Hget.
  { rewrite Htracked. apply JsMap_get_set_eq. }
  assert (set_elements (world s') (length (sets (world s))) = []) as Hempty.
  { unfold set_elements. rewrite Hsets.
    now rewrite lookup_app_r, Nat.sub_diag by lia. }
  exists p, s'. split; [exact Htrack |]. split; [exact Hcell |].
  split; [| split].
  - intros data' isNew'. now rewrite (track_existing _ _ _ _ _ _ Hget).
  - unfold getChangedFields. now rewrite Hget.
  - unfold hasChanges. rewrite Hget. cbn [te_isNew te_isDeleted te_changedFields].
    rewrite Hempty. now destruct isNew.
Qed.

(** Property X13.  [markDeleted] of an entity that is
    not tracked throws NotTracked and changes nothing; of a tracked
    entity it succeeds, after which the entity has pending changes and
    [getChanges] lists it as deleted, whether or not it was new or had
    changed fields. *)
Theorem markDeleted_reports entity id (s : State) :
  (JsMap.get (trackedEntities (tracker s)) (createKey entity id) = None ->
   markDeleted entity id s = (Throw (NotTracked entity), s)) /\
  (forall tracked,
     JsMap.get (trackedEntities (tracker s)) (createKey entity id) = Some tracked ->
     exists s',
       markDeleted entity id s = (Ok tt, s') /\
       world s' = world s /\
       hasChanges s' entity id = true /\
       {| ChangeTracker.entity := te_entity tracked; id := te_id tracked;
          type := deleted; originalData := Some (te_originalData tracked);
          currentData := None; changedFields := None |} ∈ getChanges s').
Proof.
  split.
  - intros Hnone. unfold markDeleted, bind, gets. now rewrite Hnone.
  - intros tracked Hget. unfold markDeleted, bind, gets. rewrite Hget.
    eexists. split; [reflexivity |]. cbn [world tracker trackedEntities].
    split; [reflexivity |].
    split.
    + unfold hasChanges. cbn [world tracker trackedEntities].
      rewrite JsMap_get_set_eq. cbn. now rewrite orb_true_r.
    + unfold getChanges. cbn [world tracker trackedEntities].
      apply list_elem_of_In, in_flat_map. eexists. split.
      * apply list_elem_of_In, JsMap_get_values with (k := createKey entity id).
        apply JsMap_get_set_eq.
      * unfold change_of. cbn. now left.
Qed.

End TrackerReports.

(** Tracking a user not tracked before. *)
Lemma track_hands_out_one_proxy_witness :
  exists p s',
    ChangeTracker.track "User" (IdPrim (PNum 1)) 0%nat false untracked_profile = (Ok p, s') /\
    ChangeTracker.track "User" (IdPrim (PNum 1)) 1%nat true s' = (Ok p, s') /\
    ChangeTracker.hasChanges s' "User" (IdPrim (PNum 1)) = false.
Proof.
  destruct (track_hands_out_one_proxy "User" (IdPrim (PNum 1)) 0%nat false
              untracked_profile eq_refl) as (p & s' & Htrack & _ & Hagain & _ & Hhas).
  exists p, s'. split; [exact Htrack |]. split; [apply Hagain | exact Hhas].
Defined.

(** A symbol-keyed write through the wrapped user: it reaches the
    object and nothing is recorded. *)
Lemma symbol_properties_untracked_witness :
  fst (ChangeTracker.set_property wrapped_profile (KSym 1) (VStr "x") tracked_profile)
  = Ok true /\
  ChangeTracker.getChangedFields
    (snd (ChangeTracker.set_property wrapped_profile (KSym 1) (VStr "x") tracked_profile))
    "User" (IdPrim (PNum 1)) = [] /\
  ChangeTracker.getChanges
    (snd (ChangeTracker.set_property wrapped_profile (KSym 1) (VStr "x") tracked_profile))
  = [].
Proof.
  destruct (symbol_properties_untracked wrapped_profile 1 (VStr "x") tracked_profile)
    as (Hfields & Hchanges & _ & Hreach).
  split; [| split].
  - now destruct (Hreach 0%nat 0%nat "User" (IdPrim (PNum 1)) _ eq_refl eq_refl) as [-> _].
  - now destruct (Hfields "User" (IdPrim (PNum 1))) as [-> _].
  - now rewrite Hchanges.
Defined.

(** Marking the tracked user deleted, and a user that is not tracked. *)
Lemma markDeleted_reports_witness :
  (exists s',
     ChangeTracker.markDeleted "User" (IdPrim (PNum 1)) tracked_profile = (Ok tt, s') /\
     ChangeTracker.hasChanges s' "User" (IdPrim (PNum 1)) = true) /\
  ChangeTracker.markDeleted "User" (IdPrim (PNum 2)) tracked_profile
  = (Throw (NotTracked "User"), tracked_profile).
Proof.
  split.
  - destruct (markDeleted_reports "User" (IdPrim (PNum 1)) tracked_profile) as [_ H].
    destruct (H _ eq_refl) as (s' & Hrun & _ & Hhas & _).
    exists s'. now split.
  - destruct (markDeleted_reports "User" (IdPrim (PNum 2)) tracked_profile) as [H _].
    now apply H.
Defined.
(* ------------------------------------------------------------------ *)
(** ** Change tracker: writes through the wrapped instance         *)
(* ------------------------------------------------------------------ *)

Section TrackerWrites.

Import ChangeTracker.

Lemma props_get_set_eq props k v : props_get (props_set props k v) k = Some v.
Proof.
  induction props as [| [k' v'] rest IH]; cbn.
  - now rewrite bool_decide_eq_true_2.
  - destruct (bool_decide (k' = k)) eqn:E; cbn; rewrite E; [reflexivity | exact IH].
Qed.

(** Property X10.  Deleting a field of the wrapped
    instance of an object removes it from the object and adds its name
    to [changedFields], whether or not the object had the field. *)
Theorem field_deletion_is_recorded s entity id p t cf props k :
  wrapped s entity id p t cf ->
  heap (world s) !! t = Some (Obj props) ->
  is_symbol k = false ->
  exists s',
    delete_property p k s = (Ok true, s') /\
    heap (world s') !! t = Some (Obj (props_delete props k)) /\
    getChangedFields s' entity id
    = add_path (getChangedFields s entity id) (key_string k).
Proof.
  intros Hwrapped Ht Hsym. pose proof Hwrapped as (_ & Hp & _ & _).
  eexists. split; [exact (root_delete_spec s p t cf entity id props k Hp Ht Hsym) |].
  split.
  - cbn [world heap]. apply list_lookup_insert_eq. eapply lookup_lt_Some; exact Ht.
  - eapply getChangedFields_added; [exact Hwrapped |]. split; reflexivity.
Qed.

(** Property X9.  A scalar written to a field of the
    wrapped instance of an object is stored in the object and is what a
    later read of the field through the wrapped instance returns. *)
Theorem scalar_write_then_read s entity id p t cf props k pr :
  wrapped s entity id p t cf ->
  heap (world s) !! t = Some (Obj props) ->
  is_symbol k = false ->
  exists s',
    set_property p k (VPrim pr) s = (Ok true, s') /\
    raw_read (heap (world s')) t k = Some (VPrim pr) /\
    get_property p k s' = (Ok (VPrim pr), s').
Proof.
  intros Hwrapped Ht Hsym. pose proof Hwrapped as (_ & Hp & _ & _).
  destruct (root_set_reported s entity id p t cf props k (VPrim pr) Hwrapped Ht Hsym)
    as (s' & Hset & Ht' & _).
  assert (heap (world s') !! p = Some (Proxy t (RootHandler cf entity id))) as Hp'.
  { rewrite (root_set_spec s p t cf entity id props k (VPrim pr) Hp Ht Hsym) in Hset.
    injection Hset as <-. cbn [world heap].
    rewrite list_lookup_insert_ne; [exact Hp | congruence]. }
  assert (raw_read (heap (world s')) t k = Some (VPrim pr)) as Hread.
  { unfold raw_read. rewrite Ht', props_get_set_eq. reflexivity. }
  exists s'. split; [exact Hset |]. split; [exact Hread |].
  destruct (fuel_positive _ _ _ Hp') as (f & Hf).
  unfold get_property. rewrite Hf. cbn [js_get]. rewrite Hp'.
  rewrite (bind_ok _ _ _ _ _ (js_get_plain f t k s' _ Hread)).
  rewrite Hsym. unfold bind, gets, ret. reflexivity.
Qed.

End TrackerWrites.

(** [delete wrapped.name] on a freshly tracked user. *)
Lemma field_deletion_is_recorded_witness :
  exists s',
    ChangeTracker.delete_property wrapped_profile (KStr "name") tracked_profile
    = (Ok true, s') /\
    ChangeTracker.getChangedFields s' "User" (IdPrim (PNum 1)) = ["name"].
Proof.
  destruct (field_deletion_is_recorded tracked_profile "User" (IdPrim (PNum 1))
              wrapped_profile 0%nat 0%nat
              [(KStr "id", VNum 1); (KStr "name", VStr "Ada");
               (KStr "profile", VRef 1%nat); (KStr "tags", VRef 2%nat)] (KStr "name"))
    as (s' & Hdel & _ & Hrep).
  - split; [eexists; split; reflexivity |].
    split; [reflexivity |]. split; [cbn; lia | reflexivity].
  - reflexivity.
  - reflexivity.
  - exists s'. split; [exact Hdel | exact Hrep].
Defined.

(** [wrapped.name = 'Grace'] and reading it back. *)
Lemma scalar_write_then_read_witness :
  exists s',
    ChangeTracker.set_property wrapped_profile (KStr "name") (VStr "Grace") tracked_profile
    = (Ok true, s') /\
    ChangeTracker.get_property wrapped_profile (KStr "name") s' = (Ok (VStr "Grace"), s').
Proof.
  destruct (scalar_write_then_read tracked_profile "User" (IdPrim (PNum 1))
              wrapped_profile 0%nat 0%nat
              [(KStr "id", VNum 1); (KStr "name", VStr "Ada");
               (KStr "profile", VRef 1%nat); (KStr "tags", VRef 2%nat)] (KStr "name")
              (PStr "Grace"))
    as (s' & Hset & _ & Hget).
  - split; [eexists; split; reflexivity |].
    split; [reflexivity |]. split; [cbn; lia | reflexivity].
  - reflexivity.
  - reflexivity.
  - exists s'. split; [exact Hset | exact Hget].
Defined.
(* ------------------------------------------------------------------ *)
(** ** Change tracker: new baselines                               *)
(* ------------------------------------------------------------------ *)

Section TrackerBaselines.

Import ChangeTracker.

Lemma JsMap_keys_set {V} (m : JsMap.t V) k v v0 :
  JsMap.get m k = Some v0 -> JsMap.keys (JsMap.set m k v) = JsMap.keys m.
Proof.
  unfold JsMap.keys. induction m as [| [k' v'] m IH]; cbn; [discriminate |].
  destruct (String.eqb k' k) eqn:E; cbn; [reflexivity |].
  intros H. now rewrite IH.
Qed.

Lemma cleared_set_empty (ss : list (list string)) (cf : nat) :
  default [] (<[cf := []]> ss !! cf) = [].
Proof.
  destruct (decide (cf < length ss)%nat) as [Hlt | Hge].
  - now rewrite list_lookup_insert_eq.
  - rewrite lookup_ge_None_2; [reflexivity |]. rewrite length_insert. lia.
Qed.

(** Property X14.  [resetChanges] of an entity that is not
    tracked does nothing.  Of a tracked entity that is not marked
    deleted it leaves the entity tracked under the same proxy with no
    changed field and no pending change, also when the entity was new;
    of one marked deleted it ends the tracking. *)
Theorem resetChanges_rebaselines entity id (s : State) :
  (JsMap.get (trackedEntities (tracker s)) (createKey entity id) = None ->
   resetChanges entity id s = (Ok tt, s)) /\
  (forall tracked,
     JsMap.get (trackedEntities (tracker s)) (createKey entity id) = Some tracked ->
     exists s',
       resetChanges entity id s = (Ok tt, s') /\
       if te_isDeleted tracked
       then NoDup (JsMap.keys (trackedEntities (tracker s))) ->
            JsMap.get (trackedEntities (tracker s')) (createKey entity id) = None /\
            hasChanges s' entity id = false
       else hasChanges s' entity id = false /\
            getChangedFields s' entity id = [] /\
            forall data isNew,
              track entity id data isNew s' = (Ok (te_proxy tracked), s')).
Proof.
  split.
  - intros Hnone. unfold resetChanges, bind, gets. now rewrite Hnone.
  - intros tracked Hget. unfold resetChanges, bind at 1, gets. rewrite Hget.
    destruct (deepClone_spec (VRef (te_data tracked)) (world s))
      as (copy & w1 & Hclone & Hsets & Hpres).
    unfold bind at 1, in_world at 1. rewrite Hclone.
    unfold bind, in_world, set_clear, with_tracked, modify, ret.
    cbn [world tracker heap sets trackedEntities entityProxies].
    destruct (te_isDeleted tracked) eqn:Hdel;
      (eexists; split; [reflexivity |]).
    + intros Hnd.
      assert (JsMap.get (JsMap.delete
                           (JsMap.set (trackedEntities (tracker s)) (createKey entity id)
                              {| te_entity := te_entity tracked; te_id := te_id tracked;
                                 te_data := te_data tracked; te_proxy := te_proxy tracked;
                                 te_originalData := copy; te_isNew := false;
                                 te_isDeleted := true;
                                 te_changedFields := te_changedFields tracked |})
                           (createKey entity id)) (createKey entity id) = None) as Hgone.
      { apply JsMap_get_delete_eq. now rewrite (JsMap_keys_set _ _ _ _ Hget). }
      unfold hasChanges. cbn [world tracker heap sets trackedEntities entityProxies].
      now rewrite Hgone.
    + unfold hasChanges, getChangedFields, track, bind, gets.
      cbn [world tracker heap sets trackedEntities entityProxies].
      rewrite JsMap_get_set_eq.
      cbn [te_isNew te_isDeleted te_changedFields te_proxy].
      unfold set_elements. cbn [sets].
      rewrite cleared_set_empty.
      split; [reflexivity |]. split; [reflexivity |]. reflexivity.
Qed.

End TrackerBaselines.

(** The renamed user has a pending change; after [resetChanges] it has
    none. *)
Lemma resetChanges_rebaselines_witness :
  ChangeTracker.hasChanges renamed_profile "User" (IdPrim (PNum 1)) = true /\
  exists s',
    ChangeTracker.resetChanges "User" (IdPrim (PNum 1)) renamed_profile = (Ok tt, s') /\
    ChangeTracker.hasChanges s' "User" (IdPrim (PNum 1)) = false /\
    ChangeTracker.getChangedFields s' "User" (IdPrim (PNum 1)) = [].
Proof.
  split; [reflexivity |].
  destruct (resetChanges_rebaselines "User" (IdPrim (PNum 1)) renamed_profile) as [_ H].
  destruct (H _ eq_refl) as (s' & Hrun & Hhas & Hfields & _).
  exists s'. split; [exact Hrun |]. split; [exact Hhas | exact Hfields].
Defined.
(* ------------------------------------------------------------------ *)
(** ** Deep copies                                                 *)
(* ------------------------------------------------------------------ *)

Section CloneUse.

Lemma resolve_plain fuel h l :
  plain h l -> resolve fuel h l = h !! l.
Proof.
  unfold plain. destruct fuel; cbn [resolve];
    destruct (h !! l) as [[props | elems | obj hd | cf path fn o] |]; tauto.
Qed.

Lemma props_set_fresh acc k v :
  k ∉ map fst acc -> props_set acc k v = acc ++ [(k, v)].
Proof.
  induction acc as [| [k' v'] rest IH]; cbn; [reflexivity |].
  intros Hk. apply not_elem_of_cons in Hk as [Hne Hk].
  rewrite bool_decide_eq_false_2 by congruence. now rewrite IH.
Qed.

Lemma clone_scalar_fields fuel props : forall cloned seen h,
  (forall k v, (k, v) ∈ props -> is_symbol k = false /\ exists p, v = VPrim p) ->
  NoDup (map fst (cloned ++ props)) ->
  fold_left
    (fun acc kv =>
       let '(cloned, seen0, h0) := acc in
       if is_symbol (fst kv) then acc
       else
         let '(x', seen1, h1) := deepClone_ fuel (snd kv) seen0 h0 in
         (props_set cloned (fst kv) x', seen1, h1))
    props (cloned, seen, h)
  = (cloned ++ props, seen, h).
Proof.
  induction props as [| [k v] rest IH]; intros cloned seen h Hflat Hnd; cbn [fold_left].
  - now rewrite app_nil_r.
  - destruct (Hflat k v) as (Hsym & p & ->); [apply elem_of_cons; now left |].
    cbn [fst snd]. rewrite Hsym.
    assert (deepClone_ fuel (VPrim p) seen h = (VPrim p, seen, h)) as ->
      by (destruct fuel; reflexivity).
    rewrite props_set_fresh.
    + rewrite IH.
      * now rewrite <- app_assoc.
      * intros k' v' H. apply Hflat. apply elem_of_cons. now right.
      * now rewrite <- app_assoc.
    + rewrite map_app in Hnd. apply NoDup_app in Hnd as (_ & Hdisj & _).
      intros Hin. apply (Hdisj k Hin). cbn. apply elem_of_cons. now left.
Qed.

Lemma clone_scalar_elements fuel elems : forall cloned seen h,
  (forall v, v ∈ elems -> exists p, v = VPrim p) ->
  fold_left
    (fun acc x =>
       let '(cloned, seen0, h0) := acc in
       let '(x', seen1, h1) := deepClone_ fuel x seen0 h0 in
       (cloned ++ [x'], seen1, h1))
    elems (cloned, seen, h)
  = (cloned ++ elems, seen, h).
Proof.
  induction elems as [| v rest IH]; intros cloned seen h Hflat; cbn [fold_left].
  - now rewrite app_nil_r.
  - destruct (Hflat v) as (p & ->); [apply elem_of_cons; now left |].
    assert (deepClone_ fuel (VPrim p) seen h = (VPrim p, seen, h)) as ->
      by (destruct fuel; reflexivity).
    rewrite IH; [now rewrite <- app_assoc |].
    intros v' H. apply Hflat. apply elem_of_cons. now right.
Qed.

(** Property X17.  [deepClone] never touches what exists: every
    cell and every set of changed fields is as before, whatever is
    copied.  A scalar is returned as it is.  An object whose fields are
    scalars (under distinct string keys), or an array of scalars, is
    copied into one new cell holding the same fields or elements. *)
Theorem deepClone_copies (w : World) :
  (forall v, exists copy w',
     deepClone v w = (Ok copy, w') /\ sets w' = sets w /\
     preserves (heap w) (heap w')) /\
  (forall p, deepClone (VPrim p) w = (Ok (VPrim p), w)) /\
  (forall l props,
     heap w !! l = Some (Obj props) ->
     (forall k v, (k, v) ∈ props -> is_symbol k = false /\ exists p, v = VPrim p) ->
     NoDup (map fst props) ->
     deepClone (VRef l) w
     = (Ok (VRef (length (heap w))),
        {| heap := heap w ++ [Obj props]; sets := sets w |})) /\
  (forall l elems,
     heap w !! l = Some (Arr elems) ->
     (forall v, v ∈ elems -> exists p, v = VPrim p) ->
     deepClone (VRef l) w
     = (Ok (VRef (length (heap w))),
        {| heap := heap w ++ [Arr elems]; sets := sets w |})).
Proof.
  split; [intros v; apply deepClone_spec |]. split; [| split].
  - intros p. unfold deepClone. cbn. now destruct w.
  - intros l props Hl Hflat Hnd. unfold deepClone. cbn [deepClone_ seen_get].
    rewrite resolve_plain by (unfold plain; now rewrite Hl). rewrite Hl.
    rewrite (clone_scalar_fields _ props [] _ _ Hflat Hnd). cbn [app].
    do 2 f_equal. rewrite insert_app_r_alt by lia.
    now rewrite Nat.sub_diag.
  - intros l elems Hl Hflat. unfold deepClone. cbn [deepClone_ seen_get].
    rewrite resolve_plain by (unfold plain; now rewrite Hl). rewrite Hl.
    rewrite (clone_scalar_elements _ elems [] _ _ Hflat). cbn [app].
    do 2 f_equal. rewrite insert_app_r_alt by lia.
    now rewrite Nat.sub_diag.
Qed.

End CloneUse.

(** Cloning the profile object of the sample user: one new cell with
    the same field. *)
Lemma deepClone_copies_witness :
  deepClone (VRef 1%nat) {| heap := profile_cells; sets := [] |}
  = (Ok (VRef 3%nat),
     {| heap := profile_cells ++ [Obj [(KStr "bio", VStr "hello")]]; sets := [] |}).
Proof.
  destruct (deepClone_copies {| heap := profile_cells; sets := [] |}) as (_ & _ & H & _).
  apply (H 1%nat [(KStr "bio", VStr "hello")]).
  - reflexivity.
  - intros k v Hin. apply list_elem_of_singleton in Hin. injection Hin as -> ->.
    split; [reflexivity | now exists (PStr "hello")].
  - apply NoDup_singleton.
Defined.
(* ------------------------------------------------------------------ *)
(** ** Unit of work: refusals                                          *)
(* ------------------------------------------------------------------ *)

Section UnitOfWorkRefusals.

Import UnitOfWork.

Lemma ensureActive_closed s : isActive s = false -> ensureActive s = (Throw UnitOfWorkClosed, s).
Proof. intros H. unfold ensureActive, bind, gets. now rewrite H. Qed.

Lemma closed_rejects {A} (k : M State A) s :
  isActive s = false -> (ensureActive ;;; k) s = (Throw UnitOfWorkClosed, s).
Proof. intros H. unfold bind. now rewrite (ensureActive_closed s H). Qed.

(** [close] always returns; afterwards the
    unit of work holds no pending change, has sent nothing more, and
    [get], [create], [delete], [persist] and [commit] all throw
    "Unit of Work has been closed" and leave it as it is.  Closing it
    again changes nothing. *)
Lemma close_then_rejects (s : State) :
  exists s',
    close s = (Ok tt, s') /\
    isActive s' = false /\
    getChanges s' = [] /\
    issued s' = issued s /\
    (forall entity_ id data, get entity_ id data s' = (Throw UnitOfWorkClosed, s')) /\
    (forall entity_ data, create entity_ data s' = (Throw UnitOfWorkClosed, s')) /\
    (forall entity_ id, delete entity_ id s' = (Throw UnitOfWorkClosed, s')) /\
    (forall entity_ instance,
       persist entity_ instance s' = (Throw UnitOfWorkClosed, s')) /\
    commit s' = (Throw UnitOfWorkClosed, s') /\
    close s' = (Ok tt, s').
Proof.
  eexists. split; [reflexivity |]. cbn.
  repeat split; intros; apply closed_rejects; reflexivity.
Qed.

(** What a look-up leaves behind: the same unit of work when the
    registry holds no dead reference for the id, and in any case one
    that holds the same instances. *)
Lemma after_lookup_same s entity_ id :
  ((forall k, entry_key s entity_ id = Some k ->
              k ∉ IdentityMap.collected (identityMap s)) ->
   after_lookup s entity_ id = s) /\
  (forall e2 i2,
     registered_instance (after_lookup s entity_ id) e2 i2 = registered_instance s e2 i2) /\
  getChanges (after_lookup s entity_ id) = getChanges s /\
  issued (after_lookup s entity_ id) = issued s.
Proof.
  unfold after_lookup, entry_key, IdentityMap.key_object.
  destruct (IdentityMap.createCompositeKey entity_ id) as [ck |] eqn:Hck;
    [| repeat split; reflexivity].
  split; [| split; [| split; reflexivity]].
  - intros Hlive. unfold IdentityMap.swept.
    destruct (IdentityMap.maps (identityMap s) !! entity_);
      [| apply with_identityMap_same].
    destruct (IdentityMap.keyRegistry (identityMap s) !! ck) as [k |];
      [| apply with_identityMap_same].
    rewrite bool_decide_eq_false_2 by now apply Hlive.
    apply with_identityMap_same.
  - intros e2 i2. unfold registered_instance. cbn [identityMap with_identityMap].
    destruct (IdentityMap.createCompositeKey e2 i2) as [ck2 |]; [| reflexivity].
    apply swept_lookup.
Qed.

(** Property X19.  An open unit of work refuses, and stays as it is:
    [create] and [persist] of a kind that was never registered;
    [commit] before a connection is set; [delete] of an entity it does
    not hold, but for the dead weak reference that the look-up may
    drop from the registry of the identity map; and [delete] of an
    entity it holds but does not track.
    [close] always returns; afterwards no change is pending, nothing
    more has been sent, and [get], [create], [delete], [persist] and
    [commit] all throw "Unit of Work has been closed" and leave the unit
    of work as it is; closing it again changes nothing. *)
Theorem unit_of_work_refusals (s : State) :
  isActive s = true ->
  (forall entity_ data,
     entityMetadata s !! entity_ = None ->
     create entity_ data s = (Throw (UnregisteredEntityKind entity_), s) /\
     persist entity_ data s = (Throw (UnregisteredEntityKind entity_), s)) /\
  (connection s = None -> commit s = (Throw NoConnection, s)) /\
  (forall entity_ id,
     ~ IdentityMap.null_id id ->
     registered_instance s entity_ id = None ->
     delete entity_ id s = (Throw (NotLoaded entity_), after_lookup s entity_ id) /\
     ((forall k, entry_key s entity_ id = Some k ->
                 k ∉ IdentityMap.collected (identityMap s)) ->
      after_lookup s entity_ id = s) /\
     (forall e2 i2,
        registered_instance (after_lookup s entity_ id) e2 i2
        = registered_instance s e2 i2) /\
     getChanges (after_lookup s entity_ id) = getChanges s /\
     issued (after_lookup s entity_ id) = issued s) /\
  (forall entity_ id r,
     registered_instance s entity_ id = Some r ->
     JsMap.get (ChangeTracker.trackedEntities (changeTracker s))
       (ChangeTracker.createKey entity_ id) = None ->
     delete entity_ id s = (Throw (NotTracked entity_), s)) /\
  exists s',
    close s = (Ok tt, s') /\
    isActive s' = false /\
    getChanges s' = [] /\
    issued s' = issued s /\
    (forall entity_ id data, get entity_ id data s' = (Throw UnitOfWorkClosed, s')) /\
    (forall entity_ data, create entity_ data s' = (Throw UnitOfWorkClosed, s')) /\
    (forall entity_ id, delete entity_ id s' = (Throw UnitOfWorkClosed, s')) /\
    (forall entity_ instance,
       persist entity_ instance s' = (Throw UnitOfWorkClosed, s')) /\
    commit s' = (Throw UnitOfWorkClosed, s') /\
    close s' = (Ok tt, s').
Proof.
  intros Hact. split; [| split; [| split; [| split; [| apply close_then_rejects]]]].
  - intros entity_ data Hmeta. unfold create, persist.
    rewrite !(bind_ok _ _ _ _ _ (ensureActive_ok s Hact)).
    unfold bind, gets. now rewrite Hmeta.
  - intros Hconn. unfold commit.
    rewrite (bind_ok _ _ _ _ _ (ensureActive_ok s Hact)).
    unfold bind, gets. now rewrite Hconn.
  - intros entity_ id Hnn Hreg. split; [| apply after_lookup_same].
    destruct (non_null_key entity_ id Hnn) as (ck & Hck).
    unfold registered_instance in Hreg. rewrite Hck in Hreg.
    unfold delete, after_lookup. rewrite Hck.
    rewrite (bind_ok _ _ _ _ _ (ensureActive_ok s Hact)).
    rewrite (bind_ok _ _ _ _ _
               (in_identityMap_eq _ _ _ _ (has_eq entity_ id (identityMap s) ck Hck))).
    rewrite Hreg. reflexivity.
  - intros entity_ id r Hreg Huntracked. unfold registered_instance in Hreg.
    destruct (IdentityMap.createCompositeKey entity_ id) as [ck |] eqn:Hck;
      [| discriminate].
    unfold delete.
    rewrite (bind_ok _ _ _ _ _ (ensureActive_ok s Hact)).
    rewrite (bind_ok _ _ _ _ _
               (in_identityMap_eq _ _ _ _ (has_eq entity_ id (identityMap s) ck Hck))).
    rewrite Hreg, (swept_found _ _ _ _ Hreg), with_identityMap_same.
    cbn [is_Some_dec bool_decide].
    unfold bind, in_tracker, ChangeTracker.markDeleted, bind, gets.
    cbn [tracker_state ChangeTracker.tracker]. rewrite Huntracked.
    unfold throw. cbn. now destruct s.
Qed.

End UnitOfWorkRefusals.

(** A unit of work without change tracking that has loaded user 1:
    orders are not registered, no connection is set, user 2 is not
    loaded, and user 1 is loaded but not tracked. *)
Lemma unit_of_work_refusals_witness :
  UnitOfWork.isActive loaded_untracked = true /\
  UnitOfWork.create "Order" 0%nat loaded_untracked
  = (Throw (UnregisteredEntityKind "Order"), loaded_untracked) /\
  UnitOfWork.commit loaded_untracked = (Throw NoConnection, loaded_untracked) /\
  UnitOfWork.delete "User" (IdPrim (PNum 2)) loaded_untracked
  = (Throw (NotLoaded "User"), loaded_untracked) /\
  UnitOfWork.delete "User" (IdPrim (PNum 1)) loaded_untracked
  = (Throw (NotTracked "User"), loaded_untracked).
Proof.
  destruct (unit_of_work_refusals loaded_untracked eq_refl) as (H1 & H2 & H3 & H4 & _).
  split; [reflexivity |].
  split; [apply (H1 "Order" 0%nat); vm_compute; reflexivity |].
  split; [apply H2; reflexivity |].
  split.
  - destruct (H3 "User" (IdPrim (PNum 2))) as (Hrun & _);
      [intros [H | H]; discriminate | vm_compute; reflexivity |].
    rewrite Hrun. reflexivity.
  - apply (H4 "User" (IdPrim (PNum 1)) 0%nat); vm_compute; reflexivity.
Defined.
(* ------------------------------------------------------------------ *)
(** ** Unit of work: a successful commit                               *)
(* ------------------------------------------------------------------ *)

Section FilingFacts.

Import ChangeTracker.

Lemma elem_of_map {A B} (f : A -> B) (l : list A) (y : B) :
  y ∈ map f l <-> exists x, y = f x /\ x ∈ l.
Proof.
  rewrite list_elem_of_In, in_map_iff. split; intros (x & H1 & H2); exists x.
  - split; [congruence | now apply list_elem_of_In].
  - split; [congruence | now apply list_elem_of_In].
Qed.

Lemma JsMap_elem_get {V} (m : JsMap.t V) k v :
  JsMap.get m k = Some v -> (k, v) ∈ m.
Proof.
  induction m as [| [k' v'] m IH]; cbn; [discriminate |].
  destruct (String.eqb_spec k' k) as [-> | Hk].
  - intros [= ->]. apply elem_of_cons. now left.
  - intros H. apply elem_of_cons. right. now apply IH.
Qed.

Lemma JsMap_get_elem {V} (m : JsMap.t V) k v :
  NoDup (JsMap.keys m) -> (k, v) ∈ m -> JsMap.get m k = Some v.
Proof.
  unfold JsMap.keys. induction m as [| [k' v'] m IH]; cbn.
  - intros _ H. now apply elem_of_nil in H.
  - intros Hnd H. apply NoDup_cons in Hnd as [Hnotin Hnd].
    apply elem_of_cons in H as [[= -> ->] | H].
    + now rewrite String.eqb_refl.
    + destruct (String.eqb_spec k' k) as [-> | Hk]; [| now apply IH].
      exfalso. apply Hnotin. apply elem_of_map. now exists (k, v).
Qed.

Lemma JsMap_elem_set {V} (m : JsMap.t V) k v k' v' :
  (k', v') ∈ JsMap.set m k v -> (k', v') = (k, v) \/ (k', v') ∈ m.
Proof.
  induction m as [| [k0 v0] m IH]; cbn.
  - intros H. apply list_elem_of_singleton in H. now left.
  - destruct (String.eqb_spec k0 k) as [-> | Hk]; intros H;
      apply elem_of_cons in H as [H | H].
    + now left.
    + right. apply elem_of_cons. now right.
    + right. apply elem_of_cons. now left.
    + destruct (IH H) as [Heq | Hin]; [now left |]. right. apply elem_of_cons. now right.
Qed.

Lemma JsMap_elem_delete {V} (m : JsMap.t V) k k' v' :
  (k', v') ∈ JsMap.delete m k -> (k', v') ∈ m.
Proof.
  induction m as [| [k0 v0] m IH]; cbn; [tauto |].
  destruct (String.eqb_spec k0 k) as [-> | Hk]; intros H.
  - apply elem_of_cons. now right.
  - apply elem_of_cons in H as [H | H]; apply elem_of_cons; [now left |].
    right. now apply IH.
Qed.

Lemma JsMap_keys_delete {V} (m : JsMap.t V) k :
  NoDup (JsMap.keys m) -> NoDup (JsMap.keys (JsMap.delete m k)).
Proof.
  unfold JsMap.keys. induction m as [| [k0 v0] m IH]; cbn; [tauto |].
  intros Hnd. apply NoDup_cons in Hnd as [Hnotin Hnd].
  destruct (String.eqb_spec k0 k) as [-> | Hk]; [exact Hnd |].
  cbn. apply NoDup_cons. split; [| now apply IH].
  intros Hin. apply Hnotin. apply elem_of_map in Hin as ([k1 v1] & -> & Hin).
  apply JsMap_elem_delete in Hin. apply elem_of_map. now exists (k1, v1).
Qed.

Lemma filed_set m k tracked tracked' :
  filed m -> JsMap.get m k = Some tracked ->
  te_entity tracked' = te_entity tracked -> te_id tracked' = te_id tracked ->
  filed (JsMap.set m k tracked').
Proof.
  intros [Hnd Hkey] Hget He Hi. split.
  - now rewrite (JsMap_keys_set _ _ _ _ Hget).
  - intros k0 t0 Hin. apply JsMap_elem_set in Hin as [[= -> ->] | Hin].
    + rewrite He, Hi. apply Hkey. now apply JsMap_elem_get.
    + now apply Hkey.
Qed.

Lemma filed_delete m k : filed m -> filed (JsMap.delete m k).
Proof.
  intros [Hnd Hkey]. split; [now apply JsMap_keys_delete |].
  intros k0 t0 Hin. apply Hkey. now apply JsMap_elem_delete in Hin.
Qed.

Lemma settled_change_of w tracked : settled w tracked <-> change_of w tracked = [].
Proof.
  unfold settled, change_of.
  destruct (te_isDeleted tracked), (te_isNew tracked); try (split; [intuition congruence | discriminate]).
  destruct (set_elements w (te_changedFields tracked)); cbn; split; try discriminate; intuition congruence.
Qed.

Lemma same_subject_refl a : same_subject a a.
Proof. repeat split. Qed.

Lemma rebaselined_refl s : rebaselined s s.
Proof.
  split; [apply preserves_refl |]. split; [now right |].
  intros k. destruct (JsMap.get _ k); [| exact I]. split; [apply same_subject_refl | tauto].
Qed.

Lemma rebaselined_trans s1 s2 s3 :
  rebaselined s1 s2 -> rebaselined s2 s3 -> rebaselined s1 s3.
Proof.
  intros (Hp1 & Hs1 & Hm1) (Hp2 & Hs2 & Hm2).
  split; [eapply preserves_trans; eassumption |]. split.
  - intros cf. destruct (Hs2 cf) as [H | H]; [now left |]. rewrite H. apply Hs1.
  - intros k. specialize (Hm1 k). specialize (Hm2 k).
    destruct (JsMap.get (trackedEntities (tracker s1)) k) as [a |],
             (JsMap.get (trackedEntities (tracker s2)) k) as [b |],
             (JsMap.get (trackedEntities (tracker s3)) k) as [c |]; try tauto.
    + destruct Hm1 as [(E1 & I1 & D1 & P1 & X1 & C1) N1],
               Hm2 as [(E2 & I2 & D2 & P2 & X2 & C2) N2].
      split; [| tauto]. unfold same_subject. repeat split; congruence.
    + destruct Hm1 as [(E1 & I1 & D1 & P1 & X1 & C1) N1]. congruence.
Qed.

(** One [resetChanges]: a re-baselining that keeps the filing and
    leaves nothing pending under the key. *)
Lemma resetChanges_step entity id s :
  filed (trackedEntities (tracker s)) ->
  exists s',
    resetChanges entity id s = (Ok tt, s') /\
    rebaselined s s' /\
    filed (trackedEntities (tracker s')) /\
    match JsMap.get (trackedEntities (tracker s')) (createKey entity id) with
    | Some tracked => settled (world s') tracked
    | None => True
    end.
Proof.
  intros Hfiled. unfold resetChanges, bind at 1, gets.
  destruct (JsMap.get (trackedEntities (tracker s)) (createKey entity id))
    as [tracked |] eqn:Hget.
  2:{ exists s. split; [reflexivity |]. split; [apply rebaselined_refl |].
      split; [exact Hfiled |]. now rewrite Hget. }
  destruct (deepClone_spec (VRef (te_data tracked)) (world s))
    as (copy & w1 & Hclone & Hsets & Hpres).
  unfold bind at 1, in_world at 1. rewrite Hclone.
  unfold bind, in_world, set_clear, with_tracked, modify, ret.
  cbn [world tracker heap sets trackedEntities entityProxies].
  set (tracked' := {| te_entity := te_entity tracked; te_id := te_id tracked;
                      te_data := te_data tracked; te_proxy := te_proxy tracked;
                      te_originalData := copy; te_isNew := false;
                      te_isDeleted := te_isDeleted tracked;
                      te_changedFields := te_changedFields tracked |}).
  assert (Hfiled' : filed (JsMap.set (trackedEntities (tracker s)) (createKey entity id)
                             tracked'))
    by (eapply filed_set; [exact Hfiled | exact Hget | reflexivity | reflexivity]).
  assert (Hsetsprop : forall cf,
             default [] (<[te_changedFields tracked := []]> (sets w1) !! cf) = []
             \/ default [] (<[te_changedFields tracked := []]> (sets w1) !! cf)
                = set_elements (world s) cf).
  { intros cf. destruct (decide (cf = te_changedFields tracked)) as [-> | Hne].
    - left. apply cleared_set_empty.
    - right. rewrite list_lookup_insert_ne by congruence. unfold set_elements.
      now rewrite Hsets. }
  destruct (te_isDeleted tracked) eqn:Hdel; (eexists; split; [reflexivity |]);
    cbn [world tracker heap sets trackedEntities entityProxies].
  - assert (Hgone : JsMap.get (JsMap.delete (JsMap.set (trackedEntities (tracker s))
                                   (createKey entity id) tracked') (createKey entity id))
                      (createKey entity id) = None)
      by (apply JsMap_get_delete_eq; apply Hfiled').
    split; [| split; [now apply filed_delete | now rewrite Hgone]].
    split; [exact Hpres |]. split; [exact Hsetsprop |].
    cbn [world tracker heap sets trackedEntities entityProxies].
    intros k. destruct (decide (createKey entity id = k)) as [<- | Hne].
    + now rewrite Hget, Hgone.
    + rewrite JsMap_get_delete_ne, JsMap_get_set_ne by exact Hne.
      destruct (JsMap.get _ k); [| exact I]. split; [apply same_subject_refl | tauto].
  - split; [| split; [exact Hfiled' |]].
    + split; [exact Hpres |]. split; [exact Hsetsprop |].
      cbn [world tracker heap sets trackedEntities entityProxies].
      intros k. destruct (decide (createKey entity id = k)) as [<- | Hne].
      * rewrite Hget, JsMap_get_set_eq. split; [| discriminate].
        unfold same_subject, tracked'. cbn. repeat split; congruence.
      * rewrite JsMap_get_set_ne by exact Hne.
        destruct (JsMap.get _ k); [| exact I]. split; [apply same_subject_refl | tauto].
    + rewrite JsMap_get_set_eq. unfold settled, tracked', set_elements. cbn.
      rewrite cleared_set_empty. repeat split; congruence.
Qed.

(** What is settled stays settled through re-baselining. *)
Lemma settled_rebaselined s s' k :
  rebaselined s s' ->
  match JsMap.get (trackedEntities (tracker s)) k with
  | Some tracked => settled (world s) tracked
  | None => True
  end ->
  match JsMap.get (trackedEntities (tracker s')) k with
  | Some tracked => settled (world s') tracked
  | None => True
  end.
Proof.
  intros (_ & Hs & Hm) H. specialize (Hm k).
  destruct (JsMap.get (trackedEntities (tracker s)) k) as [a |],
           (JsMap.get (trackedEntities (tracker s')) k) as [b |]; try tauto.
  destruct Hm as [(E & I & D & P & X & C) N], H as (Hn & Hd & Hc).
  split; [| split].
  - destruct (te_isNew b); [| reflexivity]. now rewrite N in Hn.
  - congruence.
  - rewrite C. destruct (Hs (te_changedFields a)) as [H | H]; congruence.
Qed.

End FilingFacts.
Section EvictionFacts.

Import IdentityMap.

(** [delete] touches no other composite key, registers nothing, and
    keeps distinct keys distinct. *)
Lemma delete_frame e1 id1 im r im' :
  delete e1 id1 im = (r, im') ->
  (forall e2 ck2, lookup_instance im e2 ck2 = None -> lookup_instance im' e2 ck2 = None) /\
  (distinct_keys im ->
   distinct_keys im' /\
   forall e2 ck2, createCompositeKey e1 id1 <> Ok ck2 ->
                  lookup_instance im' e2 ck2 = lookup_instance im e2 ck2).
Proof.
  unfold lookup_instance, distinct_keys. destruct im as [ms reg ewr nk col]. im_unfold.
  destruct (ms !! e1) as [m |] eqn:Hm; im_simpl.
  2:{ intros [= <- <-]. im_simpl. split; auto. }
  destruct (createCompositeKey e1 id1) as [ck1 | err] eqn:Hck; im_simpl.
  2:{ intros [= <- <-]. im_simpl. split; auto. }
  destruct (reg !! ck1) as [k1 |] eqn:Hk1; im_simpl.
  2:{ intros [= <- <-]. im_simpl. split; auto. }
  destruct (bool_decide (k1 ∈ col)) eqn:Hdead; im_simpl.
  { intros [= <- <-]. im_simpl. split.
    - intros e2 ck2. destruct (decide (ck1 = ck2)) as [<- | Hne].
      + rewrite lookup_delete_eq. intros _. now destruct (_ !! e2).
      + now rewrite lookup_delete_ne.
    - intros Hinj. split.
      + intros ck ck' k H1 H2. apply lookup_delete_Some in H1 as [_ H1].
        apply lookup_delete_Some in H2 as [_ H2]. eapply Hinj; eassumption.
      + intros e2 ck2 Hne. assert (ck1 <> ck2) as Hne' by congruence.
        now rewrite lookup_delete_ne. }
  intros [= <- <-]. im_simpl. split.
  - intros e2 ck2. destruct (decide (ck1 = ck2)) as [<- | Hne].
    + rewrite lookup_delete_eq. intros _. now destruct (_ !! e2).
    + rewrite lookup_delete_ne by exact Hne.
      destruct (decide (e1 = e2)) as [<- | He].
      * rewrite lookup_insert_eq, Hm. destruct (reg !! ck2) as [k2 |]; [| tauto].
        destruct (bool_decide (k2 ∈ col)); [tauto |].
        destruct (decide (k1 = k2)) as [<- | Hk].
        -- now rewrite lookup_delete_eq.
        -- now rewrite lookup_delete_ne.
      * now rewrite lookup_insert_ne.
  - intros Hinj. split.
    + intros ck ck' k H1 H2. apply lookup_delete_Some in H1 as [_ H1].
      apply lookup_delete_Some in H2 as [_ H2]. eapply Hinj; eassumption.
    + intros e2 ck2 Hne. assert (ck1 <> ck2) as Hne' by congruence.
      rewrite lookup_delete_ne by exact Hne'.
      destruct (decide (e1 = e2)) as [<- | He].
      * rewrite lookup_insert_eq, Hm. destruct (reg !! ck2) as [k2 |] eqn:Hk2; [| tauto].
        rewrite lookup_delete_ne; [reflexivity |].
        intros <-. apply Hne'. eapply Hinj; eassumption.
      * now rewrite lookup_insert_ne.
Qed.

End EvictionFacts.
Section DistinctKeysCheck.

Import IdentityMap.

Lemma NoDup_fmap_eq {A B} (f : A -> B) (l : list A) x y :
  NoDup (f <$> l) -> x ∈ l -> y ∈ l -> f x = f y -> x = y.
Proof.
  induction l as [| a l IH]; cbn; intros Hnd Hx Hy Hf.
  - now apply elem_of_nil in Hx.
  - apply NoDup_cons in Hnd as [Hnotin Hnd].
    apply elem_of_cons in Hx as [-> | Hx]; apply elem_of_cons in Hy as [-> | Hy].
    + reflexivity.
    + exfalso. apply Hnotin. rewrite Hf. now apply list_elem_of_fmap_2.
    + exfalso. apply Hnotin. rewrite <- Hf. now apply list_elem_of_fmap_2.
    + now apply IH.
Qed.

(** A check of [distinct_keys] on a given registry. *)
Lemma distinct_keys_check im :
  NoDup ((map_to_list (keyRegistry im)).*2) -> distinct_keys im.
Proof.
  intros Hnd ck ck' k H1 H2.
  apply elem_of_map_to_list in H1, H2.
  now pose proof (NoDup_fmap_eq snd _ _ _ Hnd H1 H2 eq_refl) as [= ->].
Qed.

End DistinctKeysCheck.
Section CommitSuccess.

Import UnitOfWork.

Lemma prefix_preserves (h h' : list cell) : h `prefix_of` h' -> preserves h h'.
Proof.
  intros [k ->]. split; [rewrite length_app; lia |].
  intros l Hl. now rewrite lookup_app_l.
Qed.

Lemma change_of_subject w tracked c :
  c ∈ ChangeTracker.change_of w tracked ->
  ChangeTracker.entity c = ChangeTracker.te_entity tracked /\
  ChangeTracker.id c = ChangeTracker.te_id tracked /\
  (ChangeTracker.type c = ChangeTracker.deleted
   <-> ChangeTracker.te_isDeleted tracked = true).
Proof.
  unfold ChangeTracker.change_of.
  destruct (ChangeTracker.te_isDeleted tracked);
    [| destruct (ChangeTracker.te_isNew tracked);
       [| destruct (0 <? _)%nat; [| intros H; now apply elem_of_nil in H]]];
    intros H; apply list_elem_of_singleton in H; subst c; cbn;
    (split; [reflexivity |]); (split; [reflexivity |]); split; congruence.
Qed.

Lemma getChanges_elem s c :
  c ∈ getChanges s ->
  exists k tracked,
    (k, tracked) ∈ ChangeTracker.trackedEntities (changeTracker s) /\
    c ∈ ChangeTracker.change_of (world s) tracked.
Proof.
  unfold getChanges, ChangeTracker.getChanges, JsMap.values.
  cbn [tracker_state ChangeTracker.tracker ChangeTracker.world].
  rewrite list_elem_of_In, in_flat_map. intros (tracked & Hin & Hc).
  apply list_elem_of_In, elem_of_map in Hin as ([k t0] & -> & Hin).
  exists k, t0. split; [exact Hin | now apply list_elem_of_In].
Qed.

(** The bookkeeping for one committed change. *)
Lemma reset_committed_step c s r s' :
  reset_committed c s = (r, s') ->
  filed (ChangeTracker.trackedEntities (changeTracker s)) ->
  rebaselined (tracker_state s) (tracker_state s') /\
  filed (ChangeTracker.trackedEntities (changeTracker s')) /\
  match JsMap.get (ChangeTracker.trackedEntities (changeTracker s'))
          (ChangeTracker.createKey (ChangeTracker.entity c) (ChangeTracker.id c)) with
  | Some tracked => settled (world s') tracked
  | None => True
  end /\
  (forall e ck, IdentityMap.lookup_instance (identityMap s) e ck = None ->
                IdentityMap.lookup_instance (identityMap s') e ck = None) /\
  (r = Ok tt -> ChangeTracker.type c = ChangeTracker.deleted ->
   registered_instance s' (ChangeTracker.entity c) (ChangeTracker.id c) = None) /\
  (IdentityMap.distinct_keys (identityMap s) ->
   IdentityMap.distinct_keys (identityMap s') /\
   forall e ck,
     (ChangeTracker.type c = ChangeTracker.deleted ->
      IdentityMap.createCompositeKey (ChangeTracker.entity c) (ChangeTracker.id c)
      <> Ok ck) ->
     IdentityMap.lookup_instance (identityMap s') e ck
     = IdentityMap.lookup_instance (identityMap s) e ck).
Proof.
  intros Hrun Hfiled.
  destruct (resetChanges_step (ChangeTracker.entity c) (ChangeTracker.id c)
              (tracker_state s) Hfiled) as (ts & Hreset & Hreb & Hfiled' & Hset).
  revert Hrun. unfold reset_committed.
  rewrite (bind_ok _ _ _ _ _ (in_tracker_eq _ _ _ _ Hreset)).
  case_bool_decide as Htype.
  - unfold bind at 1.
    destruct (IdentityMap.delete (ChangeTracker.entity c) (ChangeTracker.id c)
                (identityMap s)) as [rd im2] eqn:Hdel.
    assert (in_identityMap
              (IdentityMap.delete (ChangeTracker.entity c) (ChangeTracker.id c))
              (with_tracker_state ts s)
            = (rd, with_identityMap im2 (with_tracker_state ts s))) as ->
      by (apply in_identityMap_eq; exact Hdel).
    destruct (delete_frame _ _ _ _ _ Hdel) as (Hnone & Hframe).
    assert (Hgoal : forall r0,
               (r0 = Ok tt -> exists b, rd = Ok b) ->
               rebaselined (tracker_state s)
                 (tracker_state (with_identityMap im2 (with_tracker_state ts s))) /\
               filed (ChangeTracker.trackedEntities
                        (changeTracker (with_identityMap im2 (with_tracker_state ts s)))) /\
               match JsMap.get (ChangeTracker.trackedEntities
                        (changeTracker (with_identityMap im2 (with_tracker_state ts s))))
                       (ChangeTracker.createKey (ChangeTracker.entity c)
                          (ChangeTracker.id c)) with
               | Some tracked =>
                   settled (world (with_identityMap im2 (with_tracker_state ts s))) tracked
               | None => True
               end /\
               (forall e ck, IdentityMap.lookup_instance (identityMap s) e ck = None ->
                  IdentityMap.lookup_instance
                    (identityMap (with_identityMap im2 (with_tracker_state ts s))) e ck
                  = None) /\
               (r0 = Ok tt -> ChangeTracker.type c = ChangeTracker.deleted ->
                registered_instance (with_identityMap im2 (with_tracker_state ts s))
                  (ChangeTracker.entity c) (ChangeTracker.id c) = None) /\
               (IdentityMap.distinct_keys (identityMap s) ->
                IdentityMap.distinct_keys
                  (identityMap (with_identityMap im2 (with_tracker_state ts s))) /\
                forall e ck,
                  (ChangeTracker.type c = ChangeTracker.deleted ->
                   IdentityMap.createCompositeKey (ChangeTracker.entity c)
                     (ChangeTracker.id c) <> Ok ck) ->
                  IdentityMap.lookup_instance
                    (identityMap (with_identityMap im2 (with_tracker_state ts s))) e ck
                  = IdentityMap.lookup_instance (identityMap s) e ck)).
    { intros r0 Hr0.
      cbn [with_identityMap with_tracker_state identityMap changeTracker world
           tracker_state ChangeTracker.world ChangeTracker.tracker].
      split; [destruct ts as [w [m ps]]; exact Hreb |].
      split; [exact Hfiled' |]. split; [exact Hset |]. split; [exact Hnone |].
      split.
      - intros -> _. unfold registered_instance. cbn [identityMap with_identityMap].
        destruct (IdentityMap.createCompositeKey (ChangeTracker.entity c)
                    (ChangeTracker.id c)) as [ck | err] eqn:Hck; [| reflexivity].
        destruct (delete_eq _ _ (identityMap s) ck Hck) as (im0 & Hdel0 & Hgone & _).
        rewrite Hdel0 in Hdel. now injection Hdel as _ <-.
      - intros Hinj. destruct (Hframe Hinj) as [Hinj' Hother].
        split; [exact Hinj' |]. intros e ck Hne. apply Hother. now apply Hne. }
    destruct rd as [b | err]; intros [= <- <-]; apply Hgoal.
    + intros _. now exists b.
    + discriminate.
  - intros [= <- <-].
    cbn [with_identityMap with_tracker_state identityMap changeTracker world
         tracker_state ChangeTracker.world ChangeTracker.tracker].
    split; [destruct ts as [w [m ps]]; exact Hreb |].
    split; [exact Hfiled' |]. split; [exact Hset |]. split; [tauto |].
    split; [intros _ H; contradiction |]. intros Hinj. split; [exact Hinj | reflexivity].
Qed.

(** The bookkeeping for all of them. *)
Lemma reset_phase_settles changes : forall s s',
  for_each changes reset_committed s = (Ok tt, s') ->
  filed (ChangeTracker.trackedEntities (changeTracker s)) ->
  rebaselined (tracker_state s) (tracker_state s') /\
  filed (ChangeTracker.trackedEntities (changeTracker s')) /\
  (forall c, c ∈ changes ->
     match JsMap.get (ChangeTracker.trackedEntities (changeTracker s'))
             (ChangeTracker.createKey (ChangeTracker.entity c) (ChangeTracker.id c)) with
     | Some tracked => settled (world s') tracked
     | None => True
     end) /\
  (forall e ck, IdentityMap.lookup_instance (identityMap s) e ck = None ->
                IdentityMap.lookup_instance (identityMap s') e ck = None) /\
  (forall c, c ∈ changes -> ChangeTracker.type c = ChangeTracker.deleted ->
     registered_instance s' (ChangeTracker.entity c) (ChangeTracker.id c) = None) /\
  (IdentityMap.distinct_keys (identityMap s) ->
   forall e ck,
     (forall c, c ∈ changes -> ChangeTracker.type c = ChangeTracker.deleted ->
        IdentityMap.createCompositeKey (ChangeTracker.entity c) (ChangeTracker.id c)
        <> Ok ck) ->
     IdentityMap.lookup_instance (identityMap s') e ck
     = IdentityMap.lookup_instance (identityMap s) e ck).
Proof.
  induction changes as [| c rest IH]; intros s s'; cbn [for_each].
  - intros [= <-] Hfiled. split; [apply rebaselined_refl |]. split; [exact Hfiled |].
    split; [intros c H; now apply elem_of_nil in H |]. split; [tauto |].
    split; [intros c H; now apply elem_of_nil in H |]. reflexivity.
  - unfold bind at 1. destruct (reset_committed c s) as [[[] | e] s1] eqn:Hstep;
      [| discriminate].
    intros Hrest Hfiled.
    destruct (reset_committed_step c s _ s1 Hstep Hfiled)
      as (Hreb1 & Hfiled1 & Hset1 & Hnone1 & Hgone1 & Hframe1).
    destruct (IH s1 s' Hrest Hfiled1)
      as (Hreb2 & Hfiled2 & Hset2 & Hnone2 & Hgone2 & Hframe2).
    split; [eapply rebaselined_trans; eassumption |]. split; [exact Hfiled2 |].
    split; [| split; [| split]].
    + intros c0 Hin. apply elem_of_cons in Hin as [-> | Hin]; [| now apply Hset2].
      exact (settled_rebaselined _ _ _ Hreb2 Hset1).
    + intros e ck H. apply Hnone2, Hnone1, H.
    + intros c0 Hin Htype. apply elem_of_cons in Hin as [-> | Hin];
        [| now apply Hgone2].
      specialize (Hgone1 eq_refl Htype). unfold registered_instance in *.
      destruct (IdentityMap.createCompositeKey _ _); [| reflexivity].
      now apply Hnone2.
    + intros Hinj e ck Hne. destruct (Hframe1 Hinj) as [Hinj1 Hother1].
      rewrite (Hframe2 Hinj1 e ck).
      * apply Hother1. intros Htype. apply (Hne c); [apply elem_of_cons; now left | exact Htype].
      * intros c0 Hin. apply Hne. apply elem_of_cons. now right.
Qed.

(** Property X23.  After a successful [commit] nothing
    is pending.  The counts are those of the pending changes; every
    entity that was marked deleted is gone from the identity map and
    the tracker; every other tracked entity is still tracked, under the
    same proxy, with nothing pending; no cell has been overwritten; and
    the identity map still holds every instance that was not deleted. *)
Theorem commit_success_settles s conn res s' :
  isActive s = true ->
  connection s = Some conn ->
  filed (ChangeTracker.trackedEntities (changeTracker s)) ->
  commit s = (Ok res, s') ->
  getChanges s' = [] /\
  res = {| created := creates_of (getChanges s);
           updated := updates_of (getChanges s);
           deleted := deletes_of (getChanges s) |} /\
  (forall c, c ∈ getChanges s -> ChangeTracker.type c = ChangeTracker.deleted ->
     registered_instance s' (ChangeTracker.entity c) (ChangeTracker.id c) = None /\
     JsMap.get (ChangeTracker.trackedEntities (changeTracker s'))
       (ChangeTracker.createKey (ChangeTracker.entity c) (ChangeTracker.id c)) = None) /\
  (forall k tracked,
     JsMap.get (ChangeTracker.trackedEntities (changeTracker s)) k = Some tracked ->
     ChangeTracker.te_isDeleted tracked = false ->
     exists tracked',
       JsMap.get (ChangeTracker.trackedEntities (changeTracker s')) k = Some tracked' /\
       same_subject tracked tracked' /\ settled (world s') tracked') /\
  preserves (heap (world s)) (heap (world s')) /\
  (IdentityMap.distinct_keys (identityMap s) ->
   forall e i,
     (forall c, c ∈ getChanges s -> ChangeTracker.type c = ChangeTracker.deleted ->
        IdentityMap.createCompositeKey (ChangeTracker.entity c) (ChangeTracker.id c)
        <> IdentityMap.createCompositeKey e i) ->
     registered_instance s' e i = registered_instance s e i).
Proof.
  intros Hact Hconn Hfiled Hrun.
  assert (Hloop : exists s1,
             same_entities s s1 /\
             for_each (getChanges s) reset_committed s1 = (Ok tt, s') /\
             res = {| created := creates_of (getChanges s);
                      updated := updates_of (getChanges s);
                      deleted := deletes_of (getChanges s) |}).
  { destruct (decide (getChanges s = [])) as [Hnone | Hchanges].
    - rewrite (commit_nothing s conn Hact Hconn Hnone) in Hrun.
      injection Hrun as <- <-. exists s. rewrite Hnone.
      split; [apply same_entities_refl |]. split; reflexivity.
    - rewrite (commit_eq s conn Hact Hconn Hchanges) in Hrun. revert Hrun.
      unfold try_catch, commit_batch. unfold bind at 1.
      destruct (send_batch conn (getChanges s) s) as [[[] | e] s1] eqn:Hbatch.
      + destruct (send_batch_sends conn _ _ _ _ Hbatch)
          as (D & U & I & c & (Hsame & _) & _).
        unfold bind at 1.
        destruct (for_each (getChanges s) reset_committed s1) as [[[] | e] s2] eqn:Hreset.
        * intros [= <- <-]. exists s1. split; [exact Hsame |]. split; [exact Hreset | reflexivity].
        * unfold bind, query, throw. destruct (conn (issued s2) ROLLBACK); discriminate.
      + unfold bind, query, throw. destruct (conn (issued s1) ROLLBACK); discriminate. }
  destruct Hloop as (s1 & Hsame & Hreset & Hres).
  destruct (same_entities_changes _ _ Hsame) as [Hch1 _].
  destruct Hsame as (Him & Hct & _ & _ & _ & _ & _ & Hsets & Hheap).
  rewrite <- Hct in Hfiled.
  destruct (reset_phase_settles _ _ _ Hreset Hfiled)
    as (Hreb & Hfiled' & Hset & Hnone & Hgone & Hframe).
  pose proof Hreb as (Hpres & Hs & Hm).
  cbn [tracker_state ChangeTracker.world ChangeTracker.tracker] in Hpres, Hs, Hm.
  (* every entity still tracked is settled *)
  assert (Hall : forall k tracked',
             JsMap.get (ChangeTracker.trackedEntities (changeTracker s')) k
             = Some tracked' -> settled (world s') tracked').
  { intros k tracked' Hget'. pose proof (Hm k) as Hk. rewrite Hget' in Hk.
    destruct (JsMap.get (ChangeTracker.trackedEntities (changeTracker s1)) k)
      as [tracked |] eqn:Hget1; [| contradiction].
    destruct (ChangeTracker.change_of (world s1) tracked) as [| c cs] eqn:Hchange.
    - apply settled_change_of in Hchange.
      pose proof (settled_rebaselined _ _ k Hreb) as Hkeep.
      cbn [tracker_state ChangeTracker.world ChangeTracker.tracker] in Hkeep.
      rewrite Hget1, Hget' in Hkeep. now apply Hkeep.
    - assert (Hc : c ∈ ChangeTracker.change_of (world s1) tracked)
        by (rewrite Hchange; apply elem_of_cons; now left).
      destruct (change_of_subject _ _ _ Hc) as (He & Hi & _).
      assert (Hin : c ∈ getChanges s).
      { rewrite <- Hch1. unfold getChanges, ChangeTracker.getChanges, JsMap.values.
        cbn [tracker_state ChangeTracker.tracker ChangeTracker.world].
        apply list_elem_of_In, in_flat_map. exists tracked.
        split; [| now apply list_elem_of_In].
        apply list_elem_of_In, elem_of_map. exists (k, tracked).
        split; [reflexivity | now apply JsMap_elem_get]. }
      specialize (Hset c Hin). rewrite He, Hi in Hset.
      destruct Hfiled as [_ Hkey].
      rewrite <- (Hkey k tracked (JsMap_elem_get _ _ _ Hget1)), Hget' in Hset.
      exact Hset. }
  split; [| split; [exact Hres | split; [| split; [| split]]]].
  - unfold getChanges, ChangeTracker.getChanges, JsMap.values.
    cbn [tracker_state ChangeTracker.tracker ChangeTracker.world].
    destruct Hfiled' as [Hnd' _]. revert Hall Hnd'.
    generalize (ChangeTracker.trackedEntities (changeTracker s')) as m.
    unfold JsMap.keys. induction m as [| [k t0] m IHm]; intros Hall Hnd'; [reflexivity |].
    cbn [map flat_map snd]. cbn [map fst] in Hnd'. apply NoDup_cons in Hnd' as [Hnotin Hnd'].
    assert (settled (world s') t0) as Ht0
      by (apply (Hall k); cbn; now rewrite String.eqb_refl).
    apply settled_change_of in Ht0. rewrite Ht0. cbn [app]. apply IHm; [| exact Hnd'].
    intros k' t' Hget'. apply (Hall k'). cbn.
    destruct (String.eqb_spec k k') as [<- | Hne]; [| exact Hget'].
    exfalso. apply Hnotin. apply elem_of_map. exists (k, t').
    split; [reflexivity | now apply JsMap_elem_get].
  - intros c Hin Htype. split; [now apply Hgone |].
    rewrite <- Hch1 in Hin. destruct (getChanges_elem _ _ Hin) as (k & tracked & Hk & Hc).
    destruct (change_of_subject _ _ _ Hc) as (He & Hi & Hdel).
    destruct Hfiled as [Hnd Hkey]. rewrite He, Hi, <- (Hkey k tracked Hk).
    pose proof (JsMap_get_elem _ _ _ Hnd Hk) as Hget1.
    pose proof (Hm k) as Hmk. rewrite Hget1 in Hmk.
    destruct (JsMap.get (ChangeTracker.trackedEntities (changeTracker s')) k)
      as [tracked' |] eqn:Hget'; [| reflexivity].
    destruct Hmk as [(_ & _ & _ & _ & Hd & _) _].
    destruct (Hall k tracked' Hget') as (_ & Hd' & _).
    rewrite Hd in Hd'. apply Hdel in Htype. congruence.
  - intros k tracked Hget Hnd. rewrite <- Hct in Hget.
    pose proof (Hm k) as Hmk. rewrite Hget in Hmk.
    destruct (JsMap.get (ChangeTracker.trackedEntities (changeTracker s')) k)
      as [tracked' |] eqn:Hget'; [| congruence].
    exists tracked'. split; [reflexivity |]. split; [apply Hmk | now apply (Hall k)].
  - eapply preserves_trans; [apply prefix_preserves; exact Hheap | exact Hpres].
  - intros Hinj e i Hne. unfold registered_instance.
    destruct (IdentityMap.createCompositeKey e i) as [ck | err] eqn:Hck; [| reflexivity].
    rewrite <- Him in Hinj. rewrite (Hframe Hinj e ck); [now rewrite Him |].
    intros c Hin Htype. now apply Hne.
Qed.

End CommitSuccess.
(** One pending change of each type, committed over a connection that
    accepts everything: nothing is pending afterwards, the deleted
    user 3 is gone and the renamed user 2 is still held. *)
Lemma commit_success_settles_witness :
  UnitOfWork.getChanges (snd (UnitOfWork.commit (one_of_each accepting_connection))) = [] /\
  fst (UnitOfWork.commit (one_of_each accepting_connection))
  = Ok {| UnitOfWork.created := 1; UnitOfWork.updated := 1; UnitOfWork.deleted := 1 |} /\
  registered_instance (snd (UnitOfWork.commit (one_of_each accepting_connection)))
    "User" (IdPrim (PNum 3)) = None /\
  is_Some (registered_instance (snd (UnitOfWork.commit (one_of_each accepting_connection)))
             "User" (IdPrim (PNum 2))).
Proof.
  assert (Hrun : UnitOfWork.commit (one_of_each accepting_connection)
                 = (Ok {| UnitOfWork.created := 1; UnitOfWork.updated := 1;
                          UnitOfWork.deleted := 1 |},
                    snd (UnitOfWork.commit (one_of_each accepting_connection)))).
  { transitivity (fst (UnitOfWork.commit (one_of_each accepting_connection)),
                  snd (UnitOfWork.commit (one_of_each accepting_connection)));
      [apply surjective_pairing | f_equal; vm_compute; reflexivity]. }
  assert (Hfiled : filed (ChangeTracker.trackedEntities
                            (UnitOfWork.changeTracker (one_of_each accepting_connection)))).
  { split.
    - apply (bool_decide_unpack _). vm_compute. exact I.
    - intros k tracked Hin. vm_compute in Hin.
      repeat (apply elem_of_cons in Hin as [Hin | Hin];
              [injection Hin as -> ->; vm_compute; reflexivity |]).
      now apply elem_of_nil in Hin. }
  destruct (commit_success_settles (one_of_each accepting_connection) accepting_connection
              _ _ eq_refl eq_refl Hfiled Hrun)
    as (Hnone & _ & Hdeleted & _ & _ & Hkept).
  split; [exact Hnone |]. split; [now rewrite Hrun |]. split.
  - apply (Hdeleted
             {| ChangeTracker.entity := "User"; ChangeTracker.id := IdPrim (PNum 3);
                ChangeTracker.type := ChangeTracker.deleted;
                ChangeTracker.originalData := Some (VRef 7%nat);
                ChangeTracker.currentData := None;
                ChangeTracker.changedFields := None |}); [| reflexivity].
    vm_compute. repeat constructor.
  - assert (Hinj : IdentityMap.distinct_keys
                     (UnitOfWork.identityMap (one_of_each accepting_connection))).
    { apply distinct_keys_check. vm_compute.
      repeat (apply NoDup_cons; split;
              [intros H; repeat (apply elem_of_cons in H as [H | H]; [discriminate H |]);
               now apply elem_of_nil in H |]).
      apply NoDup_nil_2. }
    rewrite (Hkept Hinj "User" (IdPrim (PNum 2))).
    + vm_compute. eauto.
    + intros c Hin Htype. vm_compute in Hin.
      repeat (apply elem_of_cons in Hin as [Hin | Hin];
              [subst c; try discriminate Htype; vm_compute; discriminate |]).
      now apply elem_of_nil in Hin.
Defined.
(* ------------------------------------------------------------------ *)
(** ** The filing of tracked entities is an invariant                  *)
(* ------------------------------------------------------------------ *)

Section KeepsFacts.

Context {S : Type} (P : S -> Prop).

Lemma keeps_ret {A} (a : A) : keeps P (ret a).
Proof. intros s r s' [= <- <-]. auto. Qed.

Lemma keeps_throw {A} e : keeps P (@throw S A e).
Proof. intros s r s' [= <- <-]. auto. Qed.

Lemma keeps_gets {A} (f : S -> A) : keeps P (gets f).
Proof. intros s r s' [= <- <-]. auto. Qed.

Lemma keeps_bind {A B} (c : M S A) (k : A -> M S B) :
  keeps P c -> (forall a, keeps P (k a)) -> keeps P (bind c k).
Proof.
  intros Hc Hk s r s'. unfold bind. destruct (c s) as [[a | e] s1] eqn:H1.
  - intros H2 Hs. eapply Hk; [exact H2 |]. eapply Hc; eassumption.
  - intros [= <- <-] Hs. eapply Hc; eassumption.
Qed.

Lemma keeps_try_catch {A} (c : M S A) (h : error -> M S A) :
  keeps P c -> (forall e, keeps P (h e)) -> keeps P (try_catch c h).
Proof.
  intros Hc Hh s r s'. unfold try_catch. destruct (c s) as [[a | e] s1] eqn:H1.
  - intros [= <- <-] Hs. eapply Hc; eassumption.
  - intros H2 Hs. eapply Hh; [exact H2 |]. eapply Hc; eassumption.
Qed.

Lemma keeps_for_each {A} (xs : list A) (body : A -> M S unit) :
  (forall x, keeps P (body x)) -> keeps P (for_each xs body).
Proof.
  intros Hbody. induction xs as [| x rest IH]; cbn [for_each].
  - apply keeps_ret.
  - apply keeps_bind; [apply Hbody | intros _; exact IH].
Qed.

End KeepsFacts.

Section FilingInvariant.

Import ChangeTracker.

Lemma JsMap_keys_set_new {V} (m : JsMap.t V) k v :
  JsMap.get m k = None -> JsMap.keys (JsMap.set m k v) = JsMap.keys m ++ [k].
Proof.
  unfold JsMap.keys. induction m as [| [k' v'] m IH]; cbn; [reflexivity |].
  destruct (String.eqb k' k) eqn:E; [discriminate |]. intros H. cbn. now rewrite IH.
Qed.

Lemma JsMap_get_None_keys {V} (m : JsMap.t V) k :
  JsMap.get m k = None -> k ∉ JsMap.keys m.
Proof.
  unfold JsMap.keys. induction m as [| [k' v'] m IH]; cbn.
  - intros _ H. now apply elem_of_nil in H.
  - destruct (String.eqb_spec k' k) as [-> | Hne]; [discriminate |].
    intros H Hin. apply elem_of_cons in Hin as [-> | Hin]; [congruence | now apply IH].
Qed.

Lemma filed_set_new m entity id tracked :
  filed m -> JsMap.get m (createKey entity id) = None ->
  te_entity tracked = entity -> te_id tracked = id ->
  filed (JsMap.set m (createKey entity id) tracked).
Proof.
  intros [Hnd Hkey] Hget He Hi. split.
  - rewrite (JsMap_keys_set_new _ _ _ Hget). apply NoDup_app. split; [exact Hnd |].
    split; [| apply NoDup_singleton].
    intros k Hin Hk. apply list_elem_of_singleton in Hk. subst k.
    now apply JsMap_get_None_keys in Hget.
  - intros k t0 Hin. apply JsMap_elem_set in Hin as [[= -> ->] | Hin].
    + now rewrite He, Hi.
    + now apply Hkey.
Qed.

Lemma track_filed entity id data isNew :
  keeps (fun s => filed (trackedEntities (tracker s))) (track entity id data isNew).
Proof.
  intros s r s' Hrun Hfiled.
  destruct (JsMap.get (trackedEntities (tracker s)) (createKey entity id))
    as [existing |] eqn:Hget.
  - rewrite (track_existing _ _ _ _ _ _ Hget) in Hrun. now injection Hrun as _ <-.
  - destruct (track_fresh entity id data isNew s Hget)
      as (p & s1 & o & H & _ & _ & _ & _ & Hm & _).
    rewrite H in Hrun. injection Hrun as _ <-. rewrite Hm.
    now apply filed_set_new.
Qed.

Lemma markDeleted_filed entity id :
  keeps (fun s => filed (trackedEntities (tracker s))) (markDeleted entity id).
Proof.
  intros s r s'. unfold markDeleted, bind, gets.
  destruct (JsMap.get (trackedEntities (tracker s)) (createKey entity id))
    as [tracked |] eqn:Hget; intros [= <- <-] Hfiled; [| exact Hfiled].
  cbn [tracker trackedEntities]. eapply filed_set; [exact Hfiled | exact Hget | |];
    reflexivity.
Qed.

Lemma resetChanges_filed entity id :
  keeps (fun s => filed (trackedEntities (tracker s))) (resetChanges entity id).
Proof.
  intros s r s' Hrun Hfiled.
  destruct (resetChanges_step entity id s Hfiled) as (s1 & H & _ & Hfiled1 & _).
  rewrite H in Hrun. now injection Hrun as _ <-.
Qed.

Lemma untrack_filed entity id :
  keeps (fun s => filed (trackedEntities (tracker s))) (untrack entity id).
Proof.
  intros s r s'. unfold untrack, bind, gets.
  destruct (JsMap.get (trackedEntities (tracker s)) (createKey entity id))
    as [tracked |] eqn:Hget; intros [= <- <-] Hfiled; [| exact Hfiled].
  cbn [tracker trackedEntities]. now apply filed_delete.
Qed.

Lemma marks_filed {A} (c : M State A) :
  (forall s r s', c s = (r, s') -> marks s s') ->
  keeps (fun s => filed (trackedEntities (tracker s))) c.
Proof. intros Hc s r s' Hrun Hfiled. destruct (Hc _ _ _ Hrun) as [-> _]. exact Hfiled. Qed.

End FilingInvariant.

Section UnitFilingInvariant.

Import UnitOfWork.

Lemma in_tracker_keeps {A} (c : M ChangeTracker.State A) :
  keeps (fun ts => filed (ChangeTracker.trackedEntities (ChangeTracker.tracker ts))) c ->
  keeps (fun s => filed (ChangeTracker.trackedEntities (changeTracker s))) (in_tracker c).
Proof.
  intros Hc s r s'. unfold in_tracker.
  destruct (c (tracker_state s)) as [r0 ts] eqn:Hrun. intros [= <- <-] Hfiled.
  exact (Hc _ _ _ Hrun Hfiled).
Qed.

Lemma in_identityMap_keeps {A} (c : M IdentityMap.t A) :
  keeps (fun s => filed (ChangeTracker.trackedEntities (changeTracker s)))
    (in_identityMap c).
Proof.
  intros s r s'. unfold in_identityMap. destruct (c (identityMap s)) as [r0 im].
  now intros [= <- <-].
Qed.

Lemma same_entities_keeps {A} (c : M State A) :
  (forall s r s', c s = (r, s') -> same_entities s s') ->
  keeps (fun s => filed (ChangeTracker.trackedEntities (changeTracker s))) c.
Proof.
  intros Hc s r s' Hrun Hfiled. destruct (Hc _ _ _ Hrun) as (_ & -> & _). exact Hfiled.
Qed.

Lemma get_property_keeps data prop :
  keeps (fun s => filed (ChangeTracker.trackedEntities (changeTracker s)))
    (in_tracker (ChangeTracker.get_property data prop)).
Proof.
  apply same_entities_keeps. intros s r s' Hrun.
  now destruct (get_property_sends (fun _ _ => None) _ _ _ _ _ Hrun).
Qed.

Lemma query_keeps conn st :
  keeps (fun s => filed (ChangeTracker.trackedEntities (changeTracker s))) (query conn st).
Proof.
  apply same_entities_keeps. intros s r s' Hrun.
  now destruct (query_sends _ _ _ _ _ Hrun).
Qed.

Lemma extractId_keeps data metadata :
  keeps (fun s => filed (ChangeTracker.trackedEntities (changeTracker s)))
    (extractId data metadata).
Proof.
  assert (Hkey : forall field,
             keeps (fun s => filed (ChangeTracker.trackedEntities (changeTracker s)))
               (key_field data field)).
  { intros field. unfold key_field. apply keeps_bind; [apply get_property_keeps |].
    intros [p | l | name]; first [apply keeps_ret | apply keeps_throw]. }
  unfold extractId. destruct (primaryKey metadata) as [field | fields].
  - apply keeps_bind; [apply Hkey | intros p; apply keeps_ret].
  - apply keeps_bind; [| intros id; apply keeps_ret].
    generalize (@nil (string * prim)) as acc.
    induction fields as [| f rest IH]; intros acc; cbn [extract_fields].
    + apply keeps_ret.
    + apply keeps_bind; [apply Hkey | intros p; apply IH].
Qed.

Ltac keeps_step :=
  first
    [ apply keeps_ret | apply keeps_throw | apply keeps_gets
    | apply in_identityMap_keeps | apply extractId_keeps | apply query_keeps
    | apply in_tracker_keeps;
      first [apply track_filed | apply markDeleted_filed | apply resetChanges_filed]
    | apply keeps_bind; [| intros ?]
    | match goal with
      | |- keeps _ (match ?x with _ => _ end) => destruct x
      | |- keeps _ (if ?x then _ else _) => destruct x
      end ].

Lemma ensureActive_keeps :
  keeps (fun s => filed (ChangeTracker.trackedEntities (changeTracker s))) ensureActive.
Proof. unfold ensureActive. repeat keeps_step. Qed.

Lemma checkAutoFlush_keeps :
  keeps (fun s => filed (ChangeTracker.trackedEntities (changeTracker s))) checkAutoFlush.
Proof.
  intros s r s'. unfold checkAutoFlush, bind, get_state, modify, ret.
  destruct (autoFlush (options s)); [| now intros [= <- <-]].
  destruct (_ <=? _)%nat; now intros [= <- <-].
Qed.

(** Property X16.  Every tracked entity is filed in the
    tracker once, under the key of its own kind and id.  This holds of a
    new tracker and of a new unit of work, and every method of the
    tracker, every access through a tracked instance and every
    operation of the unit of work keeps it, however it ends. *)
Theorem filing_is_invariant :
  filed (ChangeTracker.trackedEntities ChangeTracker.new) /\
  (forall entity_ id data isNew,
     keeps (fun ts => filed (ChangeTracker.trackedEntities (ChangeTracker.tracker ts)))
       (ChangeTracker.track entity_ id data isNew)) /\
  (forall entity_ id,
     keeps (fun ts => filed (ChangeTracker.trackedEntities (ChangeTracker.tracker ts)))
       (ChangeTracker.markDeleted entity_ id) /\
     keeps (fun ts => filed (ChangeTracker.trackedEntities (ChangeTracker.tracker ts)))
       (ChangeTracker.resetChanges entity_ id) /\
     keeps (fun ts => filed (ChangeTracker.trackedEntities (ChangeTracker.tracker ts)))
       (ChangeTracker.untrack entity_ id)) /\
  keeps (fun ts => filed (ChangeTracker.trackedEntities (ChangeTracker.tracker ts)))
    ChangeTracker.clear /\
  (forall ref chain prop v name args,
     keeps (fun ts => filed (ChangeTracker.trackedEntities (ChangeTracker.tracker ts)))
       (ChangeTracker.get_path ref chain) /\
     keeps (fun ts => filed (ChangeTracker.trackedEntities (ChangeTracker.tracker ts)))
       (ChangeTracker.set_at ref chain prop v) /\
     keeps (fun ts => filed (ChangeTracker.trackedEntities (ChangeTracker.tracker ts)))
       (ChangeTracker.delete_at ref chain prop) /\
     keeps (fun ts => filed (ChangeTracker.trackedEntities (ChangeTracker.tracker ts)))
       (ChangeTracker.call_at ref chain name args)) /\
  (forall opts w, filed (ChangeTracker.trackedEntities (changeTracker (new opts w)))) /\
  (forall entity_ id data,
     keeps (fun s => filed (ChangeTracker.trackedEntities (changeTracker s)))
       (get entity_ id data)) /\
  (forall entity_ data,
     keeps (fun s => filed (ChangeTracker.trackedEntities (changeTracker s)))
       (create entity_ data) /\
     keeps (fun s => filed (ChangeTracker.trackedEntities (changeTracker s)))
       (persist entity_ data)) /\
  (forall entity_ id,
     keeps (fun s => filed (ChangeTracker.trackedEntities (changeTracker s)))
       (delete entity_ id)) /\
  keeps (fun s => filed (ChangeTracker.trackedEntities (changeTracker s))) commit /\
  keeps (fun s => filed (ChangeTracker.trackedEntities (changeTracker s))) clear /\
  keeps (fun s => filed (ChangeTracker.trackedEntities (changeTracker s))) close.
Proof.
  assert (Hnil : filed (@nil (string * ChangeTracker.TrackedEntity))).
  { split; [apply NoDup_nil_2 | intros k t0 H; now apply elem_of_nil in H]. }
  assert (Hclear : keeps (fun s => filed (ChangeTracker.trackedEntities (changeTracker s)))
                     clear).
  { intros s r s' [= <- <-] _. exact Hnil. }
  split; [exact Hnil |]. split; [apply track_filed |].
  split; [intros entity_ id; split; [apply markDeleted_filed |];
          split; [apply resetChanges_filed | apply untrack_filed] |].
  split; [intros s r s' [= <- <-] _; exact Hnil |].
  split.
  { intros ref chain prop v name args.
    split; [apply marks_filed; intros s r s' H;
            exact (allocates_marks _ _ (get_path_allocates _ _ _ _ _ H)) |].
    split; [apply marks_filed; intros s r s'; apply set_at_marks |].
    split; [apply marks_filed; intros s r s'; apply delete_at_marks |].
    apply marks_filed; intros s r s'; apply call_at_marks. }
  split; [intros opts w; exact Hnil |].
  split.
  { intros entity_ id data. unfold get.
    apply keeps_bind; [apply ensureActive_keeps | intros _].
    apply keeps_bind; [apply in_identityMap_keeps | intros instance].
    destruct instance, data; repeat keeps_step. }
  split.
  { intros entity_ data. split.
    - unfold create. apply keeps_bind; [apply ensureActive_keeps | intros _].
      repeat keeps_step.
    - unfold persist. apply keeps_bind; [apply ensureActive_keeps | intros _].
      repeat keeps_step. }
  split.
  { intros entity_ id. unfold delete.
    apply keeps_bind; [apply ensureActive_keeps | intros _].
    apply keeps_bind; [apply in_identityMap_keeps | intros loaded].
    destruct loaded; [| apply keeps_throw].
    apply keeps_bind; [apply in_tracker_keeps, markDeleted_filed | intros _].
    apply checkAutoFlush_keeps. }
  split; [| split; [exact Hclear |]].
  - unfold commit. apply keeps_bind; [apply ensureActive_keeps | intros _].
    apply keeps_bind; [apply keeps_gets | intros conn].
    destruct conn as [conn |]; [| apply keeps_throw].
    apply keeps_bind; [apply keeps_gets | intros changes].
    destruct changes as [| c cs]; [apply keeps_ret |].
    apply keeps_try_catch; [| intros e; repeat keeps_step].
    unfold commit_batch.
    apply keeps_bind; [| intros _; apply keeps_bind; [| intros _; apply keeps_ret]].
    + apply same_entities_keeps. intros s r s' Hrun.
      now destruct (send_batch_sends _ _ _ _ _ Hrun) as (D & U & I & t0 & (H & _) & _).
    + apply keeps_for_each. intros x s r s' Hrun Hfiled.
      now destruct (reset_committed_step _ _ _ _ Hrun Hfiled) as (_ & H & _).
  - unfold close. apply keeps_bind; [exact Hclear | intros _].
    intros s r s' [= <- <-]. auto.
Qed.

End UnitFilingInvariant.
(* ------------------------------------------------------------------ *)
(** ** Unit of work: what reaches the connection                       *)
(* ------------------------------------------------------------------ *)

Section Silence.

Import UnitOfWork.

Variable sent : list statement.

Lemma in_tracker_silent {A} (c : M ChangeTracker.State A) :
  keeps (fun s => issued s = sent) (in_tracker c).
Proof. intros s r s' Hrun <-. now destruct (in_tracker_issued _ _ _ _ Hrun). Qed.

Lemma in_identityMap_silent {A} (c : M IdentityMap.t A) :
  keeps (fun s => issued s = sent) (in_identityMap c).
Proof. intros s r s' Hrun <-. now destruct (in_identityMap_issued _ _ _ _ Hrun). Qed.

Lemma extractId_silent data metadata :
  keeps (fun s => issued s = sent) (extractId data metadata).
Proof.
  assert (Hkey : forall field, keeps (fun s => issued s = sent) (key_field data field)).
  { intros field. unfold key_field. apply keeps_bind; [apply in_tracker_silent |].
    intros [p | l | name]; first [apply keeps_ret | apply keeps_throw]. }
  unfold extractId. destruct (primaryKey metadata) as [field | fields].
  - apply keeps_bind; [apply Hkey | intros p; apply keeps_ret].
  - apply keeps_bind; [| intros id; apply keeps_ret].
    generalize (@nil (string * prim)) as acc.
    induction fields as [| f rest IH]; intros acc; cbn [extract_fields].
    + apply keeps_ret.
    + apply keeps_bind; [apply Hkey | intros p; apply IH].
Qed.

Lemma checkAutoFlush_silent : keeps (fun s => issued s = sent) checkAutoFlush.
Proof.
  intros s r s'. unfold checkAutoFlush, bind, get_state, modify, ret.
  destruct (autoFlush (options s)); [| now intros [= <- <-]].
  destruct (_ <=? _)%nat; now intros [= <- <-].
Qed.

Ltac silent_step :=
  first
    [ apply keeps_ret | apply keeps_throw | apply keeps_gets
    | apply in_identityMap_silent | apply in_tracker_silent | apply extractId_silent
    | apply checkAutoFlush_silent
    | apply keeps_bind; [| intros ?]
    | match goal with
      | |- keeps _ (match ?x with _ => _ end) => destruct x
      | |- keeps _ (if ?x then _ else _) => destruct x
      end ].

(** Property X21.  Only [commit] talks to the connection:
    [get], [create], [persist], [delete], reads and writes through a
    tracked instance, [registerEntity], [setConnection], [clear] and
    [close] leave the statements sent as they are, however they end,
    also when [autoFlush] is on and the threshold is reached: all a
    [delete] does then is write the warning to the console.  A [commit]
    with nothing pending sends nothing either. *)
Theorem only_commit_sends :
  (forall entity_ id data, keeps (fun s => issued s = sent) (get entity_ id data)) /\
  (forall entity_ data,
     keeps (fun s => issued s = sent) (create entity_ data) /\
     keeps (fun s => issued s = sent) (persist entity_ data)) /\
  (forall entity_ id, keeps (fun s => issued s = sent) (delete entity_ id)) /\
  (forall ref chain prop v name args,
     keeps (fun s => issued s = sent) (in_tracker (ChangeTracker.get_path ref chain)) /\
     keeps (fun s => issued s = sent) (in_tracker (ChangeTracker.set_at ref chain prop v)) /\
     keeps (fun s => issued s = sent) (in_tracker (ChangeTracker.delete_at ref chain prop)) /\
     keeps (fun s => issued s = sent)
       (in_tracker (ChangeTracker.call_at ref chain name args))) /\
  (forall metadata, keeps (fun s => issued s = sent) (registerEntity metadata)) /\
  (forall conn, keeps (fun s => issued s = sent) (setConnection conn)) /\
  keeps (fun s => issued s = sent) clear /\
  keeps (fun s => issued s = sent) close /\
  (forall s r s', getChanges s = [] -> commit s = (r, s') -> issued s' = issued s) /\
  (forall entity_ id s s',
     delete entity_ id s = (Ok tt, s') ->
     console s'
     = console s
       ++ (if autoFlush (options s)
              && (flushThreshold (options s) <=? length (getChanges s'))%nat
           then ["Auto-flush threshold reached: " +:+ pretty (length (getChanges s'))
                 +:+ " changes pending"]
           else [])).
Proof.
  assert (Hclear : keeps (fun s => issued s = sent) clear)
    by (unfold clear; repeat silent_step).
  split; [intros entity_ id data; unfold get, ensureActive;
          apply keeps_bind; [repeat silent_step | intros _];
          apply keeps_bind; [repeat silent_step | intros instance];
          destruct instance, data; repeat silent_step |].
  split; [intros entity_ data; split; [unfold create | unfold persist];
          unfold ensureActive; repeat silent_step |].
  split; [intros entity_ id; unfold delete, ensureActive; repeat silent_step |].
  split; [intros; repeat split; apply in_tracker_silent |].
  split; [intros metadata s r s' [= <- <-]; auto |].
  split; [intros conn s r s' [= <- <-]; auto |].
  split; [exact Hclear |].
  split; [unfold close; apply keeps_bind; [exact Hclear | intros _];
          intros s r s' [= <- <-]; auto |].
  split.
  { intros s r s' Hnone. unfold commit, ensureActive, bind, gets, throw, ret.
    destruct (isActive s); [| now intros [= <- <-]].
    destruct (connection s); [| now intros [= <- <-]].
    rewrite Hnone. now intros [= <- <-]. }
  intros entity_ id s s'. unfold delete. unfold bind at 1.
  destruct (ensureActive s) as [[[] | e] s0] eqn:Hactive; [| discriminate].
  apply ensureActive_inv in Hactive as [_ ->].
  unfold bind at 1, in_identityMap at 1.
  destruct (IdentityMap.has entity_ id (identityMap s)) as [[[] | e] im1] eqn:Hhas;
    try discriminate.
  unfold bind at 1, in_tracker at 1.
  destruct (ChangeTracker.markDeleted entity_ id (tracker_state (with_identityMap im1 s)))
    as [[[] | e] ts] eqn:Hmark; [| discriminate].
  unfold checkAutoFlush, bind, get_state, modify, ret.
  cbn [options with_tracker_state with_identityMap console].
  destruct (autoFlush (options s)); cbn [andb].
  - destruct (_ <=? _)%nat eqn:Hreached; intros [= <-];
      cbn [console with_tracker_state with_identityMap];
      unfold getChanges in *;
      cbn [tracker_state world changeTracker with_tracker_state with_identityMap] in *;
      destruct ts as [w [m ps]]; cbn in *; rewrite Hreached; [reflexivity |].
    now rewrite app_nil_r.
  - intros [= <-]. cbn [console with_tracker_state with_identityMap].
    now rewrite app_nil_r.
Qed.

End Silence.
(* ------------------------------------------------------------------ *)
(** ** Unit of work: the statements of a commit                        *)
(* ------------------------------------------------------------------ *)

Section Statements.

Import UnitOfWork.

Lemma with_tracker_state_same s : with_tracker_state (tracker_state s) s = s.
Proof. now destruct s. Qed.

Lemma current_field_plain change data props prop s :
  ChangeTracker.currentData change = Some data ->
  heap (world s) !! data = Some (Obj props) ->
  current_field change prop s
  = (Ok (default VUndefined (props_get props (KStr prop))), s).
Proof.
  intros Hdata Hcell. unfold current_field. rewrite Hdata.
  unfold in_tracker, ChangeTracker.get_property.
  rewrite (js_get_plain _ data (KStr prop) (tracker_state s)
             (default VUndefined (props_get props (KStr prop)))).
  - now rewrite with_tracker_state_same.
  - unfold raw_read. cbn [tracker_state ChangeTracker.world]. now rewrite Hcell.
Qed.

Lemma current_has_plain change data props prop s :
  ChangeTracker.currentData change = Some data ->
  heap (world s) !! data = Some (Obj props) ->
  current_has change prop s
  = (Ok (bool_decide (is_Some (props_get props (KStr prop)))), s).
Proof.
  intros Hdata Hcell. unfold current_has, gets. rewrite Hdata.
  destruct (length (heap (world s))); cbn [ChangeTracker.js_has]; now rewrite Hcell.
Qed.

Lemma insert_parts_plain change data props s cols :
  ChangeTracker.currentData change = Some data ->
  heap (world s) !! data = Some (Obj props) ->
  forall columns_ values placeholders n,
    insert_parts change cols columns_ values placeholders n s
    = (Ok (columns_ ++ map snd (present_columns props cols),
           values ++ map (fun pc => field_value props (fst pc)) (present_columns props cols),
           placeholders
           ++ map placeholder (seq n (length (present_columns props cols)))),
       s).
Proof.
  intros Hdata Hcell. induction cols as [| [prop column] rest IH];
    intros columns_ values placeholders n; cbn [insert_parts].
  - cbn. now rewrite !app_nil_r.
  - rewrite (bind_ok _ _ _ _ _ (current_has_plain _ _ _ prop _ Hdata Hcell)).
    unfold present_columns in *. cbn [List.filter fst].
    destruct (bool_decide (is_Some (props_get props (KStr prop)))).
    + rewrite (bind_ok _ _ _ _ _ (current_field_plain _ _ _ prop _ Hdata Hcell)).
      rewrite IH. cbn [map length seq fst snd]. unfold field_value.
      now rewrite <- !app_assoc.
    + apply IH.
Qed.

Lemma update_parts_plain change data props s cols fields :
  ChangeTracker.currentData change = Some data ->
  heap (world s) !! data = Some (Obj props) ->
  forall setClauses values n,
    update_parts change cols fields setClauses values n s
    = (Ok (setClauses ++ set_clauses n (mapped_fields cols fields),
           values ++ map (fun fc => field_value props (fst fc)) (mapped_fields cols fields),
           (n + length (mapped_fields cols fields))%nat),
       s).
Proof.
  intros Hdata Hcell. induction fields as [| field rest IH];
    intros setClauses values n; cbn [update_parts mapped_fields flat_map].
  - cbn. now rewrite !app_nil_r, Nat.add_0_r.
  - fold (mapped_fields cols rest).
    destruct (JsMap.get cols field) as [column |]; [| apply IH].
    destruct (String.eqb column EmptyString); [apply IH |].
    rewrite (bind_ok _ _ _ _ _ (current_field_plain _ _ _ field _ Hdata Hcell)).
    rewrite IH. cbn [app length map fst snd]. unfold set_clauses, field_value.
    cbn [length seq zip_with snd]. rewrite <- !app_assoc. cbn [app].
    now rewrite Nat.add_succ_r.
Qed.

Lemma metadata_of_registered change md s :
  entityMetadata s !! ChangeTracker.entity change = Some md ->
  metadata_of change s = (Ok md, s).
Proof. intros H. unfold metadata_of, bind, gets. now rewrite H. Qed.

(** Property X20.  What [commit] sends for one change of an entity whose
    kind is registered.  For a created entity whose data is an object:
    one [INSERT] listing, in the order of the metadata, the columns of
    exactly the properties the object has, with the placeholders [$1],
    [$2], ... and the values of those properties in the same order.
    For an updated entity whose data is an object: nothing at all when
    none of its changed fields has a column; otherwise one [UPDATE]
    setting, in the order of the changed fields, the column of each
    changed field that has one to [$1], [$2], ..., with the current
    values of those fields and then the parameters of the [WHERE]
    clause, numbered on from there.  For a deleted entity, which
    carries no current data: one [DELETE] whose [WHERE] clause starts
    at [$1].  With a single-column primary key the [WHERE] clause is
    [column = $n] and its parameter is the id. *)
Theorem statements_of_changes conn change md s :
  entityMetadata s !! ChangeTracker.entity change = Some md ->
  (forall data props,
     ChangeTracker.currentData change = Some data ->
     heap (world s) !! data = Some (Obj props) ->
     executeCreate conn change s
     = query conn
         (INSERT (table md)
            (map snd (present_columns props (columns md)))
            (map placeholder (seq 1 (length (present_columns props (columns md)))))
            (map (fun pc => field_value props (fst pc))
               (present_columns props (columns md))))
         s /\
     executeUpdate conn change s
     = (let mapped := mapped_fields (columns md)
                        (default [] (ChangeTracker.changedFields change)) in
        match mapped with
        | [] => (Ok tt, s)
        | _ =>
            match buildWhereClause (ChangeTracker.id change) md
                    (map (fun fc => field_value props (fst fc)) mapped)
                    (S (length mapped)) with
            | Ok (whereClause, values) =>
                query conn (UPDATE (table md) (set_clauses 1 mapped) whereClause values) s
            | Throw e => (Throw e, s)
            end
        end)) /\
  executeDelete conn change s
  = match buildWhereClause (ChangeTracker.id change) md [] 1 with
    | Ok (whereClause, values) => query conn (DELETE (table md) whereClause values) s
    | Throw e => (Throw e, s)
    end /\
  forall key id values start,
    primaryKey md = Single key ->
    buildWhereClause id md values start
    = Ok (default "undefined" (JsMap.get (columns md) key) +:+ " = " +:+ placeholder start,
          values ++ [id_param id]).
Proof.
  intros Hmd. split; [| split].
  - intros data props Hdata Hcell. split.
    + unfold executeCreate.
      rewrite (bind_ok _ _ _ _ _ (metadata_of_registered _ _ _ Hmd)).
      rewrite (bind_ok _ _ _ _ _
                 (insert_parts_plain _ _ _ _ (columns md) Hdata Hcell [] [] [] 1%nat)).
      reflexivity.
    + unfold executeUpdate.
      rewrite (bind_ok _ _ _ _ _ (metadata_of_registered _ _ _ Hmd)).
      rewrite (bind_ok _ _ _ _ _
                 (update_parts_plain _ _ _ _ (columns md) _ Hdata Hcell [] [] 1%nat)).
      cbv zeta. cbn [app].
      destruct (mapped_fields (columns md) (default [] (ChangeTracker.changedFields change)))
        as [| fc rest] eqn:Hmapped; [reflexivity |].
      unfold set_clauses at 1. cbn [length seq zip_with].
      fold (set_clauses 1 (fc :: rest)).
      change (1 + length (fc :: rest))%nat with (S (length (fc :: rest))).
      destruct (buildWhereClause _ md _ _) as [[whereClause values] | e]; reflexivity.
  - unfold executeDelete.
    rewrite (bind_ok _ _ _ _ _ (metadata_of_registered _ _ _ Hmd)).
    destruct (buildWhereClause _ md [] 1) as [[whereClause values] | e]; reflexivity.
  - intros key id values start Hkey. unfold buildWhereClause. now rewrite Hkey.
Qed.

End Statements.

(** The three pending changes of [one_of_each]: the [INSERT] of the
    created user 1, the [UPDATE] of the renamed user 2 and the [DELETE]
    of the deleted user 3. *)
Lemma statements_of_changes_witness :
  UnitOfWork.getChanges (one_of_each accepting_connection)
  = [created_ada; updated_alan; deleted_kurt] /\
  UnitOfWork.executeCreate accepting_connection created_ada
    (one_of_each accepting_connection)
  = UnitOfWork.query accepting_connection insert_ada (one_of_each accepting_connection) /\
  UnitOfWork.executeUpdate accepting_connection updated_alan
    (one_of_each accepting_connection)
  = UnitOfWork.query accepting_connection update_alan (one_of_each accepting_connection) /\
  UnitOfWork.executeDelete accepting_connection deleted_kurt
    (one_of_each accepting_connection)
  = UnitOfWork.query accepting_connection delete_kurt (one_of_each accepting_connection).
Proof.
  split; [vm_compute; reflexivity |].
  destruct (statements_of_changes accepting_connection created_ada user_metadata
              (one_of_each accepting_connection) eq_refl) as (Hcreated & _).
  destruct (statements_of_changes accepting_connection updated_alan user_metadata
              (one_of_each accepting_connection) eq_refl) as (Hupdated & _).
  destruct (statements_of_changes accepting_connection deleted_kurt user_metadata
              (one_of_each accepting_connection) eq_refl) as (_ & Hdeleted & _).
  destruct (Hcreated 0%nat
              [(KStr "id", VNum 1); (KStr "name", VStr "Ada");
               (KStr "email", VStr "ada@example.com")] eq_refl)
    as [Hinsert _]; [vm_compute; reflexivity |].
  destruct (Hupdated 1%nat
              [(KStr "id", VNum 2); (KStr "name", VStr "Grace");
               (KStr "email", VStr "alan@example.com")] eq_refl)
    as [_ Hupdate]; [vm_compute; reflexivity |].
  split; [rewrite Hinsert; reflexivity |].
  split; [rewrite Hupdate; reflexivity | rewrite Hdeleted; reflexivity].
Defined.
(* ------------------------------------------------------------------ *)
(** ** Transaction manager: creating and releasing savepoints          *)
(* ------------------------------------------------------------------ *)

Section SavepointUse.

Import TransactionManager.

Lemma JsMap_set_set {V} (m : JsMap.t V) k v1 v2 :
  JsMap.set (JsMap.set m k v1) k v2 = JsMap.set m k v2.
Proof.
  induction m as [| [k' v'] m IH]; cbn.
  - now rewrite String.eqb_refl.
  - destruct (String.eqb k' k) eqn:E; cbn; rewrite E; [reflexivity | now rewrite IH].
Qed.

Lemma queries_snoc_query tr q : queries (tr ++ [Query q]) = queries tr ++ [q].
Proof. now rewrite queries_app. Qed.

Lemma queries_snoc_emit tr ev : queries (tr ++ [Emit ev]) = queries tr.
Proof. rewrite queries_app. cbn. now rewrite app_nil_r. Qed.

Lemma take_drop_snoc (l : list string) (x : string) :
  x ∉ l -> indexOf (l ++ [x]) x = Some (length l).
Proof.
  intros Hnotin. apply indexOf_Some. split.
  - now rewrite lookup_app_r, Nat.sub_diag by lia.
  - intros j Hj Hlook. rewrite lookup_app_l in Hlook by exact Hj.
    apply Hnotin. eapply list_elem_of_lookup_2. exact Hlook.
Qed.

Lemma createSavepoint_named (m : TransactionManager) txid t s :
  JsMap.get (activeTransactions m) txid = Some t ->
  isActive t = true ->
  s <> EmptyString ->
  connection m (queries (trace m)) ("SAVEPOINT " +:+ s) = None ->
  exists m',
    createSavepoint txid (Some s) m = (Ok s, m') /\
    connection m' = connection m /\
    queries (trace m') = queries (trace m) ++ ["SAVEPOINT " +:+ s] /\
    activeTransactions m'
    = JsMap.set (activeTransactions m) txid (with_savepoints (savepoints t ++ [s]) t).
Proof.
  intros Hget Hact Hne Hconn.
  assert (String.eqb s EmptyString = false) as Hnonempty by now apply String.eqb_neq.
  unfold createSavepoint, bind at 1, active_transaction. rewrite Hget, Hact.
  unfold bind at 1. rewrite Hnonempty. unfold ret at 1.
  unfold try_catch, bind, query. rewrite Hconn.
  unfold update_transaction, emit, modify, set_transactions, log, ret.
  cbn [activeTransactions trace connection]. rewrite Hget.
  eexists. split; [reflexivity |]. cbn [activeTransactions trace connection].
  split; [reflexivity |]. split; [| reflexivity].
  now rewrite queries_snoc_emit, queries_snoc_query.
Qed.

Lemma releaseSavepoint_ok (m : TransactionManager) txid t s i :
  JsMap.get (activeTransactions m) txid = Some t ->
  isActive t = true ->
  indexOf (savepoints t) s = Some i ->
  connection m (queries (trace m)) ("RELEASE SAVEPOINT " +:+ s) = None ->
  exists m',
    releaseSavepoint txid s m = (Ok tt, m') /\
    queries (trace m') = queries (trace m) ++ ["RELEASE SAVEPOINT " +:+ s] /\
    activeTransactions m'
    = JsMap.set (activeTransactions m) txid
        (with_savepoints (take i (savepoints t) ++ drop (S i) (savepoints t)) t).
Proof.
  intros Hget Hact Hidx Hconn.
  unfold releaseSavepoint, bind at 1, active_transaction. rewrite Hget, Hact, Hidx.
  unfold try_catch, bind, query. rewrite Hconn.
  unfold update_transaction, emit, modify, set_transactions, log.
  cbn [activeTransactions trace]. rewrite Hget.
  eexists. split; [reflexivity |]. cbn [activeTransactions trace].
  split; [| reflexivity]. now rewrite queries_snoc_emit, queries_snoc_query.
Qed.

(** Property X24.  [createSavepoint] under an
    active transaction sends [SAVEPOINT name], where the name is the one
    given, or [sp_N] with [N] the manager's counter when the name is
    omitted or empty; the counter is then used up whether or not the
    statement succeeds.  If the connection accepts the statement the
    name is appended to the transaction's savepoints and returned; if
    it rejects it the call fails with the connection's error and the
    transactions are as before.  Without an active transaction under
    the id the call fails and the manager is as before. *)
Theorem savepoint_creation (m : TransactionManager) (txid : string)
    (name : option string) :
  (forall t,
     JsMap.get (activeTransactions m) txid = Some t ->
     isActive t = true ->
     exists r m',
       createSavepoint txid name m = (r, m') /\
       let generated := match name with
                        | Some n => String.eqb n EmptyString
                        | None => true
                        end in
       let sp := if generated then "sp_" +:+ pretty (nextSavepointId m)
                 else default EmptyString name in
       nextSavepointId m'
       = (if generated then S (nextSavepointId m) else nextSavepointId m) /\
       queries (trace m') = queries (trace m) ++ ["SAVEPOINT " +:+ sp] /\
       match connection m (queries (trace m)) ("SAVEPOINT " +:+ sp) with
       | None =>
           r = Ok sp /\
           JsMap.get (activeTransactions m') txid
           = Some (with_savepoints (savepoints t ++ [sp]) t) /\
           forall other, other <> txid ->
             JsMap.get (activeTransactions m') other
             = JsMap.get (activeTransactions m) other
       | Some e => r = Throw e /\ activeTransactions m' = activeTransactions m
       end)
  /\
  ((forall t, JsMap.get (activeTransactions m) txid = Some t -> isActive t = false) ->
   createSavepoint txid name m = (Throw (NoActiveTransaction txid), m)).
Proof.
  split.
  - intros t Hget Hact. cbv zeta.
    unfold createSavepoint, bind at 1, active_transaction. rewrite Hget, Hact.
    set (generated := match name with
                      | Some n => String.eqb n EmptyString
                      | None => true
                      end).
    assert (Hname :
              (match name with
               | Some n => if String.eqb n EmptyString then fresh_savepoint_name else ret n
               | None => fresh_savepoint_name
               end) m
              = if generated then fresh_savepoint_name m
                else (Ok (default EmptyString name), m)).
    { unfold generated. destruct name as [n |]; [| reflexivity].
      now destruct (String.eqb n EmptyString). }
    unfold bind at 1. rewrite Hname.
    destruct generated; unfold fresh_savepoint_name;
      unfold try_catch, bind, query; cbn [connection trace];
      match goal with
      | |- context [connection m (queries (trace m)) ?q] =>
          destruct (connection m (queries (trace m)) q) as [e |] eqn:Hconn
      end;
      unfold update_transaction, emit, modify, set_transactions, log, throw, ret;
      cbn [activeTransactions trace nextSavepointId connection]; rewrite ?Hget;
      (eexists _, _; split; [reflexivity |]);
      cbn [activeTransactions trace nextSavepointId connection];
      (split; [reflexivity |]);
      rewrite ?queries_snoc_emit, ?queries_snoc_query;
      (split; [reflexivity |]);
      try (split; reflexivity);
      (split; [reflexivity |]);
      (split; [apply JsMap_get_set_eq |]);
      intros other Hne; apply JsMap_get_set_ne; congruence.
  - intros H. unfold createSavepoint, bind, active_transaction.
    destruct (JsMap.get (activeTransactions m) txid) as [t |]; [| reflexivity].
    now rewrite (H t eq_refl).
Qed.

(** Property X25.  [releaseSavepoint] under an
    active transaction whose savepoints hold their first [s] at index
    [i] sends [RELEASE SAVEPOINT s]; if the connection accepts it that
    one entry is removed from the list, if it rejects it the call fails
    with the connection's error and the list is as before.  An unknown
    transaction or name is refused and the manager left as it was.
    Creating a savepoint under a new name and releasing it leaves the
    transactions as they were. *)
Theorem savepoint_release (m : TransactionManager) (txid s : string) :
  (forall t i,
     JsMap.get (activeTransactions m) txid = Some t ->
     isActive t = true ->
     savepoints t !! i = Some s ->
     (forall j, (j < i)%nat -> savepoints t !! j <> Some s) ->
     exists r m',
       releaseSavepoint txid s m = (r, m') /\
       queries (trace m') = queries (trace m) ++ ["RELEASE SAVEPOINT " +:+ s] /\
       match connection m (queries (trace m)) ("RELEASE SAVEPOINT " +:+ s) with
       | None =>
           r = Ok tt /\
           JsMap.get (activeTransactions m') txid
           = Some (with_savepoints
                     (take i (savepoints t) ++ drop (S i) (savepoints t)) t)
       | Some e => r = Throw e /\ activeTransactions m' = activeTransactions m
       end)
  /\
  ((forall t, JsMap.get (activeTransactions m) txid = Some t -> isActive t = false) ->
   releaseSavepoint txid s m = (Throw (NoActiveTransaction txid), m))
  /\
  (forall t,
     JsMap.get (activeTransactions m) txid = Some t ->
     isActive t = true ->
     s ∉ savepoints t ->
     releaseSavepoint txid s m = (Throw (SavepointNotFound s), m) /\
     (s <> EmptyString ->
      accepting m ->
      exists m1 m2,
        createSavepoint txid (Some s) m = (Ok s, m1) /\
        releaseSavepoint txid s m1 = (Ok tt, m2) /\
        activeTransactions m2 = activeTransactions m /\
        queries (trace m2)
        = queries (trace m) ++ ["SAVEPOINT " +:+ s; "RELEASE SAVEPOINT " +:+ s])).
Proof.
  split; [| split].
  - intros t i Hget Hact Hi Hfirst.
    assert (indexOf (savepoints t) s = Some i) as Hidx by (apply indexOf_Some; now split).
    unfold releaseSavepoint, bind at 1, active_transaction. rewrite Hget, Hact, Hidx.
    unfold try_catch, bind, query.
    destruct (connection m (queries (trace m)) ("RELEASE SAVEPOINT " +:+ s))
      as [e |] eqn:Hconn;
      unfold update_transaction, emit, modify, set_transactions, log, throw;
      cbn [activeTransactions trace]; rewrite ?Hget;
      (eexists _, _; split; [reflexivity |]); cbn [activeTransactions trace];
      rewrite ?queries_snoc_emit, ?queries_snoc_query;
      (split; [reflexivity |]); (split; [reflexivity |]);
      [reflexivity | apply JsMap_get_set_eq].
  - intros H. unfold releaseSavepoint, bind, active_transaction.
    destruct (JsMap.get (activeTransactions m) txid) as [t |]; [| reflexivity].
    now rewrite (H t eq_refl).
  - intros t Hget Hact Hnotin. split.
    + apply indexOf_None in Hnotin.
      unfold releaseSavepoint, bind, active_transaction.
      now rewrite Hget, Hact, Hnotin.
    + intros Hne Hacc.
      destruct (createSavepoint_named m txid t s Hget Hact Hne (Hacc _ _))
        as (m1 & Hcreate & Hconn1 & Hq1 & Htx1).
      assert (Hget1 : JsMap.get (activeTransactions m1) txid
                      = Some (with_savepoints (savepoints t ++ [s]) t))
        by (rewrite Htx1; apply JsMap_get_set_eq).
      destruct (releaseSavepoint_ok m1 txid _ s (length (savepoints t)) Hget1 Hact
                  (take_drop_snoc _ _ Hnotin))
        as (m2 & Hrelease & Hq2 & Htx2).
      { rewrite Hconn1. apply Hacc. }
      exists m1, m2. split; [exact Hcreate |]. split; [exact Hrelease |]. split.
      * rewrite Htx2, Htx1, JsMap_set_set.
        cbn [with_savepoints savepoints id level tx_isolationLevel tx_readOnly isActive].
        rewrite take_app_length, drop_ge, app_nil_r by (rewrite length_app; cbn; lia).
        apply JsMap_set_same. rewrite Hget. f_equal. now destruct t.
      * rewrite Hq2, Hq1. now rewrite <- app_assoc.
Qed.

End SavepointUse.
(** An unnamed savepoint under [tx_1], whose manager has counted to 4:
    it is called [sp_4] and the counter moves on. *)
Lemma savepoint_creation_witness :
  exists m',
    TransactionManager.createSavepoint "tx_1" None (manager_with_savepoints ["sp_1"])
    = (Ok "sp_4", m') /\
    TransactionManager.savepoints
      <$> JsMap.get (TransactionManager.activeTransactions m') "tx_1"
    = Some ["sp_1"; "sp_4"] /\
    TransactionManager.nextSavepointId m' = 5%nat /\
    TransactionManager.queries (TransactionManager.trace m') = ["SAVEPOINT sp_4"].
Proof.
  destruct (savepoint_creation (manager_with_savepoints ["sp_1"]) "tx_1" None) as [H _].
  destruct (H _ eq_refl eq_refl) as (r & m' & Hrun & Hnext & Hq & Hr & Htx & _).
  subst r. exists m'. split; [exact Hrun |]. split; [now rewrite Htx |].
  split; [exact Hnext | exact Hq].
Defined.

(** Releasing [sp_2] of [sp_1; sp_2; sp_3] leaves [sp_1; sp_3]; an
    unknown name is refused; a savepoint created and released leaves
    the list as it was. *)
Lemma savepoint_release_witness :
  (exists m',
     TransactionManager.releaseSavepoint "tx_1" "sp_2"
       (manager_with_savepoints ["sp_1"; "sp_2"; "sp_3"]) = (Ok tt, m') /\
     TransactionManager.savepoints
       <$> JsMap.get (TransactionManager.activeTransactions m') "tx_1"
     = Some ["sp_1"; "sp_3"]) /\
  TransactionManager.releaseSavepoint "tx_1" "sp_7"
    (manager_with_savepoints ["sp_1"; "sp_2"; "sp_3"])
  = (Throw (SavepointNotFound "sp_7"), manager_with_savepoints ["sp_1"; "sp_2"; "sp_3"]) /\
  (exists m1 m2,
     TransactionManager.createSavepoint "tx_1" (Some "sp_7")
       (manager_with_savepoints ["sp_1"; "sp_2"; "sp_3"]) = (Ok "sp_7", m1) /\
     TransactionManager.releaseSavepoint "tx_1" "sp_7" m1 = (Ok tt, m2) /\
     TransactionManager.activeTransactions m2
     = TransactionManager.activeTransactions
         (manager_with_savepoints ["sp_1"; "sp_2"; "sp_3"])).
Proof.
  assert (Hnotin : "sp_7" ∉ ["sp_1"; "sp_2"; "sp_3"]).
  { intros H. repeat (apply elem_of_cons in H as [H | H]; [discriminate H |]).
    now apply elem_of_nil in H. }
  split; [| split].
  - destruct (savepoint_release (manager_with_savepoints ["sp_1"; "sp_2"; "sp_3"])
                "tx_1" "sp_2") as (H & _ & _).
    destruct (H _ 1%nat eq_refl eq_refl eq_refl) as (r & m' & Hrun & _ & Hr & Htx).
    + intros [| j] Hj; [discriminate | lia].
    + subst r. exists m'. split; [exact Hrun | now rewrite Htx].
  - destruct (savepoint_release (manager_with_savepoints ["sp_1"; "sp_2"; "sp_3"])
                "tx_1" "sp_7") as (_ & _ & H).
    now destruct (H _ eq_refl eq_refl Hnotin) as [Hrefused _].
  - destruct (savepoint_release (manager_with_savepoints ["sp_1"; "sp_2"; "sp_3"])
                "tx_1" "sp_7") as (_ & _ & H).
    destruct (H _ eq_refl eq_refl Hnotin) as [_ Hround].
    destruct Hround as (m1 & m2 & H1 & H2 & H3 & _);
      [discriminate | intros sent sql; reflexivity |].
    exists m1, m2. auto.
Defined.
(* ------------------------------------------------------------------ *)
(** ** Transaction manager: transactions are always unregistered       *)
(* ------------------------------------------------------------------ *)

Section NoLeak.

Import TransactionManager.

Lemma JsMap_delete_set_new {V} (m : JsMap.t V) k v :
  JsMap.get m k = None -> JsMap.delete (JsMap.set m k v) k = m.
Proof.
  induction m as [| [k' v'] m IH]; cbn.
  - now rewrite String.eqb_refl.
  - destruct (String.eqb k' k) eqn:E; [discriminate |]. intros H. cbn. rewrite E.
    now rewrite IH.
Qed.

Lemma JsMap_get_set_None {V} (m : JsMap.t V) k v k' :
  JsMap.get (JsMap.set m k v) k' = None <-> k <> k' /\ JsMap.get m k' = None.
Proof.
  destruct (String.eqb_spec k k') as [<- | Hne].
  - rewrite JsMap_get_set_eq. split; [discriminate | intros [[] _]; reflexivity].
  - rewrite JsMap_get_set_ne by exact Hne. tauto.
Qed.

Lemma transaction_id_inj (j k : nat) :
  "tx_" +:+ pretty j = "tx_" +:+ pretty k -> j = k.
Proof. cbn. intros [= H]. exact (pretty_nat_inj _ _ H). Qed.

(** Steps that touch neither the map of transactions nor the counter of
    transaction ids. *)
Lemma running_same A n txid m m' :
  activeTransactions m' = activeTransactions m ->
  nextTransactionId m' = nextTransactionId m ->
  running A n txid m -> running A n txid m'.
Proof.
  intros Htx Hn (Hle & Hfresh & Ht). unfold running, fresh_ids. rewrite Htx, Hn.
  auto.
Qed.

Lemma query_running A n txid sql : keeps (running A n txid) (query sql).
Proof.
  intros m r m'. unfold query.
  destruct (connection m (queries (trace m)) sql); intros [= <- <-];
    now apply running_same.
Qed.

Lemma emit_running A n txid ev : keeps (running A n txid) (emit ev).
Proof. intros m r m' [= <- <-]. now apply running_same. Qed.

Lemma sleep_running A n txid ms : keeps (running A n txid) (sleep ms).
Proof. intros m r m' [= <- <-]. now apply running_same. Qed.

Lemma fresh_savepoint_name_running A n txid :
  keeps (running A n txid) fresh_savepoint_name.
Proof. intros m r m' [= <- <-]. now apply running_same. Qed.

(** The in-place updates of the manager keep the id of a transaction. *)
Lemma update_running A n txid f :
  (forall t, id (f t) = id t) ->
  keeps (running A n txid) (update_transaction txid f).
Proof.
  intros Hid m r m' [= <- <-] (Hle & Hfresh & t & Ht & Htx).
  split; [exact Hle |]. split.
  - intros k Hk. specialize (Hfresh k Hk).
    cbn [activeTransactions set_transactions nextTransactionId] in *.
    rewrite Htx, JsMap_get_set_eq, JsMap_set_set.
    rewrite Htx in Hfresh. apply JsMap_get_set_None in Hfresh.
    now apply JsMap_get_set_None.
  - exists (f t). split; [now rewrite Hid |].
    cbn [activeTransactions set_transactions].
    now rewrite Htx, JsMap_get_set_eq, JsMap_set_set.
Qed.

Lemma active_transaction_running A n txid txid' :
  keeps (running A n txid) (active_transaction txid').
Proof.
  intros m r m'. unfold active_transaction.
  destruct (JsMap.get (activeTransactions m) txid') as [t |];
    [destruct (isActive t) |]; now intros [= <- <-].
Qed.

(** The savepoint operations on the running transaction. *)
Lemma createSavepoint_running A n txid name :
  keeps (running A n txid) (createSavepoint txid name).
Proof.
  unfold createSavepoint.
  apply keeps_bind; [apply active_transaction_running | intros t].
  apply keeps_bind.
  { destruct name as [sp |]; [| apply fresh_savepoint_name_running].
    destruct (String.eqb sp EmptyString);
      [apply fresh_savepoint_name_running | apply keeps_ret]. }
  intros sp. apply keeps_try_catch.
  - apply keeps_bind; [apply query_running | intros _].
    apply keeps_bind; [now apply update_running | intros _].
    apply keeps_bind; [apply emit_running | intros _]. apply keeps_ret.
  - intros e. apply keeps_bind; [apply emit_running | intros _]. apply keeps_throw.
Qed.

Lemma commitTransaction_running A n txid :
  keeps (running A n txid) (commitTransaction txid).
Proof.
  unfold commitTransaction.
  apply keeps_bind; [apply active_transaction_running | intros t].
  apply keeps_bind; [| intros _; now apply update_running].
  destruct (Nat.eqb (level t) 0); [apply query_running |].
  destruct (last (savepoints t)) as [sp |]; [| apply keeps_ret].
  destruct (String.eqb sp EmptyString); [apply keeps_ret | apply query_running].
Qed.

Lemma rollbackTransaction_running A n txid :
  keeps (running A n txid) (rollbackTransaction txid).
Proof.
  unfold rollbackTransaction. apply keeps_bind; [apply keeps_gets | intros txs].
  destruct (JsMap.get txs txid) as [t |]; [| apply keeps_ret].
  apply keeps_bind; [| intros _; now apply update_running].
  apply keeps_try_catch; [| intros e; apply emit_running].
  destruct (Nat.eqb (level t) 0); [apply query_running |].
  destruct (last (savepoints t)) as [sp |]; [| apply keeps_ret].
  destruct (String.eqb sp EmptyString); [apply keeps_ret | apply query_running].
Qed.

Lemma beginTransaction_running A n t options :
  keeps (running A n (id t)) (beginTransaction t options).
Proof.
  unfold beginTransaction.
  apply keeps_bind; [| intros stmts; apply keeps_for_each; intros q; apply query_running].
  destruct (Nat.eqb (level t) 0); [apply keeps_ret |].
  apply keeps_bind; [now apply update_running | intros _; apply keeps_ret].
Qed.

Context {T : Type}.
Variable callback : nat -> TransactionContext -> M TransactionManager T.
Variable timer_first : nat -> bool.
Variable interrupted : nat -> TransactionContext -> TransactionManager -> TransactionManager.
Variable options : TransactionOptions.

(** The callback leaves the registrations as it finds them: whatever
    transactions it starts are over when it settles, and of the
    transactions it finds it touches only its own. *)
Hypothesis callback_running : forall found n i tx,
  keeps (running found n (id tx)) (callback i tx).
Hypothesis interrupted_running : forall found n i tx m,
  running found n (id tx) m -> running found n (id tx) (interrupted i tx m).

Lemma run_callback_running A n txid :
  keeps (running A n txid) (run_callback callback timer_first interrupted options txid).
Proof.
  intros m r m' Hrun Hm. unfold run_callback in Hrun. cbv zeta in Hrun.
  set (m0 := {| connection := connection m; activeTransactions := activeTransactions m;
                nextTransactionId := nextTransactionId m;
                nextSavepointId := nextSavepointId m;
                trace := trace m; invocations := S (invocations m) |}) in Hrun.
  assert (Hm0 : running A n txid m0)
    by (apply (running_same A n txid m); [reflexivity | reflexivity | exact Hm]).
  destruct Hm as (_ & _ & t & Hid & Htx).
  rewrite Htx, JsMap_get_set_eq in Hrun. subst txid.
  destruct (_ && _).
  - injection Hrun as <- <-. now apply interrupted_running.
  - eapply callback_running; eassumption.
Qed.

Lemma executeTransaction_unregisters attempt m r m' :
  fresh_ids m ->
  executeTransaction callback timer_first interrupted options attempt m = (r, m') ->
  activeTransactions m' = activeTransactions m /\
  (nextTransactionId m < nextTransactionId m')%nat /\
  fresh_ids m'.
Proof.
  intros Hfresh. unfold executeTransaction, try_finally.
  match goal with
  | |- (let '(_, _) := ?c ?m1 in _) = _ -> _ =>
      assert (Hkeeps : keeps (running (activeTransactions m) (S (nextTransactionId m))
                                ("tx_" +:+ pretty (nextTransactionId m))) c);
      [| destruct (c m1) as [r1 m2] eqn:Hrun;
         assert (Hstart : running (activeTransactions m) (S (nextTransactionId m))
                            ("tx_" +:+ pretty (nextTransactionId m)) m1);
         [| pose proof (Hkeeps _ _ _ Hrun Hstart) as (Hn & Hfresh2 & t & Hid & Ht) ] ]
  end.
  - apply keeps_try_catch.
    + apply keeps_bind;
        [exact (beginTransaction_running _ _
                  {| id := "tx_" +:+ pretty (nextTransactionId m);
                     level := getNestedLevel m;
                     tx_isolationLevel := isolationLevel options; savepoints := [];
                     tx_readOnly := truthy_bool (readOnly options); isActive := true |}
                  options)
        | intros _].
      apply keeps_bind; [apply emit_running | intros _].
      apply keeps_bind; [apply run_callback_running | intros res].
      apply keeps_bind; [apply commitTransaction_running | intros _].
      apply keeps_bind; [apply keeps_gets | intros txs].
      apply keeps_bind; [apply emit_running | intros _]. apply keeps_ret.
    + intros e. apply keeps_bind; [apply rollbackTransaction_running | intros _].
      apply keeps_bind; [apply emit_running | intros _]. apply keeps_throw.
  - split; [cbn; lia |]. split; [| eexists; split; [| reflexivity]; reflexivity].
    intros k Hk. cbn [activeTransactions nextTransactionId] in *.
    apply JsMap_get_set_None. split.
    + intros Heq. apply transaction_id_inj in Heq. lia.
    + apply Hfresh. lia.
  - intros [= <- <-]. cbn [activeTransactions set_transactions nextTransactionId].
    rewrite Ht. split; [| split; [lia |]].
    + apply JsMap_delete_set_new. apply Hfresh. lia.
    + intros k Hk. cbn [activeTransactions set_transactions nextTransactionId] in *.
      rewrite Ht, JsMap_delete_set_new by (apply Hfresh; lia).
      specialize (Hfresh2 k Hk). rewrite Ht in Hfresh2.
      now apply JsMap_get_set_None in Hfresh2.
Qed.

Lemma withTransaction_from_unregisters budget : forall retries_ last m r m',
  fresh_ids m ->
  withTransaction_from callback timer_first interrupted options budget retries_ last m
  = (r, m') ->
  activeTransactions m' = activeTransactions m /\
  (nextTransactionId m <= nextTransactionId m')%nat /\
  fresh_ids m'.
Proof.
  induction budget as [| budget IH]; intros retries_ last m r m' Hfresh;
    cbn [withTransaction_from].
  - intros [= <- <-]. split; [reflexivity |]. split; [lia | exact Hfresh].
  - unfold try_catch.
    destruct (executeTransaction callback timer_first interrupted options retries_ m)
      as [[res | e] m1] eqn:Hrun;
      destruct (executeTransaction_unregisters _ _ _ _ Hfresh Hrun) as (Htx & Hn & Hfresh1).
    + intros [= <- <-]. split; [exact Htx |]. split; [lia | exact Hfresh1].
    + destruct (_ && _); [| intros [= <- <-]; split; [exact Htx |]; split;
                             [lia | exact Hfresh1]].
      unfold bind at 1, emit at 1, modify at 1.
      unfold bind at 1, sleep at 1, modify at 1.
      intros Hrest. apply IH in Hrest.
      * cbn [activeTransactions nextTransactionId log] in Hrest.
        destruct Hrest as (Htx' & Hn' & Hfresh'). split; [congruence |].
        split; [lia | exact Hfresh'].
      * intros k Hk. cbn [activeTransactions nextTransactionId log] in *.
        now apply Hfresh1.
Qed.

(** A transaction started inside another one that runs leaves that one
    running. *)
Lemma withTransaction_running A n txid :
  keeps (running A n txid) (withTransaction callback timer_first interrupted options).
Proof.
  intros m r m' Hrun (Hle & Hfresh & Ht). unfold withTransaction in Hrun.
  destruct (withTransaction_from_unregisters _ _ _ _ _ _ Hfresh Hrun)
    as (Htx & Hn & Hfresh').
  split; [lia |]. split; [exact Hfresh' |]. now rewrite Htx.
Qed.

(** Property X26.  A transaction is registered only while it runs.  For
    a callback that leaves the registrations as it finds them (the
    transactions it starts itself are over when it settles, and of the
    others it touches only the savepoints of its own), over any
    connection and however the call ends, [executeTransaction] and
    [withTransaction] (with all its retries) leave the map of active
    transactions as they found it; each attempt uses up at least one
    transaction id, and the ids still to come stay unused. *)
Theorem transactions_are_unregistered (m : TransactionManager) :
  fresh_ids m ->
  (forall attempt r m',
     executeTransaction callback timer_first interrupted options attempt m = (r, m') ->
     activeTransactions m' = activeTransactions m /\
     (nextTransactionId m < nextTransactionId m')%nat /\
     fresh_ids m') /\
  (forall r m',
     withTransaction callback timer_first interrupted options m = (r, m') ->
     activeTransactions m' = activeTransactions m /\
     hasActiveTransactions m' = hasActiveTransactions m /\
     getNestedLevel m' = getNestedLevel m /\
     (nextTransactionId m <= nextTransactionId m')%nat /\
     fresh_ids m').
Proof.
  intros Hfresh. split.
  - intros attempt r m'. now apply executeTransaction_unregisters.
  - intros r m' Hrun. unfold withTransaction in Hrun.
    destruct (withTransaction_from_unregisters _ _ _ _ _ _ Hfresh Hrun)
      as (Htx & Hn & Hfresh').
    split; [exact Htx |]. unfold hasActiveTransactions, getNestedLevel. rewrite Htx.
    split; [reflexivity |]. split; [reflexivity |]. split; [exact Hn | exact Hfresh'].
Qed.

End NoLeak.

(** The nested transactions of the repository's tests, in a manager with
    no transaction: the inner transaction runs as a savepoint of the
    outer one, two transaction ids are used up, and afterwards no
    transaction is registered. *)
Lemma transactions_are_unregistered_witness :
  fresh_ids (TransactionManager.new (fun _ _ => None)) /\
  exists res m',
    TransactionManager.withTransaction outer_callback (fun _ => false) (fun _ _ m => m)
      no_options (TransactionManager.new (fun _ _ => None)) = (Ok res, m') /\
    TransactionManager.tr_result (TransactionManager.tr_result res) = "inner success" /\
    TransactionManager.queries (TransactionManager.trace m')
    = ["BEGIN"; "SAVEPOINT sp_level_1"; "RELEASE SAVEPOINT sp_level_1"; "COMMIT"] /\
    TransactionManager.nextTransactionId m' = 3%nat /\
    TransactionManager.activeTransactions m' = [].
Proof.
  assert (Hfresh : fresh_ids (TransactionManager.new (fun _ _ => None)))
    by (intros k _; reflexivity).
  assert (Hinner : forall found n i tx,
            keeps (running found n (TransactionManager.id tx)) (inner_callback i tx)).
  { intros found n i tx m r m' [= <- <-]. auto. }
  assert (Houter : forall found n i tx,
            keeps (running found n (TransactionManager.id tx)) (outer_callback i tx)).
  { intros found n i tx. apply withTransaction_running; [exact Hinner | auto]. }
  destruct (transactions_are_unregistered outer_callback (fun _ => false) (fun _ _ m => m)
              no_options Houter (fun _ _ _ _ _ H => H) _ Hfresh) as [_ Hleft].
  split; [exact Hfresh |].
  destruct (TransactionManager.withTransaction outer_callback (fun _ => false)
              (fun _ _ m => m) no_options (TransactionManager.new (fun _ _ => None)))
    as [r m'] eqn:Hrun.
  destruct (Hleft r m' eq_refl) as (Hmap & _).
  vm_compute in Hrun. injection Hrun as <- <-.
  eexists _, _. split; [reflexivity |]. split; [reflexivity |].
  split; [reflexivity |]. split; [reflexivity | exact Hmap].
Defined.
(* ------------------------------------------------------------------ *)
(** ** Connection pool: query metrics                                  *)
(* ------------------------------------------------------------------ *)

Section MetricsFacts.

Import ConnectionPool.

Variable respond : list string -> string -> option (option string * string).
Variable took : list string -> string -> Z.
Variable clock : list string -> Z.
Variable connects : nat -> option (option string * string).

Lemma slice_from_last {A} (n : nat) (l : list A) :
  slice_from (- Z.of_nat (S n)) l = drop (length l - S n) l.
Proof.
  unfold slice_from. destruct (Z.ltb_spec (- Z.of_nat (S n)) 0) as [_ | H]; [| lia].
  f_equal. lia.
Qed.

Lemma recordQueryMetrics_ok q d s e now p :
  metrics_ok p -> metrics_ok (recordQueryMetrics q d s e now p).
Proof.
  intros (Hlen & Hcount & Hslow). unfold recordQueryMetrics.
  destruct (negb (monitoring_enabled (monitoring p))); [now split |].
  cbv zeta. unfold metrics_ok, with_metrics. cbn [queryMetrics totalQueries slowQueries].
  rewrite length_app. cbn [length].
  destruct (Nat.ltb_spec 1000 (length (queryMetrics p) + 1)) as [Hover | Hfit].
  - change (-1000) with (- Z.of_nat (S 999)). rewrite slice_from_last, length_drop, length_app.
    cbn [length]. split; [lia |]. split; [lia |]. destruct (match _ with Some _ => _ | None => _ end); lia.
  - rewrite length_app. cbn [length]. split; [lia |]. split; [lia |].
    destruct (match _ with Some _ => _ | None => _ end); lia.
Qed.

Lemma query_ok sql : keeps metrics_ok (query respond took clock sql).
Proof.
  intros p r p'. unfold query. destruct (respond (sent p) sql);
    intros [= <- <-] H; now apply recordQueryMetrics_ok.
Qed.

Lemma connection_query_ok c sql :
  keeps metrics_ok (connection_query respond took clock c sql).
Proof.
  intros p r p'. unfold connection_query.
  destruct (connections p !! c) as [conn |]; [| now intros [= <- <-]].
  destruct (released conn); intros [= <- <-] H; [exact H |].
  now apply recordQueryMetrics_ok.
Qed.

Lemma release_ok c p : metrics_ok p -> metrics_ok (release c p).
Proof.
  unfold release. destruct (connections p !! c) as [conn |]; [| tauto].
  now destruct (released conn).
Qed.

Lemma getConnection_ok : keeps metrics_ok (getConnection connects).
Proof.
  intros p r p'. unfold getConnection. destruct (isShuttingDown p); [now intros [= <- <-] |].
  destruct (connects _); now intros [= <- <-].
Qed.

Lemma keeps_try_finally {S A} (P : S -> Prop) (c : M S A) (f : S -> S) :
  keeps P c -> (forall s, P s -> P (f s)) -> keeps P (try_finally c f).
Proof.
  intros Hc Hf s r s'. unfold try_finally. destruct (c s) as [r0 s0] eqn:Hrun.
  intros [= <- <-] Hs. apply Hf. eapply Hc; eassumption.
Qed.

(** Property X27.  The pool never stores more than 1000
    query metrics, never stores a metric it has not counted, and never
    counts more slow queries than queries: every operation that runs a
    statement or touches the metrics keeps this, however it ends, and a
    pool transaction keeps it if its callback does. *)
Theorem metrics_stay_bounded :
  (forall q d s e now p, metrics_ok p -> metrics_ok (recordQueryMetrics q d s e now p)) /\
  (forall sql, keeps metrics_ok (query respond took clock sql)) /\
  keeps metrics_ok (healthCheck respond took clock) /\
  keeps metrics_ok (getConnection connects) /\
  (forall c sql, keeps metrics_ok (connection_query respond took clock c sql)) /\
  (forall c p, metrics_ok p -> metrics_ok (release c p)) /\
  (forall p, metrics_ok p -> metrics_ok (clearMetrics p)) /\
  (forall T (callback : nat -> M t T) isolationLevel,
     (forall c, keeps metrics_ok (callback c)) ->
     keeps metrics_ok (transaction respond took clock connects callback isolationLevel)).
Proof.
  split; [apply recordQueryMetrics_ok |]. split; [apply query_ok |].
  split.
  { unfold healthCheck. apply keeps_try_catch; [| intros e; apply keeps_ret].
    apply keeps_bind; [apply query_ok | intros _; apply keeps_ret]. }
  split; [apply getConnection_ok |]. split; [apply connection_query_ok |].
  split; [apply release_ok |].
  split.
  { intros p (Hlen & Hcount & Hslow). unfold metrics_ok, clearMetrics, with_metrics.
    cbn. lia. }
  intros T callback isolationLevel Hcb. unfold transaction.
  apply keeps_bind; [apply getConnection_ok | intros c].
  apply keeps_try_finally; [| apply release_ok].
  apply keeps_try_catch.
  - apply keeps_bind; [apply connection_query_ok | intros _].
    apply keeps_bind.
    + destruct isolationLevel as [level |]; [| apply keeps_ret].
      destruct (String.eqb level EmptyString); [apply keeps_ret | apply connection_query_ok].
    + intros _. apply keeps_bind; [apply Hcb | intros res].
      apply keeps_bind; [apply connection_query_ok | intros _; apply keeps_ret].
  - intros e. apply keeps_bind; [apply connection_query_ok | intros _; apply keeps_throw].
Qed.

End MetricsFacts.
Section RecentMetrics.

Import ConnectionPool.

Variable respond : list string -> string -> option (option string * string).
Variable took : list string -> string -> Z.
Variable clock : list string -> Z.

Lemma slice_from_suffix {A} (start : Z) (l : list A) : slice_from start l `suffix_of` l.
Proof. unfold slice_from. destruct (start <? 0); apply suffix_drop. Qed.

(** What [recordQueryMetrics] stores when monitoring is on: the new
    entry comes last. *)
Lemma recordQueryMetrics_last q d s e now p :
  monitoring_enabled (monitoring p) = true ->
  exists older,
    queryMetrics (recordQueryMetrics q d s e now p)
    = older ++ [{| qm_query := if logQueries (monitoring p) then q
                               else String.substring 0 100 q +:+ "...";
                   qm_duration := d; qm_timestamp := now;
                   qm_success := s; qm_error := e |}] /\
    older `suffix_of` queryMetrics p.
Proof.
  intros Hon. unfold recordQueryMetrics. rewrite Hon. cbv zeta.
  cbn [negb with_metrics queryMetrics].
  destruct (Nat.ltb_spec 1000 (length (queryMetrics p ++ [{|
                 qm_query := if logQueries (monitoring p) then q
                             else String.substring 0 100 q +:+ "...";
                 qm_duration := d; qm_timestamp := now;
                 qm_success := s; qm_error := e |}]))) as [Hover | Hfit].
  - change (-1000) with (- Z.of_nat (S 999)). rewrite slice_from_last.
    rewrite length_app in *. cbn [length] in *.
    rewrite drop_app_le by lia. eexists. split; [reflexivity | apply suffix_drop].
  - eexists. split; [reflexivity | reflexivity].
Qed.

Lemma slice_last_one {A} (older : list A) (x : A) :
  slice_from (-1) (older ++ [x]) = [x].
Proof.
  change (-1) with (- Z.of_nat (S 0)). rewrite slice_from_last, length_app. cbn [length].
  rewrite drop_app_length'; [reflexivity | lia].
Qed.

(** Property X28.  [getQueryMetrics] returns the newest
    stored metrics, oldest first: the last 100 when no limit is given,
    the last [limit] for a positive limit, and all of them for a limit
    of 0.  With monitoring on, the newest one describes the last
    statement run through [query]: its text (cut to 100 characters and
    followed by three dots unless [logQueries] is set), its duration,
    and whether it failed and with which message. *)
Theorem recent_metrics (p : t) :
  (forall limit, getQueryMetrics limit p `suffix_of` queryMetrics p) /\
  length (getQueryMetrics None p) = Nat.min 100 (length (queryMetrics p)) /\
  (forall limit, 0 < limit ->
     length (getQueryMetrics (Some limit) p)
     = Nat.min (Z.to_nat limit) (length (queryMetrics p))) /\
  getQueryMetrics (Some 0) p = queryMetrics p /\
  (forall sql,
     monitoring_enabled (monitoring p) = true ->
     getQueryMetrics (Some 1) (snd (query respond took clock sql p))
     = [{| qm_query := if logQueries (monitoring p) then sql
                       else String.substring 0 100 sql +:+ "...";
           qm_duration := took (sent p) sql;
           qm_timestamp := clock (sent p ++ [sql]);
           qm_success := bool_decide (respond (sent p) sql = None);
           qm_error := snd <$> respond (sent p) sql |}]).
Proof.
  split; [intros limit; apply slice_from_suffix |].
  assert (Hpos : forall limit, 0 < limit ->
            length (slice_from (- limit) (queryMetrics p))
            = Nat.min (Z.to_nat limit) (length (queryMetrics p))).
  { intros limit Hlimit. unfold slice_from.
    destruct (Z.ltb_spec (- limit) 0) as [_ | H]; [| lia].
    rewrite length_drop. lia. }
  split; [apply (Hpos 100); lia |]. split; [exact Hpos |].
  split; [reflexivity |].
  intros sql Hon. unfold getQueryMetrics, query. cbn [default Z.opp].
  destruct (respond (sent p) sql) as [failure |]; cbn [snd fmap option_fmap option_map];
    match goal with
    | |- context [recordQueryMetrics ?q ?d ?s ?e ?now ?p0] =>
        destruct (recordQueryMetrics_last q d s e now p0 Hon) as (older & -> & _)
    end;
    now rewrite slice_last_one.
Qed.

End RecentMetrics.

(** A failing statement run through the pool's [query]: the newest
    metric carries its text with three dots, and the failure. *)
Lemma recent_metrics_witness :
  ConnectionPool.getQueryMetrics (Some 1)
    (snd (ConnectionPool.query picky_driver (fun _ _ => 5) (fun _ => 0)
            "SELECT broken" monitored_pool))
  = [{| ConnectionPool.qm_query := "SELECT broken...";
        ConnectionPool.qm_duration := 5; ConnectionPool.qm_timestamp := 0;
        ConnectionPool.qm_success := false;
        ConnectionPool.qm_error := Some "syntax error" |}].
Proof.
  destruct (recent_metrics picky_driver (fun _ _ => 5) (fun _ => 0) monitored_pool)
    as (_ & _ & _ & _ & H).
  now rewrite (H "SELECT broken" eq_refl).
Defined.
(* ------------------------------------------------------------------ *)
(** ** Connection pool: pooled connections and transactions            *)
(* ------------------------------------------------------------------ *)

Section PooledConnectionFacts.

Import ConnectionPool.

Variable respond : list string -> string -> option (option string * string).
Variable took : list string -> string -> Z.
Variable clock : list string -> Z.
Variable connects : nat -> option (option string * string).

Lemma connection_query_open c sql p :
  open_connection c p ->
  connection_query respond took clock c sql p
  = (match respond (sent p) sql with
     | None => Ok tt
     | Some failure => Throw (driver_error failure)
     end,
     recordQueryMetrics sql (took (sent p) sql) true None (clock (sent p ++ [sql]))
       (hand_to_driver sql p)).
Proof. intros Hopen. unfold connection_query. now rewrite Hopen. Qed.

Lemma recordQueryMetrics_frame q d s e now p :
  sent (recordQueryMetrics q d s e now p) = sent p /\
  connections (recordQueryMetrics q d s e now p) = connections p /\
  errors (recordQueryMetrics q d s e now p) = errors p /\
  isShuttingDown (recordQueryMetrics q d s e now p) = isShuttingDown p /\
  monitoring (recordQueryMetrics q d s e now p) = monitoring p.
Proof.
  unfold recordQueryMetrics. destruct (negb _); repeat split; reflexivity.
Qed.

Lemma connection_query_keeps_open c c' sql :
  keeps (open_connection c) (connection_query respond took clock c' sql).
Proof.
  intros p r p'. unfold connection_query.
  destruct (connections p !! c') as [conn |]; [| now intros [= <- <-]].
  destruct (released conn); intros [= <- <-] H; [exact H |].
  unfold open_connection in *.
  now destruct (recordQueryMetrics_frame sql (took (sent p) sql) true None
                  (clock (sent p ++ [sql])) (hand_to_driver sql p)) as (_ & -> & _).
Qed.

Lemma connection_query_sent c sql p r p' :
  open_connection c p ->
  connection_query respond took clock c sql p = (r, p') ->
  sent p' = sent p ++ [sql] /\ open_connection c p'.
Proof.
  intros Hopen Hrun. split; [| exact (connection_query_keeps_open c c sql _ _ _ Hrun Hopen)].
  rewrite (connection_query_open _ _ _ Hopen) in Hrun. injection Hrun as _ <-.
  now destruct (recordQueryMetrics_frame sql (took (sent p) sql) true None
                  (clock (sent p ++ [sql])) (hand_to_driver sql p)) as (-> & _).
Qed.

(** Property X29.  On a pooled connection that is
    open, a statement the driver rejects fails with the driver's
    error, and yet its metric says it succeeded and carries no message,
    and the pool's error count stays as it is; the same statement run
    through the pool's own [query] is recorded as failed, with the
    message, and counted as an error.  Releasing the connection hands
    its client back once; releasing it again does nothing; and a
    statement on the released connection is refused before it reaches
    the driver or the metrics. *)
Theorem pooled_connection_use (p : t) (c : nat) (sql : string) :
  open_connection c p ->
  (forall failure,
     respond (sent p) sql = Some failure ->
     monitoring_enabled (monitoring p) = true ->
     (exists p',
        connection_query respond took clock c sql p = (Throw (driver_error failure), p') /\
        sent p' = sent p ++ [sql] /\
        errors p' = errors p /\
        (qm_success <$> getQueryMetrics (Some 1) p') = [true] /\
        (qm_error <$> getQueryMetrics (Some 1) p') = [None]) /\
     (exists p',
        query respond took clock sql p = (Throw (driver_error failure), p') /\
        sent p' = sent p ++ [sql] /\
        errors p' = S (errors p) /\
        (qm_success <$> getQueryMetrics (Some 1) p') = [false] /\
        (qm_error <$> getQueryMetrics (Some 1) p') = [Some (snd failure)])) /\
  connections (release c p) !! c = Some {| released := true; clientReleases := 1 |} /\
  release c (release c p) = release c p /\
  connection_query respond took clock c sql (release c p)
  = (Throw (plain_error "Connection has been released back to the pool"), release c p).
Proof.
  intros Hopen. split.
  - intros failure Hfail Hon. split.
    + rewrite (connection_query_open _ _ _ Hopen), Hfail. eexists. split; [reflexivity |].
      destruct (recordQueryMetrics_frame sql (took (sent p) sql) true None
                  (clock (sent p ++ [sql])) (hand_to_driver sql p))
        as (-> & _ & -> & _).
      split; [reflexivity |]. split; [reflexivity |].
      unfold getQueryMetrics. cbn [default Z.opp].
      destruct (recordQueryMetrics_last sql (took (sent p) sql) true None
                  (clock (sent p ++ [sql])) (hand_to_driver sql p) Hon)
        as (older & -> & _).
      rewrite slice_last_one. split; reflexivity.
    + unfold query. rewrite Hfail. eexists. split; [reflexivity |].
      destruct (recordQueryMetrics_frame sql (took (sent p) sql) false
                  (Some (snd failure)) (clock (sent p ++ [sql]))
                  (count_error (hand_to_driver sql p)))
        as (-> & _ & -> & _).
      split; [reflexivity |]. split; [reflexivity |].
      unfold getQueryMetrics. cbn [default Z.opp].
      destruct (recordQueryMetrics_last sql (took (sent p) sql) false
                  (Some (snd failure)) (clock (sent p ++ [sql]))
                  (count_error (hand_to_driver sql p)) Hon)
        as (older & -> & _).
      rewrite slice_last_one. split; reflexivity.
  - assert (Hreleased : connections (release c p) !! c
                        = Some {| released := true; clientReleases := 1 |}).
    { unfold release. rewrite Hopen. cbn [released clientReleases with_connections
        connections]. apply list_lookup_insert_eq.
      eapply lookup_lt_Some. exact Hopen. }
    split; [exact Hreleased |]. split.
    + unfold release at 1. now rewrite Hreleased.
    + unfold connection_query. now rewrite Hreleased.
Qed.

Lemma connection_query_grows c sql p r p' :
  connection_query respond took clock c sql p = (r, p') -> sent p `prefix_of` sent p'.
Proof.
  unfold connection_query. destruct (connections p !! c) as [conn |];
    [| now intros [= <- <-]].
  destruct (released conn); intros [= <- <-]; [reflexivity |].
  destruct (recordQueryMetrics_frame sql (took (sent p) sql) true None
              (clock (sent p ++ [sql])) (hand_to_driver sql p)) as (-> & _).
  now apply prefix_app_r.
Qed.

Lemma release_sent c p : sent (release c p) = sent p.
Proof.
  unfold release. destruct (connections p !! c) as [conn |]; [| reflexivity].
  now destruct (released conn).
Qed.

(** Property X30.  A pool that is shutting down
    refuses [transaction] and does nothing.  Otherwise, once a
    connection is obtained, and for a callback that does not release it
    and only adds to the statements sent, the transaction always hands
    the connection back, exactly once, however it ends; [BEGIN] is the
    first statement it sends; and the last statement sent is [COMMIT]
    when the transaction succeeds and [ROLLBACK] when it fails. *)
Theorem pool_transaction {T} (callback : nat -> M t T) (isolationLevel : option string)
    (p : t) :
  (isShuttingDown p = true ->
   transaction respond took clock connects callback isolationLevel p
   = (Throw (plain_error "Connection pool is shutting down"), p)) /\
  (isShuttingDown p = false ->
   connects (length (connections p)) = None ->
   keeps (open_connection (length (connections p))) (callback (length (connections p))) ->
   (forall s r s', callback (length (connections p)) s = (r, s') ->
                   sent s `prefix_of` sent s') ->
   exists r p',
     transaction respond took clock connects callback isolationLevel p = (r, p') /\
     connections p' !! length (connections p)
     = Some {| released := true; clientReleases := 1 |} /\
     (sent p ++ ["BEGIN"]) `prefix_of` sent p' /\
     last (sent p') = Some (match r with Ok _ => "COMMIT" | Throw _ => "ROLLBACK" end)).
Proof.
  split.
  - intros Hdown. unfold transaction, bind, getConnection. now rewrite Hdown.
  - intros Hup Hconnect Hcb Hgrow. unfold transaction, bind at 1, getConnection.
    rewrite Hup, Hconnect.
    set (c := length (connections p)) in *.
    set (p0 := with_connections _ p).
    assert (Hopen0 : open_connection c p0).
    { unfold open_connection, p0, c. cbn [connections with_connections].
      now rewrite lookup_app_r, Nat.sub_diag by lia. }
    assert (Hsent0 : sent p0 = sent p) by reflexivity.
    (* the end: release *)
    assert (Hend : forall (r : result T) p1,
               open_connection c p1 ->
               (sent p ++ ["BEGIN"]) `prefix_of` sent p1 ->
               last (sent p1)
               = Some (match r with Ok _ => "COMMIT" | Throw _ => "ROLLBACK" end) ->
               connections (release c p1) !! c
               = Some {| released := true; clientReleases := 1 |} /\
               (sent p ++ ["BEGIN"]) `prefix_of` sent (release c p1) /\
               last (sent (release c p1))
               = Some (match r with Ok _ => "COMMIT" | Throw _ => "ROLLBACK" end)).
    { intros r p1 Hopen1 Hsent1 Hlast1. rewrite release_sent.
      split; [| split; [exact Hsent1 | exact Hlast1]].
      unfold release. rewrite Hopen1.
      cbn [released clientReleases with_connections connections].
      apply list_lookup_insert_eq. eapply lookup_lt_Some. exact Hopen1. }
    (* the handler, then the release *)
    assert (Hfail : forall e p1,
               open_connection c p1 ->
               (sent p ++ ["BEGIN"]) `prefix_of` sent p1 ->
               exists r p',
                 (let '(r0, s') := (connection_query respond took clock c "ROLLBACK" ;;;
                                    @throw _ T e) p1 in (r0, release c s')) = (r, p') /\
                 connections p' !! c = Some {| released := true; clientReleases := 1 |} /\
                 (sent p ++ ["BEGIN"]) `prefix_of` sent p' /\
                 last (sent p')
                 = Some (match r with Ok _ => "COMMIT" | Throw _ => "ROLLBACK" end)).
    { intros e p1 Hopen1 Hsent1. unfold bind.
      destruct (connection_query respond took clock c "ROLLBACK" p1) as [[[] | e1] p2]
        eqn:Hrb; destruct (connection_query_sent _ _ _ _ _ Hopen1 Hrb) as [Hs2 Ho2];
        (eexists (Throw _), _; split; [reflexivity |]);
        (apply (Hend (Throw e)); [exact Ho2 | | rewrite Hs2; apply last_snoc]);
        rewrite Hs2; now apply prefix_app_r. }
    unfold try_finally, try_catch. unfold bind at 1.
    destruct (connection_query respond took clock c "BEGIN" p0) as [[[] | e] p1] eqn:Hbegin;
      destruct (connection_query_sent _ _ _ _ _ Hopen0 Hbegin) as [Hs1 Ho1];
      rewrite Hsent0 in Hs1;
      assert (Hp1 : (sent p ++ ["BEGIN"]) `prefix_of` sent p1) by now rewrite Hs1.
    2:{ now apply Hfail. }
    unfold bind at 1.
    assert (Hiso : exists r2 p2,
               match isolationLevel with
               | Some level =>
                   if String.eqb level EmptyString then ret tt
                   else connection_query respond took clock c
                          ("SET TRANSACTION ISOLATION LEVEL " +:+ level)
               | None => ret tt
               end p1 = (r2, p2) /\
               (sent p ++ ["BEGIN"]) `prefix_of` sent p2 /\ open_connection c p2).
    { destruct isolationLevel as [level |];
        [destruct (String.eqb level EmptyString) |];
        try (exists (Ok tt), p1; split; [reflexivity |]; now split).
      destruct (connection_query respond took clock c
                  ("SET TRANSACTION ISOLATION LEVEL " +:+ level) p1) as [r2 p2] eqn:Hset.
      destruct (connection_query_sent _ _ _ _ _ Ho1 Hset) as [Hs2 Ho2].
      exists r2, p2. split; [reflexivity |]. split; [| exact Ho2].
      rewrite Hs2. now apply prefix_app_r. }
    destruct Hiso as (r2 & p2 & -> & Hs2 & Ho2).
    destruct r2 as [[] | e]; [| now apply Hfail].
    unfold bind at 1.
    destruct (callback c p2) as [[res | e] p3] eqn:Hcall;
      pose proof (Hcb _ _ _ Hcall Ho2) as Ho3;
      assert (Hs3 : (sent p ++ ["BEGIN"]) `prefix_of` sent p3)
        by (etransitivity; [exact Hs2 | exact (Hgrow _ _ _ Hcall)]).
    2:{ now apply Hfail. }
    unfold bind at 1.
    destruct (connection_query respond took clock c "COMMIT" p3) as [[[] | e] p4] eqn:Hcommit;
      destruct (connection_query_sent _ _ _ _ _ Ho3 Hcommit) as [Hs4 Ho4];
      assert (Hp4 : (sent p ++ ["BEGIN"]) `prefix_of` sent p4)
        by (rewrite Hs4; now apply prefix_app_r).
    2:{ now apply Hfail. }
    unfold ret. eexists (Ok res), _. split; [reflexivity |].
    apply (Hend (Ok res)); [exact Ho4 | exact Hp4 |]. rewrite Hs4. apply last_snoc.
Qed.

End PooledConnectionFacts.

(** On the first connection of a monitored pool, a statement with a
    syntax error: the caller gets the error, the metric says success. *)
Lemma pooled_connection_use_witness :
  open_connection 0 pool_with_connection /\
  (exists p',
     ConnectionPool.connection_query picky_driver (fun _ _ => 5) (fun _ => 0)
       0 "SELECT broken" pool_with_connection
     = (Throw (DriverError (Some "42601") "syntax error"), p') /\
     ConnectionPool.errors p' = 0%nat /\
     (ConnectionPool.qm_success <$> ConnectionPool.getQueryMetrics (Some 1) p') = [true]) /\
  ConnectionPool.connection_query picky_driver (fun _ _ => 5) (fun _ => 0)
    0 "SELECT 1" (ConnectionPool.release 0 pool_with_connection)
  = (Throw (ConnectionPool.plain_error "Connection has been released back to the pool"),
     ConnectionPool.release 0 pool_with_connection).
Proof.
  assert (Hopen : open_connection 0 pool_with_connection) by reflexivity.
  split; [exact Hopen |]. split.
  - destruct (pooled_connection_use picky_driver (fun _ _ => 5) (fun _ => 0)
                pool_with_connection 0 "SELECT broken" Hopen) as (H & _).
    destruct (H _ eq_refl eq_refl) as [(p' & Hrun & _ & Herr & Hsuccess & _) _].
    exists p'. split; [exact Hrun |]. split; [exact Herr | exact Hsuccess].
  - now destruct (pooled_connection_use picky_driver (fun _ _ => 5) (fun _ => 0)
                    pool_with_connection 0 "SELECT 1" Hopen) as (_ & _ & _ & H).
Defined.

(** A transaction whose callback runs one statement that the driver
    rejects: the connection is handed back and [ROLLBACK] is the last
    statement sent. *)
Lemma pool_transaction_witness :
  exists r p',
    ConnectionPool.transaction picky_driver (fun _ _ => 5) (fun _ => 0) (fun _ => None)
      (fun c => ConnectionPool.connection_query picky_driver (fun _ _ => 5) (fun _ => 0)
                  c "SELECT broken")
      None monitored_pool = (r, p') /\
    ConnectionPool.connections p' !! 0%nat
    = Some {| ConnectionPool.released := true; ConnectionPool.clientReleases := 1 |} /\
    ["BEGIN"] `prefix_of` ConnectionPool.sent p' /\
    last (ConnectionPool.sent p')
    = Some (match r with Ok _ => "COMMIT" | Throw _ => "ROLLBACK" end).
Proof.
  destruct (pool_transaction picky_driver (fun _ _ => 5) (fun _ => 0) (fun _ => None)
              (fun c => ConnectionPool.connection_query picky_driver (fun _ _ => 5)
                          (fun _ => 0) c "SELECT broken")
              None monitored_pool) as [_ H].
  apply H; [reflexivity | reflexivity | apply connection_query_keeps_open |].
  intros s r s'. apply connection_query_grows.
Defined.
